(** * Discord chat exporter: collection, extraction, caching and rendering

    A shallow embedding of the core of [content.js] (the content script of
    the exporter): the bounded image cache, the message extractor with its
    user-context cache, the scroll/collection loop with its termination
    heuristic, the two renderers and the two export entry points.

    Conventions of the embedding.
    - A JavaScript [Map] is an insertion-ordered association list with
      unique keys ([JsMap]); a plain object used as a dictionary is a
      [gmap string _].
    - A JavaScript value that is "a string or null" is an [option string];
      truthiness ([!x], [x || y], [x && y]) is written out with [truthy].
    - JavaScript numbers are rationals ([Q]).
    - What the script reads from the live document (the result of a
      [querySelector], a computed style, a scroll offset) is an input: a
      field of a record describing the element or the scroller at the
      moment it is read.
    - [await] points are where the document may change; the model reads a
      new snapshot after each of them. *)

From Stdlib Require Import Ascii String QArith Qabs Qround Qminmax.
From stdpp Require Import base option list sorting strings pretty gmap.

Close Scope Q_scope.
Open Scope string_scope.
Open Scope list_scope.
Open Scope nat_scope.

(** ** JavaScript values *)

(** [string | null | undefined]. *)
Definition JsStr := option string.

(** Truthiness of a string-or-null value: null, undefined and the empty
    string are falsy. *)
Definition truthy (v : JsStr) : bool :=
  match v with
  | Some s => negb (String.eqb s EmptyString)
  | None => false
  end.

(** Truthiness of a plain string. *)
Definition nonEmpty (s : string) : bool := negb (String.eqb s EmptyString).

(** [a || b] on strings. *)
Definition orElse (a b : string) : string := if nonEmpty a then a else b.

(** [v || ''] on a string-or-null value. *)
Definition orEmpty (v : JsStr) : string :=
  match v with
  | Some s => s
  | None => EmptyString
  end.

(** ** Completions: a normal value or a thrown error *)

Inductive Completion (A : Type) : Type :=
| Normal (a : A)
| Thrown (message : string).
Arguments Normal {A} a.
Arguments Thrown {A} message.

(** A computation over a mutable store [S] that may throw; the store
    survives a throw, as a JavaScript object does. *)
Definition Eff (S A : Type) : Type := S -> Completion A * S.

Definition eff_ret {S A} (a : A) : Eff S A := fun s => (Normal a, s).

Definition eff_bind {S A B} (c : Eff S A) (k : A -> Eff S B) : Eff S B :=
  fun s =>
    match c s with
    | (Normal a, s') => k a s'
    | (Thrown e, s') => (Thrown e, s')
    end.

Definition eff_throw {S A} (e : string) : Eff S A := fun s => (Thrown e, s).

Definition eff_get {S} : Eff S S := fun s => (Normal s, s).

Definition eff_modify {S} (f : S -> S) : Eff S unit := fun s => (Normal tt, f s).

(** [try { body } catch (error) { handler(error) }]. *)
Definition eff_try {S A} (body : Eff S A) (handler : string -> Eff S A) : Eff S A :=
  fun s =>
    match body s with
    | (Normal a, s') => (Normal a, s')
    | (Thrown e, s') => handler e s'
    end.

Notation "'let*' x ':=' c 'in' k" := (eff_bind c (fun x => k))
  (at level 10, x name, c at level 100, k at level 200).
Notation "c ';;;' k" := (eff_bind c (fun _ => k))
  (at level 100, k at level 200, right associativity).

(** ** Insertion-ordered maps *)

Module JsMap.
Section JsMap.
Context {V : Type}.

Definition t : Type := list (string * V).

Definition empty : t := [].

Fixpoint get (m : t) (k : string) : option V :=
  match m with
  | [] => None
  | (k', v) :: m' => if decide (k' = k) then Some v else get m' k
  end.

Definition has (m : t) (k : string) : bool :=
  match get m k with
  | Some _ => true
  | None => false
  end.

(** [Map.prototype.set]: an existing key keeps its position and takes the
    new value; a new key goes to the end. *)
Fixpoint set (m : t) (k : string) (v : V) : t :=
  match m with
  | [] => [(k, v)]
  | (k', v') :: m' =>
      if decide (k' = k) then (k', v) :: m' else (k', v') :: set m' k v
  end.

Fixpoint delete (m : t) (k : string) : t :=
  match m with
  | [] => []
  | (k', v') :: m' =>
      if decide (k' = k) then m' else (k', v') :: delete m' k
  end.

Definition size (m : t) : nat := length m.

Definition keys (m : t) : list string := m.*1.

Definition values (m : t) : list V := m.*2.

(** [m.keys().next().value]. *)
Definition firstKey (m : t) : option string := head (keys m).

(** The representation invariant: keys are pairwise distinct. *)
Definition wf (m : t) : Prop := NoDup (keys m).

End JsMap.
Arguments t V : clear implicits.
End JsMap.

(** ** Image cache *)

Definition MAX_IMAGE_CACHE_SIZE : nat := 200.

Definition ImageCache : Type := JsMap.t string.

Definition clearImageCache : Eff ImageCache unit :=
  eff_modify (fun _ => JsMap.empty).

(** What the three awaited steps of [getCachedImage] ([fetch], [blob],
    [FileReader]) come to: the data URL, or a rejection. *)
Inductive Fetched : Type :=
| FetchedData (base64 : string)
| FetchRejected (reason : string).

Definition awaitFetch (f : Fetched) : Eff ImageCache string :=
  match f with
  | FetchedData base64 => eff_ret base64
  | FetchRejected reason => eff_throw reason
  end.

(** The synchronous tail of [getCachedImage]: evict when full, then set. *)
Definition storeImage (url base64 : string) : Eff ImageCache unit :=
  eff_modify (fun cache =>
    let cache1 :=
      if MAX_IMAGE_CACHE_SIZE <=? JsMap.size cache then
        match JsMap.firstKey cache with
        | Some firstKey => JsMap.delete cache firstKey
        | None => cache
        end
      else cache in
    JsMap.set cache1 url base64).

Definition getCachedImage (url : JsStr) (net : Fetched) : Eff ImageCache JsStr :=
  if negb (truthy url) then eff_ret None
  else
    let u := orEmpty url in
    let* cache := eff_get in
    if JsMap.has cache u then eff_ret (JsMap.get cache u)
    else
      eff_try
        (let* base64 := awaitFetch net in
         storeImage u base64 ;;;
         eff_ret (Some base64))
        (fun _ => eff_ret None).

(** ** Strings *)

(** [s.includes(sub)]. *)
Definition includes (s sub : string) : bool :=
  match String.index 0 sub s with
  | Some _ => true
  | None => false
  end.

(** [s.startsWith(p)]. *)
Definition startsWith (s p : string) : bool := String.prefix p s.

(** [s.replace(pat, by)] with a string pattern: the first occurrence only. *)
Definition replaceFirst (s pat by_ : string) : string :=
  match String.index 0 pat s with
  | Some i =>
      String.substring 0 i s +:+ by_ +:+
      String.substring (i + String.length pat)
        (String.length s - (i + String.length pat)) s
  | None => s
  end.

Definition isDigit (c : ascii) : bool :=
  let n := nat_of_ascii c in (48 <=? n) && (n <=? 57).

(** ASCII letters only; other code units are left as they are. *)
Definition lowerAscii (c : ascii) : ascii :=
  let n := nat_of_ascii c in
  if (65 <=? n) && (n <=? 90) then ascii_of_nat (n + 32) else c.

Definition upperAscii (c : ascii) : ascii :=
  let n := nat_of_ascii c in
  if (97 <=? n) && (n <=? 122) then ascii_of_nat (n - 32) else c.

Fixpoint mapString (f : ascii -> ascii) (s : string) : string :=
  match s with
  | EmptyString => EmptyString
  | String c s' => String (f c) (mapString f s')
  end.

(** [s.toLowerCase()], as far as [isGifUrl] can tell: it looks for ASCII
    texts in the result, and the letters of those texts come from no
    other character than their own capitals. *)
Definition toLowerCase : string -> string := mapString lowerAscii.

(** *** Code units

    A string holds the bytes of the UTF-8 form of a JavaScript string.
    JavaScript counts and cuts a string in UTF-16 code units: a character
    of one, two or three bytes is one unit, a character of four bytes is
    two, a surrogate pair. A lone surrogate, which only cutting can leave
    behind here, is held in its three-byte form. *)

(** A byte that continues a character. *)
Definition isContinuation (c : ascii) : bool :=
  let n := nat_of_ascii c in (128 <=? n) && (n <? 192).

(** The code units of the character a byte starts. *)
Definition unitsOf (c : ascii) : nat :=
  if isContinuation c then 0 else if nat_of_ascii c <? 240 then 1 else 2.

(** [s.length]. *)
Fixpoint jsLength (s : string) : nat :=
  match s with
  | EmptyString => 0
  | String c s' => unitsOf c + jsLength s'
  end.

(** The first code unit, a high surrogate, of the four-byte character
    that starts with [c] and goes on in [rest]. *)
Definition highSurrogate (c : ascii) (rest : string) : string :=
  let b0 := nat_of_ascii c in
  let b1 := from_option nat_of_ascii 128 (String.get 0 rest) in
  let b2 := from_option nat_of_ascii 128 (String.get 1 rest) in
  let top := (b0 mod 8) * 256 + (b1 mod 64) * 4 + (b2 mod 64) / 16 - 64 in
  String (ascii_of_nat 237)
    (String (ascii_of_nat (160 + top / 64))
       (String (ascii_of_nat (128 + top mod 64)) EmptyString)).

(** [s.substring(0, n)]: the first [n] code units. The bytes that
    continue the last character taken go with it. *)
Fixpoint jsTake (n : nat) (s : string) : string :=
  match s with
  | EmptyString => EmptyString
  | String c rest =>
      if isContinuation c then String c (jsTake n rest)
      else
        match n with
        | 0 => EmptyString
        | S n' =>
            if nat_of_ascii c <? 240 then String c (jsTake n' rest)
            else
              match n' with
              | 0 => highSurrogate c rest
              | S n'' => String c (jsTake n'' rest)
              end
        end
  end.

(** ** Configuration *)

Module CONFIG.
Definition scrollDelay : nat := 600.
Definition maxScrollAttempts : nat := 500.
Definition maxNoChangeAttempts : nat := 8.
Definition avatarSize : string := "128".
End CONFIG.

Record ExportOptions : Type := {
  includeImages : bool;
  includeAvatars : bool;
  includeTimestamps : bool;
  includeReactions : bool
}.

Definition DEFAULT_EXPORT_OPTIONS : ExportOptions :=
  {| includeImages := true; includeAvatars := true;
     includeTimestamps := true; includeReactions := true |}.

(** The options object a caller passes: any key may be missing. *)
Record PartialOptions : Type := {
  givenImages : option bool;
  givenAvatars : option bool;
  givenTimestamps : option bool;
  givenReactions : option bool
}.

(** [{ ...DEFAULT_EXPORT_OPTIONS, ...options }]. *)
Definition mergeOptions (options : PartialOptions) : ExportOptions :=
  {| includeImages := default (includeImages DEFAULT_EXPORT_OPTIONS) (givenImages options);
     includeAvatars := default (includeAvatars DEFAULT_EXPORT_OPTIONS) (givenAvatars options);
     includeTimestamps := default (includeTimestamps DEFAULT_EXPORT_OPTIONS) (givenTimestamps options);
     includeReactions := default (includeReactions DEFAULT_EXPORT_OPTIONS) (givenReactions options) |}.

(** ** User context cache *)

(** [avatars] and [colors] are plain objects. The maps hold the strings
    the script has stored in them; storing a string under [__proto__]
    stores nothing. Reading a plain object also finds what
    [Object.prototype] defines, under the names listed in
    [prototypeNames], when no entry is stored under the name: the script
    then reads a value that is no string, where [getAvatar] and
    [getColor] below have null. They say what the script reads for every
    name outside that list. *)
Definition prototypeNames : list string :=
  [ "constructor"; "hasOwnProperty"; "isPrototypeOf"; "propertyIsEnumerable";
    "toLocaleString"; "toString"; "valueOf"; "__proto__";
    "__defineGetter__"; "__defineSetter__"; "__lookupGetter__"; "__lookupSetter__" ].

(** The name is one a plain object inherits. *)
Definition inheritedName (username : string) : bool :=
  bool_decide (username ∈ prototypeNames).

Record UserCache : Type := {
  avatars : gmap string string;
  colors : gmap string string;
  lastUsername : string
}.

Module userCache.

Definition reset : UserCache :=
  {| avatars := ∅; colors := ∅; lastUsername := EmptyString |}.

Definition setAvatar (username url : string) (uc : UserCache) : UserCache :=
  if nonEmpty username && negb (String.eqb username "__proto__")
  then {| avatars := <[username := url]> (avatars uc);
          colors := colors uc; lastUsername := lastUsername uc |}
  else uc.

(** [this.avatars[username] || null]. *)
Definition getAvatar (username : string) (uc : UserCache) : JsStr :=
  match avatars uc !! username with
  | Some url => if nonEmpty url then Some url else None
  | None => None
  end.

Definition setColor (username color : string) (uc : UserCache) : UserCache :=
  if nonEmpty username && nonEmpty color && negb (String.eqb username "__proto__")
  then {| avatars := avatars uc;
          colors := <[username := color]> (colors uc);
          lastUsername := lastUsername uc |}
  else uc.

Definition getColor (username : string) (uc : UserCache) : JsStr :=
  match colors uc !! username with
  | Some color => if nonEmpty color then Some color else None
  | None => None
  end.

Definition setLastUsername (username : string) (uc : UserCache) : UserCache :=
  {| avatars := avatars uc; colors := colors uc; lastUsername := username |}.

End userCache.

(** ** What the script reads from the document *)

(** An [img] element as the script queries it. *)
Record ImgEl : Type := {
  img_src : string;
  img_className : string;
  img_ariaLabel : JsStr;
  img_dataType : JsStr;
  img_width : nat;
  img_height : nat;
  img_dataOriginalSrc : JsStr;
  img_dataSrc : JsStr;
  img_dataSafeSrc : JsStr;
  (** [img.closest('a')]'s [href], when there is such an anchor *)
  img_anchorHref : JsStr;
  (** [img.closest('[class*="avatarDecoration"]') !== null] *)
  img_inAvatarDecoration : bool;
  (** [img.closest('[class*="decoration"]') !== null] *)
  img_inDecoration : bool;
  (** [img.closest('[class*="repliedMessage"]')] is an element *)
  img_inRepliedMessage : bool;
  (** [img.closest('[class*="replyBar"]')] is an element *)
  img_inReplyBar : bool
}.

(** An element matching [[class*="username"]]. *)
Record UsernameEl : Type := {
  un_textContent : string;
  (** [window.getComputedStyle(el).color] *)
  un_color : string;
  un_inRepliedMessage : bool;
  un_inReplyBar : bool
}.

(** An HTML element matching [[class*="avatar"]]; its [className] is a
    string. (An SVG element has an object there, and the script's
    [className.includes] throws on it: message elements that hold such
    an element are outside this model.) *)
Record AvatarWrapperEl : Type := {
  aw_className : string;
  aw_inRepliedMessage : bool;
  aw_inReplyBar : bool;
  (** [wrapper.querySelector('img')] *)
  aw_img : option ImgEl
}.

(** An element matching [SELECTORS.messageContent]. *)
Record ContentEl : Type := {
  ct_inRepliedMessage : bool;
  ct_inRepliedTextContent : bool;
  ct_inReplyBar : bool;
  ct_innerHTML : string;
  ct_textContent : string
}.

(** The [SELECTORS.repliedMessage] element of a message. *)
Record RepliedEl : Type := {
  (** text of its first [[class*="username"]] descendant, if any *)
  rp_username : option string;
  (** text of its first [[class*="repliedTextContent"]] descendant, if any *)
  rp_content : option string
}.

Record TimeEl : Type := {
  tm_datetime : JsStr;
  tm_textContent : string
}.

Record EmbedFieldEl : Type := {
  (** text of the [embedFieldName] descendant, if any *)
  ef_name : option string;
  (** inner HTML of the [embedFieldValue] descendant, if any *)
  ef_value : option string
}.

(** An element matching [SELECTORS.embedWrapper]. *)
Record EmbedEl : Type := {
  em_borderLeftColor : string;
  em_borderColor : string;
  em_authorEl : option string;
  em_titleEl : option string;
  em_descEl : option string;
  em_fieldEls : list EmbedFieldEl;
  em_footerEl : option string;
  em_thumbEl : option ImgEl;
  em_imgEl : option ImgEl
}.

(** The image inside a reaction. *)
Record ReactionImg : Type := {
  ri_src : string;
  ri_alt : string;
  (** [outerHTML] of the clone once it is restyled as an emoji *)
  ri_emojiHTML : string
}.

(** An item of the reactions element: an element matching
    [[class*="reaction"]]. *)
Record ReactionEl : Type := {
  (** [reaction.parentElement?.closest('[class*="reaction"]')] is an
      element: the item lies inside another element of that kind *)
  rc_nested : bool;
  rc_img : option ReactionImg;
  rc_textContent : string;
  (** text of the [reactionCount] descendant, if any *)
  rc_countText : option string
}.

(** Everything the extractor asks of one element. *)
Record ElView : Type := {
  el_id : string;
  (** the first [[class*="username"]] descendant of the first header
      element that is not inside a replied message, if any *)
  el_headerUsername : option UsernameEl;
  (** [querySelectorAll('[class*="username"]')] *)
  el_usernameEls : list UsernameEl;
  (** [querySelectorAll('[class*="headerText"] [class*="username"]')] *)
  el_headerTextUsernameEls : list UsernameEl;
  el_repliedMessage : option RepliedEl;
  (** [querySelectorAll(SELECTORS.messageAvatar)] *)
  el_avatarEls : list ImgEl;
  (** [querySelectorAll('[class*="avatar"]')] *)
  el_avatarWrappers : list AvatarWrapperEl;
  (** [querySelectorAll('img')] *)
  el_allImgs : list ImgEl;
  el_timeEl : option TimeEl;
  el_contentEls : list ContentEl;
  (** [querySelectorAll(SELECTORS.messageImages)] *)
  el_imageEls : list ImgEl;
  el_embedEls : list EmbedEl;
  (** the reaction items of the [SELECTORS.messageReactions] element, if
      there is such an element *)
  el_reactions : option (list ReactionEl)
}.

(** A previous sibling: whether it matches [SELECTORS.message], and what
    it shows. *)
Record SiblingEl : Type := {
  sb_matchesMessage : bool;
  sb_view : ElView
}.

(** A message element: its own view and its chain of previous element
    siblings, nearest first. *)
Record MsgEl : Type := {
  me_view : ElView;
  me_previous : list SiblingEl
}.

(** Functions of the host (string trimming, URL parsing, date formatting)
    and the script's own document-manipulating helpers, which the
    extractor and the renderers use as black boxes. *)
Class Host : Type := {
  (** [String.prototype.trim] *)
  trim : string -> string;
  (** [String.prototype.toUpperCase] *)
  toUpperCase : string -> string;
  (** [processContentForEmoji]: cleans a rich fragment *)
  processContentForEmoji : string -> string;
  (** [new URL(src)] with the width, height, size and quality parameters
      deleted, or the regular-expression fallback when parsing throws *)
  dropSizeParams : string -> string;
  (** [new URL(url)] succeeds *)
  urlParses : string -> bool;
  (** the URL with a [.gif] path ending turned to [.png] and [format=png]
      set, printed back *)
  urlAsPng : string -> string;
  (** [s.replace(/\?size=\d+/, by)] *)
  replaceSizeParam : string -> string -> string;
  (** [s.replace(/\d+$/, '')] *)
  dropTrailingDigits : string -> string;
  (** [escapeHtml] *)
  escapeHtml : string -> string;
  (** [new Date(s).toLocaleString()] *)
  toLocaleString : string -> string;
  (** text content of a [div] whose inner HTML is set to the argument *)
  htmlText : string -> string;
  (** [getPDFStyles()]: the style sheet of the printed document *)
  pdfStyles : string
}.

(** [(s).charAt(0).toUpperCase()]. *)
Definition firstCharUpper `{host : Host} (s : string) : string :=
  toUpperCase (jsTake 1 s).

(** ** Message records *)

Record ImageRef : Type := {
  url : string;
  isGif : bool;
  staticUrl : string
}.

Record EmbedField : Type := {
  name : string;
  value : string
}.

Record Embed : Type := {
  title : string;
  description : string;
  author : string;
  fields : list EmbedField;
  footer : string;
  thumbnail : JsStr;
  image : JsStr;
  color : string
}.

Record Reaction : Type := {
  emoji : string;
  count : string
}.

Record ReplyRef : Type := {
  replyUsername : string;
  replyContent : string
}.

Record Message : Type := {
  msg_id : JsStr;
  username : string;
  usernameColor : string;
  avatar : string;
  timestamp : string;
  content : string;
  contentText : string;
  images : list ImageRef;
  attachments : list string;
  reactions : list Reaction;
  embeds : list Embed;
  replyTo : option ReplyRef
}.

(** ** Document utilities *)

Definition getMessageId (messageEl : option ElView) : JsStr :=
  match messageEl with
  | None => None
  | Some el =>
      let id := el_id el in
      if nonEmpty id && startsWith id "chat-messages-" then Some id else None
  end.

Section Extraction.
Context `{host : Host}.

(** *** Image utilities *)

Definition firstTruthy (a b c : JsStr) : JsStr :=
  if truthy a then a else if truthy b then b else c.

Definition getFullResolutionImageUrl (img : option ImgEl) : JsStr :=
  match img with
  | None => None
  | Some img =>
      let originalUrl :=
        firstTruthy (img_dataOriginalSrc img) (img_dataSrc img) (img_dataSafeSrc img) in
      if truthy originalUrl then originalUrl
      else
        let src := img_src img in
        if negb (nonEmpty src) then None
        else
          let src :=
            if includes src "cdn.discordapp.com" || includes src "media.discordapp.net"
            then replaceFirst (dropSizeParams src) "media.discordapp.net" "cdn.discordapp.com"
            else src in
          let fromAnchor :=
            if truthy (img_anchorHref img) then
              let href := orEmpty (img_anchorHref img) in
              if includes href "cdn.discordapp.com/attachments" ||
                 includes href "media.discordapp.net/attachments"
              then Some (replaceFirst href "media.discordapp.net" "cdn.discordapp.com")
              else None
            else None in
          match fromAnchor with
          | Some href => Some href
          | None => Some src
          end
  end.

Definition isEmojiImage (img : ImgEl) : bool :=
  let src := img_src img in
  let className := img_className img in
  let ariaLabel := orEmpty (img_ariaLabel img) in
  let dataType := orEmpty (img_dataType img) in
  includes src "cdn.discordapp.com/emojis" ||
  includes src "discord.com/assets" ||
  includes src "twemoji" ||
  includes className "emoji" ||
  String.eqb dataType "emoji" ||
  startsWith ariaLabel ":" ||
  ((0 <? img_width img) && (img_width img <=? 48) &&
   (0 <? img_height img) && (img_height img <=? 48)).

Definition isAvatarImage (img : ImgEl) : bool :=
  includes (img_src img) "/avatars/" || includes (img_className img) "avatar".

Definition isAvatarDecoration (img : ImgEl) : bool :=
  let src := img_src img in
  let className := img_className img in
  includes src "avatar-decoration" ||
  includes src "avatar_decoration" ||
  includes src "/avatar-decorations/" ||
  includes src "/avatar-decoration-presets/" ||
  includes className "avatarDecoration" ||
  includes className "avatar-decoration" ||
  includes className "decoration" ||
  img_inAvatarDecoration img ||
  img_inDecoration img.

Definition isGifUrl (url : JsStr) : bool :=
  if negb (truthy url) then false
  else
    let lowerUrl := toLowerCase (orEmpty url) in
    includes lowerUrl ".gif" || includes lowerUrl "format=gif".

Definition getStaticImageUrl (url : string) : string :=
  if negb (nonEmpty url) then url
  else if negb (urlParses url) then url
  else if includes url "cdn.discordapp.com" || includes url "media.discordapp.net"
  then urlAsPng url
  else if includes url "tenor.com" then replaceFirst url ".gif" ".png"
  else url.

(** The size rewrite of an avatar URL, written out three times in
    [extractAvatar]. *)
Definition avatarUrlAtSize (src : string) : string :=
  if includes src "?size=" then replaceSizeParam src ("?size=" +:+ CONFIG.avatarSize)
  else if negb (includes src "?") then src +:+ "?size=" +:+ CONFIG.avatarSize
  else src.

(** *** Author *)

Definition usernameOutsideReply (el : UsernameEl) : bool :=
  negb (un_inRepliedMessage el) && negb (un_inReplyBar el) &&
  nonEmpty (trim (un_textContent el)).

Definition findUsernameElement (messageEl : ElView) : option UsernameEl :=
  let fromHeader :=
    match el_headerUsername messageEl with
    | Some el => if nonEmpty (trim (un_textContent el)) then Some el else None
    | None => None
    end in
  match fromHeader with
  | Some el => Some el
  | None =>
      match List.find usernameOutsideReply (el_usernameEls messageEl) with
      | Some el => Some el
      | None =>
          match List.find
                  (fun el => negb (un_inRepliedMessage el) &&
                             nonEmpty (trim (un_textContent el)))
                  (el_headerTextUsernameEls messageEl) with
          | Some el => Some el
          | None => List.find usernameOutsideReply (el_usernameEls messageEl)
          end
      end
  end.

(** A computed colour counts unless it is white or fully transparent. *)
Definition colorIsSet (c : string) : bool :=
  nonEmpty c && negb (String.eqb c "rgb(255, 255, 255)") &&
  negb (String.eqb c "rgba(0, 0, 0, 0)").

Definition colorOf (el : UsernameEl) : string :=
  if colorIsSet (un_color el) then un_color el else EmptyString.

(** The walk over previous siblings for a username: at most 10 of them,
    the nearest first, stopping at the first message that shows one. The
    colour comes with it only when it counts. *)
Fixpoint usernameFromPrevious (prev : list SiblingEl) (attempts : nat)
  : option (string * option string) :=
  match attempts, prev with
  | S attempts', prevEl :: rest =>
      let found :=
        if sb_matchesMessage prevEl then
          match findUsernameElement (sb_view prevEl) with
          | Some prevUsernameEl =>
              if nonEmpty (trim (un_textContent prevUsernameEl))
              then Some (trim (un_textContent prevUsernameEl),
                         if colorIsSet (un_color prevUsernameEl)
                         then Some (un_color prevUsernameEl) else None)
              else None
          | None => None
          end
        else None in
      match found with
      | Some r => Some r
      | None => usernameFromPrevious rest attempts'
      end
  | _, _ => None
  end.

(** The author of a message and its colour, and the cache once it is
    told of them (the first half of [extractMessageData]). *)
Definition resolveAuthor (messageEl : MsgEl) (uc : UserCache)
  : string * string * UserCache :=
  let '(username0, color0) :=
    match findUsernameElement (me_view messageEl) with
    | Some usernameEl => (trim (un_textContent usernameEl), colorOf usernameEl)
    | None => (EmptyString, EmptyString)
    end in
  let '(username1, color1) :=
    if negb (nonEmpty username0) then
      if nonEmpty (lastUsername uc)
      then (lastUsername uc, orEmpty (userCache.getColor (lastUsername uc) uc))
      else
        match usernameFromPrevious (me_previous messageEl) 10 with
        | Some (u, c) => (u, default color0 c)
        | None => (username0, color0)
        end
    else (username0, color0) in
  if nonEmpty username1 then
    let uc1 := userCache.setLastUsername username1 uc in
    if nonEmpty color1
    then (username1, color1, userCache.setColor username1 color1 uc1)
    else (username1, orEmpty (userCache.getColor username1 uc1), uc1)
  else (username1, color1, uc).

(** *** Avatar *)

Definition outsideReply (img : ImgEl) : bool :=
  negb (img_inRepliedMessage img) && negb (img_inReplyBar img).

(** The image a wrapper contributes: none for a decoration wrapper or one
    inside a reply; [needSrc] is the extra [img.src] test of the sibling
    walk. *)
Definition wrapperAvatar (needSrc : bool) (wrapper : AvatarWrapperEl) : option ImgEl :=
  if nonEmpty (aw_className wrapper) &&
     (includes (aw_className wrapper) "decoration" ||
      includes (aw_className wrapper) "Decoration")
  then None
  else if negb (aw_inRepliedMessage wrapper) && negb (aw_inReplyBar wrapper) then
    match aw_img wrapper with
    | Some img =>
        if (negb needSrc || nonEmpty (img_src img)) && negb (isAvatarDecoration img)
        then Some img else None
    | None => None
    end
  else None.

Fixpoint firstSome {A B} (f : A -> option B) (l : list A) : option B :=
  match l with
  | [] => None
  | a :: l' =>
      match f a with
      | Some b => Some b
      | None => firstSome f l'
      end
  end.

(** The avatar image of the message itself: the three searches, in order. *)
Definition findAvatarElement (messageEl : ElView) : option ImgEl :=
  match List.find (fun el => outsideReply el && negb (isAvatarDecoration el))
                  (el_avatarEls messageEl) with
  | Some el => Some el
  | None =>
      match firstSome (wrapperAvatar false) (el_avatarWrappers messageEl) with
      | Some img => Some img
      | None =>
          List.find
            (fun img =>
               outsideReply img && negb (isAvatarDecoration img) &&
               (includes (img_src img) "cdn.discordapp.com/avatars" ||
                includes (img_src img) "discord.com/avatars" ||
                includes (img_src img) "/avatars/" ||
                includes (img_className img) "avatar"))
            (el_allImgs messageEl)
      end
  end.

(** The avatar a previous message shows, if any. *)
Definition avatarOfPrevious (prevEl : ElView) : option string :=
  match List.find
          (fun el => outsideReply el && nonEmpty (img_src el) &&
                     negb (isAvatarDecoration el))
          (el_avatarEls prevEl) with
  | Some el => Some (avatarUrlAtSize (img_src el))
  | None => None
  end.

Definition avatarOfPreviousWrappers (prevEl : ElView) : option string :=
  match firstSome (wrapperAvatar true) (el_avatarWrappers prevEl) with
  | Some img => Some (avatarUrlAtSize (img_src img))
  | None => None
  end.

(** The walk over previous siblings for an avatar: at most 20 of them,
    until a truthy URL is found. Each URL found is written to the cache. *)
Fixpoint avatarFromPrevious (username : string) (prev : list SiblingEl)
    (attempts : nat) (cachedAvatar : JsStr) (uc : UserCache) : JsStr * UserCache :=
  if truthy cachedAvatar then (cachedAvatar, uc)
  else
    match attempts, prev with
    | S attempts', prevEl :: rest =>
        let '(cachedAvatar1, uc1) :=
          if sb_matchesMessage prevEl then
            let '(c1, u1) :=
              match avatarOfPrevious (sb_view prevEl) with
              | Some avatarUrl => (Some avatarUrl, userCache.setAvatar username avatarUrl uc)
              | None => (cachedAvatar, uc)
              end in
            if negb (truthy c1) then
              match avatarOfPreviousWrappers (sb_view prevEl) with
              | Some avatarUrl => (Some avatarUrl, userCache.setAvatar username avatarUrl u1)
              | None => (c1, u1)
              end
            else (c1, u1)
          else (cachedAvatar, uc) in
        avatarFromPrevious username rest attempts' cachedAvatar1 uc1
    | _, _ => (cachedAvatar, uc)
    end.

(** [extractAvatar]: the new value of [data.avatar] (which is [avatar0]
    before the call) and the cache. *)
Definition extractAvatar (messageEl : MsgEl) (username avatar0 : string)
    (uc : UserCache) : string * UserCache :=
  let avatarEl :=
    match findAvatarElement (me_view messageEl) with
    | Some el => if nonEmpty (img_src el) then Some el else None
    | None => None
    end in
  match avatarEl with
  | Some avatarEl =>
      let foundAvatarUrl := avatarUrlAtSize (img_src avatarEl) in
      (foundAvatarUrl,
       if nonEmpty username then userCache.setAvatar username foundAvatarUrl uc else uc)
  | None =>
      if nonEmpty username then
        let '(cachedAvatar, uc1) :=
          avatarFromPrevious username (me_previous messageEl) 20
            (userCache.getAvatar username uc) uc in
        (if truthy cachedAvatar then orEmpty cachedAvatar else EmptyString, uc1)
      else (avatar0, uc)
  end.

(** *** Content, images, embeds, reactions *)

(** [extractContent]: the rich and the plain content, when the message
    has a content element of its own. *)
Definition extractContent (messageEl : ElView) : option (string * string) :=
  match List.find
          (fun el => negb (ct_inRepliedMessage el) &&
                     negb (ct_inRepliedTextContent el) &&
                     negb (ct_inReplyBar el))
          (el_contentEls messageEl) with
  | Some contentEl =>
      Some (processContentForEmoji (ct_innerHTML contentEl),
            trim (ct_textContent contentEl))
  | None => None
  end.

Definition extractImages (messageEl : ElView) : list ImageRef :=
  omap
    (fun img =>
       let src := getFullResolutionImageUrl (Some img) in
       if truthy src && negb (isAvatarImage img) && negb (isEmojiImage img) then
         let gif := isGifUrl src in
         Some {| url := orEmpty src; isGif := gif;
                 staticUrl := if gif then getStaticImageUrl (orEmpty src)
                              else orEmpty src |}
       else None)
    (el_imageEls messageEl).

(** The parts of an embed block, as [extractEmbedData] reads them. *)
Definition embedColor (embedEl : EmbedEl) : string :=
  let borderColor := orElse (em_borderLeftColor embedEl) (em_borderColor embedEl) in
  if nonEmpty borderColor && negb (String.eqb borderColor "rgba(0, 0, 0, 0)")
  then borderColor else EmptyString.

Definition embedAuthor (embedEl : EmbedEl) : string :=
  from_option trim EmptyString (em_authorEl embedEl).

Definition embedTitle (embedEl : EmbedEl) : string :=
  from_option trim EmptyString (em_titleEl embedEl).

Definition embedDescription (embedEl : EmbedEl) : string :=
  from_option processContentForEmoji EmptyString (em_descEl embedEl).

Definition embedFields (embedEl : EmbedEl) : list EmbedField :=
  omap
    (fun fieldEl =>
       match ef_name fieldEl, ef_value fieldEl with
       | None, None => None
       | nameEl, valueEl =>
           Some {| name := from_option trim EmptyString nameEl;
                   value := from_option processContentForEmoji EmptyString valueEl |}
       end)
    (em_fieldEls embedEl).

Definition embedFooter (embedEl : EmbedEl) : string :=
  from_option trim EmptyString (em_footerEl embedEl).

Definition embedThumbnail (options : ExportOptions) (embedEl : EmbedEl) : JsStr :=
  if includeImages options then
    match em_thumbEl embedEl with
    | Some thumbEl => getFullResolutionImageUrl (Some thumbEl)
    | None => Some EmptyString
    end
  else Some EmptyString.

Definition embedImage (options : ExportOptions) (embedEl : EmbedEl) : JsStr :=
  if includeImages options then
    match em_imgEl embedEl with
    | Some imgEl => getFullResolutionImageUrl (Some imgEl)
    | None => Some EmptyString
    end
  else Some EmptyString.

Definition extractEmbedData (embedEl : option EmbedEl) (options : ExportOptions)
  : option Embed :=
  match embedEl with
  | None => None
  | Some embedEl =>
      let embed :=
        {| title := embedTitle embedEl; description := embedDescription embedEl;
           author := embedAuthor embedEl; fields := embedFields embedEl;
           footer := embedFooter embedEl;
           thumbnail := embedThumbnail options embedEl;
           image := embedImage options embedEl; color := embedColor embedEl |} in
      if negb (nonEmpty (title embed)) && negb (nonEmpty (description embed)) &&
         negb (0 <? length (fields embed)) && negb (truthy (image embed))
      then None
      else Some embed
  end.

Definition extractEmbeds (messageEl : ElView) (options : ExportOptions) : list Embed :=
  omap (fun embedEl => extractEmbedData (Some embedEl) options) (el_embedEls messageEl).

(** One reaction item: its record and the key it is remembered under. *)
Definition reactionOf (reaction : ReactionEl) : Reaction * string :=
  let '(emoji_, emojiKey) :=
    match rc_img reaction with
    | Some emojiImg =>
        (ri_emojiHTML emojiImg, orElse (ri_src emojiImg) (ri_alt emojiImg))
    | None =>
        let textContent := trim (rc_textContent reaction) in
        let e := trim (dropTrailingDigits textContent) in
        (e, e)
    end in
  let count_ := orElse (from_option trim EmptyString (rc_countText reaction)) "1" in
  ({| emoji := emoji_; count := count_ |}, emojiKey +:+ "-" +:+ count_).

(** [reaction.closest('[class*="reaction"]') !== reaction]. [closest]
    begins with the element itself, and every item matches the selector
    it is asked for, so it returns the item. *)
Definition closestIsOther (reaction : ReactionEl) : bool := false.

Fixpoint collectReactions (items : list ReactionEl) (processedReactions : list string)
  : list Reaction :=
  match items with
  | [] => []
  | reaction :: rest =>
      if closestIsOther reaction && rc_nested reaction
      then collectReactions rest processedReactions
      else
        let '(r, reactionKey) := reactionOf reaction in
        if nonEmpty (emoji r) && negb (bool_decide (reactionKey ∈ processedReactions))
        then r :: collectReactions rest (reactionKey :: processedReactions)
        else collectReactions rest processedReactions
  end.

Definition extractReactions (messageEl : ElView) : list Reaction :=
  match el_reactions messageEl with
  | None => []
  | Some reactionItems => collectReactions reactionItems []
  end.

(** *** The extractor *)

(** The content, the attachments and the embeds of a message as
    [extractMessageData] gathers them. *)
Definition messageContent (view : ElView) : string * string :=
  default (EmptyString, EmptyString) (extractContent view).

Definition messageImages (options : ExportOptions) (view : ElView) : list ImageRef :=
  if includeImages options then extractImages view else [].

Definition messageTimestamp (options : ExportOptions) (view : ElView) : string :=
  if includeTimestamps options then
    match el_timeEl view with
    | Some timeEl =>
        if truthy (tm_datetime timeEl) then orEmpty (tm_datetime timeEl)
        else trim (tm_textContent timeEl)
    | None => EmptyString
    end
  else EmptyString.

Definition messageReply (view : ElView) : option ReplyRef :=
  match el_repliedMessage view with
  | Some repliedMessageEl =>
      Some {| replyUsername := from_option trim EmptyString (rp_username repliedMessageEl);
              replyContent := from_option trim EmptyString (rp_content repliedMessageEl) |}
  | None => None
  end.

Definition extractMessageData (messageEl : option MsgEl) (options : ExportOptions)
    (uc : UserCache) : option Message * UserCache :=
  match messageEl with
  | None => (None, uc)
  | Some messageEl =>
      let view := me_view messageEl in
      let '(data_username, data_usernameColor, uc1) := resolveAuthor messageEl uc in
      let '(data_avatar, uc2) :=
        if includeAvatars options
        then extractAvatar messageEl data_username EmptyString uc1
        else (EmptyString, uc1) in
      let data :=
        {| msg_id := getMessageId (Some view);
           username := data_username;
           usernameColor := data_usernameColor;
           avatar := data_avatar;
           timestamp := messageTimestamp options view;
           content := fst (messageContent view);
           contentText := snd (messageContent view);
           images := messageImages options view;
           attachments := [];
           reactions := if includeReactions options then extractReactions view else [];
           embeds := extractEmbeds view options;
           replyTo := messageReply view |} in
      if negb (nonEmpty (content data)) && negb (0 <? length (images data)) &&
         negb (0 <? length (embeds data)) && negb (nonEmpty (username data))
      then (None, uc2)
      else (Some data, uc2)
  end.

End Extraction.

(** ** Numbers *)

Definition Qlt_bool (a b : Q) : bool := negb (Qle_bool b a).

Definition Qofnat (n : nat) : Q := inject_Z (Z.of_nat n).

(** ** The scroll/collection controller *)

(** The document and the scroller at one moment. *)
Record Snapshot : Type := {
  (** the elements of the document that carry an id, in document order *)
  elements : list MsgEl;
  scrollTop : Q;
  clientHeight : Q;
  scrollHeight : Q
}.

(** What the page does while the script waits. Between two waits the
    script sees one and the same snapshot. *)
Record Page : Type := {
  (** [getMessagesScroller()] finds a scroller *)
  hasScroller : bool;
  (** the page when the collection is entered *)
  entry : Snapshot;
  (** scroll offsets read in attempt [k] of the scroll to the top: after
      its first wait and after its second *)
  topReadings : nat -> Q * Q;
  (** the page after the seek phase ([settled 0]) and after the [n]-th
      wait of the main loop ([settled n]) *)
  settled : nat -> Snapshot;
  (** what fetching and encoding a URL comes to *)
  network : string -> Fetched;
  (** [getChannelName()] *)
  channelName : string;
  (** [new Date().toLocaleString()] when the Markdown is generated *)
  exportDate : string;
  (** [window.open] returns a window *)
  opensWindow : bool
}.

(** A message to the progress sink. *)
Record Progress : Type := {
  percent : Q;
  text : string
}.

(** [document.querySelectorAll(SELECTORS.message)], each element with its
    place in document order. *)
Definition queryMessages (snap : Snapshot) : list (nat * MsgEl) :=
  List.filter (fun e => startsWith (el_id (me_view (snd e))) "chat-messages-")
    (imap (fun i el => (i, el)) (elements snap)).

(** [document.getElementById(id)]: the place of the first element with
    that id. *)
Fixpoint indexOfId (id : string) (els : list MsgEl) (i : nat) : option nat :=
  match els with
  | [] => None
  | el :: rest =>
      if String.eqb (el_id (me_view el)) id then Some i
      else indexOfId id rest (S i)
  end.

Definition getElementById (snap : Snapshot) (id : JsStr) : option nat :=
  if truthy id then indexOfId (orEmpty id) (elements snap) 0 else None.

(** [a.compareDocumentPosition(b) & Node.DOCUMENT_POSITION_FOLLOWING]:
    [b] comes after [a] in document order. *)
Definition follows (a b : nat) : bool := a <? b.

Definition Store : Type := JsMap.t Message.

(** What a scan of the mounted messages reads and writes. *)
Record ScanState : Type := {
  collectedMessages : Store;
  users : UserCache;
  foundStartMessage : bool;
  foundEndMessage : bool;
  reachedBottom : bool
}.

Section Collection.
Context `{host : Host}.
Variable startFromId endAtId : JsStr.
Variable options : ExportOptions.

(** [if (!collectedMessages.has(msgId)) { ... set(msgId, messageData) }]. *)
Definition collectMessage (msgId : string) (msgEl : MsgEl) (st : ScanState) : ScanState :=
  if negb (JsMap.has (collectedMessages st) msgId) then
    let '(messageData, uc) := extractMessageData (Some msgEl) options (users st) in
    {| collectedMessages :=
         match messageData with
         | Some data => JsMap.set (collectedMessages st) msgId data
         | None => collectedMessages st
         end;
       users := uc;
       foundStartMessage := foundStartMessage st;
       foundEndMessage := foundEndMessage st;
       reachedBottom := reachedBottom st |}
  else st.

Definition markEnd (st : ScanState) : ScanState :=
  {| collectedMessages := collectedMessages st; users := users st;
     foundStartMessage := foundStartMessage st;
     foundEndMessage := true; reachedBottom := reachedBottom st |}.

Definition markBottom (st : ScanState) : ScanState :=
  {| collectedMessages := collectedMessages st; users := users st;
     foundStartMessage := foundStartMessage st;
     foundEndMessage := foundEndMessage st; reachedBottom := true |}.

Definition markStart (st : ScanState) : ScanState :=
  {| collectedMessages := collectedMessages st; users := users st;
     foundStartMessage := true;
     foundEndMessage := foundEndMessage st; reachedBottom := reachedBottom st |}.

(** The [for (const msgEl of messageArray)] loop of one iteration. *)
Fixpoint scanMessages (startElement endElement : option nat)
    (messageArray : list (nat * MsgEl)) (st : ScanState) : ScanState :=
  match messageArray with
  | [] => st
  | (pos, msgEl) :: rest =>
      match getMessageId (Some (me_view msgEl)) with
      | None => scanMessages startElement endElement rest st
      | Some msgId =>
          if truthy endAtId && bool_decide (Some msgId = endAtId) then
            (* the end message is included and the scan stops *)
            markBottom (collectMessage msgId msgEl (markEnd st))
          else if from_option (fun e => follows e pos) false endElement then
            (* past the end element: stop here *)
            markBottom (markEnd st)
          else if truthy startFromId then
            if bool_decide (Some msgId = startFromId) then
              scanMessages startElement endElement rest
                (collectMessage msgId msgEl (markStart st))
            else
              let skip :=
                match startElement with
                | Some s => negb (follows s pos)
                | None => negb (foundStartMessage st)
                end in
              if skip then scanMessages startElement endElement rest st
              else scanMessages startElement endElement rest
                     (collectMessage msgId msgEl st)
          else
            scanMessages startElement endElement rest (collectMessage msgId msgEl st)
      end
  end.

(** One scan: the elements are listed and the two boundary elements
    looked up in the current document. *)
Definition scanSnapshot (snap : Snapshot) (st : ScanState) : ScanState :=
  scanMessages (getElementById snap startFromId) (getElementById snap endAtId)
    (queryMessages snap) st.

(** *** Termination heuristic *)

Definition isAtBottom (after : Snapshot) : bool :=
  Qle_bool (scrollHeight after - 50) (scrollTop after + clientHeight after).

Definition scrollDidNotMove (prevScrollTop : Q) (after : Snapshot) : bool :=
  Qlt_bool (Qabs (scrollTop after - prevScrollTop)) 5.

Definition scrollHeightUnchanged (prevScrollHeight : Q) (after : Snapshot) : bool :=
  Qeq_bool (scrollHeight after) prevScrollHeight.

(** The stall counter after one scroll step, and whether the loop stops. *)
Definition stallStep (atBottom scrollStuck noNewMessages heightUnchanged : bool)
    (noChangeCount : nat) : nat * bool :=
  if atBottom && scrollStuck && noNewMessages && heightUnchanged then
    (S noChangeCount, CONFIG.maxNoChangeAttempts <=? S noChangeCount)
  else if scrollStuck && noNewMessages then
    (S noChangeCount, CONFIG.maxNoChangeAttempts + 3 <=? S noChangeCount)
  else (0, false).

(** *** The main loop *)

Record LoopState : Type := {
  scan : ScanState;
  noChangeCount : nat;
  scrollAttempts : nat;
  maxScrollTopReached : Q;
  (** the page as it is now *)
  current : Snapshot;
  (** waits of the main loop gone by *)
  waits : nat;
  (** messages sent to the progress sink, oldest first *)
  sink : list Progress
}.

Variable page : Page.

Definition loadingProgress (scrollAttempts : nat) : Q :=
  Qmin 55 (20 + Qofnat scrollAttempts * 35 / Qofnat CONFIG.maxScrollAttempts).

(** The body of the [while] loop. [inr] is a [break] (or the loop's
    condition failing), [inl] goes round again. *)
Definition loopBody (st : LoopState) : LoopState + LoopState :=
  let attempts := S (scrollAttempts st) in
  let scanned := scanSnapshot (current st) (scan st) in
  if foundEndMessage scanned then
    inr {| scan := scanned; noChangeCount := noChangeCount st;
           scrollAttempts := attempts;
           maxScrollTopReached := maxScrollTopReached st;
           current := current st; waits := waits st; sink := sink st |}
  else
    let prevScrollTop := scrollTop (current st) in
    let prevScrollHeight := scrollHeight (current st) in
    let prevMessageCount := JsMap.size (collectedMessages scanned) in
    (* scroll down, then wait *)
    let after := settled page (S (waits st)) in
    let noNewMessages := JsMap.size (collectedMessages scanned) =? prevMessageCount in
    let maxTop :=
      if Qlt_bool (maxScrollTopReached st) (scrollTop after)
      then scrollTop after else maxScrollTopReached st in
    let '(count, stop) :=
      stallStep (isAtBottom after) (scrollDidNotMove prevScrollTop after)
        noNewMessages (scrollHeightUnchanged prevScrollHeight after)
        (noChangeCount st) in
    if stop then
      inr {| scan := markBottom scanned;
             noChangeCount := count; scrollAttempts := attempts;
             maxScrollTopReached := maxTop;
             current := after; waits := S (waits st); sink := sink st |}
    else
      inl {| scan := scanned; noChangeCount := count; scrollAttempts := attempts;
             maxScrollTopReached := maxTop;
             current := after; waits := S (waits st);
             sink := sink st ++
               [{| percent := loadingProgress attempts;
                   text := "Loading messages... (" +:+
                           pretty (JsMap.size (collectedMessages scanned)) +:+
                           " found)" |}] |}.

(** [while (scrollAttempts < CONFIG.maxScrollAttempts && !reachedBottom)];
    [fuel] bounds the unfolding. *)
Fixpoint collectLoop (fuel : nat) (st : LoopState) : LoopState :=
  match fuel with
  | 0 => st
  | S fuel' =>
      if (scrollAttempts st <? CONFIG.maxScrollAttempts) &&
         negb (reachedBottom (scan st))
      then
        match loopBody st with
        | inl st' => collectLoop fuel' st'
        | inr st' => st'
        end
      else st
  end.

(** *** Seeking the start *)

Definition topProgress (scrollUpAttempts : nat) : Q :=
  Qmin 15 (5 + Qofnat scrollUpAttempts).

Definition scrollingToTop (p : Q) : Progress :=
  {| percent := p; text := "Scrolling to top..." |}.

(** The scroll to the top when no start is given:
    [while (scrollUpAttempts < CONFIG.maxScrollAttempts)]. *)
Fixpoint scrollToTop (fuel scrollUpAttempts : nat) (lastScrollTop : Q)
    (sent : list Progress) : list Progress :=
  match fuel with
  | 0 => sent
  | S fuel' =>
      if scrollUpAttempts <? CONFIG.maxScrollAttempts then
        let '(afterFirstWait, afterSecondWait) := topReadings page scrollUpAttempts in
        let looksAtTop :=
          Qeq_bool afterFirstWait 0 ||
          Qlt_bool (Qabs (afterFirstWait - lastScrollTop)) 5 in
        if looksAtTop && Qlt_bool afterSecondWait 100 then sent
        else
          let lastScrollTop' := if looksAtTop then afterSecondWait else afterFirstWait in
          let attempts := S scrollUpAttempts in
          scrollToTop fuel' attempts lastScrollTop'
            (sent ++ [scrollingToTop (topProgress attempts)])
      else sent
  end.

(** The state in which the main loop is entered. *)
Definition seekStart (uc : UserCache) (sent : list Progress) : LoopState :=
  let '(found, snap, sent') :=
    if negb (truthy startFromId) then
      (true, settled page 0,
       scrollToTop CONFIG.maxScrollAttempts 0 (scrollTop (entry page))
         (sent ++ [scrollingToTop 5]))
    else
      match getElementById (entry page) startFromId with
      | Some _ => (true, settled page 0, sent)
      | None => (false, entry page, sent)
      end in
  {| scan := {| collectedMessages := JsMap.empty; users := uc;
                foundStartMessage := found; foundEndMessage := false;
                reachedBottom := false |};
     noChangeCount := 0; scrollAttempts := 0;
     maxScrollTopReached := scrollTop snap;
     current := snap; waits := 0; sink := sent' |}.

(** The sweep over everything mounted when a start was asked for and
    never seen. *)
Definition sweepAll (snap : Snapshot) (st : ScanState) : ScanState :=
  foldl
    (fun st e =>
       match getMessageId (Some (me_view (snd e))) with
       | Some msgId => collectMessage msgId (snd e) st
       | None => st
       end)
    st (queryMessages snap).

Definition finishCollection (st : LoopState) : ScanState :=
  if truthy startFromId && negb (foundStartMessage (scan st))
  then sweepAll (current st) (scan st)
  else scan st.

(** The loop state when the main loop is left, for a run that starts with
    the given cache contents already reset. *)
Definition runLoop (sent : list Progress) : LoopState :=
  collectLoop CONFIG.maxScrollAttempts (seekStart userCache.reset sent).

(** The loop state after at most [n] iterations of the main loop. *)
Definition runLoopFor (n : nat) (sent : list Progress) : LoopState :=
  collectLoop n (seekStart userCache.reset sent).

End Collection.

(** ** Renderers *)

Definition nl : string := String (ascii_of_nat 10) EmptyString.
Definition dq : string := String (ascii_of_nat 34) EmptyString.

(** [name="text"]. *)
Definition attr (name_ text_ : string) : string := name_ +:+ "=" +:+ dq +:+ text_ +:+ dq.

Definition when (b : bool) (s : string) : string := if b then s else EmptyString.

Definition joinAll (parts : list string) : string := String.concat EmptyString parts.

(** [msg.username && msg.username === lastUsername]. *)
Definition isSameUser (msg : Message) (lastUsername : string) : bool :=
  nonEmpty (username msg) && String.eqb (username msg) lastUsername.

(** [msg.replyTo && (msg.replyTo.username || msg.replyTo.content)]. *)
Definition hasReply (msg : Message) : bool :=
  match replyTo msg with
  | Some r => nonEmpty (replyUsername r) || nonEmpty (replyContent r)
  | None => false
  end.

Definition showHeader (msg : Message) (lastUsername : string) : bool :=
  negb (isSameUser msg lastUsername) || hasReply msg.

(** A [Set] in insertion order. *)
Definition setAdd (x : string) (s : list string) : list string :=
  if bool_decide (x ∈ s) then s else s ++ [x].

Section Renderers.
Context `{host : Host}.
Variable options : ExportOptions.

(** *** PDF *)

(** The URLs to prefetch (phase 1 of [generatePDFContent]). *)
Definition collectImageUrls (messages : list Message) : list string :=
  let s0 :=
    if includeAvatars options
    then foldl (fun s msg => if nonEmpty (avatar msg) then setAdd (avatar msg) s else s)
           [] messages
    else [] in
  let s1 :=
    if includeImages options
    then foldl (fun s msg =>
                  foldl (fun s img =>
                           if nonEmpty (staticUrl img) then setAdd (staticUrl img) s else s)
                    s (images msg))
           s0 messages
    else s0 in
  foldl (fun s msg =>
           foldl (fun s e =>
                    let s' := if truthy (thumbnail e) then setAdd (orEmpty (thumbnail e)) s else s in
                    if truthy (image e) then setAdd (orEmpty (image e)) s' else s')
             s (embeds msg))
    s1 messages.

(** [imageCache.get(url)] when it is truthy. *)
Definition cachedData (cache : ImageCache) (url_ : string) : option string :=
  match JsMap.get cache url_ with
  | Some base64 => if nonEmpty base64 then Some base64 else None
  | None => None
  end.

Definition avatarPlaceholder (msg : Message) : string :=
  "<div " +:+ attr "class" "avatar-placeholder" +:+ ">" +:+
  firstCharUpper (orElse (username msg) "U") +:+ "</div>".

Definition avatarSpacer : string :=
  "<div " +:+ attr "class" "avatar-spacer" +:+ "></div>".

Definition pdfAvatarHtml (cache : ImageCache) (msg : Message) (lastUsername : string)
  : string :=
  if showHeader msg lastUsername then
    if includeAvatars options && nonEmpty (avatar msg) then
      match cachedData cache (avatar msg) with
      | Some base64 =>
          "<img " +:+ attr "class" "avatar" +:+ " " +:+ attr "src" base64 +:+ " " +:+
          attr "alt" "avatar" +:+ ">"
      | None => avatarPlaceholder msg
      end
    else if includeAvatars options then avatarPlaceholder msg
    else EmptyString
  else avatarSpacer.

Definition pdfImageHtml (cache : ImageCache) (imgData : ImageRef) : string :=
  match cachedData cache (staticUrl imgData) with
  | Some base64 =>
      if isGif imgData then
        "<div " +:+ attr "class" "image-container gif-container" +:+ "><img " +:+
        attr "src" base64 +:+ " " +:+ attr "alt" "GIF" +:+ "><span " +:+
        attr "class" "gif-badge" +:+ ">GIF</span><a " +:+ attr "href" (url imgData) +:+
        " " +:+ attr "class" "gif-link" +:+ " " +:+ attr "target" "_blank" +:+ ">" +:+
        url imgData +:+ "</a></div>"
      else "<img " +:+ attr "src" base64 +:+ " " +:+ attr "alt" "image" +:+ ">"
  | None => EmptyString
  end.

Definition pdfImagesHtml (cache : ImageCache) (msg : Message) : string :=
  if includeImages options && (0 <? length (images msg)) then
    joinAll (("<div " +:+ attr "class" "images" +:+ ">")
             :: map (pdfImageHtml cache) (images msg) ++ ["</div>"])
  else EmptyString.

Definition pdfFieldHtml (f : EmbedField) : string :=
  "<div " +:+ attr "class" "embed-field" +:+ ">" +:+
  when (nonEmpty (name f))
    ("<div " +:+ attr "class" "embed-field-name" +:+ ">" +:+ escapeHtml (name f) +:+ "</div>") +:+
  when (nonEmpty (value f))
    ("<div " +:+ attr "class" "embed-field-value" +:+ ">" +:+ value f +:+ "</div>") +:+
  "</div>".

Definition pdfCachedImg (cache : ImageCache) (class_ alt_ : string) (u : JsStr) : string :=
  if truthy u then
    match cachedData cache (orEmpty u) with
    | Some b64 =>
        "<img " +:+ attr "class" class_ +:+ " " +:+ attr "src" b64 +:+ " " +:+
        attr "alt" alt_ +:+ ">"
    | None => EmptyString
    end
  else EmptyString.

Definition pdfEmbedHtml (cache : ImageCache) (embed : Embed) : string :=
  "<div " +:+ attr "class" "embed" +:+ " " +:+
  attr "style" (when (nonEmpty (color embed)) ("border-left-color: " +:+ color embed +:+ ";")) +:+
  ">" +:+
  pdfCachedImg cache "embed-thumbnail" "thumbnail" (thumbnail embed) +:+
  when (nonEmpty (author embed))
    ("<div " +:+ attr "class" "embed-author" +:+ ">" +:+ escapeHtml (author embed) +:+ "</div>") +:+
  when (nonEmpty (title embed))
    ("<div " +:+ attr "class" "embed-title" +:+ ">" +:+ escapeHtml (title embed) +:+ "</div>") +:+
  when (nonEmpty (description embed))
    ("<div " +:+ attr "class" "embed-description" +:+ ">" +:+ description embed +:+ "</div>") +:+
  when (0 <? length (fields embed))
    ("<div " +:+ attr "class" "embed-fields" +:+ ">" +:+
     joinAll (map pdfFieldHtml (fields embed)) +:+ "</div>") +:+
  pdfCachedImg cache "embed-image" "embed image" (image embed) +:+
  when (nonEmpty (footer embed))
    ("<div " +:+ attr "class" "embed-footer" +:+ ">" +:+ escapeHtml (footer embed) +:+ "</div>") +:+
  "</div>".

Definition pdfEmbedsHtml (cache : ImageCache) (msg : Message) : string :=
  if 0 <? length (embeds msg) then joinAll (map (pdfEmbedHtml cache) (embeds msg))
  else EmptyString.

Definition pdfReactionsHtml (msg : Message) : string :=
  if includeReactions options && (0 <? length (reactions msg)) then
    "<div " +:+ attr "class" "reactions" +:+ ">" +:+
    joinAll (map (fun r => "<span " +:+ attr "class" "reaction" +:+ ">" +:+ emoji r +:+
                           "<span " +:+ attr "class" "reaction-count" +:+ ">" +:+ count r +:+
                           "</span></span>")
               (reactions msg)) +:+
    "</div>"
  else EmptyString.

Definition pdfTimestampHtml (msg : Message) : string :=
  if includeTimestamps options && nonEmpty (timestamp msg)
  then "<span " +:+ attr "class" "timestamp" +:+ ">" +:+ toLocaleString (timestamp msg) +:+ "</span>"
  else EmptyString.

Definition pdfReplyHtml (msg : Message) : string :=
  if hasReply msg then
    let r := default {| replyUsername := EmptyString; replyContent := EmptyString |} (replyTo msg) in
    "<div " +:+ attr "class" "reply-info" +:+ "><span " +:+ attr "class" "reply-username" +:+ ">" +:+
    escapeHtml (orElse (replyUsername r) "Unknown") +:+ "</span><span " +:+
    attr "class" "reply-content" +:+ ">" +:+ escapeHtml (replyContent r) +:+ "</span></div>"
  else EmptyString.

Definition pdfHeaderHtml (msg : Message) (lastUsername : string) : string :=
  if showHeader msg lastUsername then
    "<div " +:+ attr "class" "message-header" +:+ "><span " +:+ attr "class" "username" +:+ " " +:+
    when (nonEmpty (usernameColor msg)) (attr "style" ("color: " +:+ usernameColor msg)) +:+
    ">" +:+ escapeHtml (orElse (username msg) "Unknown") +:+ "</span>" +:+
    pdfTimestampHtml msg +:+ "</div>"
  else EmptyString.

(** The [<div class="message">] pushed for one message. *)
Definition pdfMessageHtml (cache : ImageCache) (msg : Message) (lastUsername : string)
  : string :=
  "<div " +:+ attr "class" "message" +:+ ">" +:+ pdfAvatarHtml cache msg lastUsername +:+
  "<div " +:+ attr "class" "message-body" +:+ ">" +:+ pdfReplyHtml msg +:+
  pdfHeaderHtml msg lastUsername +:+
  "<div " +:+ attr "class" "content" +:+ ">" +:+ content msg +:+ "</div>" +:+
  pdfImagesHtml cache msg +:+ pdfEmbedsHtml cache msg +:+ pdfReactionsHtml msg +:+
  "</div></div>".

(** *** Markdown *)

Inductive MdKind : Type :=
| MdReply | MdHeader | MdContent | MdImage | MdEmbed | MdAvatar | MdReactions
| MdSeparator.

Global Instance MdKind_eq_dec : EqDecision MdKind.
Proof. solve_decision. Defined.

(** One piece appended to the Markdown text, with what it is. *)
Record MdBlock : Type := {
  kind : MdKind;
  mdText : string
}.

Definition mdImage (imgData : ImageRef) : MdBlock :=
  {| kind := MdImage;
     mdText :=
       if isGif imgData then
         "🎬 **GIF**" +:+ nl +:+ nl +:+
         "[![GIF預覽](" +:+ staticUrl imgData +:+ ")](" +:+ url imgData +:+ ")" +:+ nl +:+ nl +:+
         "> 原始連結: " +:+ url imgData +:+ nl +:+ nl
       else "![image](" +:+ url imgData +:+ ")" +:+ nl +:+ nl |}.

Definition mdEmbed (embed : Embed) : MdBlock :=
  {| kind := MdEmbed;
     mdText :=
       "> 📎 **[Embed]**" +:+ nl +:+
       when (nonEmpty (author embed)) ("> 👤 " +:+ author embed +:+ nl) +:+
       when (nonEmpty (title embed)) ("> **" +:+ title embed +:+ "**" +:+ nl) +:+
       when (nonEmpty (description embed)) ("> " +:+ htmlText (description embed) +:+ nl) +:+
       when (0 <? length (fields embed))
         (">" +:+ nl +:+
          joinAll (map (fun field => "> • **" +:+ name field +:+ "**: " +:+
                                     htmlText (value field) +:+ nl)
                     (fields embed))) +:+
       when (truthy (thumbnail embed))
         (">" +:+ nl +:+ "> 🖼️ 縮圖: ![thumbnail](" +:+ orEmpty (thumbnail embed) +:+ ")" +:+ nl) +:+
       when (truthy (image embed))
         (">" +:+ nl +:+ "> ![embed image](" +:+ orEmpty (image embed) +:+ ")" +:+ nl) +:+
       when (nonEmpty (footer embed)) ("> _" +:+ footer embed +:+ "_" +:+ nl) +:+
       nl |}.

(** What [generateMarkdownContent] appends for one message. *)
Definition mdMessage (msg : Message) (lastUsername : string) : list MdBlock :=
  let sameUser := isSameUser msg lastUsername in
  (if hasReply msg then
     let r := default {| replyUsername := EmptyString; replyContent := EmptyString |} (replyTo msg) in
     [{| kind := MdReply;
         mdText := "> ↩ Replying to **" +:+ orElse (replyUsername r) "Unknown" +:+ "**: " +:+
                   replyContent r +:+ nl +:+ nl |}]
   else []) ++
  (if negb sameUser || hasReply msg then
     [{| kind := MdHeader;
         mdText := "**" +:+ orElse (username msg) "Unknown" +:+ "**" +:+
                   when (includeTimestamps options && nonEmpty (timestamp msg))
                     (" - " +:+ toLocaleString (timestamp msg)) +:+
                   nl +:+ nl |}]
   else []) ++
  (if nonEmpty (contentText msg)
   then [{| kind := MdContent; mdText := contentText msg +:+ nl +:+ nl |}] else []) ++
  (if includeImages options && (0 <? length (images msg))
   then map mdImage (images msg) else []) ++
  (if 0 <? length (embeds msg) then map mdEmbed (embeds msg) else []) ++
  (if negb sameUser && includeAvatars options && nonEmpty (avatar msg)
   then [{| kind := MdAvatar; mdText := "> Avatar: " +:+ avatar msg +:+ nl +:+ nl |}] else []) ++
  (if includeReactions options && (0 <? length (reactions msg))
   then [{| kind := MdReactions;
            mdText := "> Reactions: " +:+
                      String.concat " " (map (fun r => emoji r +:+ " (" +:+ count r +:+ ")")
                                           (reactions msg)) +:+
                      nl +:+ nl |}]
   else []) ++
  [{| kind := MdSeparator; mdText := "---" +:+ nl +:+ nl |}].

(** The pieces of every message in turn, [lastUsername] carried along. *)
Fixpoint mdMessages (messages : list Message) (lastUsername : string)
  : list (list MdBlock) :=
  match messages with
  | [] => []
  | msg :: rest => mdMessage msg lastUsername :: mdMessages rest (username msg)
  end.

Definition generateMarkdownContent (channel date : string) (messages : list Message)
  : string :=
  "# " +:+ channel +:+ nl +:+ nl +:+ "*Exported on " +:+ date +:+ "*" +:+ nl +:+ nl +:+
  "---" +:+ nl +:+ nl +:+
  joinAll (map mdText (concat (mdMessages messages EmptyString))).

End Renderers.

(** ** The process-wide state *)

Record World : Type := {
  w_users : UserCache;
  w_images : ImageCache;
  (** messages sent to the progress sink, oldest first *)
  w_sink : list Progress;
  (** the document handed to the print window or to the download *)
  w_artifact : option string
}.

Definition sendProgress (p : Q) (label : string) : Eff World unit :=
  eff_modify (fun w =>
    {| w_users := w_users w; w_images := w_images w;
       w_sink := w_sink w ++ [{| percent := p; text := label |}];
       w_artifact := w_artifact w |}).

Definition handOver (document : string) : Eff World unit :=
  eff_modify (fun w =>
    {| w_users := w_users w; w_images := w_images w; w_sink := w_sink w;
       w_artifact := Some document |}).

(** Runs a computation on the image cache inside the world. *)
Definition onImages {A} (c : Eff ImageCache A) : Eff World A :=
  fun w =>
    let '(r, cache) := c (w_images w) in
    (r, {| w_users := w_users w; w_images := cache; w_sink := w_sink w;
           w_artifact := w_artifact w |}).

(** What an export entry point resolves to. *)
Inductive ExportResult : Type :=
| ExportOk (messageCount : nat)
| ExportFailed (error : string).

Section Exporting.
Context `{host : Host}.
Variable page : Page.

Definition scrollAndCollectMessages (startFromId endAtId : JsStr)
    (options : ExportOptions) : Eff World (list Message) :=
  fun w =>
    if negb (hasScroller page)
    then (Thrown "Could not find messages scroller", w)
    else
      let st := runLoop startFromId endAtId options page (w_sink w) in
      let final := finishCollection startFromId options st in
      (Normal (JsMap.values (collectedMessages final)),
       {| w_users := users final; w_images := w_images w; w_sink := sink st;
          w_artifact := w_artifact w |}).

(** *** PDF generation *)

Definition PREFETCH_BATCH : nat := 10.
Definition BATCH_SIZE : nat := 50.

(** [Promise.all(batch.map(url => getCachedImage(url).catch(() => null)))];
    the fetches of a batch complete in the order of the batch. *)
Fixpoint fetchBatch (batch : list string) : Eff World unit :=
  match batch with
  | [] => eff_ret tt
  | u :: rest =>
      onImages (eff_try (getCachedImage (Some u) (network page u)) (fun _ => eff_ret None)) ;;;
      fetchBatch rest
  end.

Definition prefetchProgress (i total : nat) : Q :=
  50 + inject_Z (Qfloor (Qofnat i / Qofnat total * 30)).

(** [for (let i = 0; i < urlArray.length; i += PREFETCH_BATCH)]. *)
Fixpoint prefetch (fuel i : nat) (urlArray : list string) : Eff World unit :=
  match fuel with
  | 0 => eff_ret tt
  | S fuel' =>
      if i <? length urlArray then
        fetchBatch (take PREFETCH_BATCH (drop i urlArray)) ;;;
        sendProgress (prefetchProgress i (length urlArray))
          ("Prefetching images... (" +:+ pretty (min (i + PREFETCH_BATCH) (length urlArray)) +:+
           "/" +:+ pretty (length urlArray) +:+ ")") ;;;
        prefetch fuel' (i + PREFETCH_BATCH) urlArray
      else eff_ret tt
  end.

Definition generatingProgress (i total : nat) : Q :=
  80 + inject_Z (Qfloor (Qofnat i / Qofnat total * 20)).

(** Phase 3: [for (let i = 0; i < totalMessages; i++)]. *)
Fixpoint renderMessages (options : ExportOptions) (messages : list Message)
    (i totalMessages : nat) (lastUsername : string) : Eff World (list string) :=
  match messages with
  | [] => eff_ret []
  | msg :: rest =>
      let* w := eff_get in
      let html := pdfMessageHtml options (w_images w) msg lastUsername in
      (if (0 <? i) && (i mod BATCH_SIZE =? 0)
       then sendProgress (generatingProgress i totalMessages)
              ("Generating PDF... (" +:+ pretty i +:+ "/" +:+ pretty totalMessages +:+ ")")
       else eff_ret tt) ;;;
      let* more := renderMessages options rest (S i) totalMessages (username msg) in
      eff_ret (html :: more)
  end.

Definition pdfHead : string :=
  "<!DOCTYPE html><html><head><meta " +:+ attr "charset" "UTF-8" +:+ "><style>" +:+
  pdfStyles +:+ "</style></head><body><h1>" +:+ escapeHtml (channelName page) +:+ "</h1>".

Definition generatePDFContent (messages : list Message) (options : ExportOptions)
  : Eff World string :=
  onImages clearImageCache ;;;
  let urlArray := collectImageUrls options messages in
  prefetch (length urlArray) 0 urlArray ;;;
  let* parts := renderMessages options messages 0 (length messages) EmptyString in
  onImages clearImageCache ;;;
  eff_ret (joinAll (pdfHead :: parts ++ ["</body></html>"])).

(** *** Export entry points *)

Definition exportToPDF (selectedMessageId selectedEndMessageId : JsStr)
    (options : PartialOptions) : Eff World ExportResult :=
  let exportOptions := mergeOptions options in
  eff_try
    (sendProgress 10 "Starting export..." ;;;
     let* messages :=
       scrollAndCollectMessages selectedMessageId selectedEndMessageId exportOptions in
     (if length messages =? 0
      then eff_throw "No messages found to export" else eff_ret tt) ;;;
     sendProgress 60 ("Processing " +:+ pretty (length messages) +:+ " messages...") ;;;
     let* htmlContent := generatePDFContent messages exportOptions in
     sendProgress 90 "Generating PDF..." ;;;
     (if opensWindow page then handOver htmlContent
      else eff_throw "Cannot read properties of null (reading 'document')") ;;;
     eff_ret (ExportOk (length messages)))
    (fun error => eff_ret (ExportFailed error)).

Definition exportToMarkdown (selectedMessageId selectedEndMessageId : JsStr)
    (options : PartialOptions) : Eff World ExportResult :=
  let exportOptions := mergeOptions options in
  eff_try
    (sendProgress 10 "Starting export..." ;;;
     let* messages :=
       scrollAndCollectMessages selectedMessageId selectedEndMessageId exportOptions in
     (if length messages =? 0
      then eff_throw "No messages found to export" else eff_ret tt) ;;;
     sendProgress 70 ("Processing " +:+ pretty (length messages) +:+ " messages...") ;;;
     let mdContent :=
       generateMarkdownContent exportOptions (channelName page) (exportDate page) messages in
     sendProgress 90 "Saving file..." ;;;
     handOver mdContent ;;;
     eff_ret (ExportOk (length messages)))
    (fun error => eff_ret (ExportFailed error)).

End Exporting.

(** A run of resolve operations one after the other, each with what its
    fetch comes to: the cache afterwards. *)
Definition cacheAfter (ops : list (JsStr * Fetched)) (cache : ImageCache) : ImageCache :=
  foldl (fun c op => snd (getCachedImage (fst op) (snd op) c)) cache ops.

(** The caches the script can reach: calls of [getCachedImage], the
    synchronous tail of a call that overlaps others (the calls of a
    prefetch batch run at once), and clearing. *)
Inductive CacheReachable : ImageCache -> Prop :=
| reach_empty : CacheReachable JsMap.empty
| reach_resolve cache url net :
    CacheReachable cache -> CacheReachable (snd (getCachedImage url net cache))
| reach_store cache url base64 :
    CacheReachable cache -> CacheReachable (snd (storeImage url base64 cache))
| reach_clear cache :
    CacheReachable cache -> CacheReachable (snd (clearImageCache cache)).

(** ** Sample data *)

(** A host whose text functions leave their argument as it is, but for
    the ASCII letters [toUpperCase] turns to capitals. *)
Definition plainHost : Host :=
  {| trim := fun s => s;
     toUpperCase := mapString upperAscii;
     processContentForEmoji := fun s => s;
     dropSizeParams := fun s => s;
     urlParses := fun _ => true;
     urlAsPng := fun s => s;
     replaceSizeParam := fun s _ => s;
     dropTrailingDigits := fun s => s;
     escapeHtml := fun s => s;
     toLocaleString := fun s => s;
     htmlText := fun s => s;
     pdfStyles := EmptyString |}.

(** 201 distinct URLs. *)
Definition sampleUrls : list string := map (fun n => "https://cdn/" +:+ pretty n) (seq 1 201).

Definition sampleData (u : string) : string := "data:" +:+ u.

(** A cache filled to the brim with the first 200 of them. *)
Definition fullCache : ImageCache :=
  map (fun u => (u, sampleData u)) (take 200 sampleUrls).

(** An embed block that shows a footer, an author, a thumbnail and an
    accent colour and nothing else. *)
Definition sampleImg (src : string) : ImgEl :=
  {| img_src := src; img_className := EmptyString; img_ariaLabel := None;
     img_dataType := None; img_width := 400; img_height := 300;
     img_dataOriginalSrc := None; img_dataSrc := None; img_dataSafeSrc := None;
     img_anchorHref := None; img_inAvatarDecoration := false;
     img_inDecoration := false; img_inRepliedMessage := false;
     img_inReplyBar := false |}.

Definition footerOnlyEmbed : EmbedEl :=
  {| em_borderLeftColor := "rgb(88, 101, 242)"; em_borderColor := EmptyString;
     em_authorEl := Some "bot"; em_titleEl := None; em_descEl := None;
     em_fieldEls := []; em_footerEl := Some "sent by a bot";
     em_thumbEl := Some (sampleImg "https://example.org/t.png"); em_imgEl := None |}.

(** ** How the store changes *)

Section Growth.
Context `{host : Host}.
Variable options : ExportOptions.

(** The store only ever changes by taking, at its end, the record the
    extractor returns for an element whose id it does not hold yet. *)
Inductive StoreGrows : Store -> Store -> Prop :=
| grows_refl store : StoreGrows store store
| grows_add store store' msgId msgEl uc data :
    StoreGrows store store' ->
    JsMap.has store' msgId = false ->
    getMessageId (Some (me_view msgEl)) = Some msgId ->
    fst (extractMessageData (Some msgEl) options uc) = Some data ->
    StoreGrows store (store' ++ [(msgId, data)]).

End Growth.

(** A record that is not empty in all four respects of the drop rule. *)
Definition keepsSomething (data : Message) : Prop :=
  ~ (content data = EmptyString /\ images data = [] /\ embeds data = [] /\
     username data = EmptyString).

(** What holds of every entry of the store: the record carries the id it
    is stored under, and the drop rule would not have dropped it. *)
Definition entryOk (entry : string * Message) : Prop :=
  msg_id (snd entry) = Some (fst entry) /\ keepsSomething (snd entry).

(** The end is only ever marked together with the bottom. *)
Definition flagsOk (st : ScanState) : Prop :=
  foundEndMessage st = true -> reachedBottom st = true.

(** Whether the [while] condition of the main loop holds. *)
Definition goesOn (st : LoopState) : bool :=
  (scrollAttempts st <? CONFIG.maxScrollAttempts) && negb (reachedBottom (scan st)).

(** The per-message bodies of the PDF document, [lastUsername] carried
    along as the loop of [generatePDFContent] does. *)
Fixpoint pdfBodies `{host : Host} (options : ExportOptions) (cache : ImageCache)
    (messages : list Message) (lastUsername : string) : list string :=
  match messages with
  | [] => []
  | msg :: rest =>
      pdfMessageHtml options cache msg lastUsername ::
      pdfBodies options cache rest (username msg)
  end.

(** The percentages of a list of progress messages never go down: each
    one is at least every one sent before it. *)
Definition nondecreasing (sent : list Progress) : Prop :=
  forall i j p q,
    i <= j -> sent !! i = Some p -> sent !! j = Some q ->
    (percent p <= percent q)%Q.

(** A message element that shows an author in its header (when [user] is
    not empty) and a text (when [body] is not empty), and nothing else. *)
Definition sampleViewWith (reply : option RepliedEl) (id user body : string) : ElView :=
  {| el_id := id;
     el_headerUsername :=
       if nonEmpty user
       then Some {| un_textContent := user; un_color := "rgb(88, 101, 242)";
                    un_inRepliedMessage := false; un_inReplyBar := false |}
       else None;
     el_usernameEls := []; el_headerTextUsernameEls := [];
     el_repliedMessage := reply; el_avatarEls := []; el_avatarWrappers := [];
     el_allImgs := []; el_timeEl := None;
     el_contentEls :=
       if nonEmpty body
       then [{| ct_inRepliedMessage := false; ct_inRepliedTextContent := false;
                ct_inReplyBar := false; ct_innerHTML := body; ct_textContent := body |}]
       else [];
     el_imageEls := []; el_embedEls := []; el_reactions := None |}.

Definition sampleView : string -> string -> string -> ElView := sampleViewWith None.

Definition sampleMessage (id user body : string) : MsgEl :=
  {| me_view := sampleView id user body; me_previous := [] |}.

(** A short channel, all of it mounted, scrolled to its bottom. *)
Definition sampleSnapshot (els : list MsgEl) : Snapshot :=
  {| elements := els; scrollTop := 1200; clientHeight := 800; scrollHeight := 2000 |}.

(** A page that stays as it is. *)
Definition stillPage (els : list MsgEl) : Page :=
  {| hasScroller := true;
     entry := sampleSnapshot els;
     topReadings := fun _ => (0%Q, 0%Q);
     settled := fun _ => sampleSnapshot els;
     network := fun u => FetchedData (sampleData u);
     channelName := "general";
     exportDate := "2024-01-01";
     opensWindow := true |}.

Definition sampleChannel : list MsgEl :=
  [ sampleMessage "chat-messages-1" "alice" "hello";
    sampleMessage "chat-messages-2" EmptyString "how are you?";
    sampleMessage "chat-messages-3" "bob" "fine";
    sampleMessage "chat-messages-4" "bob" "and you?";
    sampleMessage "chat-messages-5" "alice" "fine too" ].

Definition noOptions : PartialOptions :=
  {| givenImages := None; givenAvatars := None; givenTimestamps := None;
     givenReactions := None |}.

Definition freshWorld : World :=
  {| w_users := userCache.reset; w_images := JsMap.empty; w_sink := [];
     w_artifact := None |}.

(** A computation that completes normally from every store. *)
Definition completes {S A} (c : Eff S A) : Prop :=
  forall s, exists a s', c s = (Normal a, s').

(** The records the sample channel yields when nothing bounds the range. *)
Definition sampleRun : Completion (list Message) * World :=
  scrollAndCollectMessages (host := plainHost) (stillPage sampleChannel) None None
    DEFAULT_EXPORT_OPTIONS freshWorld.

(** An element with an id and nothing to extract. *)
Definition blankMessage : MsgEl := sampleMessage "chat-messages-9" EmptyString EmptyString.

(** A page in which no scrollable message list is found. *)
Definition noScrollerPage : Page :=
  {| hasScroller := false;
     entry := sampleSnapshot [];
     topReadings := fun _ => (0%Q, 0%Q);
     settled := fun _ => sampleSnapshot [];
     network := fun u => FetchRejected "offline";
     channelName := "general";
     exportDate := "2024-01-01";
     opensWindow := true |}.

(** A computation that only ever adds to the progress sink. *)
Definition addsToSink {A} (c : Eff World A) : Prop :=
  forall w, w_sink w `prefix_of` w_sink (snd (c w)).

(** The first progress message of an export. *)
Definition starting : Progress := {| percent := 10; text := "Starting export..." |}.

(** ** Reading the rendered output *)

(** How many pieces of a kind a Markdown text has. *)
Definition countKind (k : MdKind) (blocks : list MdBlock) : nat :=
  length (List.filter (fun b => bool_decide (kind b = k)) blocks).

(** The value of [lastUsername] when the message at place [i] is
    rendered. *)
Definition previousUsername (messages : list Message) (i : nat) : string :=
  match i with
  | 0 => EmptyString
  | S j => from_option username EmptyString (messages !! j)
  end.

(** The condition under which the renderers show the header of a message
    that follows [prev]. *)
Definition headerDue (msg prev : Message) : Prop :=
  username msg = EmptyString \/ username msg <> username prev \/ hasReply msg = true.

(** Two messages in a row of which no author can be made out. *)
Definition anonymousChannel : list MsgEl :=
  [ sampleMessage "chat-messages-1" EmptyString "first";
    sampleMessage "chat-messages-2" EmptyString "second" ].

Definition anonymousMessages : list Message :=
  match fst (scrollAndCollectMessages (host := plainHost) (stillPage anonymousChannel)
               None None DEFAULT_EXPORT_OPTIONS freshWorld) with
  | Normal msgs => msgs
  | Thrown _ => []
  end.

(** A message of the author of the one before it, replying to a message
    of which neither the author nor the text is shown any more. *)
Definition emptyReplyChannel : list MsgEl :=
  [ sampleMessage "chat-messages-1" "alice" "first";
    {| me_view :=
         sampleViewWith (Some {| rp_username := None; rp_content := None |})
           "chat-messages-2" "alice" "second";
       me_previous := [] |} ].

Definition emptyReplyMessages : list Message :=
  match fst (scrollAndCollectMessages (host := plainHost) (stillPage emptyReplyChannel)
               None None DEFAULT_EXPORT_OPTIONS freshWorld) with
  | Normal msgs => msgs
  | Thrown _ => []
  end.

(** A record with an author and a text and nothing else. *)
Definition plainMessage (id user body : string) : Message :=
  {| msg_id := Some id; username := user; usernameColor := EmptyString;
     avatar := EmptyString; timestamp := EmptyString; content := body;
     contentText := body; images := []; attachments := []; reactions := [];
     embeds := []; replyTo := None |}.

(** ** Looking ahead in the main loop *)

(** The page the loop will scan [j] turns from now, if it gets there. *)
Definition pageAhead (page : Page) (st : LoopState) (j : nat) : Snapshot :=
  match j with
  | 0 => current st
  | S _ => settled page (waits st + j)
  end.

(** The scroll step of the turn [j] turns from now finds the scroller at
    the bottom, not moved, and of unchanged height. *)
Definition stalledAhead (page : Page) (st : LoopState) (j : nat) : Prop :=
  let before := pageAhead page st j in
  let after := settled page (waits st + S j) in
  isAtBottom after = true /\
  scrollDidNotMove (scrollTop before) after = true /\
  scrollHeightUnchanged (scrollHeight before) after = true.

(** The scroll step of the turn [j] turns from now finds the scroller not
    moved. *)
Definition stuckAhead (page : Page) (st : LoopState) (j : nat) : Prop :=
  scrollDidNotMove (scrollTop (pageAhead page st j)) (settled page (waits st + S j)) = true.

(** ... not moved, and not both at the bottom and of unchanged height. *)
Definition stuckOnlyAhead (page : Page) (st : LoopState) (j : nat) : Prop :=
  let before := pageAhead page st j in
  let after := settled page (waits st + S j) in
  scrollDidNotMove (scrollTop before) after = true /\
  isAtBottom after && scrollHeightUnchanged (scrollHeight before) after = false.

(** A page that stays as it is with the scroller short of the bottom, as
    when more messages are being loaded and never arrive. *)
Definition loadingSnapshot (els : list MsgEl) : Snapshot :=
  {| elements := els; scrollTop := 1200; clientHeight := 800; scrollHeight := 9000 |}.

Definition loadingPage (els : list MsgEl) : Page :=
  {| hasScroller := true;
     entry := loadingSnapshot els;
     topReadings := fun _ => (0%Q, 0%Q);
     settled := fun _ => loadingSnapshot els;
     network := fun u => FetchedData (sampleData u);
     channelName := "general";
     exportDate := "2024-01-01";
     opensWindow := true |}.

(** ** Reading a run *)

Definition idOf (el : MsgEl) : string := el_id (me_view el).

(** What collecting one element does to the store and the user cache. *)
Definition collectInto `{host : Host} (options : ExportOptions)
    (acc : Store * UserCache) (el : MsgEl) : Store * UserCache :=
  match getMessageId (Some (me_view el)) with
  | Some msgId =>
      let st :=
        collectMessage options msgId el
          {| collectedMessages := fst acc; users := snd acc;
             foundStartMessage := true; foundEndMessage := false;
             reachedBottom := false |} in
      (collectedMessages st, users st)
  | None => acc
  end.

(** The documents the main loop scans, in turn. *)
Fixpoint scansOf `{host : Host} (startFromId endAtId : JsStr) (options : ExportOptions)
    (page : Page) (fuel : nat) (st : LoopState) : list Snapshot :=
  match fuel with
  | 0 => []
  | S fuel' =>
      if goesOn st then
        current st ::
        match loopBody startFromId endAtId options page st with
        | inl st' => scansOf startFromId endAtId options page fuel' st'
        | inr _ => []
        end
      else []
  end.

(** The message elements the scans of a run come upon, in order. *)
Definition encountered `{host : Host} (startFromId endAtId : JsStr)
    (options : ExportOptions) (page : Page) (fuel : nat) (st : LoopState) : list MsgEl :=
  concat (map (fun snap => map snd (queryMessages snap))
            (scansOf startFromId endAtId options page fuel st)).

(** A scan element that would stop the scan: it carries the end id, or it
    lies after the end element. *)
Definition stopsScan (endAtId : JsStr) (endElement : option nat) (x : nat * MsgEl) : bool :=
  match getMessageId (Some (me_view (snd x))) with
  | None => false
  | Some msgId =>
      (truthy endAtId && bool_decide (Some msgId = endAtId)) ||
      from_option (fun e => follows e (fst x)) false endElement
  end.

Section Window.
Variable rank : string -> nat.
Variable startId endId : string.

(** The element lies from the start boundary to the end boundary. *)
Definition inRange (el : MsgEl) : bool :=
  (rank startId <=? rank (idOf el)) && (rank (idOf el) <=? rank endId).

(** The document shows its elements in the order of their ranks. *)
Definition ordered (snap : Snapshot) : Prop :=
  forall i j a b,
    elements snap !! i = Some a -> elements snap !! j = Some b -> i < j ->
    rank (idOf a) < rank (idOf b).

(** A document in which the start element is not mounted shows only what
    comes after the start, and one in which the end element is not
    mounted only what comes before the end. *)
Definition forwardWindow (snap : Snapshot) : Prop :=
  (getElementById snap (Some startId) = None ->
   forall el, el ∈ elements snap -> rank startId < rank (idOf el)) /\
  (getElementById snap (Some endId) = None ->
   forall el, el ∈ elements snap -> rank (idOf el) < rank endId).

(** Every document the run can see is like that. *)
Definition steadyPage (page : Page) : Prop :=
  (ordered (entry page) /\ forwardWindow (entry page)) /\
  (forall n, ordered (settled page n) /\ forwardWindow (settled page n)).

End Window.

(** The rank of the sample ids: their last character. *)
Definition sampleRank (id : string) : nat :=
  match String.get (String.length id - 1) id with
  | Some c => nat_of_ascii c
  | None => 0
  end.

(** A channel whose only author-less first message has a text, and whose
    second message shows nothing the extractor keeps. *)
Definition blankEndChannel : list MsgEl :=
  [ sampleMessage "chat-messages-1" EmptyString "first"; blankMessage ].

(** A page whose window moves backward: the start (2) and its successor
    (3) are mounted first; after the first scroll a message from before
    the start (1) is mounted together with the end (4), and the start is
    not. *)
Definition backwardPage : Page :=
  let first :=
    sampleSnapshot [ sampleMessage "chat-messages-2" "alice" "two";
                     sampleMessage "chat-messages-3" "alice" "three" ] in
  let later :=
    sampleSnapshot [ sampleMessage "chat-messages-1" "bob" "one";
                     sampleMessage "chat-messages-4" "bob" "four" ] in
  {| hasScroller := true;
     entry := first;
     topReadings := fun _ => (0%Q, 0%Q);
     settled := fun n => match n with 0 => first | S _ => later end;
     network := fun u => FetchedData (sampleData u);
     channelName := "general";
     exportDate := "2024-01-01";
     opensWindow := true |}.

(** A channel in which the message "chat-messages-2" is not mounted. *)
Definition laterChannel : list MsgEl :=
  [ sampleMessage "chat-messages-3" "bob" "fine";
    sampleMessage "chat-messages-4" "bob" "and you?";
    sampleMessage "chat-messages-5" "alice" "fine too" ].

(** A page on which the start (2) is mounted only after the first scroll,
    by when the message after it (3) is no longer mounted. *)
Definition lateStartPage : Page :=
  let first := sampleSnapshot [ sampleMessage "chat-messages-3" "alice" "three" ] in
  let later :=
    sampleSnapshot [ sampleMessage "chat-messages-2" "alice" "two";
                     sampleMessage "chat-messages-4" "bob" "four" ] in
  {| hasScroller := true;
     entry := first;
     topReadings := fun _ => (0%Q, 0%Q);
     settled := fun n => match n with 0 => first | S _ => later end;
     network := fun u => FetchedData (sampleData u);
     channelName := "general";
     exportDate := "2024-01-01";
     opensWindow := true |}.

(** The ids of the records a run returns. *)
Definition returnedIds (run : Completion (list Message) * World) : option (list JsStr) :=
  match fst run with
  | Normal msgs => Some (map msg_id msgs)
  | Thrown _ => None
  end.

(** ** The extractions of a run *)

(** The elements one scan brings to an extraction site
    ([if (!collectedMessages.has(msgId)) ...]), in order: the branches of
    [scanMessages] with the store left out. [found] is
    [foundStartMessage]. *)
Fixpoint scanOffers (startFromId endAtId : JsStr) (startElement endElement : option nat)
    (messageArray : list (nat * MsgEl)) (found : bool) : list MsgEl :=
  match messageArray with
  | [] => []
  | (pos, msgEl) :: rest =>
      match getMessageId (Some (me_view msgEl)) with
      | None => scanOffers startFromId endAtId startElement endElement rest found
      | Some msgId =>
          if truthy endAtId && bool_decide (Some msgId = endAtId) then [msgEl]
          else if from_option (fun e => follows e pos) false endElement then []
          else if truthy startFromId then
            if bool_decide (Some msgId = startFromId) then
              msgEl :: scanOffers startFromId endAtId startElement endElement rest true
            else
              let skip :=
                match startElement with
                | Some s => negb (follows s pos)
                | None => negb found
                end in
              if skip then scanOffers startFromId endAtId startElement endElement rest found
              else msgEl :: scanOffers startFromId endAtId startElement endElement rest found
          else msgEl :: scanOffers startFromId endAtId startElement endElement rest found
      end
  end.

(** Those of the scans of the main loop, turn after turn. *)
Fixpoint offersOf `{host : Host} (startFromId endAtId : JsStr) (options : ExportOptions)
    (page : Page) (fuel : nat) (st : LoopState) : list MsgEl :=
  match fuel with
  | 0 => []
  | S fuel' =>
      if goesOn st then
        scanOffers startFromId endAtId
          (getElementById (current st) startFromId)
          (getElementById (current st) endAtId)
          (queryMessages (current st)) (foundStartMessage (scan st)) ++
        match loopBody startFromId endAtId options page st with
        | inl st' => offersOf startFromId endAtId options page fuel' st'
        | inr _ => []
        end
      else []
  end.

(** The elements a run brings to an extraction site, in order: those of
    the main loop, then those of the sweep when there is one. *)
Definition offered `{host : Host} (startFromId endAtId : JsStr) (options : ExportOptions)
    (page : Page) (sent : list Progress) : list MsgEl :=
  let final := runLoop startFromId endAtId options page sent in
  offersOf startFromId endAtId options page CONFIG.maxScrollAttempts
    (seekStart startFromId page userCache.reset sent) ++
  (if truthy startFromId && negb (foundStartMessage (scan final))
   then map snd (queryMessages (current final))
   else []).

(** The store and the user cache when the element at place [i] of [met]
    is reached, the elements before it having been brought to the
    extraction site in turn, from the empty store and the reset cache. *)
Definition reachedAt `{host : Host} (options : ExportOptions) (met : list MsgEl)
    (i : nat) : Store * UserCache :=
  foldl (collectInto options) (JsMap.empty, userCache.reset) (take i met).

(** What the extractor returns for the element at place [i], the user
    cache being as it is when the element is reached. *)
Definition extractedAt `{host : Host} (options : ExportOptions) (met : list MsgEl)
    (i : nat) : option Message :=
  match met !! i with
  | Some el => fst (extractMessageData (Some el) options (snd (reachedAt options met i)))
  | None => None
  end.

(** The record [m] is what the extractor returns for the element at
    place [i], and at every earlier place of the same id it returns
    null. *)
Definition keptAt `{host : Host} (options : ExportOptions) (met : list MsgEl)
    (i : nat) (m : Message) : Prop :=
  exists el,
    met !! i = Some el /\ msg_id m = Some (idOf el) /\
    extractedAt options met i = Some m /\
    forall j el', j < i -> met !! j = Some el' -> idOf el' = idOf el ->
                  extractedAt options met j = None.

(** [msgs] lists, in the order of their places, the record of each id of
    [met] as extracted at the first place at which the extractor returns
    a record for the id; an id for which it returns a record at some
    place is listed. *)
Definition firstKept `{host : Host} (options : ExportOptions) (met : list MsgEl)
    (msgs : list Message) : Prop :=
  exists places : list nat,
    StronglySorted lt places /\
    Forall2 (keptAt options met) places msgs /\
    (forall i el, met !! i = Some el -> is_Some (extractedAt options met i) ->
                  Some (idOf el) ∈ map msg_id msgs).

(** A channel whose first message shows nothing of its own and whose
    second shows an author. *)
Definition lateAuthorChannel : list MsgEl :=
  [ sampleMessage "chat-messages-1" EmptyString EmptyString;
    sampleMessage "chat-messages-2" "bob" "hi" ].

(** A page whose window moves forward by one message: the start (1), a
    message that shows nothing of its own (2) and a message of bob (3)
    are mounted first; after the first scroll the start is gone and the
    end (4) is mounted. *)
Definition forwardPage : Page :=
  let first :=
    sampleSnapshot [ sampleMessage "chat-messages-1" EmptyString "one";
                     sampleMessage "chat-messages-2" EmptyString EmptyString;
                     sampleMessage "chat-messages-3" "bob" "three" ] in
  let later :=
    sampleSnapshot [ sampleMessage "chat-messages-2" EmptyString EmptyString;
                     sampleMessage "chat-messages-3" "bob" "three";
                     sampleMessage "chat-messages-4" "bob" "four" ] in
  {| hasScroller := true;
     entry := first;
     topReadings := fun _ => (0%Q, 0%Q);
     settled := fun n => match n with 0 => first | S _ => later end;
     network := fun u => FetchedData (sampleData u);
     channelName := "general";
     exportDate := "2024-01-01";
     opensWindow := true |}.

(** ** Previews and titles *)

(** What [getChannelName] asks of the page. *)
Record TitleProbe : Type := {
  (** for each of its five selectors in turn, the text of the first
      element the selector matches, if there is one *)
  tp_texts : list (option string);
  (** the second number of [/channels/N/M] in the path of the location,
      when the path has that shape *)
  tp_channelId : option string
}.

Section Previews.
Context `{host : Host}.

(** [getMessagePreview]. *)
Definition getMessagePreview (messageEl : option ElView) : string :=
  match messageEl with
  | None => EmptyString
  | Some messageEl =>
      let contentEl := head (el_contentEls messageEl) in
      let usernameEl := head (el_usernameEls messageEl) in
      let username_ :=
        match usernameEl with
        | Some el => trim (un_textContent el)
        | None => "Unknown"
        end in
      let content_ :=
        match contentEl with
        | Some el => jsTake 50 (trim (ct_textContent el))
        | None => EmptyString
        end in
      username_ +:+ ": " +:+ content_ +:+
      (if 50 <=? jsLength content_ then "..." else EmptyString)
  end.

(** [getChannelName]. *)
Definition getChannelName (probe : TitleProbe) : string :=
  match firstSome
          (fun el =>
             match el with
             | Some text_ => if nonEmpty (trim text_) then Some (trim text_) else None
             | None => None
             end)
          (tp_texts probe) with
  | Some title_ => title_
  | None =>
      match tp_channelId probe with
      | Some id => "Channel " +:+ id
      | None => "Discord Chat Export"
      end
  end.

End Previews.

(** ** More sample data *)

(** A text of exactly fifty characters. *)
Definition fiftyChars : string :=
  "12345678901234567890123456789012345678901234567890".

(** A text of thirty letters of two bytes each. *)
Definition thirtyAccents : string :=
  "éééééééééééééééééééééééééééééé".

(** A text of forty-nine letters and an emoji of four bytes, which is two
    code units long. *)
Definition emojiAtTheCut : string :=
  "1234567890123456789012345678901234567890123456789😀".

(** A message element whose first username element and first content
    element show the given texts. *)
Definition previewView (user body : string) : ElView :=
  {| el_id := "chat-messages-1";
     el_headerUsername := None;
     el_usernameEls :=
       [{| un_textContent := user; un_color := EmptyString;
           un_inRepliedMessage := false; un_inReplyBar := false |}];
     el_headerTextUsernameEls := [];
     el_repliedMessage := None; el_avatarEls := []; el_avatarWrappers := [];
     el_allImgs := []; el_timeEl := None;
     el_contentEls :=
       [{| ct_inRepliedMessage := false; ct_inRepliedTextContent := false;
           ct_inReplyBar := false; ct_innerHTML := body; ct_textContent := body |}];
     el_imageEls := []; el_embedEls := []; el_reactions := None |}.

(** An image inside a link to the attachment it previews. *)
Definition linkedImg (src href : string) : ImgEl :=
  {| img_src := src; img_className := EmptyString; img_ariaLabel := None;
     img_dataType := None; img_width := 400; img_height := 300;
     img_dataOriginalSrc := None; img_dataSrc := None; img_dataSafeSrc := None;
     img_anchorHref := Some href; img_inAvatarDecoration := false;
     img_inDecoration := false; img_inRepliedMessage := false;
     img_inReplyBar := false |}.

(** A message element with three images: a picture, an animated picture
    and an emoji. *)
Definition pictureView : ElView :=
  {| el_id := "chat-messages-1";
     el_headerUsername := None; el_usernameEls := []; el_headerTextUsernameEls := [];
     el_repliedMessage := None; el_avatarEls := []; el_avatarWrappers := [];
     el_allImgs := []; el_timeEl := None; el_contentEls := [];
     el_imageEls :=
       [ sampleImg "https://example.org/a.png";
         sampleImg "https://example.org/b.GIF";
         sampleImg "https://cdn.discordapp.com/emojis/1.png" ];
     el_embedEls := []; el_reactions := None |}.

Definition textReaction (text_ count_ : string) : ReactionEl :=
  {| rc_nested := false; rc_img := None; rc_textContent := text_;
     rc_countText := Some count_ |}.

(** Reaction items: two of the same emoji and count, one with another
    count, one that lies inside another element of the kind, one without
    a count. *)
Definition sampleReactions : list ReactionEl :=
  [ textReaction "+" "2"; textReaction "+" "2"; textReaction "+" "3";
    {| rc_nested := true; rc_img := None; rc_textContent := "-";
       rc_countText := Some "1" |};
    {| rc_nested := false; rc_img := None; rc_textContent := "!";
       rc_countText := None |} ].

Definition reactionsView : ElView :=
  {| el_id := "chat-messages-1";
     el_headerUsername := None; el_usernameEls := []; el_headerTextUsernameEls := [];
     el_repliedMessage := None; el_avatarEls := []; el_avatarWrappers := [];
     el_allImgs := []; el_timeEl := None; el_contentEls := [];
     el_imageEls := []; el_embedEls := []; el_reactions := Some sampleReactions |}.

(** The choice of an export with every option switched off. *)
Definition bareOptions : ExportOptions :=
  {| includeImages := false; includeAvatars := false;
     includeTimestamps := false; includeReactions := false |}.

(** A message element that shows an author with an avatar, a time, a
    text, a picture and reactions. *)
Definition richMessage : MsgEl :=
  {| me_view :=
       {| el_id := "chat-messages-1";
          el_headerUsername :=
            Some {| un_textContent := "alice"; un_color := "rgb(88, 101, 242)";
                    un_inRepliedMessage := false; un_inReplyBar := false |};
          el_usernameEls := []; el_headerTextUsernameEls := [];
          el_repliedMessage := None;
          el_avatarEls := [ sampleImg "https://cdn.discordapp.com/avatars/1/a.png" ];
          el_avatarWrappers := []; el_allImgs := [];
          el_timeEl := Some {| tm_datetime := Some "2024-01-01T10:00:00.000Z";
                               tm_textContent := "10:00" |};
          el_contentEls :=
            [{| ct_inRepliedMessage := false; ct_inRepliedTextContent := false;
                ct_inReplyBar := false; ct_innerHTML := "hello"; ct_textContent := "hello" |}];
          el_imageEls := [ sampleImg "https://example.org/a.png" ];
          el_embedEls := []; el_reactions := Some sampleReactions |};
     me_previous := [] |}.

(** The message Discord groups under it: a text and nothing else. *)
Definition groupedMessage : MsgEl :=
  {| me_view := sampleView "chat-messages-2" EmptyString "again"; me_previous := [] |}.

(** A record with 201 pictures, one for each of the sample addresses. *)
Definition galleryMessage : Message :=
  {| msg_id := Some "chat-messages-1"; username := "alice"; usernameColor := EmptyString;
     avatar := EmptyString; timestamp := EmptyString;
     content := EmptyString; contentText := EmptyString;
     images := map (fun u => {| url := u; isGif := false; staticUrl := u |}) sampleUrls;
     attachments := []; reactions := []; embeds := []; replyTo := None |}.

(** ** Reading the progress sink *)

(** A percentage the progress bar shows: from 5 to 99. *)
Definition inBar (p : Progress) : Prop :=
  (5 <= percent p)%Q /\ (percent p <= 99)%Q.

(** A computation that only ever adds messages of a kind to the progress
    sink. *)
Definition sendsOnly {A} (P : Progress -> Prop) (c : Eff World A) : Prop :=
  forall w, exists more, w_sink (snd (c w)) = w_sink w ++ more /\ Forall P more.

(** ** Selecting the boundaries *)

(** [window._lastRightClickedMessage]. *)
Record RightClicked : Type := {
  lr_element : ElView;
  lr_id : JsStr;
  lr_preview : string
}.

(** The selection state of the script: its [let] variables and the two
    properties it keeps on [window]. *)
Record Selection : Type := {
  isSelectionMode : bool;
  (** [window._selectionType] *)
  selectionType : JsStr;
  selectedMessageElement : option ElView;
  selectedMessageId : JsStr;
  selectedEndMessageElement : option ElView;
  selectedEndMessageId : JsStr;
  lastRightClickedMessage : option RightClicked
}.

(** The state when the script is loaded. *)
Definition initialSelection : Selection :=
  {| isSelectionMode := false; selectionType := None;
     selectedMessageElement := None; selectedMessageId := None;
     selectedEndMessageElement := None; selectedEndMessageId := None;
     lastRightClickedMessage := None |}.

(** [findMessageElement]: [element.closest(SELECTORS.message)], the
    element being given by itself and its ancestors, nearest first. *)
Definition findMessageElement (path : list ElView) : option ElView :=
  List.find (fun el => startsWith (el_id el) "chat-messages-") path.

Definition setSelection (element : option ElView) (id : JsStr) (ui : Selection)
  : Selection :=
  {| isSelectionMode := isSelectionMode ui; selectionType := selectionType ui;
     selectedMessageElement := element; selectedMessageId := id;
     selectedEndMessageElement := selectedEndMessageElement ui;
     selectedEndMessageId := selectedEndMessageId ui;
     lastRightClickedMessage := lastRightClickedMessage ui |}.

Definition setEndSelection (element : option ElView) (id : JsStr) (ui : Selection)
  : Selection :=
  {| isSelectionMode := isSelectionMode ui; selectionType := selectionType ui;
     selectedMessageElement := selectedMessageElement ui;
     selectedMessageId := selectedMessageId ui;
     selectedEndMessageElement := element; selectedEndMessageId := id;
     lastRightClickedMessage := lastRightClickedMessage ui |}.

Definition clearAllSelections (ui : Selection) : Selection :=
  {| isSelectionMode := isSelectionMode ui; selectionType := selectionType ui;
     selectedMessageElement := None; selectedMessageId := None;
     selectedEndMessageElement := None; selectedEndMessageId := None;
     lastRightClickedMessage := lastRightClickedMessage ui |}.

Definition enterSelectionMode (type_ : string) (ui : Selection) : Selection :=
  {| isSelectionMode := true; selectionType := Some type_;
     selectedMessageElement := selectedMessageElement ui;
     selectedMessageId := selectedMessageId ui;
     selectedEndMessageElement := selectedEndMessageElement ui;
     selectedEndMessageId := selectedEndMessageId ui;
     lastRightClickedMessage := lastRightClickedMessage ui |}.

Definition exitSelectionMode (ui : Selection) : Selection :=
  {| isSelectionMode := false; selectionType := None;
     selectedMessageElement := selectedMessageElement ui;
     selectedMessageId := selectedMessageId ui;
     selectedEndMessageElement := selectedEndMessageElement ui;
     selectedEndMessageId := selectedEndMessageId ui;
     lastRightClickedMessage := lastRightClickedMessage ui |}.

Definition setLastRightClicked (last : option RightClicked) (ui : Selection)
  : Selection :=
  {| isSelectionMode := isSelectionMode ui; selectionType := selectionType ui;
     selectedMessageElement := selectedMessageElement ui;
     selectedMessageId := selectedMessageId ui;
     selectedEndMessageElement := selectedEndMessageElement ui;
     selectedEndMessageId := selectedEndMessageId ui;
     lastRightClickedMessage := last |}.

(** What the script's listeners are called for. *)
Inductive UiEvent : Type :=
(** a click, on the element given by its path *)
| EvClick (path : list ElView)
(** a right click *)
| EvContextMenu (path : list ElView)
(** the Escape key *)
| EvEscape
(** the buttons of the export panel *)
| EvPanelSetStart
| EvPanelSetEnd
| EvPanelClear
(** the two items added to Discord's context menu *)
| EvMenuSetStart
| EvMenuSetEnd
(** a message of the extension with the given action *)
| EvAction (action : string).

(** The answers of the [chrome.runtime.onMessage] listener. *)
Inductive Answer : Type :=
| AnsSuccess
| AnsFailure (error : string)
| AnsSelected (messageId preview : JsStr)
| AnsLater
| AnsUnknown.

Section Selecting.
Context `{host : Host}.

(** [handleSelectionClick]. *)
Definition handleSelectionClick (path : list ElView) (ui : Selection) : Selection :=
  if negb (isSelectionMode ui) then ui
  else
    match findMessageElement path with
    | Some messageEl =>
        let msgId := getMessageId (Some messageEl) in
        let ui1 :=
          if bool_decide (selectionType ui = Some "start")
          then setSelection (Some messageEl) msgId ui
          else if bool_decide (selectionType ui = Some "end")
          then setEndSelection (Some messageEl) msgId ui
          else ui in
        exitSelectionMode ui1
    | None => ui
    end.

(** The [contextmenu] listener. *)
Definition onContextMenu (path : list ElView) (ui : Selection) : Selection :=
  match findMessageElement path with
  | Some messageEl =>
      setLastRightClicked
        (Some {| lr_element := messageEl; lr_id := getMessageId (Some messageEl);
                 lr_preview := getMessagePreview (Some messageEl) |})
        ui
  | None => setLastRightClicked None ui
  end.

(** The selection after [setSelection] with the message clicked last. *)
Definition startFromLast (ui : Selection) : Selection :=
  match lastRightClickedMessage ui with
  | Some msg => setSelection (Some (lr_element msg)) (lr_id msg) ui
  | None => ui
  end.

Definition endFromLast (ui : Selection) : Selection :=
  match lastRightClickedMessage ui with
  | Some msg => setEndSelection (Some (lr_element msg)) (lr_id msg) ui
  | None => ui
  end.

(** What the [chrome.runtime.onMessage] listener does to the selection. *)
Definition onAction (action : string) (ui : Selection) : Selection :=
  if String.eqb action "startSelection" then enterSelectionMode "start" ui
  else if String.eqb action "setStartFromContextMenu" then startFromLast ui
  else if String.eqb action "setEndFromContextMenu" then endFromLast ui
  else if String.eqb action "exportFromContextMenu" then startFromLast ui
  else ui.

(** What the listener answers to an action: the selection with its
    preview, success, a failure with its error, nothing yet when an
    export was started (the answer comes with its result), or that the
    action is not known. *)
Definition answerAction (action : string) (ui : Selection) : Answer :=
  if String.eqb action "startSelection" then AnsSuccess
  else if String.eqb action "getSelectedMessage" then
    AnsSelected (selectedMessageId ui)
      (match selectedMessageElement ui with
       | Some el => Some (getMessagePreview (Some el))
       | None => None
       end)
  else if String.eqb action "exportPDF" || String.eqb action "exportMarkdown"
  then AnsLater
  else if String.eqb action "setStartFromContextMenu" ||
          String.eqb action "setEndFromContextMenu" then
    match lastRightClickedMessage ui with
    | Some _ => AnsSuccess
    | None => AnsFailure "No message selected"
    end
  else if String.eqb action "exportFromContextMenu" then
    match lastRightClickedMessage ui with
    | Some _ => AnsLater
    | None => AnsFailure "No message selected"
    end
  else AnsUnknown.

Definition uiStep (ui : Selection) (ev : UiEvent) : Selection :=
  match ev with
  | EvClick path => handleSelectionClick path ui
  | EvContextMenu path => onContextMenu path ui
  | EvEscape => if isSelectionMode ui then exitSelectionMode ui else ui
  | EvPanelSetStart => enterSelectionMode "start" ui
  | EvPanelSetEnd => enterSelectionMode "end" ui
  | EvPanelClear => clearAllSelections ui
  | EvMenuSetStart => startFromLast ui
  | EvMenuSetEnd => endFromLast ui
  | EvAction action => onAction action ui
  end.

End Selecting.

(** A boundary and its element agree: both are unset, or the id is the
    id of the element, which is the id of a message. *)
Definition boundaryOk (element : option ElView) (id : JsStr) : Prop :=
  match element with
  | Some el => id = Some (el_id el) /\ startsWith (el_id el) "chat-messages-" = true
  | None => id = None
  end.

Definition selectionOk (ui : Selection) : Prop :=
  boundaryOk (selectedMessageElement ui) (selectedMessageId ui) /\
  boundaryOk (selectedEndMessageElement ui) (selectedEndMessageId ui) /\
  match lastRightClickedMessage ui with
  | Some msg => boundaryOk (Some (lr_element msg)) (lr_id msg)
  | None => True
  end /\
  (isSelectionMode ui = true ->
   selectionType ui = Some "start" \/ selectionType ui = Some "end") /\
  (isSelectionMode ui = false -> selectionType ui = None).

(** ** More boundary cases of the extractor *)

(** A message element that shows pictures and nothing else. *)
Definition pictureOnlyMessage : MsgEl :=
  {| me_view := pictureView; me_previous := [] |}.

(** The default choice with the images switched off. *)
Definition withoutImages : ExportOptions :=
  {| includeImages := false; includeAvatars := true;
     includeTimestamps := true; includeReactions := true |}.

(** An embed block that shows an image, a footer and nothing else. *)
Definition imageOnlyEmbed : EmbedEl :=
  {| em_borderLeftColor := "rgb(88, 101, 242)"; em_borderColor := EmptyString;
     em_authorEl := None; em_titleEl := None; em_descEl := None;
     em_fieldEls := []; em_footerEl := Some "sent by a bot";
     em_thumbEl := None; em_imgEl := Some (sampleImg "https://example.org/i.png") |}.

(** An embed block that shows an empty title and nothing else. *)
Definition blankTitleEmbed : EmbedEl :=
  {| em_borderLeftColor := EmptyString; em_borderColor := EmptyString;
     em_authorEl := None; em_titleEl := Some EmptyString; em_descEl := None;
     em_fieldEls := []; em_footerEl := None;
     em_thumbEl := None; em_imgEl := None |}.

(** * Properties *)

Module JsMapFacts.
Section Facts.
Context {V : Type}.
Implicit Types (m : JsMap.t V) (k : string) (v : V).

Lemma get_None m k : JsMap.get m k = None <-> k ∉ JsMap.keys m.
Proof.
  induction m as [|[k' v'] m IH]; simpl.
  - split; [intros _; apply not_elem_of_nil | done].
  - destruct (decide (k' = k)) as [->|Hne]; simpl.
    + split; [done | intros Hn; exfalso; apply Hn; left].
    + rewrite IH, not_elem_of_cons. split; [by intros ?; split | by intros [_ ?]].
Qed.

Lemma has_false m k : JsMap.has m k = false <-> k ∉ JsMap.keys m.
Proof.
  unfold JsMap.has. rewrite <- get_None.
  destruct (JsMap.get m k); naive_solver.
Qed.

Lemma has_true m k : JsMap.has m k = true <-> k ∈ JsMap.keys m.
Proof.
  destruct (JsMap.has m k) eqn:E.
  - split; [intros _ | done].
    destruct (decide (k ∈ JsMap.keys m)) as [|Hn]; [done|].
    apply has_false in Hn. congruence.
  - apply has_false in E. naive_solver.
Qed.

Lemma set_fresh m k v : k ∉ JsMap.keys m -> JsMap.set m k v = m ++ [(k, v)].
Proof.
  induction m as [|[k' v'] m IH]; simpl; [done|].
  rewrite not_elem_of_cons. intros [Hne Hn].
  destruct (decide (k' = k)); [congruence|]. by rewrite IH.
Qed.

Lemma set_keys_present m k v : k ∈ JsMap.keys m -> JsMap.keys (JsMap.set m k v) = JsMap.keys m.
Proof.
  induction m as [|[k' v'] m IH]; simpl.
  - intros Hin. by apply elem_of_nil in Hin.
  - intros Hin. destruct (decide (k' = k)) as [->|Hne]; simpl; [done|].
    apply elem_of_cons in Hin as [->|Hin]; [done|].
    unfold JsMap.keys in *. simpl. f_equal. by apply IH.
Qed.

Lemma set_size_le m k v : JsMap.size (JsMap.set m k v) <= S (JsMap.size m).
Proof.
  unfold JsMap.size. induction m as [|[k' v'] m IH]; simpl; [lia|].
  destruct (decide (k' = k)); simpl; lia.
Qed.

Lemma set_wf m k v : JsMap.wf m -> JsMap.wf (JsMap.set m k v).
Proof.
  unfold JsMap.wf. intros Hwf.
  destruct (decide (k ∈ JsMap.keys m)) as [Hin|Hn].
  - by rewrite set_keys_present.
  - rewrite set_fresh by done. unfold JsMap.keys. rewrite fmap_app. simpl.
    apply NoDup_app. split; [done|]. split.
    + intros x Hx Hx'. apply list_elem_of_singleton in Hx'. by subst.
    + apply NoDup_singleton.
Qed.

Lemma delete_first m k v : JsMap.delete ((k, v) :: m) k = m.
Proof. simpl. by destruct (decide (k = k)). Qed.

Lemma get_set_same m k v : JsMap.get (JsMap.set m k v) k = Some v.
Proof.
  induction m as [|[k' v'] m IH]; simpl.
  - by destruct (decide (k = k)).
  - destruct (decide (k' = k)) as [->|Hne]; simpl.
    + by destruct (decide (k = k)).
    + by destruct (decide (k' = k)).
Qed.

Lemma get_set_other m k k' v : k ≠ k' -> JsMap.get (JsMap.set m k v) k' = JsMap.get m k'.
Proof.
  intros Hne. induction m as [|[k0 v0] m IH]; simpl.
  - by destruct (decide (k = k')).
  - destruct (decide (k0 = k)) as [->|Hne0]; simpl.
    + by destruct (decide (k = k')).
    + destruct (decide (k0 = k')); [done|apply IH].
Qed.

End Facts.
End JsMapFacts.

Import JsMapFacts.

Import JsMapFacts.

Lemma truthy_Some s : truthy (Some s) = true <-> s ≠ EmptyString.
Proof.
  simpl. destruct (String.eqb_spec s EmptyString); simpl; split; congruence.
Qed.

Lemma nonEmpty_true s : nonEmpty s = true <-> s ≠ EmptyString.
Proof. apply truthy_Some. Qed.

Lemma nonEmpty_false s : nonEmpty s = false <-> s = EmptyString.
Proof.
  unfold nonEmpty. destruct (String.eqb_spec s EmptyString); simpl; split; congruence.
Qed.

(** The cases of [getCachedImage]. *)
Lemma getCachedImage_falsy url net cache :
  truthy url = false -> getCachedImage url net cache = (Normal None, cache).
Proof. intros E. unfold getCachedImage. by rewrite E. Qed.

Lemma getCachedImage_hit url net cache :
  truthy url = true -> JsMap.has cache (orEmpty url) = true ->
  getCachedImage url net cache = (Normal (JsMap.get cache (orEmpty url)), cache).
Proof.
  intros E Hhas. unfold getCachedImage. rewrite E. simpl.
  unfold eff_bind, eff_get. by rewrite Hhas.
Qed.

Lemma getCachedImage_miss_ok url base64 cache :
  truthy url = true -> JsMap.has cache (orEmpty url) = false ->
  getCachedImage url (FetchedData base64) cache =
    (Normal (Some base64), snd (storeImage (orEmpty url) base64 cache)).
Proof.
  intros E Hhas. unfold getCachedImage. rewrite E. simpl.
  unfold eff_bind, eff_get. by rewrite Hhas.
Qed.

Lemma getCachedImage_miss_rejected url reason cache :
  truthy url = true -> JsMap.has cache (orEmpty url) = false ->
  getCachedImage url (FetchRejected reason) cache = (Normal None, cache).
Proof.
  intros E Hhas. unfold getCachedImage. rewrite E. simpl.
  unfold eff_bind, eff_get. by rewrite Hhas.
Qed.

Lemma firstKey_cons {V} k (v : V) (m : JsMap.t V) :
  JsMap.firstKey ((k, v) :: m) = Some k.
Proof. reflexivity. Qed.

Lemma storeImage_full url base64 (cache : ImageCache) :
  JsMap.size cache = MAX_IMAGE_CACHE_SIZE -> url ∉ JsMap.keys cache ->
  snd (storeImage url base64 cache) = tail cache ++ [(url, base64)].
Proof.
  intros Hsize Hfresh. unfold storeImage, eff_modify. cbn [snd].
  rewrite Hsize, Nat.leb_refl.
  destruct cache as [|[k v] rest]; [discriminate Hsize|].
  rewrite firstKey_cons, delete_first. simpl tail.
  apply set_fresh. intros Hin. apply Hfresh. unfold JsMap.keys. simpl. by right.
Qed.

Lemma storeImage_room url base64 (cache : ImageCache) :
  JsMap.size cache < MAX_IMAGE_CACHE_SIZE -> url ∉ JsMap.keys cache ->
  snd (storeImage url base64 cache) = cache ++ [(url, base64)].
Proof.
  intros Hsize Hfresh. unfold storeImage, eff_modify. cbn [snd].
  destruct (Nat.leb_spec MAX_IMAGE_CACHE_SIZE (JsMap.size cache)); [lia|].
  by apply set_fresh.
Qed.

Lemma storeImage_size url base64 (cache : ImageCache) :
  JsMap.size cache <= MAX_IMAGE_CACHE_SIZE ->
  JsMap.size (snd (storeImage url base64 cache)) <= MAX_IMAGE_CACHE_SIZE.
Proof.
  intros Hsize. unfold storeImage, eff_modify. cbn [snd].
  destruct (Nat.leb_spec MAX_IMAGE_CACHE_SIZE (JsMap.size cache)) as [Hfull|Hroom].
  - destruct cache as [|[k v] rest]; [unfold MAX_IMAGE_CACHE_SIZE, JsMap.size in *; simpl in *; lia|].
    rewrite firstKey_cons, delete_first.
    pose proof (set_size_le rest url base64). unfold JsMap.size in *. simpl in *. lia.
  - pose proof (set_size_le cache url base64). lia.
Qed.

Lemma getCachedImage_size url net (cache : ImageCache) :
  JsMap.size cache <= MAX_IMAGE_CACHE_SIZE ->
  JsMap.size (snd (getCachedImage url net cache)) <= MAX_IMAGE_CACHE_SIZE.
Proof.
  intros Hsize. destruct (truthy url) eqn:E.
  - destruct (JsMap.has cache (orEmpty url)) eqn:Hhas.
    + by rewrite getCachedImage_hit.
    + destruct net.
      * rewrite getCachedImage_miss_ok by done. by apply storeImage_size.
      * by rewrite getCachedImage_miss_rejected.
  - by rewrite getCachedImage_falsy.
Qed.

Lemma reachable_size cache :
  CacheReachable cache -> JsMap.size cache <= MAX_IMAGE_CACHE_SIZE.
Proof.
  induction 1 as [|cache url net _ IH|cache url base64 _ IH|cache _ IH].
  - unfold MAX_IMAGE_CACHE_SIZE. simpl. lia.
  - by apply getCachedImage_size.
  - by apply storeImage_size.
  - unfold MAX_IMAGE_CACHE_SIZE. simpl. lia.
Qed.

Lemma cacheAfter_snoc ops op cache :
  cacheAfter (ops ++ [op]) cache =
  snd (getCachedImage (fst op) (snd op) (cacheAfter ops cache)).
Proof. unfold cacheAfter. by rewrite foldl_app. Qed.

Lemma tail_map_drop {A B} (f : A -> B) (n : nat) (l : list A) :
  tail (map f (drop n l)) = map f (drop (S n) l).
Proof.
  revert l. induction n as [|n IH]; intros [|a l]; simpl; done.
Qed.

(** Resolving distinct URLs, all fetched well, from the empty cache keeps
    the last 200 of them, in the order they came. *)
Lemma cacheAfter_window (data : string -> string) (us : list string) :
  NoDup us -> Forall (fun u => u ≠ EmptyString) us ->
  cacheAfter (map (fun u => (Some u, FetchedData (data u))) us) JsMap.empty =
  map (fun u => (u, data u)) (drop (length us - MAX_IMAGE_CACHE_SIZE) us).
Proof.
  assert (Hmax : 0 < MAX_IMAGE_CACHE_SIZE) by (unfold MAX_IMAGE_CACHE_SIZE; lia).
  induction us as [|u us IH] using rev_ind; [done|].
  intros Hnd Hne. apply NoDup_app in Hnd as (Hnd & Hdisj & _).
  apply Forall_app in Hne as [Hne Hu]. rewrite Forall_singleton in Hu.
  rewrite map_app. simpl (map _ [u]). rewrite cacheAfter_snoc. cbn [fst snd].
  rewrite IH by done. clear IH.
  set (kept := drop (length us - MAX_IMAGE_CACHE_SIZE) us).
  assert (Hfresh : u ∉ JsMap.keys (map (fun u0 => (u0, data u0)) kept)).
  { unfold JsMap.keys. rewrite <- list_fmap_compose.
    intros Hin. apply list_elem_of_fmap in Hin as (x & Heq & Hx).
    simpl in Heq. subst x.
    apply (Hdisj u); [by eapply subseteq_drop, Hx | by left]. }
  rewrite getCachedImage_miss_ok; [|by apply truthy_Some|by apply has_false].
  cbn [snd orEmpty]. rewrite length_app. simpl length.
  destruct (decide (length us < MAX_IMAGE_CACHE_SIZE)) as [Hlt|Hge].
  - rewrite storeImage_room; [| |done].
    + subst kept. replace (length us - MAX_IMAGE_CACHE_SIZE) with 0 by lia.
      replace (length us + 1 - MAX_IMAGE_CACHE_SIZE) with 0 by lia.
      rewrite !drop_0, map_app. done.
    + unfold JsMap.size. rewrite length_map. subst kept. rewrite length_drop. lia.
  - rewrite storeImage_full; [| |done].
    + subst kept.
      replace (length us + 1 - MAX_IMAGE_CACHE_SIZE)
        with (S (length us - MAX_IMAGE_CACHE_SIZE)) by lia.
      rewrite drop_app_le by lia.
      rewrite map_app. f_equal. apply tail_map_drop.
    + unfold JsMap.size. rewrite length_map. subst kept. rewrite length_drop. lia.
Qed.


(** C3: the image cache never holds more than 200 entries, whatever calls
    of the resolver (overlapping ones included) and clearings came before;
    resolving distinct URLs from the empty cache keeps exactly the last 200
    in insertion order, so the 201st evicts the first-inserted one; on a
    full cache a new key drops exactly the head entry and goes to the end;
    and a hit leaves the cache, hence the eviction order, as it is. *)
Theorem image_cache_bounded_fifo :
  (forall cache, CacheReachable cache -> JsMap.size cache <= 200) /\
  (forall (data : string -> string) (us : list string),
      NoDup us -> Forall (fun u => u ≠ EmptyString) us ->
      JsMap.keys
        (cacheAfter (map (fun u => (Some u, FetchedData (data u))) us) JsMap.empty)
      = drop (length us - 200) us) /\
  (forall (cache : ImageCache) url base64,
      JsMap.size cache = 200 -> url ≠ EmptyString -> JsMap.has cache url = false ->
      snd (getCachedImage (Some url) (FetchedData base64) cache)
      = tail cache ++ [(url, base64)]) /\
  (forall (cache : ImageCache) url net,
      JsMap.has cache url = true ->
      snd (getCachedImage (Some url) net cache) = cache).
Proof.
  split; [exact reachable_size|]. split; [|split].
  - intros data us Hnd Hne. rewrite cacheAfter_window by done.
    unfold JsMap.keys. rewrite <- list_fmap_compose. apply list_fmap_id.
  - intros cache url base64 Hsize Hne Hmiss.
    rewrite getCachedImage_miss_ok; [|by apply truthy_Some|done].
    apply storeImage_full; [done|by apply has_false].
  - intros cache url net Hhit. destruct (truthy (Some url)) eqn:E.
    + by rewrite getCachedImage_hit.
    + by rewrite getCachedImage_falsy.
Qed.

Lemma image_cache_bounded_fifo_witness :
  JsMap.size (cacheAfter [(Some "a", FetchedData "x"); (Some "a", FetchRejected "y")]
                JsMap.empty) <= 200 /\
  JsMap.keys
    (cacheAfter (map (fun u => (Some u, FetchedData (sampleData u))) sampleUrls)
       JsMap.empty) = drop 1 sampleUrls /\
  snd (getCachedImage (Some "https://cdn/201") (FetchedData "png") fullCache)
  = tail fullCache ++ [("https://cdn/201", "png")] /\
  snd (getCachedImage (Some "https://cdn/1") (FetchRejected "offline") fullCache)
  = fullCache.
Proof.
  destruct image_cache_bounded_fifo as (Hbound & Hwindow & Hfull & Hhit).
  split; [|split; [|split]].
  - apply Hbound. apply reach_resolve, reach_resolve, reach_empty.
  - apply (Hwindow sampleData sampleUrls).
    + apply (bool_decide_unpack _). vm_compute. exact I.
    + apply (bool_decide_unpack _). vm_compute. exact I.
  - apply Hfull; [reflexivity| discriminate | reflexivity].
  - apply Hhit. reflexivity.
Defined.

(** C10: the resolver never throws; it answers null for an empty or absent
    URL and for a rejected fetch or decoding; an answer of null leaves the
    cache exactly as it was; and whenever the cache does change the fetch
    had succeeded and its data is what was stored. *)
Theorem getCachedImage_never_throws :
  forall (url : JsStr) (net : Fetched) (cache : ImageCache),
    (exists r, fst (getCachedImage url net cache) = Normal r) /\
    (truthy url = false -> getCachedImage url net cache = (Normal None, cache)) /\
    (forall reason,
        net = FetchRejected reason -> JsMap.has cache (orEmpty url) = false ->
        getCachedImage url net cache = (Normal None, cache)) /\
    (fst (getCachedImage url net cache) = Normal None ->
     snd (getCachedImage url net cache) = cache) /\
    (snd (getCachedImage url net cache) ≠ cache ->
     exists base64,
       net = FetchedData base64 /\
       fst (getCachedImage url net cache) = Normal (Some base64) /\
       JsMap.get (snd (getCachedImage url net cache)) (orEmpty url) = Some base64).
Proof.
  intros url net cache.
  destruct (truthy url) eqn:E.
  - destruct (JsMap.has cache (orEmpty url)) eqn:Hhas.
    + rewrite getCachedImage_hit by done. simpl.
      repeat split; try done; eauto.
    + destruct net as [base64|reason].
      * rewrite getCachedImage_miss_ok by done. simpl.
        repeat split; try done; eauto.
        intros _. exists base64. repeat split.
        unfold storeImage, eff_modify. cbn [snd]. apply get_set_same.
      * rewrite getCachedImage_miss_rejected by done. simpl.
        repeat split; try done; eauto.
  - rewrite getCachedImage_falsy by done. simpl. repeat split; try done; eauto.
Qed.

Lemma getCachedImage_never_throws_witness :
  getCachedImage None (FetchedData "x") [("a", "x")] = (Normal None, [("a", "x")]) /\
  getCachedImage (Some "u") (FetchRejected "offline") fullCache = (Normal None, fullCache).
Proof.
  split.
  - apply (getCachedImage_never_throws None (FetchedData "x") [("a", "x")]).
    reflexivity.
  - apply (proj1 (proj2 (proj2
             (getCachedImage_never_throws (Some "u") (FetchRejected "offline") fullCache)))
             "offline"); reflexivity.
Defined.

(** ** The extractor *)

Lemma length_pos_false {A} (l : list A) : (0 <? length l) = false <-> l = [].
Proof. destruct l; unfold Nat.ltb; simpl; split; congruence. Qed.

Lemma negb_true b : negb b = true <-> b = false.
Proof. destruct b; simpl; split; congruence. Qed.

Section ExtractorFacts.
Context `{host : Host}.

(** The four tests of an emptiness rule, read as equations. *)
Lemma all_empty_iff {A B} (s1 s2 : string) (l1 : list A) (l2 : list B) :
  negb (nonEmpty s1) && negb (0 <? length l1) && negb (0 <? length l2) &&
  negb (nonEmpty s2) = true <->
  s1 = EmptyString /\ l1 = [] /\ l2 = [] /\ s2 = EmptyString.
Proof.
  rewrite !andb_true_iff, !negb_true, !nonEmpty_false, !length_pos_false.
  tauto.
Qed.

Lemma extractEmbedData_None embedEl options :
  extractEmbedData (Some embedEl) options = None <->
  embedTitle embedEl = EmptyString /\ embedDescription embedEl = EmptyString /\
  embedFields embedEl = [] /\ truthy (embedImage options embedEl) = false.
Proof.
  unfold extractEmbedData. cbn [title description fields image].
  destruct (negb (nonEmpty (embedTitle embedEl)) && _ && _ && _) eqn:E.
  - split; [intros _|done].
    rewrite !andb_true_iff, !negb_true, !nonEmpty_false, length_pos_false in E.
    tauto.
  - split; [done|]. intros (Ht & Hd & Hf & Hi).
    rewrite Ht, Hd, Hf, Hi in E. discriminate E.
Qed.

Lemma extractMessageData_None messageEl options uc :
  fst (extractMessageData (Some messageEl) options uc) = None <->
  fst (messageContent (me_view messageEl)) = EmptyString /\
  messageImages options (me_view messageEl) = [] /\
  extractEmbeds (me_view messageEl) options = [] /\
  fst (fst (resolveAuthor messageEl uc)) = EmptyString.
Proof.
  unfold extractMessageData.
  destruct (resolveAuthor messageEl uc) as [[data_username data_color] uc1].
  destruct (if includeAvatars options then _ else _) as [data_avatar uc2].
  cbn [content images embeds username fst].
  destruct (negb (nonEmpty _) && _ && _ && _) eqn:E; cbn [fst].
  - split; [intros _|done]. by apply all_empty_iff.
  - split; [done|]. intros Hall. apply all_empty_iff in Hall. congruence.
Qed.

Lemma extractMessageData_Some messageEl options uc data :
  fst (extractMessageData (Some messageEl) options uc) = Some data ->
  msg_id data = getMessageId (Some (me_view messageEl)) /\
  content data = fst (messageContent (me_view messageEl)) /\
  images data = messageImages options (me_view messageEl) /\
  embeds data = extractEmbeds (me_view messageEl) options /\
  username data = fst (fst (resolveAuthor messageEl uc)).
Proof.
  unfold extractMessageData.
  destruct (resolveAuthor messageEl uc) as [[data_username data_color] uc1].
  destruct (if includeAvatars options then _ else _) as [data_avatar uc2].
  cbn [content images embeds username fst].
  destruct (negb (nonEmpty _) && _ && _ && _) eqn:E; cbn [fst]; [done|].
  intros [= <-]. by cbn.
Qed.

(** A record the extractor returns is never empty in all four respects. *)
Lemma extractMessageData_keeps messageEl options uc data :
  fst (extractMessageData (Some messageEl) options uc) = Some data ->
  keepsSomething data.
Proof.
  intros Hsome (Hc & Hi & He & Hu).
  destruct (extractMessageData_Some _ _ _ _ Hsome) as (_ & Ec & Ei & Ee & Eu).
  assert (Hnone : fst (extractMessageData (Some messageEl) options uc) = None).
  { apply extractMessageData_None. rewrite <- Ec, <- Ei, <- Ee, <- Eu. done. }
  congruence.
Qed.

End ExtractorFacts.

(** ** The collection loop *)

Arguments extractMessageData : simpl never.
Arguments getMessageId : simpl never.
Arguments collectMessage : simpl never.
Arguments queryMessages : simpl never.
Arguments getElementById : simpl never.

Section GrowthFacts.
Context `{host : Host}.
Variable options : ExportOptions.

Lemma StoreGrows_trans s1 s2 s3 :
  StoreGrows options s1 s2 -> StoreGrows options s2 s3 -> StoreGrows options s1 s3.
Proof.
  intros H12 H23. induction H23 as [|s2 s3 msgId msgEl uc data _ IH Hhas Hid Hex].
  - done.
  - eapply grows_add; eauto.
Qed.

Lemma StoreGrows_prefix s s' : StoreGrows options s s' -> s `prefix_of` s'.
Proof.
  induction 1 as [|s s' msgId msgEl uc data _ IH _ _ _]; [done|].
  by apply prefix_app_r.
Qed.

Lemma StoreGrows_wf s s' : StoreGrows options s s' -> JsMap.wf s -> JsMap.wf s'.
Proof.
  induction 1 as [|s s' msgId msgEl uc data _ IH Hhas _ _]; [done|].
  intros Hwf. specialize (IH Hwf).
  rewrite <- (set_fresh s' msgId data) by (by apply has_false).
  by apply set_wf.
Qed.

Lemma StoreGrows_entries s s' :
  StoreGrows options s s' -> Forall entryOk s -> Forall entryOk s'.
Proof.
  induction 1 as [|s s' msgId msgEl uc data _ IH _ Hid Hex]; [done|].
  intros Hall. apply Forall_app. split; [by apply IH|].
  apply Forall_singleton. split; simpl.
  - destruct (extractMessageData_Some _ _ _ _ Hex) as (-> & _). done.
  - by eapply extractMessageData_keeps.
Qed.

End GrowthFacts.

Section ScanFacts.
Context `{host : Host}.
Variable startFromId endAtId : JsStr.
Variable options : ExportOptions.

(** An id the store holds already is passed over: nothing is extracted
    and nothing changes. *)
Lemma collectMessage_known msgId msgEl st :
  JsMap.has (collectedMessages st) msgId = true ->
  collectMessage options msgId msgEl st = st.
Proof. intros Hhas. unfold collectMessage. by rewrite Hhas. Qed.

Lemma collectMessage_flags msgId msgEl st :
  foundStartMessage (collectMessage options msgId msgEl st) = foundStartMessage st /\
  foundEndMessage (collectMessage options msgId msgEl st) = foundEndMessage st /\
  reachedBottom (collectMessage options msgId msgEl st) = reachedBottom st.
Proof.
  unfold collectMessage.
  destruct (negb _); [|done].
  by destruct (extractMessageData (Some msgEl) options (users st)) as [[data|] uc].
Qed.

Lemma collectMessage_grows msgId msgEl st :
  getMessageId (Some (me_view msgEl)) = Some msgId ->
  StoreGrows options (collectedMessages st)
    (collectedMessages (collectMessage options msgId msgEl st)).
Proof.
  intros Hid. unfold collectMessage.
  destruct (JsMap.has (collectedMessages st) msgId) eqn:Hhas; cbn [negb]; [constructor|].
  destruct (extractMessageData (Some msgEl) options (users st)) as [[data|] uc] eqn:Hex;
    cbn [collectedMessages]; [|constructor].
  rewrite set_fresh by (by apply has_false).
  eapply grows_add; [constructor|done|done|].
  by rewrite Hex.
Qed.

Lemma scanMessages_grows startElement endElement messageArray st :
  StoreGrows options (collectedMessages st)
    (collectedMessages
       (scanMessages startFromId endAtId options startElement endElement messageArray st)).
Proof.
  revert st. induction messageArray as [|[pos msgEl] rest IH]; intros st; simpl.
  - constructor.
  - destruct (getMessageId (Some (me_view msgEl))) as [msgId|] eqn:Hid; [|apply IH].
    repeat case_match; simpl;
      try apply IH; try constructor;
      try (eapply StoreGrows_trans; [|apply IH]);
      try (apply (collectMessage_grows msgId msgEl (markStart st)); done);
      try (apply collectMessage_grows; done).
    apply (collectMessage_grows msgId msgEl (markEnd st)); done.
Qed.

Lemma sweepAll_grows snap st :
  StoreGrows options (collectedMessages st)
    (collectedMessages (sweepAll options snap st)).
Proof.
  unfold sweepAll. generalize (queryMessages snap). intros l. revert st.
  induction l as [|[pos msgEl] rest IH]; intros st; simpl; [constructor|].
  eapply StoreGrows_trans; [|apply IH].
  destruct (getMessageId (Some (me_view msgEl))) as [msgId|] eqn:Hid; [|constructor].
  by apply collectMessage_grows.
Qed.

End ScanFacts.

Section LoopFacts.
Context `{host : Host}.
Variable startFromId endAtId : JsStr.
Variable options : ExportOptions.
Variable page : Page.

Lemma flagsOk_collect msgId msgEl st :
  flagsOk st -> flagsOk (collectMessage options msgId msgEl st).
Proof.
  unfold flagsOk.
  by destruct (collectMessage_flags options msgId msgEl st) as (_ & -> & ->).
Qed.

Lemma flagsOk_markStart st : flagsOk st -> flagsOk (markStart st).
Proof. done. Qed.

Lemma flagsOk_markBottom st : flagsOk (markBottom st).
Proof. done. Qed.

Lemma scanMessages_flagsOk startElement endElement messageArray st :
  flagsOk st ->
  flagsOk (scanMessages startFromId endAtId options startElement endElement messageArray st).
Proof.
  revert st. induction messageArray as [|[pos msgEl] rest IH]; intros st Hok; simpl; [done|].
  destruct (getMessageId (Some (me_view msgEl))) as [msgId|]; [|by apply IH].
  repeat case_match;
    eauto using flagsOk_collect, flagsOk_markStart, flagsOk_markBottom.
Qed.

Lemma collectLoop_unfold fuel st :
  collectLoop startFromId endAtId options page (S fuel) st =
  if goesOn st then
    match loopBody startFromId endAtId options page st with
    | inl st' => collectLoop startFromId endAtId options page fuel st'
    | inr st' => st'
    end
  else st.
Proof. reflexivity. Qed.

Lemma collectLoop_done fuel st :
  goesOn st = false -> collectLoop startFromId endAtId options page fuel st = st.
Proof. intros Hdone. destruct fuel; [done|]. by rewrite collectLoop_unfold, Hdone. Qed.

(** What one turn of the loop does to the counters and the store. *)
Lemma loopBody_inl st st' :
  loopBody startFromId endAtId options page st = inl st' ->
  scrollAttempts st' = S (scrollAttempts st) /\
  waits st' = S (waits st) /\
  current st' = settled page (S (waits st)) /\
  scan st' = scanSnapshot startFromId endAtId options (current st) (scan st) /\
  foundEndMessage (scan st') = false.
Proof.
  unfold loopBody.
  destruct (foundEndMessage (scanSnapshot _ _ _ _ _)) eqn:Hend; [done|].
  destruct (stallStep _ _ _ _ _) as [count stop]. destruct stop; [done|].
  intros [= <-]. by cbn.
Qed.

Lemma loopBody_inr st st' :
  loopBody startFromId endAtId options page st = inr st' ->
  scrollAttempts st' = S (scrollAttempts st) /\
  collectedMessages (scan st') =
    collectedMessages (scanSnapshot startFromId endAtId options (current st) (scan st)) /\
  users (scan st') =
    users (scanSnapshot startFromId endAtId options (current st) (scan st)) /\
  (flagsOk (scan st) -> reachedBottom (scan st') = true).
Proof.
  unfold loopBody.
  destruct (foundEndMessage (scanSnapshot _ _ _ _ _)) eqn:Hend.
  - intros [= <-]. cbn. repeat split; try done.
    intros Hok. by apply (scanMessages_flagsOk _ _ _ _ Hok).
  - destruct (stallStep _ _ _ _ _) as [count stop]. destruct stop; [|done].
    intros [= <-]. by cbn.
Qed.

Lemma loopBody_flagsOk st st' :
  flagsOk (scan st) ->
  loopBody startFromId endAtId options page st = inl st' -> flagsOk (scan st').
Proof.
  intros Hok Hbody. destruct (loopBody_inl _ _ Hbody) as (_ & _ & _ & -> & _).
  by apply scanMessages_flagsOk.
Qed.

Lemma collectLoop_flagsOk fuel st :
  flagsOk (scan st) ->
  flagsOk (scan (collectLoop startFromId endAtId options page fuel st)).
Proof.
  revert st. induction fuel as [|fuel IH]; intros st Hok; [done|].
  rewrite collectLoop_unfold. destruct (goesOn st); [|done].
  destruct (loopBody startFromId endAtId options page st) as [st'|st'] eqn:Hbody.
  - apply IH. by eapply loopBody_flagsOk.
  - intros _. by apply (loopBody_inr _ _ Hbody).
Qed.

(** Running on from where a shorter run stopped is running the longer run. *)
Lemma collectLoop_app n m st :
  flagsOk (scan st) ->
  collectLoop startFromId endAtId options page (n + m) st =
  collectLoop startFromId endAtId options page m
    (collectLoop startFromId endAtId options page n st).
Proof.
  revert st. induction n as [|n IH]; intros st Hok; [done|].
  cbn [Nat.add]. rewrite !collectLoop_unfold.
  destruct (goesOn st) eqn:Hgo; [|by rewrite collectLoop_done].
  destruct (loopBody startFromId endAtId options page st) as [st'|st'] eqn:Hbody.
  - apply IH. by eapply loopBody_flagsOk.
  - rewrite collectLoop_done; [done|].
    unfold goesOn. destruct (loopBody_inr _ _ Hbody) as (_ & _ & _ & Hb).
    rewrite (Hb Hok). by rewrite andb_false_r.
Qed.

(** The loop never goes round more than [maxScrollAttempts] times. *)
Lemma collectLoop_attempts fuel st :
  scrollAttempts st <= CONFIG.maxScrollAttempts ->
  scrollAttempts (collectLoop startFromId endAtId options page fuel st)
  <= CONFIG.maxScrollAttempts.
Proof.
  revert st. induction fuel as [|fuel IH]; intros st Hle; [done|].
  rewrite collectLoop_unfold. destruct (goesOn st) eqn:Hgo; [|done].
  unfold goesOn in Hgo. apply andb_true_iff in Hgo as [Hlt _].
  apply Nat.ltb_lt in Hlt.
  destruct (loopBody startFromId endAtId options page st) as [st'|st'] eqn:Hbody.
  - apply IH. destruct (loopBody_inl _ _ Hbody) as (-> & _). lia.
  - destruct (loopBody_inr _ _ Hbody) as (-> & _). lia.
Qed.

(** With fuel for every attempt that is left, the loop has really ended
    when the unfolding stops. *)
Lemma collectLoop_ended fuel st :
  flagsOk (scan st) ->
  CONFIG.maxScrollAttempts <= scrollAttempts st + fuel ->
  goesOn (collectLoop startFromId endAtId options page fuel st) = false.
Proof.
  revert st. induction fuel as [|fuel IH]; intros st Hok Hfuel.
  - simpl. unfold goesOn.
    destruct (Nat.ltb_spec (scrollAttempts st) CONFIG.maxScrollAttempts); [lia|done].
  - rewrite collectLoop_unfold. destruct (goesOn st) eqn:Hgo; [|done].
    destruct (loopBody startFromId endAtId options page st) as [st'|st'] eqn:Hbody.
    + apply IH; [by eapply loopBody_flagsOk|].
      destruct (loopBody_inl _ _ Hbody) as (-> & _). lia.
    + unfold goesOn. destruct (loopBody_inr _ _ Hbody) as (_ & _ & _ & Hb).
      rewrite (Hb Hok). by rewrite andb_false_r.
Qed.

Lemma collectLoop_more_fuel fuel extra st :
  flagsOk (scan st) ->
  CONFIG.maxScrollAttempts <= scrollAttempts st + fuel ->
  collectLoop startFromId endAtId options page (fuel + extra) st =
  collectLoop startFromId endAtId options page fuel st.
Proof.
  intros Hok Hfuel. rewrite collectLoop_app by done.
  apply collectLoop_done. by apply collectLoop_ended.
Qed.

Lemma collectLoop_grows fuel st :
  StoreGrows options (collectedMessages (scan st))
    (collectedMessages (scan (collectLoop startFromId endAtId options page fuel st))).
Proof.
  revert st. induction fuel as [|fuel IH]; intros st; [constructor|].
  rewrite collectLoop_unfold. destruct (goesOn st); [|constructor].
  destruct (loopBody startFromId endAtId options page st) as [st'|st'] eqn:Hbody.
  - eapply StoreGrows_trans; [|apply IH].
    destruct (loopBody_inl _ _ Hbody) as (_ & _ & _ & -> & _).
    apply scanMessages_grows.
  - destruct (loopBody_inr _ _ Hbody) as (_ & -> & _).
    apply scanMessages_grows.
Qed.

Lemma finishCollection_grows st :
  StoreGrows options (collectedMessages (scan st))
    (collectedMessages (finishCollection startFromId options st)).
Proof.
  unfold finishCollection. destruct (_ && _); [apply sweepAll_grows|constructor].
Qed.

Lemma seekStart_flagsOk uc sent :
  flagsOk (scan (seekStart startFromId page uc sent)).
Proof.
  unfold seekStart.
  destruct (negb (truthy startFromId)); [done|].
  by destruct (getElementById (entry page) startFromId).
Qed.

Lemma seekStart_store uc sent :
  collectedMessages (scan (seekStart startFromId page uc sent)) = JsMap.empty /\
  scrollAttempts (seekStart startFromId page uc sent) = 0.
Proof.
  unfold seekStart.
  destruct (negb (truthy startFromId)); [done|].
  by destruct (getElementById (entry page) startFromId).
Qed.

End LoopFacts.

(** ** Runs of the collection *)

Section RunFacts.
Context `{host : Host}.
Variable startFromId endAtId : JsStr.
Variable options : ExportOptions.
Variable page : Page.

Lemma collectLoop_le_grows n m st :
  flagsOk (scan st) -> n <= m ->
  StoreGrows options
    (collectedMessages (scan (collectLoop startFromId endAtId options page n st)))
    (collectedMessages (scan (collectLoop startFromId endAtId options page m st))).
Proof.
  intros Hok Hle. replace m with (n + (m - n)) by lia.
  rewrite collectLoop_app by done. apply collectLoop_grows.
Qed.

Lemma collectLoop_ge_same n m st :
  flagsOk (scan st) -> CONFIG.maxScrollAttempts <= scrollAttempts st + m -> m <= n ->
  collectLoop startFromId endAtId options page n st =
  collectLoop startFromId endAtId options page m st.
Proof.
  intros Hok Hfuel Hle. replace n with (m + (n - m)) by lia.
  by apply collectLoop_more_fuel.
Qed.

Lemma runLoopFor_grows n sent :
  StoreGrows options
    (collectedMessages (scan (runLoopFor startFromId endAtId options page n sent)))
    (collectedMessages (scan (runLoop startFromId endAtId options page sent))).
Proof.
  unfold runLoopFor, runLoop.
  set (init := seekStart startFromId page userCache.reset sent).
  assert (Hok : flagsOk (scan init)) by apply seekStart_flagsOk.
  assert (Hzero : scrollAttempts init = 0) by apply seekStart_store.
  destruct (decide (n <= CONFIG.maxScrollAttempts)) as [Hle|Hgt].
  - by apply collectLoop_le_grows.
  - rewrite (collectLoop_ge_same n CONFIG.maxScrollAttempts) by (done || lia).
    constructor.
Qed.

Lemma runLoop_from_empty sent :
  StoreGrows options JsMap.empty
    (collectedMessages
       (finishCollection startFromId options
          (runLoop startFromId endAtId options page sent))).
Proof.
  eapply StoreGrows_trans; [|apply finishCollection_grows].
  unfold runLoop.
  rewrite <- (proj1 (seekStart_store startFromId page userCache.reset sent)).
  apply collectLoop_grows.
Qed.

(** The records of a run, when there is a scroller to run on. *)
Lemma scrollAndCollectMessages_Normal w msgs :
  fst (scrollAndCollectMessages page startFromId endAtId options w) = Normal msgs ->
  msgs = JsMap.values
           (collectedMessages
              (finishCollection startFromId options
                 (runLoop startFromId endAtId options page (w_sink w)))).
Proof.
  unfold scrollAndCollectMessages. destruct (hasScroller page); simpl; [|done].
  by intros [= <-].
Qed.

Lemma scrollAndCollectMessages_Thrown w e :
  fst (scrollAndCollectMessages page startFromId endAtId options w) = Thrown e ->
  hasScroller page = false /\ e = "Could not find messages scroller".
Proof.
  unfold scrollAndCollectMessages. destruct (hasScroller page); simpl; [done|].
  by intros [= <-].
Qed.

Lemma collected_wf w msgs :
  fst (scrollAndCollectMessages page startFromId endAtId options w) = Normal msgs ->
  exists store : Store,
    msgs = JsMap.values store /\ JsMap.wf store /\ Forall entryOk store.
Proof.
  intros Hrun. apply scrollAndCollectMessages_Normal in Hrun.
  eexists. split; [exact Hrun|].
  pose proof (runLoop_from_empty (w_sink w)) as Hgrows. split.
  - eapply StoreGrows_wf; [exact Hgrows|]. apply NoDup_nil_2.
  - eapply StoreGrows_entries; [exact Hgrows|]. constructor.
Qed.

End RunFacts.

Lemma prefix_of_fmap {A B} (f : A -> B) (l1 l2 : list A) :
  l1 `prefix_of` l2 -> f <$> l1 `prefix_of` f <$> l2.
Proof. intros [k ->]. exists (f <$> k). apply fmap_app. Qed.

Lemma values_ids (store : Store) :
  Forall entryOk store -> map msg_id (JsMap.values store) = map Some (JsMap.keys store).
Proof.
  induction store as [|[k d] store IH]; intros Hall; [done|].
  apply Forall_cons in Hall as [[Hid _] Hrest].
  unfold JsMap.values, JsMap.keys in *. cbn in *. rewrite Hid. f_equal. by apply IH.
Qed.

(** ** Export entry points *)

Section Completes.
Context {S : Type}.

Lemma completes_ret {A} (a : A) : completes (eff_ret (S := S) a).
Proof. intros s. by eexists _, _. Qed.

Lemma completes_bind {A B} (c : Eff S A) (k : A -> Eff S B) :
  completes c -> (forall a, completes (k a)) -> completes (eff_bind c k).
Proof.
  intros Hc Hk s. unfold eff_bind.
  destruct (Hc s) as (a & s' & ->). apply Hk.
Qed.

Lemma completes_modify (f : S -> S) : completes (eff_modify f).
Proof. intros s. by eexists _, _. Qed.

Lemma completes_get : completes (eff_get (S := S)).
Proof. intros s. by eexists _, _. Qed.

Lemma completes_try {A} (body : Eff S A) (handler : string -> Eff S A) :
  (forall e, completes (handler e)) -> completes (eff_try body handler).
Proof.
  intros Hh s. unfold eff_try.
  destruct (body s) as [[a|e] s']; [by eexists _, _|apply Hh].
Qed.

End Completes.

Lemma completes_onImages {A} (c : Eff ImageCache A) :
  completes c -> completes (onImages c).
Proof.
  intros Hc w. unfold onImages. destruct (Hc (w_images w)) as (a & cache & ->).
  by eexists _, _.
Qed.

Lemma completes_getCachedImage url net : completes (getCachedImage url net).
Proof.
  intros cache. destruct (truthy url) eqn:E.
  - destruct (JsMap.has cache (orEmpty url)) eqn:Hhas.
    + rewrite getCachedImage_hit by done. by eexists _, _.
    + destruct net as [base64|reason].
      * rewrite getCachedImage_miss_ok by done. by eexists _, _.
      * rewrite getCachedImage_miss_rejected by done. by eexists _, _.
  - rewrite getCachedImage_falsy by done. by eexists _, _.
Qed.

Section ExportFacts.
Context `{host : Host}.
Variable page : Page.

Lemma completes_fetchBatch batch : completes (fetchBatch page batch).
Proof.
  induction batch as [|u rest IH]; simpl; [apply completes_ret|].
  apply completes_bind; [|done].
  apply completes_onImages, completes_try. intros _. apply completes_ret.
Qed.

Lemma completes_prefetch fuel i urlArray : completes (prefetch page fuel i urlArray).
Proof.
  revert i. induction fuel as [|fuel IH]; intros i; simpl; [apply completes_ret|].
  destruct (i <? length urlArray); [|apply completes_ret].
  apply completes_bind; [apply completes_fetchBatch|intros _].
  apply completes_bind; [apply completes_modify|intros _]. apply IH.
Qed.

Lemma completes_renderMessages options messages i total lastUsername :
  completes (renderMessages options messages i total lastUsername).
Proof.
  revert i lastUsername.
  induction messages as [|msg rest IH]; intros i lastUsername; simpl; [apply completes_ret|].
  apply completes_bind; [apply completes_get|intros w].
  apply completes_bind.
  - destruct (_ && _); [apply completes_modify|apply completes_ret].
  - intros _. apply completes_bind; [apply IH|intros more]. apply completes_ret.
Qed.

Lemma completes_generatePDFContent messages options :
  completes (generatePDFContent page messages options).
Proof.
  unfold generatePDFContent.
  apply completes_bind; [apply completes_onImages, completes_modify|intros _].
  apply completes_bind; [apply completes_prefetch|intros _].
  apply completes_bind; [apply completes_renderMessages|intros parts].
  apply completes_bind; [apply completes_onImages, completes_modify|intros _].
  apply completes_ret.
Qed.

Lemma exportToPDF_completes selStart selEnd options :
  completes (exportToPDF page selStart selEnd options).
Proof. apply completes_try. intros e. apply completes_ret. Qed.

Lemma exportToMarkdown_completes selStart selEnd options :
  completes (exportToMarkdown page selStart selEnd options).
Proof. apply completes_try. intros e. apply completes_ret. Qed.

(** The world in which the collection of an export starts. *)
Lemma exportToPDF_cases selStart selEnd options w :
  let started := snd (sendProgress 10 "Starting export..." w) in
  fst (exportToPDF page selStart selEnd options w) =
  match fst (scrollAndCollectMessages page selStart selEnd (mergeOptions options) started) with
  | Thrown e => Normal (ExportFailed e)
  | Normal msgs =>
      if length msgs =? 0 then Normal (ExportFailed "No messages found to export")
      else if opensWindow page then Normal (ExportOk (length msgs))
      else Normal (ExportFailed "Cannot read properties of null (reading 'document')")
  end.
Proof.
  intros started. unfold exportToPDF, eff_try, eff_bind at 1 2.
  change (sendProgress 10 "Starting export..." w) with (Normal tt, started).
  cbn iota.
  destruct (scrollAndCollectMessages page selStart selEnd (mergeOptions options) started)
    as [[msgs|e] w1]; cbn [fst]; [|done].
  unfold eff_bind at 1.
  destruct (length msgs =? 0); [done|]. unfold eff_ret at 1. cbn iota.
  unfold eff_bind at 1. unfold sendProgress at 1, eff_modify at 1. cbn iota.
  unfold eff_bind at 1.
  match goal with |- context [generatePDFContent page msgs ?o ?w] =>
    destruct (completes_generatePDFContent msgs o w) as (html & w2 & ->) end.
  unfold eff_bind at 1. unfold sendProgress at 1, eff_modify at 1. cbn iota.
  unfold eff_bind at 1.
  by destruct (opensWindow page).
Qed.

Lemma exportToMarkdown_cases selStart selEnd options w :
  let started := snd (sendProgress 10 "Starting export..." w) in
  fst (exportToMarkdown page selStart selEnd options w) =
  match fst (scrollAndCollectMessages page selStart selEnd (mergeOptions options) started) with
  | Thrown e => Normal (ExportFailed e)
  | Normal msgs =>
      if length msgs =? 0 then Normal (ExportFailed "No messages found to export")
      else Normal (ExportOk (length msgs))
  end.
Proof.
  intros started. unfold exportToMarkdown, eff_try, eff_bind at 1 2.
  change (sendProgress 10 "Starting export..." w) with (Normal tt, started).
  cbn iota.
  destruct (scrollAndCollectMessages page selStart selEnd (mergeOptions options) started)
    as [[msgs|e] w1]; cbn [fst]; [|done].
  unfold eff_bind at 1.
  by destruct (length msgs =? 0).
Qed.

End ExportFacts.

(** C8: both export entry points always complete with a structured result
    and never let an error through. When no scrollable list is found the
    result is a failure carrying the collector's error; when the
    collection is empty it is a failure carrying the empty-result error;
    a success carries the number of collected messages, and a non-empty
    collection succeeds (for the PDF, when the print window opens). *)
Theorem export_results_structured :
  forall (host : Host) (page : Page) (selStart selEnd : JsStr)
         (options : PartialOptions) (w : World),
    let collected :=
      fst (scrollAndCollectMessages page selStart selEnd (mergeOptions options)
             (snd (sendProgress 10 "Starting export..." w))) in
    (exists r w', exportToPDF page selStart selEnd options w = (Normal r, w')) /\
    (exists r w', exportToMarkdown page selStart selEnd options w = (Normal r, w')) /\
    (hasScroller page = false ->
     fst (exportToPDF page selStart selEnd options w)
       = Normal (ExportFailed "Could not find messages scroller") /\
     fst (exportToMarkdown page selStart selEnd options w)
       = Normal (ExportFailed "Could not find messages scroller")) /\
    (collected = Normal [] ->
     fst (exportToPDF page selStart selEnd options w)
       = Normal (ExportFailed "No messages found to export") /\
     fst (exportToMarkdown page selStart selEnd options w)
       = Normal (ExportFailed "No messages found to export")) /\
    (forall msgs,
        collected = Normal msgs -> msgs <> [] ->
        fst (exportToMarkdown page selStart selEnd options w)
          = Normal (ExportOk (length msgs)) /\
        (opensWindow page = true ->
         fst (exportToPDF page selStart selEnd options w)
           = Normal (ExportOk (length msgs)))) /\
    (forall n,
        fst (exportToPDF page selStart selEnd options w) = Normal (ExportOk n) \/
        fst (exportToMarkdown page selStart selEnd options w) = Normal (ExportOk n) ->
        exists msgs, collected = Normal msgs /\ n = length msgs).
Proof.
  intros host page selStart selEnd options w collected.
  pose proof (exportToPDF_cases page selStart selEnd options w) as Hpdf.
  pose proof (exportToMarkdown_cases page selStart selEnd options w) as Hmd.
  cbv zeta in Hpdf, Hmd. fold collected in Hpdf, Hmd.
  split; [apply exportToPDF_completes|]. split; [apply exportToMarkdown_completes|].
  split; [|split; [|split]].
  - intros Hnone. rewrite Hpdf, Hmd. subst collected.
    unfold scrollAndCollectMessages. by rewrite Hnone.
  - intros Hempty. rewrite Hpdf, Hmd, Hempty. done.
  - intros msgs Hmsgs Hne. rewrite Hpdf, Hmd, Hmsgs.
    destruct msgs as [|m msgs]; [done|]. cbn [length Nat.eqb].
    split; [done|]. by intros ->.
  - intros n Hok. rewrite Hpdf, Hmd in Hok.
    destruct collected as [msgs|e]; [|by destruct Hok].
    exists msgs. split; [done|].
    destruct (length msgs =? 0); [by destruct Hok|].
    destruct (opensWindow page); destruct Hok as [Hok|Hok]; congruence.
Qed.

Lemma export_results_structured_witness :
  fst (exportToPDF (host := plainHost) noScrollerPage None None noOptions freshWorld)
    = Normal (ExportFailed "Could not find messages scroller") /\
  fst (exportToMarkdown (host := plainHost) (stillPage [blankMessage]) None None noOptions
         freshWorld)
    = Normal (ExportFailed "No messages found to export") /\
  fst (exportToPDF (host := plainHost) (stillPage sampleChannel) None None noOptions
         freshWorld)
    = Normal (ExportOk 5).
Proof.
  split; [|split].
  - apply (export_results_structured plainHost noScrollerPage None None noOptions
             freshWorld). reflexivity.
  - apply (export_results_structured plainHost (stillPage [blankMessage]) None None
             noOptions freshWorld). vm_compute. reflexivity.
  - apply (proj2 (proj2 (proj2 (proj2
             (export_results_structured plainHost (stillPage sampleChannel) None None
                noOptions freshWorld)))))
      with (msgs := match fst sampleRun with Normal l => l | Thrown _ => [] end).
    + vm_compute. reflexivity.
    + vm_compute. discriminate.
    + reflexivity.
Defined.

(** ** Progress messages *)

Lemma addsToSink_ret {A} (a : A) : addsToSink (eff_ret a).
Proof. intros w. done. Qed.

Lemma addsToSink_throw {A} e : addsToSink (eff_throw (A := A) e).
Proof. intros w. done. Qed.

Lemma addsToSink_get : addsToSink eff_get.
Proof. intros w. done. Qed.

Lemma addsToSink_bind {A B} (c : Eff World A) (k : A -> Eff World B) :
  addsToSink c -> (forall a, addsToSink (k a)) -> addsToSink (eff_bind c k).
Proof.
  intros Hc Hk w. unfold eff_bind. specialize (Hc w).
  destruct (c w) as [[a|e] w1]; [|done].
  etrans; [exact Hc|apply Hk].
Qed.

Lemma addsToSink_try {A} (body : Eff World A) (handler : string -> Eff World A) :
  addsToSink body -> (forall e, addsToSink (handler e)) ->
  addsToSink (eff_try body handler).
Proof.
  intros Hb Hh w. unfold eff_try. specialize (Hb w).
  destruct (body w) as [[a|e] w1]; [done|].
  etrans; [exact Hb|apply Hh].
Qed.

Lemma addsToSink_sendProgress p label : addsToSink (sendProgress p label).
Proof. intros w. simpl. by apply prefix_app_r. Qed.

Lemma addsToSink_handOver document : addsToSink (handOver document).
Proof. intros w. done. Qed.

Lemma addsToSink_onImages {A} (c : Eff ImageCache A) : addsToSink (onImages c).
Proof. intros w. unfold onImages. by destruct (c (w_images w)). Qed.

Lemma sink_after_bind {A B} (c : Eff World A) (k : A -> Eff World B) w :
  (forall a, addsToSink (k a)) ->
  w_sink (snd (c w)) `prefix_of` w_sink (snd (eff_bind c k w)).
Proof.
  intros Hk. unfold eff_bind. destruct (c w) as [[a|e] w1]; [apply Hk|done].
Qed.

Lemma sink_after_try {A} (body : Eff World A) (handler : string -> Eff World A) w :
  (forall e, addsToSink (handler e)) ->
  w_sink (snd (body w)) `prefix_of` w_sink (snd (eff_try body handler w)).
Proof.
  intros Hh. unfold eff_try. destruct (body w) as [[a|e] w1]; [done|apply Hh].
Qed.

Section ProgressFacts.
Context `{host : Host}.
Variable page : Page.

Lemma scrollToTop_prefix fuel attempts last sent :
  sent `prefix_of` scrollToTop page fuel attempts last sent.
Proof.
  revert attempts last sent.
  induction fuel as [|fuel IH]; intros attempts last sent; simpl; [done|].
  destruct (attempts <? CONFIG.maxScrollAttempts); [|done].
  destruct (topReadings page attempts) as [t1 t2].
  destruct (_ && _); [done|].
  etrans; [|apply IH]. by apply prefix_app_r.
Qed.

Lemma collectLoop_sink_prefix startFromId endAtId options fuel st :
  sink st `prefix_of` sink (collectLoop startFromId endAtId options page fuel st).
Proof.
  revert st. induction fuel as [|fuel IH]; intros st; [done|].
  rewrite collectLoop_unfold. destruct (goesOn st); [|done].
  unfold loopBody.
  destruct (foundEndMessage _); [done|].
  destruct (stallStep _ _ _ _ _) as [count stop]. destruct stop; [done|].
  etrans; [|apply IH]. by apply prefix_app_r.
Qed.

(** With no start given, the collection first reports 5 percent. *)
Lemma runLoop_sink_no_start startFromId endAtId options sent :
  truthy startFromId = false ->
  (sent ++ [scrollingToTop 5]) `prefix_of`
  sink (runLoop startFromId endAtId options page sent).
Proof.
  intros Hno. unfold runLoop. etrans; [|apply collectLoop_sink_prefix].
  unfold seekStart. rewrite Hno. cbn [negb sink]. apply scrollToTop_prefix.
Qed.

Lemma addsToSink_fetchBatch batch : addsToSink (fetchBatch page batch).
Proof.
  induction batch as [|u rest IH]; simpl; [apply addsToSink_ret|].
  apply addsToSink_bind; [apply addsToSink_onImages|done].
Qed.

Lemma addsToSink_prefetch fuel i urlArray : addsToSink (prefetch page fuel i urlArray).
Proof.
  revert i. induction fuel as [|fuel IH]; intros i; simpl; [apply addsToSink_ret|].
  destruct (i <? length urlArray); [|apply addsToSink_ret].
  apply addsToSink_bind; [apply addsToSink_fetchBatch|intros _].
  apply addsToSink_bind; [apply addsToSink_sendProgress|intros _]. apply IH.
Qed.

Lemma addsToSink_renderMessages options messages i total lastUsername :
  addsToSink (renderMessages options messages i total lastUsername).
Proof.
  revert i lastUsername.
  induction messages as [|msg rest IH]; intros i lastUsername; simpl;
    [apply addsToSink_ret|].
  apply addsToSink_bind; [apply addsToSink_get|intros w].
  apply addsToSink_bind.
  - destruct (_ && _); [apply addsToSink_sendProgress|apply addsToSink_ret].
  - intros _. apply addsToSink_bind; [apply IH|intros more]. apply addsToSink_ret.
Qed.

Lemma addsToSink_generatePDFContent messages options :
  addsToSink (generatePDFContent page messages options).
Proof.
  unfold generatePDFContent.
  apply addsToSink_bind; [apply addsToSink_onImages|intros _].
  apply addsToSink_bind; [apply addsToSink_prefetch|intros _].
  apply addsToSink_bind; [apply addsToSink_renderMessages|intros parts].
  apply addsToSink_bind; [apply addsToSink_onImages|intros _].
  apply addsToSink_ret.
Qed.

(** What follows the collection in the two exports only adds to the sink. *)
Lemma addsToSink_pdf_rest messages options :
  addsToSink
    ((if length messages =? 0
      then eff_throw "No messages found to export" else eff_ret tt) ;;;
     sendProgress 60 ("Processing " +:+ pretty (length messages) +:+ " messages...") ;;;
     let* htmlContent := generatePDFContent page messages options in
     sendProgress 90 "Generating PDF..." ;;;
     (if opensWindow page then handOver htmlContent
      else eff_throw "Cannot read properties of null (reading 'document')") ;;;
     eff_ret (ExportOk (length messages))).
Proof.
  apply addsToSink_bind.
  { destruct (_ =? _); [apply addsToSink_throw|apply addsToSink_ret]. }
  intros _. apply addsToSink_bind; [apply addsToSink_sendProgress|intros _].
  apply addsToSink_bind; [apply addsToSink_generatePDFContent|intros html].
  apply addsToSink_bind; [apply addsToSink_sendProgress|intros _].
  apply addsToSink_bind; [|intros _; apply addsToSink_ret].
  destruct (opensWindow page); [apply addsToSink_handOver|apply addsToSink_throw].
Qed.

Lemma addsToSink_md_rest messages options :
  addsToSink
    ((if length messages =? 0
      then eff_throw "No messages found to export" else eff_ret tt) ;;;
     sendProgress 70 ("Processing " +:+ pretty (length messages) +:+ " messages...") ;;;
     let mdContent :=
       generateMarkdownContent options (channelName page) (exportDate page) messages in
     sendProgress 90 "Saving file..." ;;;
     handOver mdContent ;;;
     eff_ret (ExportOk (length messages))).
Proof.
  apply addsToSink_bind.
  { destruct (_ =? _); [apply addsToSink_throw|apply addsToSink_ret]. }
  intros _. apply addsToSink_bind; [apply addsToSink_sendProgress|intros _].
  cbv zeta.
  apply addsToSink_bind; [apply addsToSink_sendProgress|intros _].
  apply addsToSink_bind; [apply addsToSink_handOver|intros _; apply addsToSink_ret].
Qed.

Lemma scrollAndCollectMessages_sink_no_start endAtId options w :
  hasScroller page = true ->
  (w_sink w ++ [scrollingToTop 5]) `prefix_of`
  w_sink (snd (scrollAndCollectMessages page None endAtId options w)).
Proof.
  intros Hscroller. unfold scrollAndCollectMessages. rewrite Hscroller. cbn [negb snd w_sink].
  by apply runLoop_sink_no_start.
Qed.

Lemma exportToPDF_sink_no_start selEnd options w :
  hasScroller page = true ->
  (w_sink w ++ [starting; scrollingToTop 5]) `prefix_of`
  w_sink (snd (exportToPDF page None selEnd options w)).
Proof.
  intros Hscroller. unfold exportToPDF.
  etrans; [|apply sink_after_try; intros e; apply addsToSink_ret].
  unfold eff_bind at 1. unfold sendProgress at 1, eff_modify at 1. cbn iota.
  etrans; [|apply sink_after_bind; intros messages; apply addsToSink_pdf_rest].
  etrans; [|by apply scrollAndCollectMessages_sink_no_start].
  cbn [w_sink]. by rewrite <- app_assoc.
Qed.

Lemma exportToMarkdown_sink_no_start selEnd options w :
  hasScroller page = true ->
  (w_sink w ++ [starting; scrollingToTop 5]) `prefix_of`
  w_sink (snd (exportToMarkdown page None selEnd options w)).
Proof.
  intros Hscroller. unfold exportToMarkdown.
  etrans; [|apply sink_after_try; intros e; apply addsToSink_ret].
  unfold eff_bind at 1. unfold sendProgress at 1, eff_modify at 1. cbn iota.
  etrans; [|apply sink_after_bind; intros messages; apply addsToSink_md_rest].
  etrans; [|by apply scrollAndCollectMessages_sink_no_start].
  cbn [w_sink]. by rewrite <- app_assoc.
Qed.

End ProgressFacts.

Lemma not_nondecreasing_10_5 (sent rest : list Progress) :
  sent = [starting; scrollingToTop 5] ++ rest -> ~ nondecreasing sent.
Proof.
  intros -> Hmono.
  specialize (Hmono 0 1 starting (scrollingToTop 5)).
  assert (Hle : (percent starting <= percent (scrollingToTop 5))%Q)
    by (apply Hmono; [lia|done|done]).
  vm_compute in Hle. by apply Hle.
Qed.

(** C9, on the code: in every run that has a scroller and no start
    boundary, either export entry point first sends 10 percent and then 5
    percent, so the percentages it sends do go down. *)
Theorem export_progress_goes_down :
  forall (host : Host) (page : Page) (selEnd : JsStr) (options : PartialOptions)
         (w : World),
    hasScroller page = true -> w_sink w = [] ->
    (exists rest,
        map percent (w_sink (snd (exportToPDF page None selEnd options w)))
        = 10%Q :: 5%Q :: rest) /\
    ~ nondecreasing (w_sink (snd (exportToPDF page None selEnd options w))) /\
    (exists rest,
        map percent (w_sink (snd (exportToMarkdown page None selEnd options w)))
        = 10%Q :: 5%Q :: rest) /\
    ~ nondecreasing (w_sink (snd (exportToMarkdown page None selEnd options w))).
Proof.
  intros host page selEnd options w Hscroller Hfresh.
  destruct (exportToPDF_sink_no_start page selEnd options w Hscroller) as [restP HP].
  destruct (exportToMarkdown_sink_no_start page selEnd options w Hscroller) as [restM HM].
  rewrite Hfresh in HP, HM. cbn [app] in HP, HM.
  repeat split.
  - exists (map percent restP). by rewrite HP.
  - exact (not_nondecreasing_10_5 _ restP HP).
  - exists (map percent restM). by rewrite HM.
  - exact (not_nondecreasing_10_5 _ restM HM).
Qed.

Lemma export_progress_goes_down_witness :
  map percent
    (w_sink (snd (exportToPDF (host := plainHost) (stillPage sampleChannel) None None
                    noOptions freshWorld)))
  = [10; 5; 10035 # 500; 10070 # 500; 10105 # 500; 10140 # 500; 10175 # 500;
     10210 # 500; 10245 # 500; 60; 90]%Q /\
  ~ nondecreasing
      (w_sink (snd (exportToPDF (host := plainHost) (stillPage sampleChannel) None None
                      noOptions freshWorld))).
Proof.
  split; [vm_compute; reflexivity|].
  apply (export_progress_goes_down plainHost (stillPage sampleChannel) None noOptions
           freshWorld); reflexivity.
Defined.

(** ** Renderers *)

Lemma isSameUser_true msg last :
  isSameUser msg last = true <-> username msg <> EmptyString /\ username msg = last.
Proof.
  unfold isSameUser. rewrite andb_true_iff, nonEmpty_true, String.eqb_eq. done.
Qed.

Lemma showHeader_true msg last :
  showHeader msg last = true <->
  username msg = EmptyString \/ username msg <> last \/ hasReply msg = true.
Proof.
  unfold showHeader. rewrite orb_true_iff, negb_true.
  destruct (isSameUser msg last) eqn:E.
  - apply isSameUser_true in E as [Hne Heq]. split; [intros [|]; [done|by right; right] |].
    intros [?|[?|?]]; [done|done|by right].
  - split; [intros _|by left].
    destruct (decide (username msg = EmptyString)) as [|Hne]; [by left|].
    destruct (decide (username msg = last)) as [Heq|]; [|by right; left].
    assert (isSameUser msg last = true) by (by apply isSameUser_true). congruence.
Qed.

Lemma countKind_app k l1 l2 : countKind k (l1 ++ l2) = countKind k l1 + countKind k l2.
Proof. unfold countKind. by rewrite List.filter_app, length_app. Qed.

Lemma countKind_concat k ls : countKind k (concat ls) = sum_list (map (countKind k) ls).
Proof.
  induction ls as [|l ls IH]; [done|]. simpl. by rewrite countKind_app, IH.
Qed.

Lemma countKind_other k {A} (f : A -> MdBlock) (l : list A) :
  (forall a, kind (f a) <> k) -> countKind k (map f l) = 0.
Proof.
  intros Hk. unfold countKind. induction l as [|a l IH]; [done|]. simpl.
  rewrite bool_decide_eq_false_2 by apply Hk. exact IH.
Qed.

Lemma countKind_if k (c : bool) blocks :
  countKind k (if c then blocks else []) = if c then countKind k blocks else 0.
Proof. by destruct c. Qed.

Lemma countKind_single k b :
  countKind k [b] = if bool_decide (kind b = k) then 1 else 0.
Proof. unfold countKind. simpl. by destruct (bool_decide (kind b = k)). Qed.

Lemma countKind_elem k blocks : 0 < countKind k blocks <-> k ∈ map kind blocks.
Proof.
  unfold countKind. induction blocks as [|b blocks IH]; simpl.
  - split; [lia|]. intros Hin. by apply elem_of_nil in Hin.
  - rewrite elem_of_cons. destruct (bool_decide_reflect (kind b = k)) as [Heq|Hne]; simpl.
    + split; [by left|lia].
    + rewrite IH. split; [by right|]. intros [?|?]; [congruence|done].
Qed.

Section RenderFacts.
Context `{host : Host}.
Variable options : ExportOptions.

(** How many header and separator pieces one message gets. *)
Lemma mdMessage_headers msg last :
  countKind MdHeader (mdMessage options msg last)
  = if showHeader msg last then 1 else 0.
Proof.
  unfold mdMessage, showHeader.
  rewrite !countKind_app, !countKind_if, !countKind_other by done.
  rewrite !countKind_single. cbn [kind].
  destruct (negb (isSameUser msg last) || hasReply msg); repeat case_match; done.
Qed.

Lemma mdMessage_separators msg last :
  countKind MdSeparator (mdMessage options msg last) = 1.
Proof.
  unfold mdMessage.
  rewrite !countKind_app, !countKind_if, !countKind_other by done.
  rewrite !countKind_single. cbn [kind].
  repeat case_match; done.
Qed.

Lemma mdMessage_ends_with_separator msg last :
  exists blocks,
    mdMessage options msg last
    = blocks ++ [{| kind := MdSeparator; mdText := "---" +:+ nl +:+ nl |}].
Proof. unfold mdMessage. rewrite !app_assoc. by eexists. Qed.

Lemma mdMessages_lookup messages last i msg :
  messages !! i = Some msg ->
  mdMessages options messages last !! i
  = Some (mdMessage options msg
            (match i with 0 => last | S _ => previousUsername messages i end)).
Proof.
  revert last i. induction messages as [|m rest IH]; intros last i Hi; [done|].
  destruct i as [|i]; simpl in *.
  - by injection Hi as ->.
  - rewrite (IH _ _ Hi). destruct i as [|i]; [done|]. done.
Qed.

Lemma pdfBodies_lookup cache messages last i msg :
  messages !! i = Some msg ->
  pdfBodies options cache messages last !! i
  = Some (pdfMessageHtml options cache msg
            (match i with 0 => last | S _ => previousUsername messages i end)).
Proof.
  revert last i. induction messages as [|m rest IH]; intros last i Hi; [done|].
  destruct i as [|i]; simpl in *.
  - by injection Hi as ->.
  - rewrite (IH _ _ Hi). destruct i as [|i]; [done|]. done.
Qed.

Lemma mdMessages_separators messages last :
  countKind MdSeparator (concat (mdMessages options messages last)) = length messages.
Proof.
  revert last. induction messages as [|m rest IH]; intros last; [done|].
  simpl. by rewrite countKind_app, mdMessage_separators, IH.
Qed.

Lemma pdfHeaderHtml_shown msg last :
  pdfHeaderHtml options msg last <> EmptyString <-> showHeader msg last = true.
Proof.
  unfold pdfHeaderHtml. destruct (showHeader msg last); simpl; split; try done.
Qed.

Lemma pdfAvatarHtml_spacer cache msg last :
  pdfAvatarHtml options cache msg last = avatarSpacer <-> showHeader msg last = false.
Proof.
  unfold pdfAvatarHtml. destruct (showHeader msg last); [|done].
  split; [|done]. intros Heq. exfalso.
  destruct (includeAvatars options); cbn [andb] in Heq; [|discriminate Heq].
  destruct (nonEmpty (avatar msg)).
  - destruct (cachedData cache (avatar msg)); discriminate Heq.
  - discriminate Heq.
Qed.

End RenderFacts.

Section PdfDocument.
Context `{host : Host}.
Variable page : Page.

(** Rendering reads the image cache and leaves it alone. *)
Lemma renderMessages_bodies options messages i total last w :
  exists w',
    renderMessages options messages i total last w
    = (Normal (pdfBodies options (w_images w) messages last), w') /\
    w_images w' = w_images w.
Proof.
  revert i last w. induction messages as [|msg rest IH]; intros i last w.
  - by eexists.
  - cbn [renderMessages pdfBodies]. unfold eff_bind at 1, eff_get at 1. cbn iota.
    unfold eff_bind at 1.
    set (step := if (0 <? i) && (i mod BATCH_SIZE =? 0) then _ else _).
    assert (Hstep : exists w1, step w = (Normal tt, w1) /\ w_images w1 = w_images w).
    { subst step. destruct (_ && _); by eexists. }
    destruct Hstep as (w1 & -> & Himg). unfold eff_bind at 1.
    destruct (IH (S i) (username msg) w1) as (w2 & -> & Himg2).
    exists w2. split; [|congruence]. unfold eff_ret. by rewrite Himg.
Qed.

Lemma generatePDFContent_document messages options w :
  exists cache,
    fst (generatePDFContent page messages options w)
    = Normal (joinAll (pdfHead page :: pdfBodies options cache messages EmptyString ++
                       ["</body></html>"])).
Proof.
  unfold generatePDFContent.
  unfold eff_bind at 1. unfold onImages at 1, clearImageCache at 1, eff_modify at 1.
  cbn iota. unfold eff_bind at 1.
  match goal with |- context [prefetch page ?f ?i ?u ?w0] =>
    destruct (completes_prefetch page f i u w0) as ([] & w1 & ->) end.
  unfold eff_bind at 1.
  destruct (renderMessages_bodies options messages 0 (length messages) EmptyString w1)
    as (w2 & -> & _).
  exists (w_images w1). reflexivity.
Qed.

End PdfDocument.

(** C6, as amended: at every place after the first, the Markdown renderer
    emits the author header, and the PDF renderer a non-empty header
    block, exactly when the message's author is empty, or differs from
    the author of the message before it, or the message has a reply
    preview with a username or a text; the PDF avatar slot is the blank
    spacer exactly when the header is not due; the PDF document is made
    of these bodies; the Markdown renderer appends one separator after
    every message whatever the header does; and three messages in a row
    of one non-empty author, the second and the third without such a
    reply preview, give one header and three separators. *)
Theorem header_collapsing_rule :
  forall (host : Host) (options : ExportOptions),
    (forall cache msgs i msg prev,
        0 < i -> msgs !! i = Some msg -> msgs !! (i - 1) = Some prev ->
        (exists blocks,
            mdMessages options msgs EmptyString !! i = Some blocks /\
            (MdHeader ∈ map kind blocks <-> headerDue msg prev) /\
            countKind MdSeparator blocks = 1) /\
        pdfBodies options cache msgs EmptyString !! i
          = Some (pdfMessageHtml options cache msg (username prev)) /\
        (pdfHeaderHtml options msg (username prev) <> EmptyString <-> headerDue msg prev) /\
        (pdfAvatarHtml options cache msg (username prev) = avatarSpacer
         <-> ~ headerDue msg prev)) /\
    (forall page msgs w,
        exists cache,
          fst (generatePDFContent page msgs options w)
          = Normal (joinAll (pdfHead page :: pdfBodies options cache msgs EmptyString ++
                             ["</body></html>"]))) /\
    (forall msgs,
        countKind MdSeparator (concat (mdMessages options msgs EmptyString))
        = length msgs) /\
    (forall m1 m2 m3,
        username m1 <> EmptyString ->
        username m2 = username m1 -> username m3 = username m1 ->
        hasReply m2 = false -> hasReply m3 = false ->
        countKind MdHeader (concat (mdMessages options [m1; m2; m3] EmptyString)) = 1 /\
        countKind MdSeparator (concat (mdMessages options [m1; m2; m3] EmptyString)) = 3).
Proof.
  intros host options. split; [|split; [|split]].
  - intros cache msgs i msg prev Hpos Hmsg Hprev.
    destruct i as [|i]; [lia|]. replace (S i - 1) with i in Hprev by lia.
    assert (Hlast : previousUsername msgs (S i) = username prev).
    { unfold previousUsername. by rewrite Hprev. }
    assert (Hdue : showHeader msg (username prev) = true <-> headerDue msg prev)
      by apply showHeader_true.
    split; [|split; [|split]].
    + eexists. split; [by apply mdMessages_lookup|]. rewrite Hlast. split.
      * rewrite <- countKind_elem, mdMessage_headers, <- Hdue.
        destruct (showHeader msg (username prev)); split; (lia || done).
      * apply mdMessage_separators.
    + rewrite (pdfBodies_lookup _ _ _ _ _ _ Hmsg). by rewrite Hlast.
    + by rewrite pdfHeaderHtml_shown.
    + rewrite pdfAvatarHtml_spacer, <- Hdue.
      destruct (showHeader msg (username prev)); split; (done || congruence).
  - intros page msgs w. apply generatePDFContent_document.
  - intros msgs. apply mdMessages_separators.
  - intros m1 m2 m3 Hne H2 H3 Hr2 Hr3. split; [|apply mdMessages_separators].
    cbn [mdMessages concat]. rewrite !countKind_app, !mdMessage_headers. cbn [countKind].
    assert (S1 : showHeader m1 EmptyString = true).
    { apply showHeader_true. right. by left. }
    assert (S2 : showHeader m2 (username m1) = false).
    { apply not_true_iff_false. rewrite showHeader_true, H2.
      intros [?|[?|?]]; congruence. }
    assert (S3 : showHeader m3 (username m2) = false).
    { apply not_true_iff_false. rewrite showHeader_true, H2, H3.
      intros [?|[?|?]]; congruence. }
    by rewrite S1, S2, S3.
Qed.

Lemma header_collapsing_rule_witness :
  countKind MdHeader
    (concat (mdMessages (host := plainHost) DEFAULT_EXPORT_OPTIONS
               [plainMessage "1" "alice" "a"; plainMessage "2" "alice" "b";
                plainMessage "3" "alice" "c"] EmptyString)) = 1 /\
  countKind MdSeparator
    (concat (mdMessages (host := plainHost) DEFAULT_EXPORT_OPTIONS
               [plainMessage "1" "alice" "a"; plainMessage "2" "alice" "b";
                plainMessage "3" "alice" "c"] EmptyString)) = 3 /\
  (pdfAvatarHtml (host := plainHost) DEFAULT_EXPORT_OPTIONS JsMap.empty
     (plainMessage "2" "alice" "b") "alice" = avatarSpacer
   <-> ~ headerDue (plainMessage "2" "alice" "b") (plainMessage "1" "alice" "a")).
Proof.
  destruct (header_collapsing_rule plainHost DEFAULT_EXPORT_OPTIONS)
    as (Hplace & _ & _ & Hthree).
  split; [|split].
  - apply Hthree; (reflexivity || discriminate).
  - apply Hthree; (reflexivity || discriminate).
  - destruct (Hplace JsMap.empty
                [plainMessage "1" "alice" "a"; plainMessage "2" "alice" "b"] 1
                (plainMessage "2" "alice" "b") (plainMessage "1" "alice" "a"))
      as (_ & _ & _ & Havatar); [lia|reflexivity|reflexivity|exact Havatar].
Defined.

(** C6 as it was stated fails twice over. Two messages in a row of which
    no author is made out both get a header, though the author does not
    change and there is no reply preview; and a message of the same
    author whose reply preview is empty gets no header, though it carries
    a reply preview. *)
Lemma header_collapsing_counterexample :
  (exists msg prev blocks,
      anonymousMessages !! 1 = Some msg /\ anonymousMessages !! 0 = Some prev /\
      mdMessages (host := plainHost) DEFAULT_EXPORT_OPTIONS anonymousMessages EmptyString
        !! 1 = Some blocks /\
      ~ (MdHeader ∈ map kind blocks <->
         username msg <> username prev \/ is_Some (replyTo msg))) /\
  (exists msg prev blocks,
      emptyReplyMessages !! 1 = Some msg /\ emptyReplyMessages !! 0 = Some prev /\
      mdMessages (host := plainHost) DEFAULT_EXPORT_OPTIONS emptyReplyMessages EmptyString
        !! 1 = Some blocks /\
      ~ (MdHeader ∈ map kind blocks <->
         username msg <> username prev \/ is_Some (replyTo msg))).
Proof.
  split.
  - eexists _, _, _. split; [vm_compute; reflexivity|].
    split; [vm_compute; reflexivity|]. split; [vm_compute; reflexivity|].
    intros [Hto _]. destruct Hto as [Hne|[r Hr]].
    + apply countKind_elem. vm_compute. lia.
    + by apply Hne.
    + discriminate Hr.
  - eexists _, _, _. split; [vm_compute; reflexivity|].
    split; [vm_compute; reflexivity|]. split; [vm_compute; reflexivity|].
    intros [_ Hfrom].
    assert (Hin : MdHeader ∈ map kind
              [ {| kind := MdContent; mdText := "second" +:+ nl +:+ nl |};
                {| kind := MdSeparator; mdText := "---" +:+ nl +:+ nl |} ]).
    { apply Hfrom. right. by eexists. }
    apply countKind_elem in Hin. vm_compute in Hin. lia.
Qed.

(** ** Termination heuristic *)

Lemma stallStep_all_four count :
  stallStep true true true true count
  = (S count, CONFIG.maxNoChangeAttempts <=? S count).
Proof. reflexivity. Qed.

Lemma stallStep_stuck atBottom heightUnchanged count :
  atBottom && heightUnchanged = false ->
  stallStep atBottom true true heightUnchanged count
  = (S count, CONFIG.maxNoChangeAttempts + 3 <=? S count).
Proof. unfold stallStep. by destruct atBottom, heightUnchanged. Qed.

Lemma stallStep_progress atBottom scrollStuck noNewMessages heightUnchanged count :
  scrollStuck && noNewMessages = false ->
  stallStep atBottom scrollStuck noNewMessages heightUnchanged count = (0, false).
Proof.
  unfold stallStep. by destruct atBottom, scrollStuck, noNewMessages, heightUnchanged.
Qed.

Section StallFacts.
Context `{host : Host}.
Variable startFromId endAtId : JsStr.
Variable options : ExportOptions.
Variable page : Page.

(** A turn whose scan does not meet the end scrolls once and then follows
    the stall counter. The store is counted after the scan on both sides
    of the scroll, so [noNewMessages] is true. *)
Lemma loopBody_scrolls st :
  foundEndMessage (scanSnapshot startFromId endAtId options (current st) (scan st)) = false ->
  let after := settled page (S (waits st)) in
  let step :=
    stallStep (isAtBottom after) (scrollDidNotMove (scrollTop (current st)) after) true
      (scrollHeightUnchanged (scrollHeight (current st)) after) (noChangeCount st) in
  exists st',
    loopBody startFromId endAtId options page st
    = (if snd step then inr st' else inl st') /\
    noChangeCount st' = fst step /\
    scrollAttempts st' = S (scrollAttempts st) /\
    waits st' = S (waits st) /\
    current st' = after /\
    reachedBottom (scan st')
    = (snd step || reachedBottom
                     (scanSnapshot startFromId endAtId options (current st) (scan st))).
Proof.
  intros Hend after step. unfold loopBody. rewrite Hend, Nat.eqb_refl.
  fold after. fold step. destruct step as [count stop]. destruct stop; by eexists.
Qed.

(** A turn whose scan meets the end stops at once, without scrolling. *)
Lemma loopBody_end st :
  foundEndMessage (scanSnapshot startFromId endAtId options (current st) (scan st)) = true ->
  exists st',
    loopBody startFromId endAtId options page st = inr st' /\
    scan st' = scanSnapshot startFromId endAtId options (current st) (scan st) /\
    scrollAttempts st' = S (scrollAttempts st) /\
    waits st' = waits st /\ current st' = current st /\ sink st' = sink st.
Proof. intros Hend. unfold loopBody. rewrite Hend. by eexists. Qed.

Lemma pageAhead_next st st' j :
  current st' = settled page (S (waits st)) -> waits st' = S (waits st) ->
  pageAhead page st' j = pageAhead page st (S j).
Proof.
  intros Hcur Hwaits. destruct j as [|j]; simpl.
  - rewrite Hcur. f_equal. lia.
  - rewrite Hwaits. f_equal. lia.
Qed.

Lemma settled_next st st' j :
  waits st' = S (waits st) ->
  settled page (waits st' + S j) = settled page (waits st + S (S j)).
Proof. intros ->. f_equal. lia. Qed.

(** If every scroll step among the next [k] increments the counter, and
    the counter then reaches the threshold that applies, the loop is over
    within [k] turns. [bump] says what one step does to the counter. *)
Lemma stops_within (ahead : LoopState -> nat -> Prop) (threshold : nat) :
  (forall st j st',
      current st' = settled page (S (waits st)) -> waits st' = S (waits st) ->
      ahead st (S j) -> ahead st' j) ->
  (forall st,
      ahead st 0 ->
      let after := settled page (S (waits st)) in
      exists stop,
        stallStep (isAtBottom after) (scrollDidNotMove (scrollTop (current st)) after) true
          (scrollHeightUnchanged (scrollHeight (current st)) after) (noChangeCount st)
        = (S (noChangeCount st), stop) /\
        (threshold <= S (noChangeCount st) -> stop = true)) ->
  forall k fuel st,
    1 <= k -> (forall j, j < k -> ahead st j) -> threshold <= noChangeCount st + k ->
    scrollAttempts (collectLoop startFromId endAtId options page fuel st)
    <= scrollAttempts st + k.
Proof.
  intros Hshift Hstep k. induction k as [|k IH]; intros fuel st Hk Hahead Hcount; [lia|].
  destruct fuel as [|fuel]; [simpl; lia|].
  rewrite collectLoop_unfold. destruct (goesOn st); [|lia].
  destruct (foundEndMessage
              (scanSnapshot startFromId endAtId options (current st) (scan st))) eqn:Hend.
  - destruct (loopBody_end st Hend) as (st' & -> & _ & -> & _). lia.
  - destruct (loopBody_scrolls st Hend) as (st' & Hbody & Hc & Ha & Hw & Hcur & _).
    cbv zeta in Hbody, Hc.
    destruct (Hstep st (Hahead 0 ltac:(lia))) as (stop & Hstall & Hstop).
    rewrite Hstall in Hbody, Hc. cbn [fst snd] in Hbody, Hc. rewrite Hbody.
    destruct stop; [lia|].
    destruct (decide (k = 0)) as [->|Hpos].
    { assert (false = true) by (apply Hstop; lia). done. }
    etrans; [apply IH|lia]; [lia| |lia].
    intros j Hj. eapply Hshift; [done|done|]. apply Hahead. lia.
Qed.

Lemma stalledAhead_shift st j st' :
  current st' = settled page (S (waits st)) -> waits st' = S (waits st) ->
  stalledAhead page st (S j) -> stalledAhead page st' j.
Proof.
  intros Hcur Hw. unfold stalledAhead.
  by rewrite (pageAhead_next st st' j Hcur Hw), (settled_next st st' j Hw).
Qed.

Lemma stuckAhead_shift st j st' :
  current st' = settled page (S (waits st)) -> waits st' = S (waits st) ->
  stuckAhead page st (S j) -> stuckAhead page st' j.
Proof.
  intros Hcur Hw. unfold stuckAhead.
  by rewrite (pageAhead_next st st' j Hcur Hw), (settled_next st st' j Hw).
Qed.

Lemma stuckOnlyAhead_shift st j st' :
  current st' = settled page (S (waits st)) -> waits st' = S (waits st) ->
  stuckOnlyAhead page st (S j) -> stuckOnlyAhead page st' j.
Proof.
  intros Hcur Hw. unfold stuckOnlyAhead.
  by rewrite (pageAhead_next st st' j Hcur Hw), (settled_next st st' j Hw).
Qed.

Lemma settled_one st : settled page (waits st + 1) = settled page (S (waits st)).
Proof. f_equal. lia. Qed.

Lemma stalled_stops_within_8 fuel st :
  (forall j, j < 8 -> stalledAhead page st j) ->
  scrollAttempts (collectLoop startFromId endAtId options page fuel st)
  <= scrollAttempts st + 8.
Proof.
  intros Hahead.
  apply (stops_within (stalledAhead page) CONFIG.maxNoChangeAttempts);
    [apply stalledAhead_shift| |lia|done|unfold CONFIG.maxNoChangeAttempts; lia].
  intros st0 (Hb & Hs & Hh). cbn [pageAhead] in *. rewrite settled_one in *.
  cbv zeta. rewrite Hb, Hs, Hh, stallStep_all_four. eexists. split; [done|].
  intros Hle. by apply Nat.leb_le.
Qed.

Lemma stuck_stops_within_11 fuel st :
  (forall j, j < 11 -> stuckAhead page st j) ->
  scrollAttempts (collectLoop startFromId endAtId options page fuel st)
  <= scrollAttempts st + 11.
Proof.
  intros Hahead.
  apply (stops_within (stuckAhead page) (CONFIG.maxNoChangeAttempts + 3));
    [apply stuckAhead_shift| |lia|done|unfold CONFIG.maxNoChangeAttempts; lia].
  intros st0 Hs. unfold stuckAhead in Hs. cbn [pageAhead] in Hs.
  rewrite settled_one in Hs. cbv zeta. rewrite Hs.
  destruct (isAtBottom (settled page (S (waits st0))) &&
            scrollHeightUnchanged (scrollHeight (current st0))
              (settled page (S (waits st0)))) eqn:Hboth.
  - apply andb_true_iff in Hboth as [-> ->]. rewrite stallStep_all_four.
    eexists. split; [done|]. intros Hle. apply Nat.leb_le.
    unfold CONFIG.maxNoChangeAttempts in *. lia.
  - rewrite stallStep_stuck by done. eexists. split; [done|].
    intros Hle. by apply Nat.leb_le.
Qed.

(** Without an end boundary a scan never marks the end or the bottom. *)
Lemma scanMessages_without_end startElement messageArray st :
  truthy endAtId = false ->
  foundEndMessage
    (scanMessages startFromId endAtId options startElement None messageArray st)
  = foundEndMessage st /\
  reachedBottom
    (scanMessages startFromId endAtId options startElement None messageArray st)
  = reachedBottom st.
Proof.
  intros Hno. revert st.
  induction messageArray as [|[pos msgEl] rest IH]; intros st; simpl; [done|].
  destruct (getMessageId (Some (me_view msgEl))) as [msgId|]; [|apply IH].
  rewrite Hno. cbn [andb].
  repeat case_match; rewrite ?(proj1 (IH _)), ?(proj2 (IH _));
    try (destruct (collectMessage_flags options msgId msgEl st) as (_ & -> & ->); done);
    try done.
  destruct (collectMessage_flags options msgId msgEl (markStart st)) as (_ & -> & ->).
  done.
Qed.

Lemma scanSnapshot_without_end snap st :
  truthy endAtId = false ->
  foundEndMessage (scanSnapshot startFromId endAtId options snap st) = foundEndMessage st /\
  reachedBottom (scanSnapshot startFromId endAtId options snap st) = reachedBottom st.
Proof.
  intros Hno. unfold scanSnapshot.
  assert (getElementById snap endAtId = None) as ->
    by (unfold getElementById; by rewrite Hno).
  by apply scanMessages_without_end.
Qed.

(** With no end boundary, a counter that each of the next [k] scroll
    steps increments, and that only the last of them brings to the
    threshold, stops the loop after exactly [k] turns. *)
Lemma stops_exactly (ahead : LoopState -> nat -> Prop) (threshold : nat) :
  truthy endAtId = false ->
  (forall st j st',
      current st' = settled page (S (waits st)) -> waits st' = S (waits st) ->
      ahead st (S j) -> ahead st' j) ->
  (forall st,
      ahead st 0 ->
      let after := settled page (S (waits st)) in
      stallStep (isAtBottom after) (scrollDidNotMove (scrollTop (current st)) after) true
        (scrollHeightUnchanged (scrollHeight (current st)) after) (noChangeCount st)
      = (S (noChangeCount st), threshold <=? S (noChangeCount st))) ->
  forall k fuel st,
    1 <= k -> k <= fuel -> noChangeCount st + k = threshold ->
    scrollAttempts st + k <= CONFIG.maxScrollAttempts ->
    reachedBottom (scan st) = false -> foundEndMessage (scan st) = false ->
    (forall j, j < k -> ahead st j) ->
    let st' := collectLoop startFromId endAtId options page fuel st in
    scrollAttempts st' = scrollAttempts st + k /\ waits st' = waits st + k /\
    reachedBottom (scan st') = true /\ noChangeCount st' = threshold.
Proof.
  intros Hno Hshift Hstep k.
  induction k as [|k IH]; intros fuel st Hk Hfuel Hcount Hcap Hbottom Hend Hahead; [lia|].
  destruct fuel as [|fuel]; [lia|]. cbv zeta.
  rewrite collectLoop_unfold. unfold goesOn. rewrite Hbottom.
  destruct (Nat.ltb_spec (scrollAttempts st) CONFIG.maxScrollAttempts); [|lia].
  cbn [negb andb].
  destruct (scanSnapshot_without_end (current st) (scan st) Hno) as [Hend' Hbottom'].
  rewrite Hend in Hend'. rewrite Hbottom in Hbottom'.
  destruct (loopBody_scrolls st Hend') as (st' & Hbody & Hc & Ha & Hw & Hcur & Hb).
  cbv zeta in Hbody, Hc, Hb.
  pose proof (Hstep st (Hahead 0 ltac:(lia))) as Hstall. cbv zeta in Hstall.
  rewrite Hstall in Hbody. rewrite Hstall in Hc. rewrite Hstall in Hb.
  cbn [fst snd] in Hbody, Hc, Hb. rewrite Hbottom', orb_false_r in Hb. rewrite Hbody.
  destruct (Nat.leb_spec threshold (S (noChangeCount st))) as [Hle|Hlt].
  - assert (k = 0) as -> by lia. repeat split; lia || done.
  - assert (Hst' : scan st' = scanSnapshot startFromId endAtId options (current st) (scan st))
      by (by apply (loopBody_inl _ _ _ _ _ _ Hbody)).
    destruct (IH fuel st') as (Ha' & Hw' & Hb' & Hc'); try lia; try done.
    + by rewrite Hst'.
    + intros j Hj. eapply Hshift; [done|done|]. apply Hahead. lia.
    + cbv zeta in *. repeat split; lia || done.
Qed.

Lemma stalled_stops_at_8 fuel st :
  truthy endAtId = false -> 8 <= fuel ->
  noChangeCount st = 0 -> scrollAttempts st + 8 <= CONFIG.maxScrollAttempts ->
  reachedBottom (scan st) = false -> foundEndMessage (scan st) = false ->
  (forall j, j < 8 -> stalledAhead page st j) ->
  let st' := collectLoop startFromId endAtId options page fuel st in
  scrollAttempts st' = scrollAttempts st + 8 /\ waits st' = waits st + 8 /\
  reachedBottom (scan st') = true /\ noChangeCount st' = 8.
Proof.
  intros Hno Hfuel Hzero Hcap Hbottom Hend Hahead.
  apply (stops_exactly (stalledAhead page) CONFIG.maxNoChangeAttempts);
    try done; try lia; [apply stalledAhead_shift| |by rewrite Hzero].
  intros st0 (Hb & Hs & Hh). cbn [pageAhead] in *. rewrite settled_one in *.
  cbv zeta. by rewrite Hb, Hs, Hh, stallStep_all_four.
Qed.

Lemma stuck_stops_at_11 fuel st :
  truthy endAtId = false -> 11 <= fuel ->
  noChangeCount st = 0 -> scrollAttempts st + 11 <= CONFIG.maxScrollAttempts ->
  reachedBottom (scan st) = false -> foundEndMessage (scan st) = false ->
  (forall j, j < 11 -> stuckOnlyAhead page st j) ->
  let st' := collectLoop startFromId endAtId options page fuel st in
  scrollAttempts st' = scrollAttempts st + 11 /\ waits st' = waits st + 11 /\
  reachedBottom (scan st') = true /\ noChangeCount st' = 11.
Proof.
  intros Hno Hfuel Hzero Hcap Hbottom Hend Hahead.
  apply (stops_exactly (stuckOnlyAhead page) (CONFIG.maxNoChangeAttempts + 3));
    try done; try lia; [apply stuckOnlyAhead_shift| |by rewrite Hzero].
  intros st0 (Hs & Hboth). cbn [pageAhead] in *. rewrite settled_one in *.
  cbv zeta. rewrite Hs. by apply stallStep_stuck.
Qed.

(** The waits of the main loop are no more than its turns. *)
Lemma collectLoop_waits fuel st :
  waits (collectLoop startFromId endAtId options page fuel st) + scrollAttempts st
  <= waits st + scrollAttempts (collectLoop startFromId endAtId options page fuel st).
Proof.
  revert st. induction fuel as [|fuel IH]; intros st; [done|].
  rewrite collectLoop_unfold. destruct (goesOn st); [|done].
  destruct (foundEndMessage
              (scanSnapshot startFromId endAtId options (current st) (scan st))) eqn:Hend.
  - destruct (loopBody_end st Hend) as (st' & -> & _ & -> & -> & _). lia.
  - destruct (loopBody_scrolls st Hend) as (st' & Hbody & _ & Ha & Hw & _).
    cbv zeta in Hbody. rewrite Hbody. destruct (snd _); [lia|].
    specialize (IH st'). lia.
Qed.

End StallFacts.



(** ** Boundaries *)

(** *** The listed messages *)

Lemma imap_pairs_lookup {A} (l : list A) (k pos : nat) (a : A) :
  (pos, a) ∈ imap (fun i el => (k + i, el)) l <->
  k <= pos /\ l !! (pos - k) = Some a.
Proof.
  revert k. induction l as [|x l IH]; intros k; simpl.
  - split; [intros Hin; by apply elem_of_nil in Hin|by intros [_ ?]].
  - rewrite elem_of_cons.
    assert (Hext : imap ((fun i el => (k + i, el)) ∘ S) l
                   = imap (fun i el => (S k + i, el)) l).
    { apply imap_ext. intros i y _. simpl. f_equal. lia. }
    rewrite Hext, IH. split.
    + intros [[= -> ->]|[Hle Hl]].
      * split; [lia|]. by replace (k + 0 - k) with 0 by lia.
      * split; [lia|]. by replace (pos - k) with (S (pos - S k)) by lia.
    + intros [Hle Hl]. destruct (decide (pos = k)) as [->|Hne].
      * left. replace (k - k) with 0 in Hl by lia. simpl in Hl.
        injection Hl as ->. f_equal. lia.
      * right. split; [lia|].
        by replace (pos - k) with (S (pos - S k)) in Hl by lia.
Qed.

Lemma imap_pairs_sorted {A} (l : list A) (k : nat) :
  StronglySorted (fun x y : nat * A => fst x < fst y) (imap (fun i el => (k + i, el)) l).
Proof.
  revert k. induction l as [|x l IH]; intros k; simpl; [constructor|].
  assert (Hext : imap ((fun i el => (k + i, el)) ∘ S) l
                 = imap (fun i el => (S k + i, el)) l).
  { apply imap_ext. intros i y _. simpl. f_equal. lia. }
  rewrite Hext. constructor; [apply IH|].
  apply Forall_forall. intros [pos a] Hin. apply imap_pairs_lookup in Hin. simpl. lia.
Qed.

Lemma queryMessages_elem snap pos el :
  (pos, el) ∈ queryMessages snap <->
  elements snap !! pos = Some el /\ startsWith (idOf el) "chat-messages-" = true.
Proof.
  unfold queryMessages. rewrite list_elem_of_In, filter_In, <- list_elem_of_In.
  change (fun i el0 => (i, el0)) with (fun i (el0 : MsgEl) => (0 + i, el0)).
  rewrite imap_pairs_lookup. simpl. replace (pos - 0) with pos by lia.
  unfold idOf. split; [by intros [[_ ?] ?]|intros [? ?]; repeat split; (done || lia)].
Qed.

Lemma StronglySorted_filter' {A} (R : A -> A -> Prop) (P : A -> bool) (l : list A) :
  StronglySorted R l -> StronglySorted R (List.filter P l).
Proof.
  induction 1 as [|x l Hs IH Hall]; simpl; [constructor|].
  destruct (P x); [|done]. constructor; [done|].
  apply Forall_forall. intros y Hy. apply list_elem_of_In, filter_In in Hy as [Hy _].
  rewrite Forall_forall in Hall. apply Hall. by apply list_elem_of_In.
Qed.

Lemma queryMessages_sorted snap :
  StronglySorted (fun x y : nat * MsgEl => fst x < fst y) (queryMessages snap).
Proof.
  unfold queryMessages. apply StronglySorted_filter'.
  change (fun i el0 => (i, el0)) with (fun i (el0 : MsgEl) => (0 + i, el0)).
  apply imap_pairs_sorted.
Qed.

(** A listed message has the id it is listed by. *)
Lemma getMessageId_listed el :
  startsWith (idOf el) "chat-messages-" = true ->
  getMessageId (Some (me_view el)) = Some (idOf el).
Proof.
  intros Hpre. unfold getMessageId. fold (idOf el). rewrite Hpre.
  destruct (idOf el); [discriminate Hpre|done].
Qed.

Lemma getMessageId_Some el msgId :
  getMessageId (Some (me_view el)) = Some msgId ->
  idOf el = msgId /\ startsWith msgId "chat-messages-" = true.
Proof.
  unfold getMessageId. fold (idOf el).
  destruct (nonEmpty (idOf el) && startsWith (idOf el) "chat-messages-") eqn:E; [|done].
  intros [= <-]. by apply andb_true_iff in E as [_ ?].
Qed.

Lemma indexOfId_spec id els k i :
  indexOfId id els k = Some i <->
  k <= i /\ (exists el, els !! (i - k) = Some el /\ idOf el = id) /\
  (forall j el, j < i - k -> els !! j = Some el -> idOf el <> id).
Proof.
  revert k. induction els as [|x els IH]; intros k; simpl.
  - split; [done|]. by intros (_ & (el & ? & _) & _).
  - fold (idOf x). destruct (String.eqb_spec (idOf x) id) as [Heq|Hne].
    + split.
      * intros [= <-]. replace (k - k) with 0 by lia. repeat split; [lia|by eexists|].
        intros j el Hj. lia.
      * intros (Hle & (el & Hel & Hid) & Hfirst).
        destruct (decide (i = k)) as [->|Hik]; [done|]. exfalso.
        apply (Hfirst 0 x); [lia|done|done].
    + rewrite IH. split.
      * intros (Hle & (el & Hel & Hid) & Hfirst). split; [lia|]. split.
        { exists el. split; [|done]. by replace (i - k) with (S (i - S k)) by lia. }
        intros [|j] el' Hj Hel'; simpl in Hel'; [by injection Hel' as <-|].
        apply (Hfirst j el'); [lia|done].
      * intros (Hle & (el & Hel & Hid) & Hfirst).
        destruct (decide (i = k)) as [->|Hik].
        { replace (k - k) with 0 in Hel by lia. simpl in Hel. injection Hel as ->. done. }
        split; [lia|]. split.
        { exists el. split; [|done]. by replace (i - k) with (S (i - S k)) in Hel by lia. }
        intros j el' Hj Hel'. apply (Hfirst (S j) el'); [lia|done].
Qed.

Lemma getElementById_Some snap id i :
  getElementById snap (Some id) = Some i ->
  (exists el, elements snap !! i = Some el /\ idOf el = id) /\
  (forall j el, j < i -> elements snap !! j = Some el -> idOf el <> id).
Proof.
  unfold getElementById. destruct (truthy (Some id)); [|done]. simpl.
  rewrite indexOfId_spec. replace (i - 0) with i by lia. by intros (_ & ? & ?).
Qed.

Lemma getElementById_None snap id :
  id <> EmptyString ->
  getElementById snap (Some id) = None ->
  forall el, el ∈ elements snap -> idOf el <> id.
Proof.
  intros Hne. unfold getElementById. rewrite (proj2 (truthy_Some id) Hne). simpl.
  intros Hnone el Hin Hid.
  apply list_elem_of_lookup in Hin as [i Hi].
  assert (Hex : exists i, indexOfId id (elements snap) 0 = Some i).
  { clear Hnone. revert i Hi. generalize 0.
    induction (elements snap) as [|x els IH]; intros k i Hi; [done|]. simpl.
    fold (idOf x). destruct (String.eqb_spec (idOf x) id); [by eexists|].
    destruct i as [|i]; simpl in Hi; [by injection Hi as ->|]. by eapply IH. }
  destruct Hex as [i' Hi']. congruence.
Qed.

(** *** Scans *)

Section BoundaryScan.
Context `{host : Host}.
Variable startFromId endAtId : JsStr.
Variable options : ExportOptions.

(** The store and the cache after collecting do not depend on the flags. *)
Lemma collectMessage_data msgId el st :
  (collectedMessages (collectMessage options msgId el st),
   users (collectMessage options msgId el st))
  = (let st0 := collectMessage options msgId el
                  {| collectedMessages := collectedMessages st; users := users st;
                     foundStartMessage := true; foundEndMessage := false;
                     reachedBottom := false |} in
     (collectedMessages st0, users st0)).
Proof.
  unfold collectMessage. cbn [collectedMessages users].
  destruct (negb (JsMap.has (collectedMessages st) msgId)); [|done].
  by destruct (extractMessageData (Some el) options (users st)) as [[d|] uc].
Qed.

Lemma collectInto_collectMessage msgId el st :
  getMessageId (Some (me_view el)) = Some msgId ->
  collectInto options (collectedMessages st, users st) el
  = (collectedMessages (collectMessage options msgId el st),
     users (collectMessage options msgId el st)).
Proof.
  intros Hid. unfold collectInto. rewrite Hid. cbn [fst snd].
  by rewrite (collectMessage_data msgId el st).
Qed.

(** The scan stops at the first element that carries the end id. *)
Lemma scanMessages_end_item startElement endElement pos el rest st msgId :
  truthy endAtId = true -> getMessageId (Some (me_view el)) = Some msgId ->
  Some msgId = endAtId ->
  scanMessages startFromId endAtId options startElement endElement ((pos, el) :: rest) st
  = markBottom (collectMessage options msgId el (markEnd st)).
Proof.
  intros Htruthy Hid Hend. simpl. rewrite Hid, Htruthy.
  by rewrite (bool_decide_eq_true_2 _ Hend).
Qed.

(** Elements that do not stop the scan are scanned through. *)
Lemma scanMessages_app startElement endElement before rest st :
  (forall x, x ∈ before -> stopsScan endAtId endElement x = false) ->
  scanMessages startFromId endAtId options startElement endElement (before ++ rest) st
  = scanMessages startFromId endAtId options startElement endElement rest
      (scanMessages startFromId endAtId options startElement endElement before st).
Proof.
  revert st. induction before as [|[pos el] before IH]; intros st Hgo; [done|].
  assert (Hhead := Hgo (pos, el) ltac:(left)).
  assert (Htail : forall x, x ∈ before -> stopsScan endAtId endElement x = false)
    by (intros x Hx; apply Hgo; by right).
  unfold stopsScan in Hhead. cbn [fst snd] in Hhead.
  cbn [app scanMessages].
  destruct (getMessageId (Some (me_view el))) as [msgId|]; [|by apply IH].
  apply orb_false_iff in Hhead as [-> ->].
  repeat case_match; by apply IH.
Qed.

(** The flag of the start is never taken back. *)
Lemma scanMessages_foundStart startElement endElement messageArray st :
  foundStartMessage st = true ->
  foundStartMessage
    (scanMessages startFromId endAtId options startElement endElement messageArray st)
  = true.
Proof.
  revert st. induction messageArray as [|[pos el] rest IH]; intros st Hst; simpl; [done|].
  destruct (getMessageId (Some (me_view el))) as [msgId|]; [|by apply IH].
  repeat case_match; try (by apply IH); cbn;
    try (apply IH);
    try (by destruct (collectMessage_flags options msgId el st) as (-> & _));
    try (by destruct (collectMessage_flags options msgId el (markStart st)) as (-> & _));
    try (by destruct (collectMessage_flags options msgId el (markEnd st)) as (-> & _));
    done.
Qed.

(** Where the end element is when the listed messages are split at the
    first one that carries the end id. *)
Lemma end_item_position snap before pos endEl rest eid :
  queryMessages snap = before ++ (pos, endEl) :: rest ->
  getMessageId (Some (me_view endEl)) = Some eid ->
  (forall x, x ∈ before -> getMessageId (Some (me_view (snd x))) <> Some eid) ->
  getElementById snap (Some eid) = Some pos /\
  (forall x, x ∈ before -> fst x < pos).
Proof.
  intros Hsplit Hid Hbefore.
  destruct (getMessageId_Some _ _ Hid) as [Heid Hpre].
  assert (Hne : eid <> EmptyString) by (intros ->; discriminate Hpre).
  assert (Hin : (pos, endEl) ∈ queryMessages snap).
  { rewrite Hsplit. apply elem_of_app. right. left. }
  apply queryMessages_elem in Hin as [Hpos _].
  pose proof (queryMessages_sorted snap) as Hsorted. rewrite Hsplit in Hsorted.
  assert (Hlt : forall x, x ∈ before -> fst x < pos).
  { intros x Hx.
    apply (StronglySorted_app_1_elem_of _ _ _ x (pos, endEl) Hsorted Hx). left. }
  split; [|done].
  destruct (getElementById snap (Some eid)) as [i|] eqn:Hget.
  - destruct (getElementById_Some _ _ _ Hget) as [(el & Hel & Hidel) Hfirst].
    f_equal. destruct (Nat.lt_trichotomy i pos) as [Hlti|[->|Hgt]]; [|done|].
    + exfalso.
      assert (Hq : (i, el) ∈ queryMessages snap).
      { apply queryMessages_elem. split; [done|]. by rewrite Hidel. }
      rewrite Hsplit in Hq. apply elem_of_app in Hq as [Hq|Hq].
      * apply (Hbefore _ Hq). cbn. rewrite getMessageId_listed; by rewrite Hidel.
      * apply elem_of_cons in Hq as [[= -> ->]|Hq]; [lia|].
        apply StronglySorted_app_1_r, StronglySorted_cons in Hsorted as [Hall _].
        rewrite Forall_forall in Hall. specialize (Hall _ Hq). simpl in Hall. lia.
    + exfalso. by apply (Hfirst pos endEl).
  - exfalso. apply (getElementById_None snap eid Hne Hget endEl); [|done].
    by eapply list_elem_of_lookup_2.
Qed.

(** A scan that comes upon the end item scans what is listed before it,
    collects the end item and stops. *)
Lemma scanSnapshot_meets_end snap before pos endEl rest eid st :
  endAtId = Some eid ->
  queryMessages snap = before ++ (pos, endEl) :: rest ->
  getMessageId (Some (me_view endEl)) = Some eid ->
  (forall x, x ∈ before -> getMessageId (Some (me_view (snd x))) <> Some eid) ->
  scanSnapshot startFromId endAtId options snap st
  = markBottom
      (collectMessage options eid endEl
         (markEnd
            (scanMessages startFromId endAtId options (getElementById snap startFromId)
               (getElementById snap endAtId) before st))).
Proof.
  intros Hend Hsplit Hid Hbefore.
  destruct (end_item_position snap before pos endEl rest eid Hsplit Hid Hbefore)
    as [Hget Hlt].
  destruct (getMessageId_Some _ _ Hid) as [_ Hpre].
  assert (Htruthy : truthy endAtId = true).
  { rewrite Hend. apply truthy_Some. intros ->. discriminate Hpre. }
  unfold scanSnapshot. rewrite Hsplit, scanMessages_app.
  - by apply scanMessages_end_item.
  - intros x Hx. unfold stopsScan.
    destruct (getMessageId (Some (me_view (snd x)))) as [msgId|] eqn:Hx'; [|done].
    rewrite Hend, Hget. cbn [from_option]. apply orb_false_iff. split.
    + apply andb_false_iff. right. apply bool_decide_eq_false_2.
      intros [= ->]. by apply (Hbefore x Hx).
    + unfold follows. apply Nat.ltb_ge. specialize (Hlt x Hx). lia.
Qed.

End BoundaryScan.

Section BoundaryLoop.
Context `{host : Host}.
Variable startFromId endAtId : JsStr.
Variable options : ExportOptions.
Variable page : Page.

(** The turn of the loop that comes upon the end item is its last, and
    does not scroll. *)
Lemma collectLoop_meets_end fuel st before pos endEl rest eid :
  endAtId = Some eid ->
  goesOn st = true ->
  queryMessages (current st) = before ++ (pos, endEl) :: rest ->
  getMessageId (Some (me_view endEl)) = Some eid ->
  (forall x, x ∈ before -> getMessageId (Some (me_view (snd x))) <> Some eid) ->
  let reached :=
    scanMessages startFromId endAtId options (getElementById (current st) startFromId)
      (getElementById (current st) endAtId) before (scan st) in
  let st' := collectLoop startFromId endAtId options page (S fuel) st in
  scan st' = markBottom (collectMessage options eid endEl (markEnd reached)) /\
  scrollAttempts st' = S (scrollAttempts st) /\
  waits st' = waits st /\ current st' = current st /\ sink st' = sink st /\
  goesOn st' = false.
Proof.
  intros Hend Hgo Hsplit Hid Hbefore reached st'. subst st'.
  pose proof (scanSnapshot_meets_end startFromId endAtId options _ _ _ _ _ _ (scan st)
                Hend Hsplit Hid Hbefore) as Hscan.
  fold reached in Hscan.
  assert (Hfound : foundEndMessage
                     (scanSnapshot startFromId endAtId options (current st) (scan st))
                   = true).
  { rewrite Hscan. cbn.
    by destruct (collectMessage_flags options eid endEl (markEnd reached))
      as (_ & -> & _). }
  rewrite collectLoop_unfold, Hgo.
  destruct (loopBody_end startFromId endAtId options page st Hfound)
    as (st' & -> & Hst' & Ha & Hw & Hc & Hs).
  rewrite Hst', Hscan. repeat split; try done.
  unfold goesOn. rewrite Hst', Hscan. cbn. apply andb_false_r.
Qed.

End BoundaryLoop.

(** *** A window that moves forward *)

Lemma StronglySorted_weaken {A} (R R' : A -> A -> Prop) (l : list A) :
  (forall x y, x ∈ l -> y ∈ l -> R x y -> R' x y) ->
  StronglySorted R l -> StronglySorted R' l.
Proof.
  intros Himpl Hs. induction Hs as [|x l Hs IH Hall]; [constructor|].
  constructor.
  - apply IH. intros a b Ha Hb. apply Himpl; by right.
  - rewrite Forall_forall in *. intros y Hy. apply Himpl; [left|by right|by apply Hall].
Qed.

Section WindowScan.
Context `{host : Host}.
Variable rank : string -> nat.
Variable startId endId : string.
Variable options : ExportOptions.

Hypothesis start_before_end : rank startId <= rank endId.
Hypothesis start_is_message : startsWith startId "chat-messages-" = true.
Hypothesis end_is_message : startsWith endId "chat-messages-" = true.

Lemma startId_truthy : truthy (Some startId) = true.
Proof. apply truthy_Some. intros E. rewrite E in start_is_message. discriminate. Qed.

Lemma endId_truthy : truthy (Some endId) = true.
Proof. apply truthy_Some. intros E. rewrite E in end_is_message. discriminate. Qed.

Lemma endId_nonempty : endId <> EmptyString.
Proof. intros E. rewrite E in end_is_message. discriminate. Qed.

Lemma startId_nonempty : startId <> EmptyString.
Proof. intros E. rewrite E in start_is_message. discriminate. Qed.

(** What lies before the end and is scanned with the start already found
    is collected exactly when it lies in the range. *)
Lemma scanMessages_in_window startElement endElement (listed : list (nat * MsgEl)) st :
  (forall x, x ∈ listed ->
     getMessageId (Some (me_view (snd x))) = Some (idOf (snd x))) ->
  (forall x, x ∈ listed ->
     rank (idOf (snd x)) < rank endId /\
     from_option (fun e => follows e (fst x)) false endElement = false) ->
  (forall x, x ∈ listed -> idOf (snd x) <> startId ->
     if match startElement with Some s => follows s (fst x) | None => true end
     then rank startId < rank (idOf (snd x))
     else rank (idOf (snd x)) < rank startId) ->
  foundStartMessage st = true ->
  let st' :=
    scanMessages (Some startId) (Some endId) options startElement endElement listed st in
  (collectedMessages st', users st')
  = foldl (collectInto options) (collectedMessages st, users st)
      (List.filter (inRange rank startId endId) (map snd listed)) /\
  foundStartMessage st' = true.
Proof.
  revert st. induction listed as [|[pos el] listed IH]; intros st Hids Hbefore Hstart Hfound;
    [done|].
  assert (Hid := Hids (pos, el) ltac:(left)).
  destruct (Hbefore (pos, el) ltac:(left)) as [Hrank Hnofollow].
  assert (Hstart0 := Hstart (pos, el) ltac:(left)).
  cbn [fst snd] in Hid, Hrank, Hnofollow, Hstart0.
  assert (IH' : forall st0, foundStartMessage st0 = true ->
      let st' := scanMessages (Some startId) (Some endId) options startElement endElement
                   listed st0 in
      (collectedMessages st', users st')
      = foldl (collectInto options) (collectedMessages st0, users st0)
          (List.filter (inRange rank startId endId) (map snd listed)) /\
      foundStartMessage st' = true).
  { intros st0 Hst0. apply IH; [| | |done].
    - intros x Hx. apply Hids. by right.
    - intros x Hx. apply Hbefore. by right.
    - intros x Hx. apply Hstart. by right. }
  clear IH. cbv zeta. cbn [scanMessages map List.filter snd].
  rewrite Hid, endId_truthy, startId_truthy, Hnofollow. cbn [andb].
  rewrite bool_decide_eq_false_2 by (intros [= E]; rewrite E in Hrank; lia).
  cbn [orb].
  destruct (decide (idOf el = startId)) as [Heq|Hne].
  - rewrite bool_decide_eq_true_2 by (by rewrite Heq).
    assert (Hin : inRange rank startId endId el = true).
    { unfold inRange. rewrite Heq. apply andb_true_iff.
      split; apply Nat.leb_le; [lia|]. rewrite <- Heq. lia. }
    rewrite Hin. cbn [foldl].
    rewrite (collectInto_collectMessage options (idOf el) el (markStart st) Hid).
    apply IH'. by destruct (collectMessage_flags options (idOf el) el (markStart st))
      as (-> & _).
  - rewrite bool_decide_eq_false_2 by (intros [= E]; done).
    specialize (Hstart0 Hne).
    destruct startElement as [s|]; cbn [from_option] in *.
    + destruct (follows s pos) eqn:Hf; cbn [negb].
      * assert (Hin : inRange rank startId endId el = true).
        { unfold inRange. apply andb_true_iff. split; apply Nat.leb_le; lia. }
        rewrite Hin. cbn [foldl].
        rewrite (collectInto_collectMessage options (idOf el) el st Hid).
        apply IH'. by destruct (collectMessage_flags options (idOf el) el st) as (-> & _).
      * assert (Hout : inRange rank startId endId el = false).
        { unfold inRange. apply andb_false_iff. left. apply Nat.leb_gt. lia. }
        rewrite Hout. by apply IH'.
    + rewrite Hfound. cbn [negb].
      assert (Hin : inRange rank startId endId el = true).
      { unfold inRange. apply andb_true_iff. split; apply Nat.leb_le; lia. }
      rewrite Hin. cbn [foldl].
      rewrite (collectInto_collectMessage options (idOf el) el st Hid).
      apply IH'. by destruct (collectMessage_flags options (idOf el) el st) as (-> & _).
Qed.

Lemma filter_nothing {A} (P : A -> bool) (l : list A) :
  (forall x, x ∈ l -> P x = false) -> List.filter P l = [].
Proof.
  induction l as [|a l IH]; intros Hall; [done|]. simpl.
  rewrite (Hall a) by left. apply IH. intros x Hx. apply Hall. by right.
Qed.

Lemma listed_rank_sorted snap :
  ordered rank snap ->
  StronglySorted (fun x y : nat * MsgEl => rank (idOf (snd x)) < rank (idOf (snd y)))
    (queryMessages snap).
Proof.
  intros Hord. eapply StronglySorted_weaken; [|apply queryMessages_sorted].
  intros [p a] [q b] Ha Hb Hlt. cbn in *.
  apply queryMessages_elem in Ha as [Ha _]. apply queryMessages_elem in Hb as [Hb _].
  by apply (Hord p q a b).
Qed.

Lemma listed_id snap x :
  x ∈ queryMessages snap -> getMessageId (Some (me_view (snd x))) = Some (idOf (snd x)).
Proof.
  destruct x as [pos el]. intros Hx. apply queryMessages_elem in Hx as [_ Hpre].
  by apply getMessageId_listed.
Qed.

(** How an element other than the start compares with the start. *)
Lemma listed_start_side snap x :
  ordered rank snap -> forwardWindow rank startId endId snap ->
  x ∈ queryMessages snap -> idOf (snd x) <> startId ->
  if match getElementById snap (Some startId) with
     | Some s => follows s (fst x)
     | None => true
     end
  then rank startId < rank (idOf (snd x))
  else rank (idOf (snd x)) < rank startId.
Proof.
  intros Hord [Hw _] Hx Hne. destruct x as [pos el]. cbn [fst snd] in *.
  apply queryMessages_elem in Hx as [Hpos _].
  destruct (getElementById snap (Some startId)) as [s|] eqn:Hget.
  - destruct (getElementById_Some _ _ _ Hget) as [(elS & HelS & HidS) _].
    unfold follows. destruct (Nat.ltb_spec s pos) as [Hlt|Hge].
    + rewrite <- HidS. by apply (Hord s pos elS el).
    + destruct (decide (pos = s)) as [->|Hne'].
      * exfalso. apply Hne. congruence.
      * rewrite <- HidS. apply (Hord pos s el elS); [done|done|lia].
  - apply Hw; [done|]. by eapply list_elem_of_lookup_2.
Qed.

(** One scan of a document whose window has only moved forward collects
    exactly its elements in the range. *)
Lemma scanSnapshot_in_window snap st :
  ordered rank snap -> forwardWindow rank startId endId snap ->
  foundStartMessage st = true ->
  let st' := scanSnapshot (Some startId) (Some endId) options snap st in
  (collectedMessages st', users st')
  = foldl (collectInto options) (collectedMessages st, users st)
      (List.filter (inRange rank startId endId) (map snd (queryMessages snap))) /\
  foundStartMessage st' = true.
Proof.
  intros Hord Hwin Hfound.
  pose proof (listed_rank_sorted snap Hord) as Hsorted.
  destruct (getElementById snap (Some endId)) as [e|] eqn:Hget.
  - destruct (getElementById_Some _ _ _ Hget) as [(elE & HelE & HidE) _].
    assert (Hin : (e, elE) ∈ queryMessages snap).
    { apply queryMessages_elem. split; [done|]. by rewrite HidE. }
    destruct (list_elem_of_split _ _ Hin) as (before & rest & Hsplit).
    rewrite Hsplit in Hsorted.
    assert (Hb : forall x, x ∈ before -> rank (idOf (snd x)) < rank endId).
    { intros x Hx. rewrite <- HidE.
      apply (StronglySorted_app_1_elem_of _ _ _ x (e, elE) Hsorted Hx). left. }
    assert (Hr : forall y, y ∈ rest -> rank endId < rank (idOf (snd y))).
    { intros y Hy. rewrite <- HidE.
      apply StronglySorted_app_1_r, StronglySorted_cons in Hsorted as [Hall _].
      rewrite Forall_forall in Hall. by apply Hall. }
    assert (HidEl : getMessageId (Some (me_view elE)) = Some endId).
    { rewrite <- HidE. apply getMessageId_listed. by rewrite HidE. }
    assert (Hnone : forall x, x ∈ before ->
                getMessageId (Some (me_view (snd x))) <> Some endId).
    { intros x Hx Hidx. specialize (Hb x Hx).
      rewrite (listed_id snap x) in Hidx
        by (rewrite Hsplit; apply elem_of_app; by left).
      injection Hidx as Hidx. rewrite Hidx in Hb. lia. }
    destruct (end_item_position snap before e elE rest endId Hsplit HidEl Hnone)
      as [_ Hlt].
    cbv zeta.
    rewrite (scanSnapshot_meets_end (Some startId) (Some endId) options snap before e elE
               rest endId st eq_refl Hsplit HidEl Hnone).
    rewrite Hget.
    destruct (scanMessages_in_window (getElementById snap (Some startId)) (Some e)
                before st) as [Hdata Hfound1]; try done.
    + intros x Hx. apply (listed_id snap). rewrite Hsplit. apply elem_of_app. by left.
    + intros x Hx. split; [by apply Hb|]. cbn. unfold follows. apply Nat.ltb_ge.
      specialize (Hlt x Hx). lia.
    + intros x Hx Hne. apply listed_start_side; try done.
      rewrite Hsplit. apply elem_of_app. by left.
    + cbv zeta in Hdata, Hfound1. split.
      * cbn [collectedMessages users markBottom].
        rewrite <- (collectInto_collectMessage options endId elE _ HidEl).
        cbn [collectedMessages users markEnd]. rewrite Hdata.
        rewrite Hsplit, map_app, List.filter_app, foldl_app. cbn [map List.filter snd].
        assert (HinE : inRange rank startId endId elE = true).
        { unfold inRange. rewrite HidE. apply andb_true_iff.
          split; apply Nat.leb_le; lia. }
        rewrite HinE. cbn [foldl].
        rewrite (filter_nothing _ (map snd rest)); [done|].
        intros el Hel. apply list_elem_of_fmap in Hel as (y & -> & Hy).
        unfold inRange. apply andb_false_iff. right. apply Nat.leb_gt. by apply Hr.
      * cbn [foundStartMessage markBottom].
        destruct (collectMessage_flags options endId elE
                    (markEnd (scanMessages (Some startId) (Some endId) options
                                (getElementById snap (Some startId)) (Some e) before st)))
          as (-> & _). exact Hfound1.
  - unfold scanSnapshot. rewrite Hget.
    apply scanMessages_in_window; try done.
    + apply listed_id.
    + intros [pos el] Hx. split; [|done]. cbn.
      apply queryMessages_elem in Hx as [Hpos _].
      apply (proj2 Hwin Hget). by eapply list_elem_of_lookup_2.
    + intros x Hx Hne. by apply listed_start_side.
Qed.

End WindowScan.

Section CollectInto.
Context `{host : Host}.
Variable options : ExportOptions.

Lemma collectInto_step acc el :
  collectInto options acc el = acc \/
  exists msgId data uc,
    getMessageId (Some (me_view el)) = Some msgId /\
    JsMap.has (fst acc) msgId = false /\
    (fst (extractMessageData (Some el) options (snd acc)) = Some data /\
     collectInto options acc el = (fst acc ++ [(msgId, data)], uc) \/
     fst (extractMessageData (Some el) options (snd acc)) = None /\
     collectInto options acc el = (fst acc, uc)).
Proof.
  destruct acc as [store uc0]. unfold collectInto, collectMessage.
  cbn [fst snd collectedMessages users].
  destruct (getMessageId (Some (me_view el))) as [msgId|]; [|by left].
  destruct (JsMap.has store msgId) eqn:Hhas; cbn [negb]; [by left|].
  right. exists msgId.
  destruct (extractMessageData (Some el) options uc0) as [[data|] uc] eqn:Hex;
    cbn [fst snd collectedMessages users].
  - exists data, uc. repeat split; try done. left. split; [done|].
    by rewrite set_fresh by (by apply has_false).
  - exists (plainMessage EmptyString EmptyString EmptyString), uc.
    repeat split; try done. by right.
Qed.

Lemma has_app_l (store : Store) entry k :
  JsMap.has store k = true -> JsMap.has (store ++ [entry]) k = true.
Proof.
  rewrite !has_true. unfold JsMap.keys. rewrite fmap_app. intros ?.
  apply elem_of_app. by left.
Qed.

Lemma collectInto_has acc el k :
  JsMap.has (fst acc) k = true -> JsMap.has (fst (collectInto options acc el)) k = true.
Proof.
  intros Hhas.
  destruct (collectInto_step acc el)
    as [->|(msgId & data & uc & _ & _ & [[_ ->]|[_ ->]])]; try done.
  by apply has_app_l.
Qed.

Lemma foldl_collectInto_has l acc k :
  JsMap.has (fst acc) k = true ->
  JsMap.has (fst (foldl (collectInto options) acc l)) k = true.
Proof.
  revert acc. induction l as [|el l IH]; intros acc Hhas; [done|].
  simpl. by apply IH, collectInto_has.
Qed.

(** Every key of the folded store was there before or is the id of one of
    the elements folded in. *)
Lemma foldl_collectInto_keys l acc k :
  k ∈ JsMap.keys (fst (foldl (collectInto options) acc l)) ->
  k ∈ JsMap.keys (fst acc) \/ exists el, el ∈ l /\ idOf el = k.
Proof.
  revert acc. induction l as [|el l IH]; intros acc Hk; [by left|].
  simpl in Hk. destruct (IH _ Hk) as [Hacc|(el' & Hel' & Hid)].
  - destruct (collectInto_step acc el)
      as [E|(msgId & data & uc & Hmsg & _ & [[_ E]|[_ E]])]; rewrite E in Hacc.
    + by left.
    + cbn [fst] in Hacc. unfold JsMap.keys in Hacc. rewrite fmap_app in Hacc.
      apply elem_of_app in Hacc as [?|Hnew]; [by left|].
      right. exists el. split; [left|].
      apply list_elem_of_singleton in Hnew. cbn in Hnew. subst k.
      by apply getMessageId_Some in Hmsg as [? _].
    + by left.
  - right. exists el'. split; [by right|done].
Qed.

(** Every element folded in is in the folded store, unless the extractor
    returned null for it. *)
Lemma foldl_collectInto_complete l acc el :
  el ∈ l -> getMessageId (Some (me_view el)) = Some (idOf el) ->
  JsMap.has (fst (foldl (collectInto options) acc l)) (idOf el) = true \/
  exists uc, fst (extractMessageData (Some el) options uc) = None.
Proof.
  revert acc. induction l as [|x l IH]; intros acc Hin Hid.
  - by apply elem_of_nil in Hin.
  - apply elem_of_cons in Hin as [->|Hin]; [|by apply IH]. simpl.
    destruct (JsMap.has (fst acc) (idOf x)) eqn:Hhas.
    { left. by apply foldl_collectInto_has, collectInto_has. }
    destruct (collectInto_step acc x)
      as [E|(msgId & data & uc & Hmsg & _ & [[_ E]|[Hnone _]])].
    + unfold collectInto in E. rewrite Hid in E. unfold collectMessage in E.
      cbn [collectedMessages users] in E. rewrite Hhas in E. cbn [negb] in E.
      destruct (extractMessageData (Some x) options (snd acc)) as [[d|] uc] eqn:Hex.
      * exfalso. cbn in E. destruct acc as [store uc0]. cbn in *.
        injection E as E _. rewrite set_fresh in E by (by apply has_false).
        apply (f_equal length) in E. rewrite length_app in E. simpl in E. lia.
      * right. exists (snd acc). by rewrite Hex.
    + left. apply foldl_collectInto_has. rewrite E. cbn [fst].
      rewrite Hid in Hmsg. injection Hmsg as <-.
      apply has_true. unfold JsMap.keys. rewrite fmap_app. apply elem_of_app.
      right. by left.
    + right. by eexists.
Qed.

End CollectInto.

Section WindowLoop.
Context `{host : Host}.
Variable rank : string -> nat.
Variable startId endId : string.
Variable options : ExportOptions.
Variable page : Page.

Hypothesis start_before_end : rank startId <= rank endId.
Hypothesis start_is_message : startsWith startId "chat-messages-" = true.
Hypothesis end_is_message : startsWith endId "chat-messages-" = true.
Hypothesis settled_steady :
  forall n, ordered rank (settled page n) /\ forwardWindow rank startId endId (settled page n).

Lemma loopBody_data st st' :
  loopBody (Some startId) (Some endId) options page st = inl st' \/
  loopBody (Some startId) (Some endId) options page st = inr st' ->
  let scanned := scanSnapshot (Some startId) (Some endId) options (current st) (scan st) in
  collectedMessages (scan st') = collectedMessages scanned /\
  users (scan st') = users scanned /\
  foundStartMessage (scan st') = foundStartMessage scanned.
Proof.
  unfold loopBody.
  destruct (foundEndMessage (scanSnapshot _ _ _ _ _)).
  - intros [[=]|[= <-]]. done.
  - destruct (stallStep _ _ _ _ _) as [count stop]. destruct stop.
    + intros [[=]|[= <-]]. done.
    + intros [[= <-]|[=]]. done.
Qed.

Lemma collectLoop_in_window fuel st :
  foundStartMessage (scan st) = true ->
  ordered rank (current st) -> forwardWindow rank startId endId (current st) ->
  let st' := collectLoop (Some startId) (Some endId) options page fuel st in
  (collectedMessages (scan st'), users (scan st'))
  = foldl (collectInto options) (collectedMessages (scan st), users (scan st))
      (List.filter (inRange rank startId endId)
         (encountered (Some startId) (Some endId) options page fuel st)) /\
  foundStartMessage (scan st') = true.
Proof.
  revert st. induction fuel as [|fuel IH]; intros st Hfound Hord Hwin; [done|].
  cbv zeta. rewrite collectLoop_unfold. unfold encountered. cbn [scansOf].
  destruct (goesOn st); [|done].
  destruct (scanSnapshot_in_window rank startId endId options start_before_end
              start_is_message end_is_message (current st) (scan st) Hord Hwin Hfound)
    as [Hdata Hfound'].
  cbv zeta in Hdata, Hfound'. cbn [map concat].
  rewrite List.filter_app, foldl_app, <- Hdata.
  destruct (loopBody (Some startId) (Some endId) options page st) as [st'|st'] eqn:Hbody.
  - destruct (loopBody_data st st' (or_introl Hbody)) as (Hc & Hu & Hf).
    cbv zeta in Hc, Hu, Hf. rewrite <- Hc, <- Hu.
    destruct (loopBody_inl _ _ _ _ _ _ Hbody) as (_ & _ & Hcur & _).
    apply IH; [congruence| |]; rewrite Hcur; apply settled_steady.
  - destruct (loopBody_data st st' (or_intror Hbody)) as (Hc & Hu & Hf).
    cbv zeta in Hc, Hu, Hf. cbn [map concat List.filter foldl].
    rewrite Hc, Hu, Hf. done.
Qed.

End WindowLoop.

(** *** The end item in a run *)

Section EndFresh.
Context `{host : Host}.
Variable startFromId : JsStr.
Variable endId : string.
Variable options : ExportOptions.
Variable page : Page.

Hypothesis end_nonempty : endId <> EmptyString.

Lemma collectMessage_other_key msgId el st k :
  msgId <> k ->
  JsMap.has (collectedMessages st) k = false ->
  JsMap.has (collectedMessages (collectMessage options msgId el st)) k = false.
Proof.
  intros Hne Hhas. unfold collectMessage.
  destruct (negb (JsMap.has (collectedMessages st) msgId)); [|done].
  destruct (extractMessageData (Some el) options (users st)) as [[d|] uc];
    cbn [collectedMessages]; [|done].
  unfold JsMap.has in *. by rewrite get_set_other.
Qed.

(** A scan that does not mark the end does not store the end id. *)
Lemma scanMessages_end_fresh startElement endElement listed st :
  JsMap.has (collectedMessages st) endId = false ->
  let st' := scanMessages startFromId (Some endId) options startElement endElement listed st in
  foundEndMessage st' = false ->
  JsMap.has (collectedMessages st') endId = false.
Proof.
  assert (Htruthy : truthy (Some endId) = true) by (by apply truthy_Some).
  revert st. induction listed as [|[pos el] listed IH]; intros st Hhas; [done|].
  cbv zeta. cbn [scanMessages].
  destruct (getMessageId (Some (me_view el))) as [msgId|]; [|by apply IH].
  rewrite Htruthy. cbn [andb].
  destruct (bool_decide_reflect (Some msgId = Some endId)) as [Heq|Hne].
  { cbn. by destruct (collectMessage_flags options msgId el (markEnd st)) as (_ & -> & _). }
  assert (Hk : msgId <> endId) by congruence.
  destruct (from_option (fun e => follows e pos) false endElement); [done|].
  repeat case_match; try (by apply IH); apply IH;
    by apply collectMessage_other_key.
Qed.

(** While a run goes on, its store does not hold the end id. *)
Lemma collectLoop_end_fresh fuel st :
  JsMap.has (collectedMessages (scan st)) endId = false ->
  flagsOk (scan st) ->
  let st' := collectLoop startFromId (Some endId) options page fuel st in
  goesOn st' = true -> JsMap.has (collectedMessages (scan st')) endId = false.
Proof.
  revert st. induction fuel as [|fuel IH]; intros st Hhas Hok; [done|].
  cbv zeta. rewrite collectLoop_unfold. destruct (goesOn st) eqn:Hgo; [|done].
  destruct (loopBody startFromId (Some endId) options page st) as [st1|st1] eqn:Hbody.
  - destruct (loopBody_inl _ _ _ _ _ _ Hbody) as (_ & _ & _ & Hscan & Hend).
    apply IH; [|by eapply loopBody_flagsOk].
    rewrite Hscan in *. by apply scanMessages_end_fresh.
  - intros Hgo1. exfalso. unfold goesOn in Hgo1.
    destruct (loopBody_inr _ _ _ _ _ _ Hbody) as (_ & _ & _ & Hb).
    rewrite (Hb Hok), andb_false_r in Hgo1. done.
Qed.

(** Scanning what is listed before the end item does not store the end
    id either. *)
Lemma scanMessages_before_end startElement endElement before st :
  JsMap.has (collectedMessages st) endId = false ->
  (forall x, x ∈ before -> getMessageId (Some (me_view (snd x))) <> Some endId) ->
  JsMap.has
    (collectedMessages
       (scanMessages startFromId (Some endId) options startElement endElement before st))
    endId = false.
Proof.
  revert st. induction before as [|[pos el] before IH]; intros st Hhas Hnone; [done|].
  assert (Hhead := Hnone (pos, el) ltac:(left)). cbn [snd] in Hhead.
  assert (Htail : forall x, x ∈ before ->
            getMessageId (Some (me_view (snd x))) <> Some endId)
    by (intros x Hx; apply Hnone; by right).
  cbn [scanMessages].
  destruct (getMessageId (Some (me_view el))) as [msgId|]; [|by apply IH].
  assert (Hk : msgId <> endId) by congruence.
  rewrite bool_decide_eq_false_2 by congruence. rewrite andb_false_r.
  repeat case_match; try (by apply IH); try done;
    apply IH; try done; by apply collectMessage_other_key.
Qed.

End EndFresh.

(** *** The extractions of a run, in order *)

Lemma StronglySorted_snoc (l : list nat) (n : nat) :
  StronglySorted lt l -> Forall (fun i => i < n) l -> StronglySorted lt (l ++ [n]).
Proof.
  induction 1 as [|i l Hl IH Hi]; intros Hall; cbn [app].
  - by repeat constructor.
  - apply Forall_cons in Hall as [Hin Hall]. constructor; [by apply IH|].
    apply Forall_app. split; [done|]. by constructor.
Qed.

Section Trace.
Context `{host : Host}.
Variable options : ExportOptions.

(** What bringing an element to the extraction site does. *)
Lemma collectInto_cases acc el :
  getMessageId (Some (me_view el)) = Some (idOf el) ->
  collectInto options acc el
  = if JsMap.has (fst acc) (idOf el) then acc
    else (match fst (extractMessageData (Some el) options (snd acc)) with
          | Some data => fst acc ++ [(idOf el, data)]
          | None => fst acc
          end,
          snd (extractMessageData (Some el) options (snd acc))).
Proof.
  intros Hid. destruct acc as [store uc]. unfold collectInto, collectMessage.
  rewrite Hid. cbn [fst snd collectedMessages users].
  destruct (JsMap.has store (idOf el)) eqn:Hhas; cbn [negb]; [done|].
  destruct (extractMessageData (Some el) options uc) as [[data|] uc'];
    cbn [fst snd collectedMessages users]; [|done].
  by rewrite set_fresh by (by apply has_false).
Qed.

Lemma reachedAt_app met more i :
  i <= length met -> reachedAt options (met ++ more) i = reachedAt options met i.
Proof. intros Hi. unfold reachedAt. by rewrite take_app_le. Qed.

Lemma reachedAt_all met :
  reachedAt options met (length met)
  = foldl (collectInto options) (JsMap.empty, userCache.reset) met.
Proof. unfold reachedAt. by rewrite firstn_all. Qed.

Lemma extractedAt_app met more i :
  i < length met -> extractedAt options (met ++ more) i = extractedAt options met i.
Proof.
  intros Hi. unfold extractedAt. rewrite lookup_app_l by done.
  by rewrite reachedAt_app by lia.
Qed.

Lemma extractedAt_last met el :
  extractedAt options (met ++ [el]) (length met)
  = fst (extractMessageData (Some el) options
           (snd (foldl (collectInto options) (JsMap.empty, userCache.reset) met))).
Proof.
  unfold extractedAt. rewrite list_lookup_middle by done.
  by rewrite reachedAt_app, reachedAt_all by lia.
Qed.

Lemma keptAt_app met more i m :
  i < length met -> keptAt options met i m -> keptAt options (met ++ more) i m.
Proof.
  intros Hi (el & Hel & Hid & Hex & Hearlier). exists el.
  split; [by rewrite lookup_app_l|]. split; [done|].
  split; [by rewrite extractedAt_app|].
  intros j el' Hj Hel' Hsame. rewrite lookup_app_l in Hel' by lia.
  rewrite extractedAt_app by lia. by eapply Hearlier.
Qed.

(** The store a sequence of elements leaves, read place by place. *)
Lemma foldl_collectInto_trace met :
  Forall (fun el => getMessageId (Some (me_view el)) = Some (idOf el)) met ->
  let store := fst (foldl (collectInto options) (JsMap.empty, userCache.reset) met) in
  exists places : list nat,
    StronglySorted lt places /\
    Forall (fun i => i < length met) places /\
    Forall2 (keptAt options met) places (JsMap.values store) /\
    (forall i el, met !! i = Some el -> is_Some (extractedAt options met i) ->
                  JsMap.has store (idOf el) = true) /\
    map msg_id (JsMap.values store) = map Some (JsMap.keys store).
Proof.
  induction met as [|el met IH] using rev_ind; intros Hids store.
  { exists []. subst store. cbn. repeat split; try constructor.
    intros i el Hel. by rewrite lookup_nil in Hel. }
  apply Forall_app in Hids as [Hids Hel]. apply Forall_inv in Hel.
  destruct (IH Hids) as (places & Hsorted & Hbound & Hkept & Hall & Hkeys).
  clear IH. cbv zeta in Hkept, Hall, Hkeys. subst store.
  rewrite foldl_app. cbn [foldl].
  set (acc := foldl (collectInto options) (JsMap.empty, userCache.reset) met) in *.
  rewrite (collectInto_cases acc el Hel).
  assert (Hwider : Forall (fun i => i < length (met ++ [el])) places).
  { eapply Forall_impl; [exact Hbound|]. intros i Hi. cbv beta in Hi |- *.
    rewrite length_app. cbn [length]. lia. }
  assert (Hold : Forall2 (keptAt options (met ++ [el])) places (JsMap.values (fst acc))).
  { clear -Hkept Hbound. induction Hkept as [|i m places msgs Him _ IH]; [constructor|].
    apply Forall_cons in Hbound as [Hi Hbound].
    constructor; [by apply keptAt_app|by apply IH]. }
  assert (Hplace : forall i el', (met ++ [el]) !! i = Some el' ->
                     i < length met /\ met !! i = Some el' \/ i = length met /\ el' = el).
  { intros i el' Hi. destruct (decide (i < length met)) as [Hlt|Hge].
    - left. split; [done|]. by rewrite lookup_app_l in Hi.
    - right. rewrite lookup_app_r in Hi by lia.
      destruct (i - length met) as [|k] eqn:Ek; [|by destruct k].
      injection Hi as <-. split; [lia|done]. }
  destruct (JsMap.has (fst acc) (idOf el)) eqn:Hhas.
  { exists places. split; [done|]. split; [done|]. split; [done|]. split; [|done].
    intros i el' Hi Hsome. destruct (Hplace i el' Hi) as [[Hlt Hi']|[-> ->]]; [|done].
    rewrite extractedAt_app in Hsome by done. by eapply Hall. }
  cbn [fst snd].
  destruct (fst (extractMessageData (Some el) options (snd acc))) as [data|] eqn:Hex.
  - exists (places ++ [length met]).
    split; [by apply StronglySorted_snoc|]. split.
    { apply Forall_app. split; [done|]. constructor; [|constructor].
      rewrite length_app. cbn [length]. lia. }
    split; [|split].
    + unfold JsMap.values. rewrite fmap_app. apply Forall2_app; [exact Hold|].
      constructor; [|constructor]. exists el.
      split; [by apply list_lookup_middle|]. split.
      { apply extractMessageData_Some in Hex as (Hid & _). cbn [snd]. congruence. }
      split; [by rewrite extractedAt_last|].
      intros j el' Hj Hel' Hsame. rewrite lookup_app_l in Hel' by done.
      rewrite extractedAt_app by done.
      destruct (extractedAt options met j) as [m|] eqn:Hm; [|done].
      assert (Hin : JsMap.has (fst acc) (idOf el') = true)
        by (eapply Hall; [exact Hel'|by rewrite Hm]).
      congruence.
    + intros i el' Hi Hsome. destruct (Hplace i el' Hi) as [[Hlt Hi']|[-> ->]].
      * rewrite extractedAt_app in Hsome by done. apply has_app_l. by eapply Hall.
      * apply has_true. unfold JsMap.keys. rewrite fmap_app. apply elem_of_app.
        right. by left.
    + unfold JsMap.values, JsMap.keys in *. rewrite !fmap_app.
      f_equal; [exact Hkeys|]. cbn. f_equal.
      apply extractMessageData_Some in Hex as (Hid & _). congruence.
  - exists places. split; [done|]. split; [done|]. split; [done|]. split; [|done].
    intros i el' Hi Hsome. destruct (Hplace i el' Hi) as [[Hlt Hi']|[-> ->]].
    + rewrite extractedAt_app in Hsome by done. by eapply Hall.
    + rewrite extractedAt_last in Hsome. fold acc in Hsome. rewrite Hex in Hsome.
      by destruct Hsome.
Qed.

(** The records a sequence of elements leaves in the store are those
    first kept, in the order of their places. *)
Lemma foldl_collectInto_firstKept met :
  Forall (fun el => getMessageId (Some (me_view el)) = Some (idOf el)) met ->
  firstKept options met
    (JsMap.values (fst (foldl (collectInto options) (JsMap.empty, userCache.reset) met))).
Proof.
  intros Hids.
  destruct (foldl_collectInto_trace met Hids) as (places & Hsorted & _ & Hkept & Hall & Hkeys).
  cbv zeta in Hkept, Hall, Hkeys. exists places. split; [done|]. split; [done|].
  intros i el Hel Hsome. rewrite Hkeys. apply list_elem_of_fmap. exists (idOf el).
  split; [done|]. apply has_true. by eapply Hall.
Qed.

End Trace.

Section Offers.
Context `{host : Host}.
Variable startFromId endAtId : JsStr.
Variable options : ExportOptions.
Variable page : Page.

(** What one turn of the loop leaves of its scan. *)
Lemma loopBody_scan st st' :
  loopBody startFromId endAtId options page st = inl st' \/
  loopBody startFromId endAtId options page st = inr st' ->
  let scanned := scanSnapshot startFromId endAtId options (current st) (scan st) in
  collectedMessages (scan st') = collectedMessages scanned /\
  users (scan st') = users scanned /\
  foundStartMessage (scan st') = foundStartMessage scanned.
Proof.
  unfold loopBody.
  destruct (foundEndMessage (scanSnapshot _ _ _ _ _)).
  - intros [[=]|[= <-]]. done.
  - destruct (stallStep _ _ _ _ _) as [count stop]. destruct stop.
    + intros [[=]|[= <-]]. done.
    + intros [[= <-]|[=]]. done.
Qed.

(** What a scan leaves in the store and the user cache: the elements it
    brings to the extraction site, collected in turn. *)
Lemma scanMessages_offers startElement endElement messageArray st :
  let st' := scanMessages startFromId endAtId options startElement endElement
               messageArray st in
  (collectedMessages st', users st')
  = foldl (collectInto options) (collectedMessages st, users st)
      (scanOffers startFromId endAtId startElement endElement messageArray
         (foundStartMessage st)).
Proof.
  revert st. induction messageArray as [|[pos el] rest IH]; intros st; [done|].
  cbn [scanMessages scanOffers].
  destruct (getMessageId (Some (me_view el))) as [msgId|] eqn:Hid; [|apply IH].
  destruct (truthy endAtId && bool_decide (Some msgId = endAtId)).
  { cbn [foldl markBottom collectedMessages users].
    by rewrite (collectInto_collectMessage options msgId el st Hid),
      (collectMessage_data options msgId el (markEnd st)),
      <- (collectMessage_data options msgId el st). }
  destruct (from_option (fun e => follows e pos) false endElement); [done|].
  assert (Hstep : forall st1 : ScanState,
             collectedMessages st1 = collectedMessages st -> users st1 = users st ->
             let st2 := scanMessages startFromId endAtId options startElement endElement
                          rest (collectMessage options msgId el st1) in
             (collectedMessages st2, users st2)
             = foldl (collectInto options) (collectedMessages st, users st)
                 (el :: scanOffers startFromId endAtId startElement endElement rest
                          (foundStartMessage st1))).
  { intros st1 Hc Hu. cbv zeta. rewrite IH. cbn [foldl].
    rewrite <- Hc, <- Hu, (collectInto_collectMessage options msgId el st1 Hid).
    by destruct (collectMessage_flags options msgId el st1) as (-> & _). }
  destruct (truthy startFromId); [|by apply Hstep].
  destruct (bool_decide (Some msgId = startFromId)).
  { by apply (Hstep (markStart st)). }
  destruct (match startElement with
            | Some s => negb (follows s pos)
            | None => negb (foundStartMessage st)
            end); [apply IH|by apply Hstep].
Qed.

(** The main loop likewise. *)
Lemma collectLoop_offers fuel st :
  let st' := collectLoop startFromId endAtId options page fuel st in
  (collectedMessages (scan st'), users (scan st'))
  = foldl (collectInto options) (collectedMessages (scan st), users (scan st))
      (offersOf startFromId endAtId options page fuel st).
Proof.
  revert st. induction fuel as [|fuel IH]; intros st; [done|].
  cbv zeta. rewrite collectLoop_unfold. cbn [offersOf].
  destruct (goesOn st); [|done].
  rewrite foldl_app.
  rewrite <- (scanMessages_offers (getElementById (current st) startFromId)
                (getElementById (current st) endAtId) (queryMessages (current st))
                (scan st)).
  fold (scanSnapshot startFromId endAtId options (current st) (scan st)).
  destruct (loopBody startFromId endAtId options page st) as [st'|st'] eqn:Hbody.
  - destruct (loopBody_scan st st' (or_introl Hbody)) as (Hc & Hu & _).
    cbv zeta in Hc, Hu. rewrite <- Hc, <- Hu. apply IH.
  - destruct (loopBody_scan st st' (or_intror Hbody)) as (Hc & Hu & _).
    cbv zeta in Hc, Hu. cbn [foldl]. by rewrite Hc, Hu.
Qed.

(** The store a run returns is what the elements it brings to the
    extraction site leave, from the empty store and the reset cache. *)
Lemma run_offered sent :
  collectedMessages
    (finishCollection startFromId options
       (runLoop startFromId endAtId options page sent))
  = fst (foldl (collectInto options) (JsMap.empty, userCache.reset)
           (offered startFromId endAtId options page sent)).
Proof.
  unfold offered, finishCollection.
  set (final := runLoop startFromId endAtId options page sent).
  rewrite foldl_app.
  assert (Hloop : (collectedMessages (scan final), users (scan final))
                  = foldl (collectInto options) (JsMap.empty, userCache.reset)
                      (offersOf startFromId endAtId options page CONFIG.maxScrollAttempts
                         (seekStart startFromId page userCache.reset sent))).
  { subst final. unfold runLoop.
    rewrite (collectLoop_offers CONFIG.maxScrollAttempts
               (seekStart startFromId page userCache.reset sent)).
    f_equal. unfold seekStart.
    by destruct (if negb (truthy startFromId) then _ else _) as [[found snap] sent']. }
  rewrite <- Hloop.
  destruct (truthy startFromId && negb (foundStartMessage (scan final))); [|done].
  unfold sweepAll. generalize (queryMessages (current final)) (scan final).
  intros l. induction l as [|[pos el] rest IH]; intros st; [done|].
  cbn [foldl map snd]. rewrite IH.
  destruct (getMessageId (Some (me_view el))) as [msgId|] eqn:Hid.
  - by rewrite (collectInto_collectMessage options msgId el st Hid).
  - assert (Hskip : collectInto options (collectedMessages st, users st) el
                    = (collectedMessages st, users st))
      by (unfold collectInto; by rewrite Hid).
    by rewrite Hskip.
Qed.

Lemma scanOffers_listed startElement endElement messageArray found el :
  el ∈ scanOffers startFromId endAtId startElement endElement messageArray found ->
  exists pos, (pos, el) ∈ messageArray.
Proof.
  revert found. induction messageArray as [|[pos x] rest IH]; intros found; cbn [scanOffers].
  { intros Hin. by apply elem_of_nil in Hin. }
  assert (Hrest : forall found',
             el ∈ x :: scanOffers startFromId endAtId startElement endElement rest found' ->
             exists pos', (pos', el) ∈ (pos, x) :: rest).
  { intros found' Hin. apply elem_of_cons in Hin as [->|Hin].
    - exists pos. by left.
    - destruct (IH _ Hin) as [pos' Hpos]. exists pos'. by right. }
  assert (Hskip : forall found',
             el ∈ scanOffers startFromId endAtId startElement endElement rest found' ->
             exists pos', (pos', el) ∈ (pos, x) :: rest).
  { intros found' Hin. destruct (IH _ Hin) as [pos' Hpos]. exists pos'. by right. }
  destruct (getMessageId (Some (me_view x))); [|apply Hskip].
  destruct (truthy endAtId && bool_decide (Some s = endAtId)).
  { intros Hin. apply list_elem_of_singleton in Hin as ->. exists pos. by left. }
  destruct (from_option (fun e => follows e pos) false endElement).
  { intros Hin. by apply elem_of_nil in Hin. }
  destruct (truthy startFromId); [|apply Hrest].
  destruct (bool_decide (Some s = startFromId)); [apply Hrest|].
  destruct (match startElement with
            | Some s0 => negb (follows s0 pos)
            | None => negb found
            end); [apply Hskip|apply Hrest].
Qed.

Lemma offersOf_listed fuel st el :
  el ∈ offersOf startFromId endAtId options page fuel st ->
  getMessageId (Some (me_view el)) = Some (idOf el).
Proof.
  revert st. induction fuel as [|fuel IH]; intros st; cbn [offersOf].
  { intros Hin. by apply elem_of_nil in Hin. }
  destruct (goesOn st); [|intros Hin; by apply elem_of_nil in Hin].
  intros Hin. apply elem_of_app in Hin as [Hin|Hin].
  - apply scanOffers_listed in Hin as [pos Hpos].
    by apply (listed_id (current st) (pos, el)).
  - destruct (loopBody startFromId endAtId options page st) as [st'|st'].
    + by eapply IH.
    + by apply elem_of_nil in Hin.
Qed.

(** The elements a run brings to the extraction site are message items. *)
Lemma offered_listed sent :
  Forall (fun el => getMessageId (Some (me_view el)) = Some (idOf el))
    (offered startFromId endAtId options page sent).
Proof.
  apply Forall_forall. intros el Hin. unfold offered in Hin.
  apply elem_of_app in Hin as [Hin|Hin]; [by eapply offersOf_listed|].
  destruct (truthy startFromId && negb _); [|by apply elem_of_nil in Hin].
  apply list_elem_of_fmap in Hin as ([pos x] & -> & Hx).
  exact (listed_id _ (pos, x) Hx).
Qed.

End Offers.

(** *** Runs between two boundaries *)

Lemma ordered_of_sorted rank snap :
  StronglySorted (fun a b => rank (idOf a) < rank (idOf b)) (elements snap) ->
  ordered rank snap.
Proof.
  unfold ordered. generalize (elements snap). intros l Hs.
  induction Hs as [|x l Hs IH Hall]; intros i j a b Hi Hj Hlt; [done|].
  destruct j as [|j]; [lia|]. simpl in Hj.
  destruct i as [|i]; simpl in Hi.
  - injection Hi as ->. rewrite Forall_forall in Hall. apply Hall.
    by eapply list_elem_of_lookup_2.
  - apply (IH i j); [done|done|lia].
Qed.

Section RunBetween.
Context `{host : Host}.
Variable options : ExportOptions.
Variable page : Page.

Lemma runLoopFor_S startFromId endAtId n sent :
  runLoopFor startFromId endAtId options page (S n) sent
  = collectLoop startFromId endAtId options page 1
      (runLoopFor startFromId endAtId options page n sent).
Proof.
  unfold runLoopFor. replace (S n) with (n + 1) by lia.
  apply collectLoop_app, seekStart_flagsOk.
Qed.

Lemma runLoopFor_flagsOk startFromId endAtId n sent :
  flagsOk (scan (runLoopFor startFromId endAtId options page n sent)).
Proof. apply collectLoop_flagsOk, seekStart_flagsOk. Qed.

(** The turn of a run that comes upon the end item. *)
Lemma run_meets_end startFromId eid n sent before pos endEl rest :
  let st := runLoopFor startFromId (Some eid) options page n sent in
  goesOn st = true ->
  queryMessages (current st) = before ++ (pos, endEl) :: rest ->
  getMessageId (Some (me_view endEl)) = Some eid ->
  (forall x, x ∈ before -> getMessageId (Some (me_view (snd x))) <> Some eid) ->
  let reached :=
    scanMessages startFromId (Some eid) options (getElementById (current st) startFromId)
      (getElementById (current st) (Some eid)) before (scan st) in
  let st' := runLoopFor startFromId (Some eid) options page (S n) sent in
  JsMap.has (collectedMessages reached) eid = false /\
  scan st' = markBottom (collectMessage options eid endEl (markEnd reached)) /\
  (JsMap.has (collectedMessages (scan st')) eid = true <->
   is_Some (fst (extractMessageData (Some endEl) options (users reached)))) /\
  foundEndMessage (scan st') = true /\
  scrollAttempts st' = S (scrollAttempts st) /\
  waits st' = waits st /\ sink st' = sink st /\ goesOn st' = false /\
  (forall more,
      runLoopFor startFromId (Some eid) options page (S n + more) sent = st').
Proof.
  intros st Hgo Hsplit Hid Hbefore reached st'.
  destruct (getMessageId_Some _ _ Hid) as [_ Hpre].
  assert (Hne : eid <> EmptyString) by (intros ->; discriminate Hpre).
  assert (Hfresh : JsMap.has (collectedMessages (scan st)) eid = false).
  { subst st. unfold runLoopFor in *.
    apply collectLoop_end_fresh; [done| |apply seekStart_flagsOk|done].
    by rewrite (proj1 (seekStart_store startFromId page userCache.reset sent)). }
  assert (Hreached : JsMap.has (collectedMessages reached) eid = false)
    by (by apply scanMessages_before_end).
  destruct (collectLoop_meets_end startFromId (Some eid) options page 0 st before pos
              endEl rest eid eq_refl Hgo Hsplit Hid Hbefore)
    as (Hscan & Ha & Hw & _ & Hs & Hdone).
  cbv zeta in Hscan, Ha, Hw, Hs, Hdone. fold reached in Hscan.
  assert (Hst' : st' = collectLoop startFromId (Some eid) options page 1 st)
    by apply runLoopFor_S.
  rewrite <- Hst' in *.
  split; [done|]. split; [done|]. split; [|split; [|repeat split; try done]].
  - rewrite Hscan. cbn [collectedMessages markBottom]. unfold collectMessage.
    cbn [collectedMessages users markEnd]. rewrite Hreached. cbn [negb].
    destruct (extractMessageData (Some endEl) options (users reached)) as [[d|] uc];
      cbn [fst collectedMessages].
    + split; [by eexists|]. intros _. unfold JsMap.has. by rewrite get_set_same.
    + rewrite Hreached. split; [done|]. by intros [? ?].
  - rewrite Hscan. cbn.
    by destruct (collectMessage_flags options eid endEl (markEnd reached))
      as (_ & -> & _).
  - intros more. rewrite Hst'. unfold st, runLoopFor.
    rewrite <- collectLoop_app by apply seekStart_flagsOk.
    replace (S n + more) with ((n + 1) + more) by lia.
    rewrite (collectLoop_app _ _ _ _ (n + 1) more) by apply seekStart_flagsOk.
    apply collectLoop_done.
    rewrite collectLoop_app by apply seekStart_flagsOk.
    fold (runLoopFor startFromId (Some eid) options page n sent). fold st.
    by rewrite <- Hst'.
Qed.

(** A run between two boundaries on a page whose window only moves
    forward. *)
Lemma run_in_window rank startId endId sent :
  rank startId <= rank endId ->
  startsWith startId "chat-messages-" = true ->
  startsWith endId "chat-messages-" = true ->
  steadyPage rank startId endId page ->
  is_Some (getElementById (entry page) (Some startId)) ->
  collectedMessages
    (finishCollection (Some startId) options
       (runLoop (Some startId) (Some endId) options page sent))
  = fst (foldl (collectInto options) (JsMap.empty, userCache.reset)
           (List.filter (inRange rank startId endId)
              (encountered (Some startId) (Some endId) options page
                 CONFIG.maxScrollAttempts
                 (seekStart (Some startId) page userCache.reset sent)))).
Proof.
  intros Hse Hs He [_ Hsettled] [i Hmounted].
  unfold runLoop.
  set (init := seekStart (Some startId) page userCache.reset sent).
  assert (Hinit : scan init = {| collectedMessages := JsMap.empty;
                                 users := userCache.reset;
                                 foundStartMessage := true;
                                 foundEndMessage := false; reachedBottom := false |} /\
                  current init = settled page 0).
  { subst init. unfold seekStart.
    rewrite (startId_truthy startId Hs), Hmounted. done. }
  destruct Hinit as [Hscan Hcur].
  destruct (collectLoop_in_window rank startId endId options page Hse Hs He Hsettled
              CONFIG.maxScrollAttempts init) as [Hdata Hfound].
  - by rewrite Hscan.
  - rewrite Hcur. apply Hsettled.
  - rewrite Hcur. apply Hsettled.
  - cbv zeta in Hdata, Hfound. unfold finishCollection. rewrite Hfound.
    rewrite andb_false_r. rewrite Hscan in Hdata. cbn [collectedMessages users] in Hdata.
    exact (f_equal fst Hdata).
Qed.

(** The elements a run comes upon are message items. *)
Lemma encountered_listed startFromId endAtId fuel st el :
  el ∈ encountered startFromId endAtId options page fuel st ->
  getMessageId (Some (me_view el)) = Some (idOf el).
Proof.
  unfold encountered. rewrite list_elem_of_In, in_concat.
  intros (l & Hl & Hel). apply in_map_iff in Hl as (snap & <- & _).
  apply in_map_iff in Hel as (x & <- & Hx). apply list_elem_of_In in Hx.
  by eapply listed_id.
Qed.

(** The run is over with the turn that comes upon the end item. *)
Lemma run_ends_there startFromId endAtId n sent :
  goesOn (runLoopFor startFromId endAtId options page n sent) = false ->
  runLoop startFromId endAtId options page sent
  = runLoopFor startFromId endAtId options page n sent.
Proof.
  intros Hdone. unfold runLoop, runLoopFor in *.
  rewrite <- (collectLoop_ge_same startFromId endAtId options page
                (n + CONFIG.maxScrollAttempts) CONFIG.maxScrollAttempts)
    by (try apply seekStart_flagsOk; cbn; lia).
  rewrite collectLoop_app by apply seekStart_flagsOk.
  by apply collectLoop_done.
Qed.

Lemma values_elem (store : Store) m :
  m ∈ JsMap.values store <-> exists k, (k, m) ∈ store.
Proof.
  unfold JsMap.values. rewrite list_elem_of_fmap. split.
  - intros ([k m'] & -> & Hin). by exists k.
  - intros (k & Hin). by exists (k, m).
Qed.

Lemma keys_elem (store : Store) k :
  k ∈ JsMap.keys store <-> exists m, (k, m) ∈ store.
Proof.
  unfold JsMap.keys. rewrite list_elem_of_fmap. split.
  - intros ([k' m] & -> & Hin). by exists m.
  - intros (m & Hin). by exists (k, m).
Qed.

End RunBetween.




(** ** Further properties of the code *)

(** *** Previews and titles *)

Lemma jsTake_all n s : jsLength s <= n -> jsTake n s = s.
Proof.
  revert n. induction s as [|c s IH]; intros n Hle; [done|].
  cbn [jsTake jsLength] in *. unfold unitsOf in Hle.
  destruct (isContinuation c); [f_equal; apply IH; lia|].
  destruct (nat_of_ascii c <? 240).
  - destruct n as [|n]; [lia|]. f_equal. apply IH. lia.
  - destruct n as [|[|n]]; [lia|lia|]. f_equal. apply IH. lia.
Qed.

Lemma jsLength_highSurrogate c rest : jsLength (highSurrogate c rest) = 1.
Proof.
  unfold highSurrogate.
  set (top := _ - 64).
  assert (Htop : top / 64 < 32).
  { subst top.
    pose proof (Nat.mod_upper_bound (nat_of_ascii c) 8).
    pose proof (Nat.mod_upper_bound (from_option nat_of_ascii 128 (String.get 0 rest)) 64).
    pose proof (Nat.mod_upper_bound (from_option nat_of_ascii 128 (String.get 1 rest)) 64).
    apply Nat.Div0.div_lt_upper_bound.
    assert (from_option nat_of_ascii 128 (String.get 1 rest) mod 64 / 16 < 4)
      by (apply Nat.Div0.div_lt_upper_bound; lia).
    lia. }
  assert (Hlow : top mod 64 < 64) by (apply Nat.mod_upper_bound; lia).
  cbn [jsLength]. unfold unitsOf, isContinuation.
  rewrite !nat_ascii_embedding by lia.
  replace (128 <=? 237) with true by done. replace (237 <? 192) with false by done.
  replace (237 <? 240) with true by done. cbn [andb].
  replace (128 <=? 160 + top / 64) with true by (symmetry; apply Nat.leb_le; lia).
  replace (160 + top / 64 <? 192) with true by (symmetry; apply Nat.ltb_lt; lia).
  replace (128 <=? 128 + top mod 64) with true by (symmetry; apply Nat.leb_le; lia).
  replace (128 + top mod 64 <? 192) with true by (symmetry; apply Nat.ltb_lt; lia).
  done.
Qed.

Lemma jsLength_jsTake n s : jsLength (jsTake n s) = Nat.min n (jsLength s).
Proof.
  revert n. induction s as [|c s IH]; intros n; [by destruct n|].
  cbn [jsTake jsLength]. unfold unitsOf.
  destruct (isContinuation c) eqn:Hc.
  { cbn [jsLength]. unfold unitsOf. rewrite Hc. apply IH. }
  destruct (nat_of_ascii c <? 240) eqn:Hlead.
  - destruct n as [|n]; [done|]. cbn [jsLength]. unfold unitsOf.
    rewrite Hc, Hlead, IH. lia.
  - destruct n as [|[|n]]; [done| |].
    + rewrite jsLength_highSurrogate. lia.
    + cbn [jsLength]. unfold unitsOf. rewrite Hc, Hlead, IH. lia.
Qed.

Lemma append_empty_r s : s +:+ EmptyString = s.
Proof.
  induction s as [|c s IH]; [done|].
  change (String c (s +:+ EmptyString) = String c s). by rewrite IH.
Qed.

(** X1: the preview of no element is empty. The preview of an element is
    the text of its first username element (or [Unknown]), a colon, and
    the text of its first content element cut to its first 50 UTF-16 code
    units; three dots follow exactly when that text has 50 code units or
    more, so also when it has exactly 50 and nothing was cut. *)
Theorem getMessagePreview_shape :
  forall (host : Host) (messageEl : ElView),
    let username_ :=
      match head (el_usernameEls messageEl) with
      | Some el => trim (un_textContent el)
      | None => "Unknown"
      end in
    let text_ :=
      match head (el_contentEls messageEl) with
      | Some el => trim (ct_textContent el)
      | None => EmptyString
      end in
    getMessagePreview None = EmptyString /\
    (jsLength text_ < 50 ->
     getMessagePreview (Some messageEl) = username_ +:+ ": " +:+ text_) /\
    (50 <= jsLength text_ ->
     getMessagePreview (Some messageEl)
     = username_ +:+ ": " +:+ jsTake 50 text_ +:+ "..." /\
     jsLength (jsTake 50 text_) = 50) /\
    (jsLength text_ = 50 ->
     getMessagePreview (Some messageEl) = username_ +:+ ": " +:+ text_ +:+ "...").
Proof.
  intros host messageEl username_ text_.
  assert (Hcontent :
            match head (el_contentEls messageEl) with
            | Some el => jsTake 50 (trim (ct_textContent el))
            | None => EmptyString
            end = jsTake 50 text_).
  { subst text_. by destruct (head (el_contentEls messageEl)). }
  assert (Hpreview :
            getMessagePreview (Some messageEl)
            = username_ +:+ ": " +:+ jsTake 50 text_ +:+
              (if 50 <=? jsLength (jsTake 50 text_) then "..." else EmptyString)).
  { unfold getMessagePreview. fold username_. by rewrite Hcontent. }
  split; [done|]. split; [|split].
  - intros Hshort. rewrite Hpreview, jsTake_all by lia.
    destruct (Nat.leb_spec 50 (jsLength text_)); [lia|].
    by rewrite append_empty_r.
  - intros Hlong. rewrite Hpreview, jsLength_jsTake.
    rewrite Nat.min_l by done. done.
  - intros Hfifty. rewrite Hpreview, jsTake_all by lia. by rewrite Hfifty.
Qed.

Lemma getMessagePreview_shape_witness :
  getMessagePreview (host := plainHost) (Some (previewView "alice" thirtyAccents))
  = "alice: " +:+ thirtyAccents /\
  getMessagePreview (host := plainHost) (Some (previewView "alice" fiftyChars))
  = "alice: " +:+ fiftyChars +:+ "..." /\
  getMessagePreview (host := plainHost) (Some (previewView "alice" emojiAtTheCut))
  = "alice: " +:+ jsTake 50 emojiAtTheCut +:+ "..." /\
  jsLength (jsTake 50 emojiAtTheCut) = 50.
Proof.
  split; [|split].
  - destruct (getMessagePreview_shape plainHost (previewView "alice" thirtyAccents))
      as (_ & Hshort & _).
    etransitivity; [apply Hshort; vm_compute; lia|vm_compute; reflexivity].
  - destruct (getMessagePreview_shape plainHost (previewView "alice" fiftyChars))
      as (_ & _ & _ & Hfifty).
    etransitivity; [apply Hfifty; vm_compute; reflexivity|vm_compute; reflexivity].
  - destruct (getMessagePreview_shape plainHost (previewView "alice" emojiAtTheCut))
      as (_ & _ & Hlong & _).
    assert (Hlen : 50 <= jsLength emojiAtTheCut) by (vm_compute; lia).
    destruct (Hlong Hlen) as [Hcut Hunits].
    split; [|vm_compute; reflexivity].
    etransitivity; [exact Hcut|vm_compute; reflexivity].
Defined.

(** X2: the channel name is never empty: it is the trimmed text of the
    first probed element whose trimmed text is not empty; without one, it
    is [Channel] and the channel number of the path, or the fixed title. *)
Theorem getChannelName_never_empty :
  forall (host : Host) (probe : TitleProbe),
    getChannelName probe <> EmptyString /\
    (forall before text_ rest,
        tp_texts probe = before ++ Some text_ :: rest ->
        Forall (fun el => forall t, el = Some t -> trim t = EmptyString) before ->
        trim text_ <> EmptyString ->
        getChannelName probe = trim text_) /\
    (Forall (fun el => forall t, el = Some t -> trim t = EmptyString) (tp_texts probe) ->
     getChannelName probe
     = match tp_channelId probe with
       | Some id => "Channel " +:+ id
       | None => "Discord Chat Export"
       end).
Proof.
  intros host probe. unfold getChannelName.
  set (f := fun el : option string =>
              match el with
              | Some text_ => if nonEmpty (trim text_) then Some (trim text_) else None
              | None => None
              end).
  assert (Hnone : forall l,
             Forall (fun el => forall t, el = Some t -> trim t = EmptyString) l ->
             forall k, firstSome f (l ++ k) = firstSome f k).
  { induction 1 as [|el l Hel _ IH]; intros k; [done|]. simpl.
    destruct el as [t|]; simpl; [|apply IH].
    rewrite (Hel t eq_refl). simpl. apply IH. }
  split; [|split].
  - assert (Hfound : forall l t, firstSome f l = Some t -> t <> EmptyString).
    { induction l as [|el l IH]; intros t; simpl; [done|].
      destruct el as [t0|]; simpl; [|apply IH].
      destruct (nonEmpty (trim t0)) eqn:E; [|apply IH].
      intros [= <-]. by apply nonEmpty_true. }
    destruct (firstSome f (tp_texts probe)) as [t|] eqn:E; [by eapply Hfound|].
    by destruct (tp_channelId probe).
  - intros before text_ rest -> Hbefore Htext. rewrite Hnone by done. simpl.
    apply nonEmpty_true in Htext. by rewrite Htext.
  - intros Hall. rewrite <- (app_nil_r (tp_texts probe)), Hnone by done. done.
Qed.

Lemma getChannelName_never_empty_witness :
  getChannelName (host := plainHost)
    {| tp_texts := [None; Some EmptyString; Some "general"; Some "other"; None];
       tp_channelId := Some "42" |} = "general" /\
  getChannelName (host := plainHost)
    {| tp_texts := [None; Some EmptyString; None; None; None];
       tp_channelId := Some "42" |} = "Channel 42".
Proof.
  split.
  - destruct (getChannelName_never_empty plainHost
                {| tp_texts := [None; Some EmptyString; Some "general"; Some "other"; None];
                   tp_channelId := Some "42" |}) as (_ & Hfirst & _).
    apply (Hfirst [None; Some EmptyString] "general" [Some "other"; None]);
      [reflexivity| |discriminate].
    repeat constructor; intros t [= <-]; reflexivity.
  - destruct (getChannelName_never_empty plainHost
                {| tp_texts := [None; Some EmptyString; None; None; None];
                   tp_channelId := Some "42" |}) as (_ & _ & Hnone).
    apply Hnone. repeat constructor; intros t [= <-]; reflexivity.
Defined.

(** *** Image addresses *)

Section ImageFacts.
Context `{host : Host}.

Lemma firstTruthy_false a b c :
  truthy (firstTruthy a b c) = false <->
  truthy a = false /\ truthy b = false /\ truthy c = false.
Proof.
  unfold firstTruthy.
  destruct (truthy a) eqn:Ea; [rewrite Ea; split; [done|by intros [? _]]|].
  destruct (truthy b) eqn:Eb; [rewrite Eb; split; [done|by intros (_ & ? & _)]|].
  tauto.
Qed.

Lemma getFullResolutionImageUrl_None img :
  getFullResolutionImageUrl (Some img) = None <->
  truthy (img_dataOriginalSrc img) = false /\ truthy (img_dataSrc img) = false /\
  truthy (img_dataSafeSrc img) = false /\ img_src img = EmptyString.
Proof.
  transitivity
    (truthy (firstTruthy (img_dataOriginalSrc img) (img_dataSrc img)
               (img_dataSafeSrc img)) = false /\ img_src img = EmptyString);
    [|rewrite firstTruthy_false; tauto].
  unfold getFullResolutionImageUrl.
  destruct (truthy (firstTruthy _ _ _)) eqn:Edata.
  - split; [|by intros [? _]]. intros Hnone. rewrite Hnone in Edata. done.
  - rewrite <- nonEmpty_false. destruct (nonEmpty (img_src img)); simpl.
    + split; [|by intros [_ ?]].
      by destruct (if truthy (img_anchorHref img) then _ else _).
    + done.
Qed.

Lemma getFullResolutionImageUrl_src img :
  truthy (img_dataOriginalSrc img) = false -> truthy (img_dataSrc img) = false ->
  truthy (img_dataSafeSrc img) = false -> img_src img <> EmptyString ->
  getFullResolutionImageUrl (Some img)
  = let src :=
      if includes (img_src img) "cdn.discordapp.com" ||
         includes (img_src img) "media.discordapp.net"
      then replaceFirst (dropSizeParams (img_src img)) "media.discordapp.net"
             "cdn.discordapp.com"
      else img_src img in
    match img_anchorHref img with
    | Some href =>
        if nonEmpty href &&
           (includes href "cdn.discordapp.com/attachments" ||
            includes href "media.discordapp.net/attachments")
        then Some (replaceFirst href "media.discordapp.net" "cdn.discordapp.com")
        else Some src
    | None => Some src
    end.
Proof.
  intros H1 H2 H3 Hsrc. unfold getFullResolutionImageUrl.
  assert (Hdata : truthy (firstTruthy (img_dataOriginalSrc img) (img_dataSrc img)
                            (img_dataSafeSrc img)) = false)
    by (by apply firstTruthy_false).
  rewrite Hdata. apply nonEmpty_true in Hsrc. rewrite Hsrc. cbn [negb].
  destruct (img_anchorHref img) as [href|]; [|done]. cbn [truthy orEmpty].
  fold (nonEmpty href). destruct (nonEmpty href); [|done]. cbn [andb].
  by destruct (includes href _ || includes href _).
Qed.

End ImageFacts.

(** X3: the address of an image is null exactly when there is no image,
    or the image has none of the three data attributes and no source. A
    data attribute wins over the source, the first of [data-original-src],
    [data-src], [data-safe-src] that is set, and is returned as it is. Else
    a link around the image to a Discord attachment wins over the source,
    with its first media host name turned into the CDN one; else the
    source is returned, as it is when it names no Discord host. *)
Theorem getFullResolutionImageUrl_cases :
  forall (host : Host) (img : ImgEl),
    getFullResolutionImageUrl None = None /\
    (getFullResolutionImageUrl (Some img) = None <->
     truthy (img_dataOriginalSrc img) = false /\ truthy (img_dataSrc img) = false /\
     truthy (img_dataSafeSrc img) = false /\ img_src img = EmptyString) /\
    (truthy (img_dataOriginalSrc img) = true ->
     getFullResolutionImageUrl (Some img) = img_dataOriginalSrc img) /\
    (truthy (img_dataOriginalSrc img) = false -> truthy (img_dataSrc img) = true ->
     getFullResolutionImageUrl (Some img) = img_dataSrc img) /\
    (truthy (img_dataOriginalSrc img) = false -> truthy (img_dataSrc img) = false ->
     truthy (img_dataSafeSrc img) = true ->
     getFullResolutionImageUrl (Some img) = img_dataSafeSrc img) /\
    (truthy (img_dataOriginalSrc img) = false -> truthy (img_dataSrc img) = false ->
     truthy (img_dataSafeSrc img) = false -> img_src img <> EmptyString ->
     (forall href,
         img_anchorHref img = Some href -> href <> EmptyString ->
         includes href "cdn.discordapp.com/attachments" ||
         includes href "media.discordapp.net/attachments" = true ->
         getFullResolutionImageUrl (Some img)
         = Some (replaceFirst href "media.discordapp.net" "cdn.discordapp.com")) /\
     (includes (img_src img) "cdn.discordapp.com" ||
      includes (img_src img) "media.discordapp.net" = false ->
      (forall href,
          img_anchorHref img = Some href ->
          includes href "cdn.discordapp.com/attachments" ||
          includes href "media.discordapp.net/attachments" = false) ->
      getFullResolutionImageUrl (Some img) = Some (img_src img))).
Proof.
  intros host img. split; [done|]. split; [apply getFullResolutionImageUrl_None|].
  split; [|split; [|split]].
  - intros H1. unfold getFullResolutionImageUrl, firstTruthy. by rewrite H1, H1.
  - intros H1 H2. unfold getFullResolutionImageUrl, firstTruthy. by rewrite H1, H2, H2.
  - intros H1 H2 H3. unfold getFullResolutionImageUrl, firstTruthy.
    by rewrite H1, H2, H3.
  - intros H1 H2 H3 Hsrc. rewrite getFullResolutionImageUrl_src by done. split.
    + intros href -> Hne Hatt. apply nonEmpty_true in Hne. cbv zeta.
      by rewrite Hne, Hatt.
    + intros Hhost Hlink. cbv zeta. rewrite Hhost.
      destruct (img_anchorHref img) as [href|]; [|done].
      rewrite (Hlink href eq_refl). by rewrite andb_false_r.
Qed.

Lemma getFullResolutionImageUrl_cases_witness :
  getFullResolutionImageUrl (host := plainHost)
    (Some (linkedImg "https://media.discordapp.net/attachments/1/2/a.png?width=400"
             "https://media.discordapp.net/attachments/1/2/a.png"))
  = Some "https://cdn.discordapp.com/attachments/1/2/a.png" /\
  getFullResolutionImageUrl (host := plainHost) (Some (sampleImg "https://example.org/t.png"))
  = Some "https://example.org/t.png".
Proof.
  split.
  - destruct (getFullResolutionImageUrl_cases plainHost
                (linkedImg "https://media.discordapp.net/attachments/1/2/a.png?width=400"
                   "https://media.discordapp.net/attachments/1/2/a.png"))
      as (_ & _ & _ & _ & _ & Hsrc).
    destruct (Hsrc eq_refl eq_refl eq_refl ltac:(discriminate)) as [Hlink _].
    apply (Hlink "https://media.discordapp.net/attachments/1/2/a.png");
      [reflexivity|discriminate|reflexivity].
  - destruct (getFullResolutionImageUrl_cases plainHost
                (sampleImg "https://example.org/t.png"))
      as (_ & _ & _ & _ & _ & Hsrc).
    destruct (Hsrc eq_refl eq_refl eq_refl ltac:(discriminate)) as [_ Hplain].
    apply Hplain; [reflexivity|]. intros href Hhref. discriminate Hhref.
Defined.

(** *** Images and reactions of a message *)

Lemma omap_length_le {A B} (f : A -> option B) (l : list A) :
  length (omap f l) <= length l.
Proof.
  induction l as [|a l IH]; simpl; [done|].
  unfold omap in IH. destruct (f a); simpl; lia.
Qed.

(** X4: every image the extractor lists comes from an image element of
    the message that is neither an avatar nor an emoji, in the order of
    the elements; its address is that element's full-resolution address
    and is not empty; it is marked as animated exactly when the address
    names a GIF, and its still address is the address itself unless it is
    animated. *)
Theorem extractImages_records :
  forall (host : Host) (messageEl : ElView),
    length (extractImages messageEl) <= length (el_imageEls messageEl) /\
    (forall imgData,
        imgData ∈ extractImages messageEl ->
        url imgData <> EmptyString /\
        isGif imgData = isGifUrl (Some (url imgData)) /\
        staticUrl imgData
        = (if isGif imgData then getStaticImageUrl (url imgData) else url imgData) /\
        exists img,
          img ∈ el_imageEls messageEl /\
          getFullResolutionImageUrl (Some img) = Some (url imgData) /\
          isAvatarImage img = false /\ isEmojiImage img = false) /\
    (forall img src,
        img ∈ el_imageEls messageEl ->
        getFullResolutionImageUrl (Some img) = Some src -> src <> EmptyString ->
        isAvatarImage img = false -> isEmojiImage img = false ->
        exists imgData, imgData ∈ extractImages messageEl /\ url imgData = src).
Proof.
  intros host messageEl. unfold extractImages. split; [apply omap_length_le|]. split.
  - intros imgData Hin. apply list_elem_of_omap in Hin as (img & Himg & Hkeep).
    destruct (getFullResolutionImageUrl (Some img)) as [src|] eqn:Esrc; [|done].
    destruct (truthy (Some src)) eqn:Etruthy; [|done].
    destruct (isAvatarImage img) eqn:Eavatar; [done|].
    destruct (isEmojiImage img) eqn:Eemoji; [done|].
    cbn [andb negb orEmpty] in Hkeep. injection Hkeep as <-. cbn [url isGif staticUrl].
    split; [by apply truthy_Some|]. split; [done|]. split; [done|].
    exists img. by rewrite Esrc.
  - intros img src Himg Hsrc Hne Havatar Hemoji. eexists. split.
    + apply list_elem_of_omap. exists img. split; [done|].
      apply truthy_Some in Hne. by rewrite Hsrc, Hne, Havatar, Hemoji.
    + done.
Qed.

Lemma extractImages_records_witness :
  map url (extractImages (host := plainHost) pictureView)
  = ["https://example.org/a.png"; "https://example.org/b.GIF"] /\
  exists imgData,
    imgData ∈ extractImages (host := plainHost) pictureView /\
    url imgData = "https://example.org/b.GIF".
Proof.
  split; [reflexivity|].
  destruct (extractImages_records plainHost pictureView) as (_ & _ & Hkept).
  apply (Hkept (sampleImg "https://example.org/b.GIF"));
    [|reflexivity|discriminate|reflexivity|reflexivity].
  apply (list_elem_of_lookup_2 _ 1). reflexivity.
Defined.

Section ReactionFacts.
Context `{host : Host}.

Lemma reactionOf_count reaction : count (fst (reactionOf reaction)) <> EmptyString.
Proof.
  unfold reactionOf. destruct (rc_img reaction); cbn [fst count];
    unfold orElse; destruct (nonEmpty _) eqn:E; (by apply nonEmpty_true) || done.
Qed.

(** The reactions kept of a list of items, given the keys seen before. *)
Lemma collectReactions_kept items seen :
  exists kept,
    collectReactions items seen = map (fun item => fst (reactionOf item)) kept /\
    kept `sublist_of` items /\
    Forall (fun item => emoji (fst (reactionOf item)) <> EmptyString /\
                        snd (reactionOf item) ∉ seen) kept /\
    NoDup (map (fun item => snd (reactionOf item)) kept) /\
    (forall item,
        item ∈ items ->
        emoji (fst (reactionOf item)) <> EmptyString ->
        snd (reactionOf item) ∈ seen ++ map (fun item => snd (reactionOf item)) kept).
Proof.
  revert seen. induction items as [|reaction rest IH]; intros seen.
  { exists []. repeat split; try done; [constructor|]. intros item Hin.
    by apply elem_of_nil in Hin. }
  cbn [collectReactions]. unfold closestIsOther. cbn [andb].
  destruct (reactionOf reaction) as [r reactionKey] eqn:Er.
  destruct (nonEmpty (emoji r) && negb (bool_decide (reactionKey ∈ seen))) eqn:Enew.
  - apply andb_true_iff in Enew as [Hemoji Hfresh].
    apply nonEmpty_true in Hemoji. apply negb_true, bool_decide_eq_false in Hfresh.
    destruct (IH (reactionKey :: seen)) as (kept & Heq & Hsub & Hall & Hnd & Hcover).
    exists (reaction :: kept). cbn [map]. rewrite Er. cbn [fst snd].
    split; [by rewrite Heq|]. split; [by apply sublist_skip|]. split; [|split].
    + constructor; [by rewrite Er|]. eapply Forall_impl; [exact Hall|].
      intros item (? & Hnot). split; [done|].
      intros Hin. apply Hnot. by right.
    + constructor; [|done]. intros Hin.
      apply list_elem_of_fmap in Hin as (item & Hkey & Hitem).
      rewrite Forall_forall in Hall. destruct (Hall _ Hitem) as (_ & Hnot).
      apply Hnot. rewrite <- Hkey. by left.
    + intros item Hin Hne. apply elem_of_cons in Hin as [->|Hin].
      * rewrite Er. cbn [snd]. apply elem_of_app. right. by left.
      * specialize (Hcover item Hin Hne).
        apply elem_of_app in Hcover as [Hseen|Hkept].
        -- apply elem_of_cons in Hseen as [->|Hseen];
             apply elem_of_app; [right; by left|by left].
        -- apply elem_of_app. right. by right.
  - destruct (IH seen) as (kept & Heq & Hsub & Hall & Hnd & Hcover).
    exists kept. repeat split; try done; [by apply sublist_cons|].
    intros item Hin Hne. apply elem_of_cons in Hin as [->|Hin]; [|by apply Hcover].
    rewrite Er in Hne |- *. cbn [fst snd] in Hne |- *.
    apply nonEmpty_true in Hne. rewrite Hne in Enew. cbn [andb] in Enew.
    apply negb_false_iff, bool_decide_eq_true in Enew.
    apply elem_of_app. by left.
Qed.

End ReactionFacts.

(** X5: the reactions of a message are those of a sub-sequence of its
    reaction items, in their order: the items that show an emoji, one for
    each key (the address or the text of the emoji, with the count),
    whether or not an item lies inside another element of the kind, for
    the test at the head of the callback holds of no item; every item
    that shows an emoji has its key among the kept ones; and each
    reaction listed has an emoji and a count that are not empty, the
    count being 1 when the item shows none. *)
Theorem extractReactions_distinct :
  forall (host : Host) (messageEl : ElView),
    exists kept,
      extractReactions messageEl = map (fun item => fst (reactionOf item)) kept /\
      kept `sublist_of` default [] (el_reactions messageEl) /\
      NoDup (map (fun item => snd (reactionOf item)) kept) /\
      (forall r, r ∈ extractReactions messageEl ->
                 emoji r <> EmptyString /\ count r <> EmptyString) /\
      (forall item,
          item ∈ default [] (el_reactions messageEl) ->
          emoji (fst (reactionOf item)) <> EmptyString ->
          snd (reactionOf item) ∈ map (fun item => snd (reactionOf item)) kept) /\
      (forall item,
          rc_countText item = None -> count (fst (reactionOf item)) = "1").
Proof.
  intros host messageEl. unfold extractReactions.
  destruct (el_reactions messageEl) as [items|]; cbn [default].
  - destruct (collectReactions_kept items []) as (kept & Heq & Hsub & Hall & Hnd & Hcover).
    exists kept. split; [done|]. split; [done|]. split; [done|split; [|split]].
    + intros r Hr. rewrite Heq in Hr.
      apply list_elem_of_fmap in Hr as (item & -> & Hitem).
      rewrite Forall_forall in Hall. destruct (Hall _ Hitem) as (Hemoji & _).
      split; [done|apply reactionOf_count].
    + intros item Hin Hne. by apply (Hcover item Hin Hne).
    + intros item Hnone. unfold reactionOf. rewrite Hnone.
      by destruct (rc_img item).
  - exists []. split; [done|]. split; [done|].
    split; [constructor|]. split; [|split].
    + intros r Hr. by apply elem_of_nil in Hr.
    + intros item Hin. by apply elem_of_nil in Hin.
    + intros item Hnone. unfold reactionOf. rewrite Hnone. by destruct (rc_img item).
Qed.

Lemma extractReactions_distinct_witness :
  extractReactions (host := plainHost) reactionsView
  = [ {| emoji := "+"; count := "2" |}; {| emoji := "+"; count := "3" |};
      {| emoji := "-"; count := "1" |}; {| emoji := "!"; count := "1" |} ] /\
  exists kept,
    extractReactions (host := plainHost) reactionsView
    = map (fun item => fst (reactionOf (host := plainHost) item)) kept /\
    kept `sublist_of` sampleReactions /\
    NoDup (map (fun item => snd (reactionOf (host := plainHost) item)) kept).
Proof.
  split; [reflexivity|].
  destruct (extractReactions_distinct plainHost reactionsView)
    as (kept & Heq & Hsub & Hnd & _).
  exists kept. split; [exact Heq|]. split; [exact Hsub|exact Hnd].
Defined.

(** *** The author of a message *)

Section AuthorFacts.
Context `{host : Host}.

Lemma find_holds {A} (p : A -> bool) (l : list A) (a : A) :
  List.find p l = Some a -> p a = true.
Proof. intros Hfind. by apply find_some in Hfind as [_ ?]. Qed.

Lemma findUsernameElement_shown messageEl el :
  findUsernameElement messageEl = Some el -> trim (un_textContent el) <> EmptyString.
Proof.
  unfold findUsernameElement. intros Hfind. apply nonEmpty_true.
  destruct (el_headerUsername messageEl) as [h|].
  - destruct (nonEmpty (trim (un_textContent h))) eqn:Eh; [by injection Hfind as <-|].
    revert Hfind.
    destruct (List.find usernameOutsideReply (el_usernameEls messageEl)) as [u|] eqn:Eu.
    { intros [= <-]. apply find_holds in Eu. unfold usernameOutsideReply in Eu.
      by apply andb_true_iff in Eu as [_ ?]. }
    destruct (List.find _ (el_headerTextUsernameEls messageEl)) as [t|] eqn:Et; [|done].
    intros [= <-]. apply find_holds in Et. by apply andb_true_iff in Et as [_ ?].
  - revert Hfind.
    destruct (List.find usernameOutsideReply (el_usernameEls messageEl)) as [u|] eqn:Eu.
    { intros [= <-]. apply find_holds in Eu. unfold usernameOutsideReply in Eu.
      by apply andb_true_iff in Eu as [_ ?]. }
    destruct (List.find _ (el_headerTextUsernameEls messageEl)) as [t|] eqn:Et; [|done].
    intros [= <-]. apply find_holds in Et. by apply andb_true_iff in Et as [_ ?].
Qed.

Lemma usernameFromPrevious_shown prev attempts u c :
  usernameFromPrevious prev attempts = Some (u, c) -> u <> EmptyString.
Proof.
  revert prev. induction attempts as [|attempts IH]; intros [|prevEl rest]; try done.
  cbn [usernameFromPrevious].
  destruct (sb_matchesMessage prevEl); [|apply IH].
  destruct (findUsernameElement (sb_view prevEl)) as [el|]; [|apply IH].
  destruct (nonEmpty (trim (un_textContent el))) eqn:E; [|apply IH].
  intros [= <- _]. by apply nonEmpty_true.
Qed.

(** The name [resolveAuthor] settles on before it tells the cache. *)
Lemma resolveAuthor_username messageEl uc :
  fst (fst (resolveAuthor messageEl uc))
  = match findUsernameElement (me_view messageEl) with
    | Some el => trim (un_textContent el)
    | None =>
        if nonEmpty (lastUsername uc) then lastUsername uc
        else from_option fst EmptyString (usernameFromPrevious (me_previous messageEl) 10)
    end.
Proof.
  unfold resolveAuthor.
  destruct (findUsernameElement (me_view messageEl)) as [el|] eqn:Efind.
  - apply findUsernameElement_shown, nonEmpty_true in Efind. rewrite Efind.
    cbn [negb]. rewrite Efind. by destruct (nonEmpty (colorOf el)).
  - cbn [nonEmpty String.eqb negb]. change (nonEmpty EmptyString) with false.
    cbn [negb]. destruct (nonEmpty (lastUsername uc)) eqn:Elast.
    + rewrite Elast. by destruct (nonEmpty (orEmpty _)).
    + destruct (usernameFromPrevious (me_previous messageEl) 10) as [[u c]|] eqn:Eprev.
      * apply usernameFromPrevious_shown, nonEmpty_true in Eprev. rewrite Eprev.
        cbn [from_option fst]. by destruct (nonEmpty (default EmptyString c)).
      * done.
Qed.

Lemma inheritedName_proto username :
  inheritedName username = false -> String.eqb username "__proto__" = false.
Proof.
  unfold inheritedName. intros Hown. apply bool_decide_eq_false in Hown.
  destruct (String.eqb_spec username "__proto__") as [->|]; [|done].
  exfalso. apply Hown. unfold prototypeNames. set_solver.
Qed.

(** What [resolveAuthor] leaves in the cache. *)
Lemma resolveAuthor_cache messageEl uc :
  let r := resolveAuthor messageEl uc in
  avatars (snd r) = avatars uc /\
  (fst (fst r) <> EmptyString -> lastUsername (snd r) = fst (fst r)) /\
  (fst (fst r) <> EmptyString -> inheritedName (fst (fst r)) = false ->
   orEmpty (userCache.getColor (fst (fst r)) (snd r)) = snd (fst r)) /\
  (fst (fst r) = EmptyString -> snd r = uc).
Proof.
  unfold resolveAuthor.
  destruct (match findUsernameElement (me_view messageEl) with
            | Some usernameEl => _ | None => _ end) as [username0 color0].
  destruct (if negb (nonEmpty username0) then _ else _) as [username1 color1].
  destruct (nonEmpty username1) eqn:Euser.
  - destruct (nonEmpty color1) eqn:Ecolor; cbn [fst snd].
    + unfold userCache.setColor, userCache.setLastUsername.
      cbn [avatars colors lastUsername]. rewrite Euser, Ecolor. cbn [andb].
      split; [by destruct (negb (String.eqb username1 "__proto__"))|].
      split; [intros _; by destruct (negb (String.eqb username1 "__proto__"))|].
      split; [|intros ->; done]. intros _ Hown.
      rewrite (inheritedName_proto username1 Hown). cbn [negb].
      unfold userCache.getColor. cbn [colors]. rewrite lookup_insert_eq. by rewrite Ecolor.
    + split; [done|]. split; [done|]. split; [|intros ->; done]. intros _ _.
      unfold userCache.getColor, userCache.setLastUsername. cbn [colors].
      destruct (colors uc !! username1) as [c|]; [|done].
      by destruct (nonEmpty c).
  - cbn [fst snd]. split; [done|].
    assert (Hne : username1 <> EmptyString -> False)
      by (intros Hne; apply nonEmpty_true in Hne; congruence).
    split; [by intros ?%Hne|]. split; [by intros ?%Hne|done].
Qed.

(** The colour of a message that takes its author from the cache. *)
Lemma resolveAuthor_inherited_color messageEl uc :
  findUsernameElement (me_view messageEl) = None ->
  lastUsername uc <> EmptyString ->
  snd (fst (resolveAuthor messageEl uc))
  = orEmpty (userCache.getColor (lastUsername uc) uc).
Proof.
  intros Hnone Hlast. apply nonEmpty_true in Hlast. unfold resolveAuthor.
  rewrite Hnone. change (nonEmpty EmptyString) with false. cbn [negb].
  rewrite Hlast, Hlast.
  by destruct (nonEmpty (orEmpty (userCache.getColor (lastUsername uc) uc))) eqn:E.
Qed.

End AuthorFacts.

(** *** The avatar of a message *)

Section AvatarFacts.
Context `{host : Host}.

Lemma getAvatar_setAvatar username url uc :
  username <> EmptyString -> inheritedName username = false -> url <> EmptyString ->
  userCache.getAvatar username (userCache.setAvatar username url uc) = Some url.
Proof.
  intros Hu Hown Hurl. apply nonEmpty_true in Hu, Hurl.
  unfold userCache.getAvatar, userCache.setAvatar.
  rewrite Hu, (inheritedName_proto username Hown). cbn [andb negb avatars].
  by rewrite lookup_insert_eq, Hurl.
Qed.

Lemma setAvatar_rest username url uc :
  colors (userCache.setAvatar username url uc) = colors uc /\
  lastUsername (userCache.setAvatar username url uc) = lastUsername uc.
Proof. unfold userCache.setAvatar. by destruct (nonEmpty username && _). Qed.

Lemma getAvatar_truthy username uc url :
  userCache.getAvatar username uc = Some url -> url <> EmptyString.
Proof.
  unfold userCache.getAvatar. destruct (avatars uc !! username) as [u|]; [|done].
  destruct (nonEmpty u) eqn:E; [|done]. intros [= <-]. by apply nonEmpty_true.
Qed.

(** One step of the walk over previous siblings. *)
Lemma avatarFromPrevious_step username prevEl rest attempts cachedAvatar uc :
  truthy cachedAvatar = false ->
  exists c1 uc1,
    avatarFromPrevious username (prevEl :: rest) (S attempts) cachedAvatar uc
    = avatarFromPrevious username rest attempts c1 uc1 /\
    colors uc1 = colors uc /\ lastUsername uc1 = lastUsername uc /\
    (username <> EmptyString -> inheritedName username = false -> truthy c1 = true ->
     userCache.getAvatar username uc1 = c1).
Proof.
  intros Hcached. cbn [avatarFromPrevious]. rewrite Hcached.
  destruct (sb_matchesMessage prevEl).
  2:{ exists cachedAvatar, uc. repeat split; try done. intros _ _ Ht. congruence. }
  destruct (avatarOfPrevious (sb_view prevEl)) as [url1|].
  - destruct (truthy (Some url1)) eqn:E1; cbn [negb].
    + exists (Some url1), (userCache.setAvatar username url1 uc).
      split; [done|]. destruct (setAvatar_rest username url1 uc) as [-> ->].
      repeat split; try done. intros Hu Hown _. apply getAvatar_setAvatar; [done|done|].
      by apply truthy_Some.
    + destruct (avatarOfPreviousWrappers (sb_view prevEl)) as [url2|].
      * exists (Some url2),
          (userCache.setAvatar username url2 (userCache.setAvatar username url1 uc)).
        split; [done|].
        destruct (setAvatar_rest username url2 (userCache.setAvatar username url1 uc))
          as [-> ->].
        destruct (setAvatar_rest username url1 uc) as [-> ->].
        repeat split; try done. intros Hu Hown Ht.
        apply getAvatar_setAvatar; [done|done|]. by apply truthy_Some.
      * exists (Some url1), (userCache.setAvatar username url1 uc).
        split; [done|]. destruct (setAvatar_rest username url1 uc) as [-> ->].
        repeat split; try done. intros _ _ Ht. congruence.
  - rewrite Hcached. cbn [negb].
    destruct (avatarOfPreviousWrappers (sb_view prevEl)) as [url2|].
    + exists (Some url2), (userCache.setAvatar username url2 uc).
      split; [done|]. destruct (setAvatar_rest username url2 uc) as [-> ->].
      repeat split; try done. intros Hu Hown Ht.
      apply getAvatar_setAvatar; [done|done|]. by apply truthy_Some.
    + exists cachedAvatar, uc. repeat split; try done. intros _ _ Ht. congruence.
Qed.

Lemma avatarFromPrevious_found username prev attempts cachedAvatar uc :
  truthy cachedAvatar = true ->
  avatarFromPrevious username prev attempts cachedAvatar uc = (cachedAvatar, uc).
Proof. intros Ht. destruct attempts, prev; cbn [avatarFromPrevious]; by rewrite Ht. Qed.

Lemma avatarFromPrevious_cache username prev attempts cachedAvatar uc :
  let r := avatarFromPrevious username prev attempts cachedAvatar uc in
  colors (snd r) = colors uc /\ lastUsername (snd r) = lastUsername uc /\
  (username <> EmptyString -> inheritedName username = false ->
   (truthy cachedAvatar = true -> userCache.getAvatar username uc = cachedAvatar) ->
   truthy (fst r) = true -> userCache.getAvatar username (snd r) = fst r).
Proof.
  revert prev cachedAvatar uc.
  induction attempts as [|attempts IH]; intros prev cachedAvatar uc; cbv zeta.
  - destruct (truthy cachedAvatar) eqn:Ht.
    + rewrite avatarFromPrevious_found by done. cbn [fst snd].
      split; [done|]. split; [done|]. intros _ _ Hc _. by apply Hc.
    + assert (Hsame : avatarFromPrevious username prev 0 cachedAvatar uc
                      = (cachedAvatar, uc))
        by (destruct prev; cbn [avatarFromPrevious]; by rewrite Ht).
      rewrite Hsame. cbn [fst snd]. split; [done|]. split; [done|].
      intros _ _ _ Ht'. congruence.
  - destruct (truthy cachedAvatar) eqn:Ht.
    { rewrite avatarFromPrevious_found by done. cbn [fst snd].
      split; [done|]. split; [done|]. intros _ _ Hc _. by apply Hc. }
    destruct prev as [|prevEl rest].
    { cbn [avatarFromPrevious]. rewrite Ht. cbn [fst snd].
      split; [done|]. split; [done|]. intros _ _ _ Ht'. congruence. }
    destruct (avatarFromPrevious_step username prevEl rest attempts cachedAvatar uc Ht)
      as (c1 & uc1 & -> & Hcolors & Hlast & Hget).
    destruct (IH rest c1 uc1) as (Hc & Hl & Hfound). cbv zeta in Hc, Hl, Hfound.
    rewrite Hc, Hl. split; [done|]. split; [done|].
    intros Hu Hown _ Hres. apply Hfound; [done|done| |done]. by apply Hget.
Qed.

(** What [extractAvatar] leaves in the cache, and how its result agrees
    with the cache. *)
Lemma extractAvatar_cache messageEl username avatar0 uc :
  let r := extractAvatar messageEl username avatar0 uc in
  colors (snd r) = colors uc /\ lastUsername (snd r) = lastUsername uc /\
  (username <> EmptyString -> inheritedName username = false -> fst r <> EmptyString ->
   userCache.getAvatar username (snd r) = Some (fst r)).
Proof.
  cbv zeta. unfold extractAvatar.
  destruct (match findAvatarElement (me_view messageEl) with
            | Some el => if nonEmpty (img_src el) then Some el else None
            | None => None end) as [avatarEl|].
  - cbn [fst snd]. destruct (nonEmpty username) eqn:Eu.
    + destruct (setAvatar_rest username (avatarUrlAtSize (img_src avatarEl)) uc)
        as [-> ->].
      split; [done|]. split; [done|]. intros Hu Hown Ha. by apply getAvatar_setAvatar.
    + split; [done|]. split; [done|]. intros Hu. apply nonEmpty_true in Hu. congruence.
  - destruct (nonEmpty username) eqn:Eu.
    + pose proof (avatarFromPrevious_cache username (me_previous messageEl) 20
                    (userCache.getAvatar username uc) uc) as Hwalk.
      cbv zeta in Hwalk.
      destruct (avatarFromPrevious username (me_previous messageEl) 20
                  (userCache.getAvatar username uc) uc) as [cachedAvatar uc1].
      cbn [fst snd] in *. destruct Hwalk as (Hc & Hl & Hfound).
      split; [done|]. split; [done|]. intros Hu Hown Ha.
      destruct (truthy cachedAvatar) eqn:Ht; [|done].
      rewrite Hfound by done. by destruct cachedAvatar as [a|].
    + cbn [fst snd]. split; [done|]. split; [done|]. intros Hu.
      apply nonEmpty_true in Hu. congruence.
Qed.

(** A message that shows no avatar of its own takes the one the cache
    holds for its author. *)
Lemma extractAvatar_cached messageEl username avatar0 uc url :
  match findAvatarElement (me_view messageEl) with
  | Some el => img_src el = EmptyString
  | None => True
  end ->
  username <> EmptyString ->
  userCache.getAvatar username uc = Some url ->
  extractAvatar messageEl username avatar0 uc = (url, uc).
Proof.
  intros Hnone Hu Hget. unfold extractAvatar.
  assert (Hel : match findAvatarElement (me_view messageEl) with
                | Some el => if nonEmpty (img_src el) then Some el else None
                | None => None end = None).
  { destruct (findAvatarElement (me_view messageEl)) as [el|]; [|done].
    by rewrite Hnone. }
  rewrite Hel. apply nonEmpty_true in Hu. rewrite Hu, Hget.
  assert (Ht : truthy (Some url) = true)
    by (apply truthy_Some; by eapply getAvatar_truthy).
  rewrite avatarFromPrevious_found by done. by rewrite Ht.
Qed.

End AvatarFacts.

(** *** The record of a message *)

Section RecordFacts.
Context `{host : Host}.

(** The record [extractMessageData] builds, field by field. *)
Lemma extractMessageData_record messageEl options uc :
  let author := resolveAuthor messageEl uc in
  let shown :=
    if includeAvatars options
    then extractAvatar messageEl (fst (fst author)) EmptyString (snd author)
    else (EmptyString, snd author) in
  snd (extractMessageData (Some messageEl) options uc) = snd shown /\
  (fst (fst author) <> EmptyString ->
   is_Some (fst (extractMessageData (Some messageEl) options uc))) /\
  (forall data,
      fst (extractMessageData (Some messageEl) options uc) = Some data ->
      username data = fst (fst author) /\ usernameColor data = snd (fst author) /\
      avatar data = fst shown /\
      timestamp data = messageTimestamp options (me_view messageEl) /\
      images data = messageImages options (me_view messageEl) /\
      attachments data = [] /\
      reactions data
      = (if includeReactions options then extractReactions (me_view messageEl) else []) /\
      embeds data = extractEmbeds (me_view messageEl) options).
Proof.
  cbv zeta. unfold extractMessageData.
  destruct (resolveAuthor messageEl uc) as [[data_username data_color] uc1].
  cbn [fst snd].
  destruct (if includeAvatars options then _ else _) as [data_avatar uc2].
  cbn [content images embeds username fst snd].
  destruct (negb (nonEmpty _) && _ && _ && _) eqn:E; cbn [fst snd].
  - split; [done|]. split; [|done]. intros Hu. apply nonEmpty_true in Hu.
    rewrite Hu in E. cbn [negb] in E. by rewrite andb_false_r in E.
  - split; [done|]. split; [by eexists|]. by intros data [= <-].
Qed.

End RecordFacts.

(** X6: in the record of a message the attachment list is always empty.
    With avatars switched off the avatar is empty and the cache of
    avatars is left as it was; with times switched off the time is empty;
    with images switched off there are no images, and no embed carries a
    thumbnail or an image; with reactions switched off there are no
    reactions. *)
Theorem extractMessageData_respects_options :
  forall (host : Host) (messageEl : MsgEl) (options : ExportOptions) (uc : UserCache)
         (data : Message),
    fst (extractMessageData (Some messageEl) options uc) = Some data ->
    attachments data = [] /\
    (includeAvatars options = false ->
     avatar data = EmptyString /\
     avatars (snd (extractMessageData (Some messageEl) options uc)) = avatars uc) /\
    (includeTimestamps options = false -> timestamp data = EmptyString) /\
    (includeImages options = false ->
     images data = [] /\
     Forall (fun e => thumbnail e = Some EmptyString /\ image e = Some EmptyString)
       (embeds data)) /\
    (includeReactions options = false -> reactions data = []).
Proof.
  intros host messageEl options uc data Hdata.
  destruct (extractMessageData_record messageEl options uc) as (Hcache & _ & Hfields).
  destruct (Hfields data Hdata) as (_ & _ & Ha & Ht & Hi & Hatt & Hr & He).
  cbv zeta in Hcache, Ha. split; [done|]. split; [|split; [|split]].
  - intros Hoff. rewrite Hoff in Ha, Hcache. rewrite Ha, Hcache. split; [done|].
    apply resolveAuthor_cache.
  - intros Hoff. rewrite Ht. unfold messageTimestamp. by rewrite Hoff.
  - intros Hoff. rewrite Hi, He. unfold messageImages. rewrite Hoff. split; [done|].
    apply Forall_forall. intros e Hin. unfold extractEmbeds in Hin.
    apply list_elem_of_omap in Hin as (embedEl & _ & Hsome).
    unfold extractEmbedData in Hsome.
    destruct (negb (nonEmpty _) && _ && _ && _) in Hsome; [done|].
    injection Hsome as <-. cbn [thumbnail image].
    unfold embedThumbnail, embedImage. by rewrite Hoff.
  - intros Hoff. by rewrite Hr, Hoff.
Qed.

Lemma extractMessageData_respects_options_witness :
  exists data,
    fst (extractMessageData (host := plainHost) (Some richMessage) bareOptions
           userCache.reset) = Some data /\
    attachments data = [] /\ avatar data = EmptyString /\ timestamp data = EmptyString /\
    images data = [] /\ reactions data = [] /\
    username data = "alice" /\ contentText data = "hello".
Proof.
  eexists. split; [vm_compute; reflexivity|].
  match goal with
  | |- attachments ?d = _ /\ _ =>
      destruct (extractMessageData_respects_options plainHost richMessage bareOptions
                  userCache.reset d eq_refl)
        as (Hatt & Hav & Hts & Himg & Hre)
  end.
  split; [exact Hatt|]. split; [exact (proj1 (Hav eq_refl))|].
  split; [exact (Hts eq_refl)|]. split; [exact (proj1 (Himg eq_refl))|].
  split; [exact (Hre eq_refl)|]. split; reflexivity.
Defined.

(** X7: the author of a message is the trimmed text of its username
    element when it has one, and that text is not empty; without one it
    is the author the cache saw last, or, when the cache saw none, the
    first author shown by one of the ten previous siblings. The author is
    empty only when all of these fail, and then the cache is left as it
    was; otherwise the cache remembers the author as the last one seen,
    and, for an author whose name is not one a plain object inherits, the
    colour of the record is the one the cache then holds for the author.
    The cache of avatars is not touched. *)
Theorem resolveAuthor_sources :
  forall (host : Host) (messageEl : MsgEl) (uc : UserCache),
    let r := resolveAuthor messageEl uc in
    (forall el,
        findUsernameElement (me_view messageEl) = Some el ->
        fst (fst r) = trim (un_textContent el) /\ fst (fst r) <> EmptyString) /\
    (findUsernameElement (me_view messageEl) = None ->
     lastUsername uc <> EmptyString -> fst (fst r) = lastUsername uc) /\
    (findUsernameElement (me_view messageEl) = None ->
     lastUsername uc = EmptyString ->
     fst (fst r)
     = from_option fst EmptyString (usernameFromPrevious (me_previous messageEl) 10)) /\
    (fst (fst r) <> EmptyString -> lastUsername (snd r) = fst (fst r)) /\
    (fst (fst r) <> EmptyString -> inheritedName (fst (fst r)) = false ->
     orEmpty (userCache.getColor (fst (fst r)) (snd r)) = snd (fst r)) /\
    (fst (fst r) = EmptyString -> snd r = uc) /\
    avatars (snd r) = avatars uc.
Proof.
  intros host messageEl uc r.
  pose proof (resolveAuthor_username messageEl uc) as Hname. fold r in Hname.
  destruct (resolveAuthor_cache messageEl uc) as (Hav & Hlast & Hcolor & Hkeep).
  fold r in Hav, Hlast, Hcolor, Hkeep.
  split; [|split; [|split; [|split; [done|split; [done|split; [done|done]]]]]].
  - intros el Hfind. rewrite Hfind in Hname. split; [done|].
    rewrite Hname. by eapply findUsernameElement_shown.
  - intros Hfind Hseen. rewrite Hfind in Hname. apply nonEmpty_true in Hseen.
    by rewrite Hseen in Hname.
  - intros Hfind Hseen. rewrite Hfind in Hname. apply nonEmpty_false in Hseen.
    by rewrite Hseen in Hname.
Qed.

Lemma resolveAuthor_sources_witness :
  fst (fst (resolveAuthor (host := plainHost) richMessage userCache.reset)) = "alice" /\
  fst (fst (resolveAuthor (host := plainHost) groupedMessage
              (snd (resolveAuthor (host := plainHost) richMessage userCache.reset))))
  = "alice".
Proof.
  split.
  - destruct (resolveAuthor_sources plainHost richMessage userCache.reset)
      as (Hown & _).
    exact (proj1 (Hown _ eq_refl)).
  - destruct (resolveAuthor_sources plainHost groupedMessage
                (snd (resolveAuthor (host := plainHost) richMessage userCache.reset)))
      as (_ & Hlast & _).
    apply Hlast; [reflexivity|discriminate].
Defined.

(** X8: a message that shows no username element, extracted right after a
    message whose author is not empty and not a name a plain object
    inherits, is kept and carries the same author and the same colour;
    with avatars switched on, it also carries the same avatar when the
    first record has one and the second message shows no avatar image of
    its own. *)
Theorem grouped_message_inherits_author :
  forall (host : Host) (first second : MsgEl) (options : ExportOptions)
         (uc : UserCache) (d1 : Message),
    fst (extractMessageData (Some first) options uc) = Some d1 ->
    username d1 <> EmptyString ->
    inheritedName (username d1) = false ->
    findUsernameElement (me_view second) = None ->
    exists d2,
      fst (extractMessageData (Some second) options
             (snd (extractMessageData (Some first) options uc))) = Some d2 /\
      username d2 = username d1 /\ usernameColor d2 = usernameColor d1 /\
      (includeAvatars options = true -> avatar d1 <> EmptyString ->
       match findAvatarElement (me_view second) with
       | Some el => img_src el = EmptyString
       | None => True
       end ->
       avatar d2 = avatar d1).
Proof.
  intros host first second options uc d1 Hd1 Hu Hplain Hnone.
  destruct (extractMessageData_record first options uc) as (Hcache1 & _ & Hfields1).
  destruct (Hfields1 d1 Hd1) as (Hname1 & Hcolor1 & Havatar1 & _).
  cbv zeta in Hcache1, Havatar1.
  set (uc1 := snd (extractMessageData (Some first) options uc)) in *.
  set (author1 := resolveAuthor first uc) in *.
  rewrite Hname1 in Hu, Hplain.
  destruct (resolveAuthor_cache first uc) as (_ & Hseen1 & Hshade1 & _).
  fold author1 in Hseen1, Hshade1.
  pose proof (Hseen1 Hu) as Hlast1. pose proof (Hshade1 Hu Hplain) as Hcol1.
  assert (Hkeeps : colors uc1 = colors (snd author1) /\
                   lastUsername uc1 = lastUsername (snd author1)).
  { rewrite Hcache1. destruct (includeAvatars options); [|done].
    destruct (extractAvatar_cache first (fst (fst author1)) EmptyString (snd author1))
      as (? & ? & _). done. }
  destruct Hkeeps as [Hcolors Hlast].
  assert (Hlast' : lastUsername uc1 = fst (fst author1)) by congruence.
  pose proof (resolveAuthor_username second uc1) as Hname2.
  rewrite Hnone, Hlast' in Hname2. apply nonEmpty_true in Hu as Hu'.
  rewrite Hu' in Hname2.
  destruct (extractMessageData_record second options uc1) as (_ & Hkept2 & Hfields2).
  destruct Hkept2 as [d2 Hd2]; [by rewrite Hname2|].
  exists d2. split; [done|].
  destruct (Hfields2 d2 Hd2) as (Hn2 & Hc2 & Ha2 & _). cbv zeta in Ha2.
  set (author2 := resolveAuthor second uc1) in *.
  destruct (resolveAuthor_cache second uc1) as (Hav2 & _).
  fold author2 in Hav2.
  split; [congruence|]. split.
  - rewrite Hc2, Hcolor1, <- Hcol1. subst author2.
    rewrite (resolveAuthor_inherited_color second uc1 Hnone) by (by rewrite Hlast').
    rewrite Hlast'. unfold userCache.getColor. by rewrite Hcolors.
  - intros Hon Hshown Hown. rewrite Hon in Ha2, Havatar1, Hcache1.
    rewrite Ha2, Hname2.
    assert (Hget : userCache.getAvatar (fst (fst author1)) uc1 = Some (avatar d1)).
    { rewrite Hcache1, Havatar1. apply extractAvatar_cache; [done|done|].
      by rewrite <- Havatar1. }
    assert (Hget2 : userCache.getAvatar (fst (fst author1)) (snd author2)
                    = Some (avatar d1)).
    { unfold userCache.getAvatar in *. by rewrite Hav2. }
    by rewrite (extractAvatar_cached second _ EmptyString _ (avatar d1) Hown Hu Hget2).
Qed.

Lemma grouped_message_inherits_author_witness :
  exists d1 d2,
    fst (extractMessageData (host := plainHost) (Some richMessage)
           DEFAULT_EXPORT_OPTIONS userCache.reset) = Some d1 /\
    fst (extractMessageData (host := plainHost) (Some groupedMessage)
           DEFAULT_EXPORT_OPTIONS
           (snd (extractMessageData (host := plainHost) (Some richMessage)
                   DEFAULT_EXPORT_OPTIONS userCache.reset))) = Some d2 /\
    username d2 = "alice" /\ usernameColor d2 = "rgb(88, 101, 242)" /\
    avatar d2 = "https://cdn.discordapp.com/avatars/1/a.png?size=128".
Proof.
  assert (exists d1,
             fst (extractMessageData (host := plainHost) (Some richMessage)
                    DEFAULT_EXPORT_OPTIONS userCache.reset) = Some d1 /\
             username d1 = "alice" /\ usernameColor d1 = "rgb(88, 101, 242)" /\
             avatar d1 = "https://cdn.discordapp.com/avatars/1/a.png?size=128")
    as (d1 & E1 & Hname & Hcolor & Havatar)
    by (vm_compute; eexists; repeat split; reflexivity).
  assert (Hu : username d1 <> EmptyString) by (rewrite Hname; discriminate).
  assert (Hown : inheritedName (username d1) = false) by (by rewrite Hname).
  destruct (grouped_message_inherits_author plainHost richMessage groupedMessage
              DEFAULT_EXPORT_OPTIONS userCache.reset d1 E1 Hu Hown eq_refl)
    as (d2 & E2 & Hn & Hc & Ha).
  exists d1, d2. split; [exact E1|]. split; [exact E2|].
  split; [by rewrite Hn|]. split; [by rewrite Hc|].
  rewrite Ha; [exact Havatar|reflexivity|rewrite Havatar; discriminate|exact I].
Defined.

(** *** Runs without boundaries, and runs that never find their start *)

Section OpenRun.
Context `{host : Host}.
Variable options : ExportOptions.
Variable page : Page.

(** A scan without boundaries collects every element in turn. *)
Lemma scanMessages_open startElement messageArray st :
  let st' := scanMessages None None options startElement None messageArray st in
  (collectedMessages st', users st')
  = foldl (collectInto options) (collectedMessages st, users st) (map snd messageArray) /\
  foundEndMessage st' = foundEndMessage st.
Proof.
  revert st. induction messageArray as [|[pos el] rest IH]; intros st; [done|].
  cbn [scanMessages map foldl snd truthy andb from_option].
  destruct (getMessageId (Some (me_view el))) as [msgId|] eqn:Hid.
  - destruct (IH (collectMessage options msgId el st)) as [Hdata Hend].
    cbv zeta in Hdata, Hend. cbv zeta. rewrite Hdata, Hend.
    rewrite (collectInto_collectMessage options msgId el st Hid).
    split; [done|]. by destruct (collectMessage_flags options msgId el st) as (_ & -> & _).
  - destruct (IH st) as [Hdata Hend]. cbv zeta in Hdata, Hend. cbv zeta.
    rewrite Hdata, Hend. split; [|done].
    assert (Hskip : collectInto options (collectedMessages st, users st) el
                    = (collectedMessages st, users st))
      by (unfold collectInto; by rewrite Hid).
    by rewrite Hskip.
Qed.

Lemma scanSnapshot_open snap st :
  let st' := scanSnapshot None None options snap st in
  (collectedMessages st', users st')
  = foldl (collectInto options) (collectedMessages st, users st)
      (map snd (queryMessages snap)) /\
  foundEndMessage st' = foundEndMessage st.
Proof. apply scanMessages_open. Qed.

Lemma collectLoop_open fuel st :
  foundEndMessage (scan st) = false ->
  let st' := collectLoop None None options page fuel st in
  (collectedMessages (scan st'), users (scan st'))
  = foldl (collectInto options) (collectedMessages (scan st), users (scan st))
      (encountered None None options page fuel st).
Proof.
  revert st. induction fuel as [|fuel IH]; intros st Hend; [done|].
  cbv zeta. rewrite collectLoop_unfold. unfold encountered. cbn [scansOf].
  destruct (goesOn st); [|done].
  destruct (scanSnapshot_open (current st) (scan st)) as [Hdata Hend'].
  cbv zeta in Hdata, Hend'. cbn [map concat]. rewrite foldl_app, <- Hdata.
  destruct (loopBody None None options page st) as [st'|st'] eqn:Hbody.
  - destruct (loopBody_scan None None options page st st' (or_introl Hbody)) as (Hc & Hu & _).
    cbv zeta in Hc, Hu. rewrite <- Hc, <- Hu. apply IH.
    by destruct (loopBody_inl _ _ _ _ _ _ Hbody) as (_ & _ & _ & _ & ?).
  - destruct (loopBody_scan None None options page st st' (or_intror Hbody)) as (Hc & Hu & _).
    cbv zeta in Hc, Hu. cbn [map concat foldl]. by rewrite Hc, Hu.
Qed.

(** The sweep collects every element of the document in turn. *)
Lemma sweepAll_data snap st :
  (collectedMessages (sweepAll options snap st), users (sweepAll options snap st))
  = foldl (collectInto options) (collectedMessages st, users st)
      (map snd (queryMessages snap)).
Proof.
  unfold sweepAll. generalize (queryMessages snap). intros l. revert st.
  induction l as [|[pos el] rest IH]; intros st; [done|].
  cbn [foldl map snd]. rewrite IH.
  destruct (getMessageId (Some (me_view el))) as [msgId|] eqn:Hid.
  - by rewrite (collectInto_collectMessage options msgId el st Hid).
  - assert (Hskip : collectInto options (collectedMessages st, users st) el
                    = (collectedMessages st, users st))
      by (unfold collectInto; by rewrite Hid).
    by rewrite Hskip.
Qed.

(** A scan for a start that is not mounted and was never seen collects
    nothing. *)
Lemma scanMessages_unseen startId messageArray st :
  startId <> EmptyString ->
  foundStartMessage st = false ->
  (forall x, x ∈ messageArray -> idOf (snd x) <> startId) ->
  scanMessages (Some startId) None options None None messageArray st = st.
Proof.
  intros Hne Hfound Hnot. apply truthy_Some in Hne.
  induction messageArray as [|[pos el] rest IH]; [done|].
  cbn [scanMessages truthy andb from_option]. fold (truthy (Some startId)).
  destruct (getMessageId (Some (me_view el))) as [msgId|] eqn:Hid.
  - rewrite Hne. destruct (getMessageId_Some _ _ Hid) as [Hid' _].
    rewrite bool_decide_eq_false_2.
    + rewrite Hfound. cbn [negb]. apply IH. intros x Hx. apply Hnot. by right.
    + intros [= ->]. apply (Hnot (pos, el)); [by left|done].
  - apply IH. intros x Hx. apply Hnot. by right.
Qed.

Lemma queryMessages_listed snap x :
  x ∈ queryMessages snap -> snd x ∈ elements snap.
Proof.
  destruct x as [pos el]. intros Hx. apply queryMessages_elem in Hx as [Hx _].
  by eapply list_elem_of_lookup_2.
Qed.

(** The loop of a run whose start is never mounted: the store stays
    empty and the start stays unseen. *)
Lemma collectLoop_unseen startId fuel st :
  startId <> EmptyString ->
  (getElementById (entry page) (Some startId) = None) ->
  (forall n, getElementById (settled page n) (Some startId) = None) ->
  foundStartMessage (scan st) = false ->
  (current st = entry page \/ exists n, current st = settled page n) ->
  let st' := collectLoop (Some startId) None options page fuel st in
  collectedMessages (scan st') = collectedMessages (scan st) /\
  users (scan st') = users (scan st) /\
  foundStartMessage (scan st') = false /\
  (current st' = entry page \/ exists n, current st' = settled page n).
Proof.
  intros Hne Hentry Hsettled. revert st.
  induction fuel as [|fuel IH]; intros st Hfound Hcur; [done|].
  cbv zeta. rewrite collectLoop_unfold. destruct (goesOn st); [|done].
  assert (Hnone : getElementById (current st) (Some startId) = None).
  { destruct Hcur as [->|[n ->]]; [done|apply Hsettled]. }
  assert (Hscan : scanSnapshot (Some startId) None options (current st) (scan st)
                  = scan st).
  { unfold scanSnapshot. rewrite Hnone.
    change (getElementById (current st) None) with (@None nat).
    apply scanMessages_unseen; [done|done|].
    intros x Hx. eapply getElementById_None; [done|exact Hnone|].
    by apply queryMessages_listed. }
  destruct (loopBody (Some startId) None options page st) as [st'|st'] eqn:Hbody.
  - destruct (loopBody_scan _ _ options page st st' (or_introl Hbody)) as (Hc & Hu & Hf).
    cbv zeta in Hc, Hu, Hf. rewrite Hscan in Hc, Hu, Hf.
    destruct (loopBody_inl _ _ _ _ _ _ Hbody) as (_ & _ & Hcur' & _).
    destruct (IH st') as (Hc' & Hu' & Hf' & Hcur''); [congruence|eauto|].
    cbv zeta in Hc', Hu', Hf', Hcur''. rewrite Hc', Hu', Hc, Hu. done.
  - destruct (loopBody_scan _ _ options page st st' (or_intror Hbody)) as (Hc & Hu & Hf).
    cbv zeta in Hc, Hu, Hf. rewrite Hscan in Hc, Hu, Hf.
    split; [done|]. split; [done|]. split; [congruence|].
    revert Hbody. unfold loopBody.
    destruct (foundEndMessage (scanSnapshot _ _ _ _ _)).
    + intros [= <-]. exact Hcur.
    + destruct (stallStep _ _ _ _ _) as [count stop]. destruct stop; [|done].
      intros [= <-]. right. by eexists.
Qed.

End OpenRun.

(** X9: what a run without boundaries returns, when it returns, are the
    records the extractor keeps of the message elements of the documents
    the loop scans, none of them passed over, each id once, in the order
    of the encounters at which each was first kept: an element of which
    the extractor keeps nothing at one encounter is extracted again at
    its next, and its record then comes after those kept in between. An
    element for which the extractor returns a record at some encounter
    has its id among those returned. *)
Theorem open_run_keeps_everything :
  forall (host : Host) (options : ExportOptions) (page : Page) (w : World)
         (msgs : list Message),
    fst (scrollAndCollectMessages page None None options w) = Normal msgs ->
    let met :=
      encountered None None options page CONFIG.maxScrollAttempts
        (seekStart None page userCache.reset (w_sink w)) in
    firstKept options met msgs /\
    NoDup (map msg_id msgs) /\
    (forall m, m ∈ msgs -> exists el, el ∈ met /\ msg_id m = Some (idOf el)).
Proof.
  intros host options page w msgs Hrun met.
  apply scrollAndCollectMessages_Normal in Hrun.
  pose proof (runLoop_from_empty None None options page (w_sink w)) as Hgrows.
  assert (Hstore :
            collectedMessages
              (finishCollection None options (runLoop None None options page (w_sink w)))
            = fst (foldl (collectInto options) (JsMap.empty, userCache.reset) met)).
  { unfold finishCollection. cbn [truthy andb]. unfold runLoop.
    pose proof (collectLoop_open options page CONFIG.maxScrollAttempts
                  (seekStart None page userCache.reset (w_sink w)) eq_refl) as Hdata.
    cbv zeta in Hdata. fold met in Hdata.
    exact (f_equal fst Hdata). }
  rewrite Hstore in Hrun, Hgrows.
  set (store := fst (foldl (collectInto options) (JsMap.empty, userCache.reset) met))
    in *.
  assert (Hentries : Forall entryOk store).
  { eapply StoreGrows_entries; [exact Hgrows|]. constructor. }
  assert (Hwf : JsMap.wf store).
  { eapply StoreGrows_wf; [exact Hgrows|]. apply NoDup_nil_2. }
  subst msgs. split; [|split].
  - apply foldl_collectInto_firstKept, Forall_forall. intros el Hel.
    by eapply encountered_listed.
  - rewrite (values_ids store Hentries). apply NoDup_fmap_2; [|exact Hwf].
    by intros ? ? [= ->].
  - intros m Hm. apply values_elem in Hm as [k Hkm].
    rewrite Forall_forall in Hentries. destruct (Hentries _ Hkm) as [Hk _].
    cbn in Hk. assert (Hkey : k ∈ JsMap.keys store) by (apply keys_elem; eauto).
    apply foldl_collectInto_keys in Hkey as [Hnil|(el & Hel & Hidk)].
    { by apply elem_of_nil in Hnil. }
    exists el. by rewrite Hidk.
Qed.

Lemma open_run_keeps_everything_witness :
  exists msgs,
    fst (scrollAndCollectMessages (host := plainHost) (stillPage lateAuthorChannel)
           None None DEFAULT_EXPORT_OPTIONS freshWorld) = Normal msgs /\
    map msg_id msgs = [Some "chat-messages-2"; Some "chat-messages-1"] /\
    firstKept (host := plainHost) DEFAULT_EXPORT_OPTIONS
      (encountered (host := plainHost) None None DEFAULT_EXPORT_OPTIONS
         (stillPage lateAuthorChannel) CONFIG.maxScrollAttempts
         (seekStart None (stillPage lateAuthorChannel) userCache.reset []))
      msgs /\
    NoDup (map msg_id msgs).
Proof.
  eexists. split; [vm_compute; reflexivity|]. split; [reflexivity|].
  pose proof (open_run_keeps_everything plainHost DEFAULT_EXPORT_OPTIONS
                (stillPage lateAuthorChannel) freshWorld) as Hopen.
  edestruct Hopen as (Hkept & Hnd & _); [vm_compute; reflexivity|].
  split; [exact Hkept|exact Hnd].
Defined.



(** *** The images of a PDF document *)

Lemma elem_of_setAdd x s y : y ∈ setAdd x s <-> y ∈ s \/ y = x.
Proof.
  unfold setAdd. case_bool_decide as Hin.
  - split; [by left|]. intros [?| ->]; done.
  - rewrite elem_of_app, list_elem_of_singleton. done.
Qed.

Lemma NoDup_setAdd x s : NoDup s -> NoDup (setAdd x s).
Proof.
  intros Hnd. unfold setAdd. case_bool_decide as Hin; [done|].
  apply NoDup_app. split; [done|]. split; [|apply NoDup_singleton].
  intros y Hy Hx. apply list_elem_of_singleton in Hx as ->. done.
Qed.

(** A fold that only ever adds to a set. *)
Lemma foldl_adds {A} (step : list string -> A -> list string)
    (adds : A -> string -> Prop) (l : list A) (s : list string) :
  (forall s a y, y ∈ step s a <-> y ∈ s \/ adds a y) ->
  (forall s a, NoDup s -> NoDup (step s a)) ->
  (forall y, y ∈ foldl step s l <-> y ∈ s \/ exists a, a ∈ l /\ adds a y) /\
  (NoDup s -> NoDup (foldl step s l)).
Proof.
  intros Hstep Hnd. revert s. induction l as [|a l IH]; intros s.
  - split; [|done]. intros y. split; [by left|].
    intros [?|(a & Ha & _)]; [done|]. by apply elem_of_nil in Ha.
  - cbn [foldl]. destruct (IH (step s a)) as [Hin Hdup]. split.
    + intros y. rewrite Hin, Hstep. split.
      * intros [[?|?]|(b & Hb & ?)]; [by left|right|right].
        -- exists a. split; [by left|done].
        -- exists b. split; [by right|done].
      * intros [?|(b & Hb & ?)]; [by left; left|].
        apply elem_of_cons in Hb as [->|Hb]; [by left; right|].
        right. by exists b.
    + intros Hs. by apply Hdup, Hnd.
Qed.

Lemma elem_of_add_nonEmpty x s y :
  y ∈ (if nonEmpty x then setAdd x s else s) <-> y ∈ s \/ (y <> EmptyString /\ x = y).
Proof.
  destruct (nonEmpty x) eqn:E.
  - rewrite elem_of_setAdd. apply nonEmpty_true in E. split.
    + intros [?| ->]; [by left|by right].
    + intros [?|[_ ->]]; [by left|by right].
  - apply nonEmpty_false in E. split; [by left|].
    intros [?|[Hne <-]]; [done|by destruct Hne].
Qed.

Lemma elem_of_add_truthy v s y :
  y ∈ (if truthy v then setAdd (orEmpty v) s else s) <->
  y ∈ s \/ (y <> EmptyString /\ v = Some y).
Proof.
  destruct v as [x|]; cbn [truthy orEmpty].
  - fold (nonEmpty x). rewrite elem_of_add_nonEmpty. split.
    + intros [?|[? ->]]; [by left|by right].
    + intros [?|[? [= ->]]]; [by left|by right].
  - split; [by left|]. by intros [?|[_ ?]].
Qed.

Lemma NoDup_add_if (b : bool) x s : NoDup s -> NoDup (if b then setAdd x s else s).
Proof. intros Hs. destruct b; [by apply NoDup_setAdd|done]. Qed.

(** The addresses to prefetch, as a set. *)
Lemma collectImageUrls_members :
  forall (options : ExportOptions) (messages : list Message),
    NoDup (collectImageUrls options messages) /\
    (forall u,
        u ∈ collectImageUrls options messages <->
        u <> EmptyString /\
        ((includeAvatars options = true /\
          exists msg, msg ∈ messages /\ avatar msg = u) \/
         (includeImages options = true /\
          exists msg img, msg ∈ messages /\ img ∈ images msg /\ staticUrl img = u) \/
         (exists msg e, msg ∈ messages /\ e ∈ embeds msg /\
                        (thumbnail e = Some u \/ image e = Some u)))).
Proof.
  intros options messages. unfold collectImageUrls.
  set (addAvatar := fun (s : list string) (msg : Message) =>
                      if nonEmpty (avatar msg) then setAdd (avatar msg) s else s).
  set (addImage := fun (s : list string) (img : ImageRef) =>
                     if nonEmpty (staticUrl img) then setAdd (staticUrl img) s else s).
  set (addEmbed := fun (s : list string) (e : Embed) =>
                     let s' := if truthy (thumbnail e)
                               then setAdd (orEmpty (thumbnail e)) s else s in
                     if truthy (image e) then setAdd (orEmpty (image e)) s' else s').
  destruct (foldl_adds addAvatar
              (fun msg y => y <> EmptyString /\ avatar msg = y) messages [])
    as [Hin0 Hnd0].
  { intros s a y. apply elem_of_add_nonEmpty. }
  { intros s a Hs. by apply NoDup_add_if. }
  set (s0 := if includeAvatars options then foldl addAvatar [] messages else []).
  assert (Hs0 : (forall y, y ∈ s0 <->
                           y <> EmptyString /\ includeAvatars options = true /\
                           exists msg, msg ∈ messages /\ avatar msg = y) /\
                NoDup s0).
  { subst s0. destruct (includeAvatars options).
    - split; [|apply Hnd0, NoDup_nil_2]. intros y. rewrite Hin0. split.
      + intros [Hnil|(msg & Hmsg & Hne & Hav)]; [by apply elem_of_nil in Hnil|].
        split; [done|]. split; [done|]. by exists msg.
      + intros (Hne & _ & msg & Hmsg & Hav). right. by exists msg.
    - split; [|apply NoDup_nil_2]. intros y. split.
      + intros Hnil. by apply elem_of_nil in Hnil.
      + by intros (_ & ? & _). }
  destruct Hs0 as [Hin0' Hnd0'].
  assert (Himages : forall l s,
             (forall y, y ∈ foldl addImage s l <->
                        y ∈ s \/ exists img, img ∈ l /\
                                             y <> EmptyString /\ staticUrl img = y) /\
             (NoDup s -> NoDup (foldl addImage s l))).
  { intros l s. apply foldl_adds.
    - intros s' a y. apply elem_of_add_nonEmpty.
    - intros s' a Hs. by apply NoDup_add_if. }
  destruct (foldl_adds (fun s msg => foldl addImage s (images msg))
              (fun msg y => exists img, img ∈ images msg /\
                                        y <> EmptyString /\ staticUrl img = y)
              messages s0) as [Hin1 Hnd1].
  { intros s a y. apply Himages. }
  { intros s a. apply Himages. }
  set (s1 := if includeImages options
             then foldl (fun s msg => foldl addImage s (images msg)) s0 messages
             else s0).
  assert (Hs1 : (forall y, y ∈ s1 <->
                           y ∈ s0 \/
                           y <> EmptyString /\ includeImages options = true /\
                           exists msg img, msg ∈ messages /\ img ∈ images msg /\
                                           staticUrl img = y) /\
                NoDup s1).
  { subst s1. destruct (includeImages options).
    - split; [|by apply Hnd1]. intros y. rewrite Hin1. split.
      + intros [?|(msg & Hmsg & img & Himg & Hne & Hst)]; [by left|right].
        split; [done|]. split; [done|]. by exists msg, img.
      + intros [?|(Hne & _ & msg & img & Hmsg & Himg & Hst)]; [by left|right].
        exists msg. split; [done|]. by exists img.
    - split; [|done]. intros y. split; [by left|].
      by intros [?|(_ & ? & _)]. }
  destruct Hs1 as [Hin1' Hnd1'].
  assert (Hembeds : forall l s,
             (forall y, y ∈ foldl addEmbed s l <->
                        y ∈ s \/ exists e, e ∈ l /\ y <> EmptyString /\
                                           (thumbnail e = Some y \/ image e = Some y)) /\
             (NoDup s -> NoDup (foldl addEmbed s l))).
  { intros l s. apply foldl_adds.
    - intros s' e y. subst addEmbed. cbn beta zeta.
      rewrite elem_of_add_truthy, elem_of_add_truthy. tauto.
    - intros s' e Hs. subst addEmbed. cbn beta zeta.
      by apply NoDup_add_if, NoDup_add_if. }
  destruct (foldl_adds (fun s msg => foldl addEmbed s (embeds msg))
              (fun msg y => exists e, e ∈ embeds msg /\ y <> EmptyString /\
                                      (thumbnail e = Some y \/ image e = Some y))
              messages s1) as [Hin2 Hnd2].
  { intros s a y. apply Hembeds. }
  { intros s a. apply Hembeds. }
  split; [by apply Hnd2|]. intros u. rewrite Hin2, Hin1', Hin0'. split.
  - intros [[(Hne & Hon & Hex)|(Hne & Hon & Hex)]|(msg & Hmsg & e & He & Hne & Hor)].
    + split; [done|]. left. done.
    + split; [done|]. right. left. done.
    + split; [done|]. right. right. by exists msg, e.
  - intros (Hne & [(Hon & Hex)|[(Hon & Hex)|(msg & e & Hmsg & He & Hor)]]).
    + left. left. done.
    + left. right. done.
    + right. exists msg. split; [done|]. by exists e.
Qed.

(** X11: the addresses [generatePDFContent] prefetches are pairwise
    distinct, none is empty, and they are exactly: the avatars of the
    messages when avatars are switched on, the still addresses of their
    images when images are switched on, and the thumbnails and images of
    their embeds. *)
Theorem collectImageUrls_exact :
  forall (options : ExportOptions) (messages : list Message),
    NoDup (collectImageUrls options messages) /\
    (forall u,
        u ∈ collectImageUrls options messages <->
        u <> EmptyString /\
        ((includeAvatars options = true /\
          exists msg, msg ∈ messages /\ avatar msg = u) \/
         (includeImages options = true /\
          exists msg img, msg ∈ messages /\ img ∈ images msg /\ staticUrl img = u) \/
         (exists msg e, msg ∈ messages /\ e ∈ embeds msg /\
                        (thumbnail e = Some u \/ image e = Some u)))).
Proof. exact collectImageUrls_members. Qed.

Section PrefetchFacts.
Context `{host : Host}.
Variable page : Page.

(** The resolves of a batch, as the cache sees them. *)
Lemma fetchBatch_cache batch w :
  fetchBatch page batch w
  = (Normal tt,
     {| w_users := w_users w;
        w_images := cacheAfter (map (fun u => (Some u, network page u)) batch) (w_images w);
        w_sink := w_sink w; w_artifact := w_artifact w |}).
Proof.
  revert w. induction batch as [|u rest IH]; intros w; [by destruct w|].
  cbn [fetchBatch map]. unfold eff_bind at 1, onImages at 1, eff_try at 1.
  destruct (completes_getCachedImage (Some u) (network page u) (w_images w))
    as (r & cache' & Hres).
  rewrite Hres. rewrite IH. cbn [w_users w_images w_sink w_artifact].
  unfold cacheAfter. cbn [foldl fst snd]. by rewrite Hres.
Qed.

Lemma cacheAfter_app ops1 ops2 cache :
  cacheAfter (ops1 ++ ops2) cache = cacheAfter ops2 (cacheAfter ops1 cache).
Proof. unfold cacheAfter. by rewrite foldl_app. Qed.

(** Batching does not show in the cache: the prefetch resolves the
    addresses one after the other. *)
Lemma prefetch_cache fuel i urlArray w :
  length urlArray - i <= fuel * PREFETCH_BATCH ->
  exists sent,
    prefetch page fuel i urlArray w
    = (Normal tt,
       {| w_users := w_users w;
          w_images :=
            cacheAfter (map (fun u => (Some u, network page u)) (drop i urlArray))
              (w_images w);
          w_sink := w_sink w ++ sent; w_artifact := w_artifact w |}).
Proof.
  revert i w. induction fuel as [|fuel IH]; intros i w Hfuel.
  - exists []. cbn [prefetch]. rewrite drop_ge by lia. rewrite app_nil_r.
    by destruct w.
  - cbn [prefetch]. destruct (Nat.ltb_spec i (length urlArray)) as [Hlt|Hge].
    + unfold eff_bind at 1. rewrite fetchBatch_cache.
      unfold eff_bind at 1. unfold sendProgress at 1, eff_modify at 1.
      cbn [w_users w_images w_sink w_artifact].
      match goal with |- context [prefetch page fuel _ urlArray ?w0] =>
        destruct (IH (i + PREFETCH_BATCH) w0) as (sent & Hrest) end.
      { unfold PREFETCH_BATCH in *. lia. }
      rewrite Hrest. cbn [w_users w_images w_sink w_artifact].
      eexists. f_equal. f_equal; [|by rewrite <- app_assoc].
      rewrite <- cacheAfter_app, <- map_app. do 2 f_equal.
      rewrite <- (take_drop PREFETCH_BATCH (drop i urlArray)) at 2.
      by rewrite drop_drop.
    + exists []. rewrite drop_ge by lia. rewrite app_nil_r. by destruct w.
Qed.

(** Rendering reads the image cache and only adds to the progress sink. *)
Lemma renderMessages_world options messages i total last w :
  exists w',
    renderMessages options messages i total last w
    = (Normal (pdfBodies options (w_images w) messages last), w') /\
    w_images w' = w_images w /\ w_users w' = w_users w /\
    w_artifact w' = w_artifact w /\ w_sink w `prefix_of` w_sink w'.
Proof.
  revert i last w. induction messages as [|msg rest IH]; intros i last w.
  - by eexists.
  - cbn [renderMessages pdfBodies]. unfold eff_bind at 1, eff_get at 1. cbn iota.
    unfold eff_bind at 1.
    set (step := if (0 <? i) && (i mod BATCH_SIZE =? 0) then _ else _).
    assert (Hstep : exists w1, step w = (Normal tt, w1) /\ w_images w1 = w_images w /\
                               w_users w1 = w_users w /\
                               w_artifact w1 = w_artifact w /\
                               w_sink w `prefix_of` w_sink w1).
    { subst step. destruct (_ && _); eexists; (split; [reflexivity|]);
        cbn [w_images w_users w_artifact w_sink]; repeat split; try done.
      by apply prefix_app_r. }
    destruct Hstep as (w1 & -> & Himg & Hu & Ha & Hs). unfold eff_bind at 1.
    destruct (IH (S i) (username msg) w1) as (w2 & -> & Himg2 & Hu2 & Ha2 & Hs2).
    exists w2. split; [unfold eff_ret; by rewrite Himg|].
    split; [congruence|]. split; [congruence|]. split; [congruence|].
    by etrans.
Qed.

End PrefetchFacts.

(** The document of [generatePDFContent] and the world it leaves. *)
Lemma generatePDFContent_result :
  forall (host : Host) (page : Page) (messages : list Message)
         (options : ExportOptions) (w : World),
    let cache :=
      cacheAfter
        (map (fun u => (Some u, network page u)) (collectImageUrls options messages))
        JsMap.empty in
    exists w',
      generatePDFContent page messages options w
      = (Normal (joinAll (pdfHead page ::
                          pdfBodies options cache messages EmptyString ++
                          ["</body></html>"])), w') /\
      w_images w' = JsMap.empty /\ w_users w' = w_users w /\
      w_artifact w' = w_artifact w /\ w_sink w `prefix_of` w_sink w'.
Proof.
  intros host page messages options w cache. unfold generatePDFContent.
  unfold eff_bind at 1. unfold onImages at 1, clearImageCache at 1, eff_modify at 1.
  cbn iota. unfold eff_bind at 1.
  match goal with |- context [prefetch page ?f 0 ?us ?w0] =>
    destruct (prefetch_cache page f 0 us w0) as (sent & Hpre) end.
  { unfold PREFETCH_BATCH. lia. }
  rewrite Hpre. cbn [w_users w_images w_sink w_artifact drop]. fold cache.
  unfold eff_bind at 1.
  match goal with |- context [renderMessages options messages 0 _ _ ?w1] =>
    destruct (renderMessages_world options messages 0 (length messages) EmptyString w1)
      as (w2 & Hrender & Himg & Hu & Ha & Hs) end.
  rewrite Hrender. cbn [w_users w_images w_sink w_artifact] in Himg, Hu, Ha, Hs |- *.
  unfold eff_bind at 1. unfold onImages at 1, clearImageCache at 1, eff_modify at 1.
  cbn iota. eexists. split; [reflexivity|].
  cbn [w_images w_users w_artifact w_sink]. split; [done|]. split; [done|].
  split; [done|]. etrans; [|exact Hs]. by apply prefix_app_r.
Qed.

(** X12: [generatePDFContent] never throws. The document it returns is
    the head, the block of every message in turn and the closing tags,
    the blocks being rendered against the cache that results from
    resolving the prefetched addresses one after the other from the empty
    cache: it does not depend on what the image cache held before. It
    leaves the image cache empty and the user cache and the handed-over
    document as they were. *)
Theorem generatePDFContent_closed_form :
  forall (host : Host) (page : Page) (messages : list Message)
         (options : ExportOptions) (w : World),
    let cache :=
      cacheAfter
        (map (fun u => (Some u, network page u)) (collectImageUrls options messages))
        JsMap.empty in
    exists w',
      generatePDFContent page messages options w
      = (Normal (joinAll (pdfHead page ::
                          pdfBodies options cache messages EmptyString ++
                          ["</body></html>"])), w') /\
      w_images w' = JsMap.empty /\ w_users w' = w_users w /\
      w_artifact w' = w_artifact w /\ w_sink w `prefix_of` w_sink w'.
Proof. exact generatePDFContent_result. Qed.

(** *** More images than the cache holds *)

Lemma get_pairs (data : string -> string) (l : list string) (u : string) :
  JsMap.get (map (fun u => (u, data u)) l) u
  = if bool_decide (u ∈ l) then Some (data u) else None.
Proof.
  induction l as [|x l IH]; [done|]. cbn [map JsMap.get].
  destruct (decide (x = u)) as [->|Hne].
  - by rewrite bool_decide_eq_true_2 by (by left).
  - rewrite IH. case_bool_decide as H1; case_bool_decide as H2; try done.
    + exfalso. apply H2. by right.
    + exfalso. apply elem_of_cons in H2 as [->|?]; done.
Qed.

Lemma NoDup_not_in_drop {A} (l : list A) (i k : nat) (x : A) :
  NoDup l -> l !! i = Some x -> i < k -> x ∉ drop k l.
Proof.
  intros Hnd Hi Hlt Hin. apply list_elem_of_lookup in Hin as [j Hj].
  rewrite lookup_drop in Hj. pose proof (NoDup_lookup l i (k + j) x Hnd Hi Hj). lia.
Qed.

(** X13: when every prefetched address loads, the cache the PDF blocks
    are rendered against holds exactly the last 200 of the prefetched
    addresses, in their order, each with its data. An address prefetched
    earlier than that is found no more, and a picture with such a still
    address is left out of the document. *)
Theorem pdf_keeps_last_200 :
  forall (host : Host) (page : Page) (messages : list Message)
         (options : ExportOptions) (data : string -> string),
    let us := collectImageUrls options messages in
    (forall u, u ∈ us -> network page u = FetchedData (data u)) ->
    let cache := cacheAfter (map (fun u => (Some u, network page u)) us) JsMap.empty in
    JsMap.keys cache = drop (length us - MAX_IMAGE_CACHE_SIZE) us /\
    (forall i u, us !! i = Some u -> length us - MAX_IMAGE_CACHE_SIZE <= i ->
                 JsMap.get cache u = Some (data u)) /\
    (forall i u, us !! i = Some u -> i < length us - MAX_IMAGE_CACHE_SIZE ->
                 cachedData cache u = None /\
                 forall imgData, staticUrl imgData = u ->
                                 pdfImageHtml cache imgData = EmptyString).
Proof.
  intros host page messages options data us Hloads cache.
  destruct (collectImageUrls_members options messages) as [Hnd Hin]. fold us in Hnd, Hin.
  assert (Hcache : cache = map (fun u => (u, data u))
                             (drop (length us - MAX_IMAGE_CACHE_SIZE) us)).
  { subst cache. rewrite <- (cacheAfter_window data us Hnd).
    - f_equal. apply map_ext_in. intros u Hu. f_equal. apply Hloads.
      by apply list_elem_of_In.
    - apply Forall_forall. intros u Hu. by apply Hin in Hu as [? _]. }
  split; [|split].
  - rewrite Hcache. unfold JsMap.keys. rewrite <- list_fmap_compose.
    apply list_fmap_id.
  - intros i u Hi Hle. rewrite Hcache, get_pairs. rewrite bool_decide_eq_true_2; [done|].
    apply list_elem_of_lookup. exists (i - (length us - MAX_IMAGE_CACHE_SIZE)).
    rewrite lookup_drop. rewrite <- Hi. f_equal. lia.
  - intros i u Hi Hlt.
    assert (Hmiss : cachedData cache u = None).
    { unfold cachedData. rewrite Hcache, get_pairs.
      rewrite bool_decide_eq_false_2; [done|]. by eapply NoDup_not_in_drop. }
    split; [done|]. intros imgData <-. unfold pdfImageHtml. by rewrite Hmiss.
Qed.

Lemma pdf_keeps_last_200_witness :
  collectImageUrls DEFAULT_EXPORT_OPTIONS [galleryMessage] = sampleUrls /\
  pdfImageHtml
    (cacheAfter
       (map (fun u => (Some u, network (stillPage []) u))
          (collectImageUrls DEFAULT_EXPORT_OPTIONS [galleryMessage]))
       JsMap.empty)
    {| url := "https://cdn/1"; isGif := false; staticUrl := "https://cdn/1" |}
  = EmptyString.
Proof.
  assert (Hus : collectImageUrls DEFAULT_EXPORT_OPTIONS [galleryMessage] = sampleUrls)
    by (vm_compute; reflexivity).
  split; [exact Hus|].
  destruct (pdf_keeps_last_200 plainHost (stillPage []) [galleryMessage]
              DEFAULT_EXPORT_OPTIONS sampleData) as (_ & _ & Hearly).
  { intros u _. reflexivity. }
  destruct (Hearly 0 "https://cdn/1") as [_ Hout].
  - rewrite Hus. reflexivity.
  - rewrite Hus. vm_compute. lia.
  - by apply Hout.
Defined.

(** *** The range of the progress percentages *)

Lemma Qofnat_nonneg n : (0 <= Qofnat n)%Q.
Proof. unfold Qofnat. rewrite <- (Zle_Qle 0). lia. Qed.

Lemma Qofnat_pos n : 0 < n -> (0 < Qofnat n)%Q.
Proof. intros Hn. unfold Qofnat. rewrite <- (Zlt_Qlt 0). lia. Qed.

Lemma Qofnat_lt n m : n < m -> (Qofnat n < Qofnat m)%Q.
Proof. intros Hlt. unfold Qofnat. rewrite <- Zlt_Qlt. lia. Qed.

(** The whole part of a share of [k], for a proper fraction. *)
Lemma floor_share i total (k : Z) :
  i < total -> (0 < k)%Z ->
  (0 <= Qfloor (Qofnat i / Qofnat total * inject_Z k) <= k - 1)%Z.
Proof.
  intros Hlt Hk.
  assert (Htotal : (0 < Qofnat total)%Q) by (apply Qofnat_pos; lia).
  assert (Hkq : (0 < inject_Z k)%Q) by (by rewrite <- (Zlt_Qlt 0)).
  assert (Hfrac0 : (0 <= Qofnat i / Qofnat total)%Q).
  { apply Qle_shift_div_l; [done|]. rewrite Qmult_0_l. apply Qofnat_nonneg. }
  assert (Hfrac1 : (Qofnat i / Qofnat total < 1)%Q).
  { apply Qlt_shift_div_r; [done|]. rewrite Qmult_1_l. by apply Qofnat_lt. }
  split.
  - change 0%Z with (Qfloor 0). apply Qfloor_resp_le.
    apply Qmult_le_0_compat; [done|]. by apply Qlt_le_weak.
  - assert (Hup : (Qofnat i / Qofnat total * inject_Z k < inject_Z k)%Q).
    { rewrite <- (Qmult_1_l (inject_Z k)) at 2. by apply Qmult_lt_compat_r. }
    assert (Hfl : (inject_Z (Qfloor (Qofnat i / Qofnat total * inject_Z k))
                   < inject_Z k)%Q).
    { eapply Qle_lt_trans; [apply Qfloor_le|done]. }
    rewrite <- Zlt_Qlt in Hfl. lia.
Qed.

Lemma inBar_const q label :
  (5 <= q)%Q -> (q <= 99)%Q -> inBar {| percent := q; text := label |}.
Proof. by split. Qed.

Lemma inBar_topProgress n : inBar (scrollingToTop (topProgress n)).
Proof.
  unfold scrollingToTop, topProgress. split; cbn [percent].
  - apply Q.min_glb; [done|].
    rewrite <- (Qplus_0_r 5) at 1. apply Qplus_le_r, Qofnat_nonneg.
  - eapply Qle_trans; [apply Q.le_min_l|done].
Qed.

Lemma inBar_loadingProgress n label :
  inBar {| percent := loadingProgress n; text := label |}.
Proof.
  unfold loadingProgress. split; cbn [percent].
  - apply Q.min_glb; [done|]. apply Qle_trans with 20%Q; [done|].
    rewrite <- (Qplus_0_r 20) at 1. apply Qplus_le_r.
    apply Qle_shift_div_l; [by apply Qofnat_pos; unfold CONFIG.maxScrollAttempts; lia|].
    rewrite Qmult_0_l. apply Qmult_le_0_compat; [apply Qofnat_nonneg|done].
  - eapply Qle_trans; [apply Q.le_min_l|done].
Qed.

Lemma inBar_prefetchProgress i total label :
  i < total -> inBar {| percent := prefetchProgress i total; text := label |}.
Proof.
  intros Hlt. unfold prefetchProgress.
  destruct (floor_share i total 30 Hlt) as [H0 H1]; [lia|].
  change (Qofnat i / Qofnat total * 30)%Q
    with (Qofnat i / Qofnat total * inject_Z 30)%Q.
  set (f := Qfloor _) in *. change 50%Q with (inject_Z 50).
  rewrite <- inject_Z_plus. split; cbn [percent].
  - change 5%Q with (inject_Z 5). rewrite <- Zle_Qle. lia.
  - change 99%Q with (inject_Z 99). rewrite <- Zle_Qle. lia.
Qed.

Lemma inBar_generatingProgress i total label :
  i < total -> inBar {| percent := generatingProgress i total; text := label |}.
Proof.
  intros Hlt. unfold generatingProgress.
  destruct (floor_share i total 20 Hlt) as [H0 H1]; [lia|].
  change (Qofnat i / Qofnat total * 20)%Q
    with (Qofnat i / Qofnat total * inject_Z 20)%Q.
  set (f := Qfloor _) in *. change 80%Q with (inject_Z 80).
  rewrite <- inject_Z_plus. split; cbn [percent].
  - change 5%Q with (inject_Z 5). rewrite <- Zle_Qle. lia.
  - change 99%Q with (inject_Z 99). rewrite <- Zle_Qle. lia.
Qed.

Section SendsOnly.
Variable P : Progress -> Prop.

Lemma sendsOnly_ret {A} (a : A) : sendsOnly P (eff_ret a).
Proof. intros w. exists []. by rewrite app_nil_r. Qed.

Lemma sendsOnly_throw {A} e : sendsOnly P (eff_throw (A := A) e).
Proof. intros w. exists []. by rewrite app_nil_r. Qed.

Lemma sendsOnly_get : sendsOnly P eff_get.
Proof. intros w. exists []. by rewrite app_nil_r. Qed.

Lemma sendsOnly_bind {A B} (c : Eff World A) (k : A -> Eff World B) :
  sendsOnly P c -> (forall a, sendsOnly P (k a)) -> sendsOnly P (eff_bind c k).
Proof.
  intros Hc Hk w. unfold eff_bind. destruct (Hc w) as (more & Hsink & Hall).
  destruct (c w) as [[a|e] w1]; [|by exists more].
  destruct (Hk a w1) as (more' & Hsink' & Hall').
  exists (more ++ more'). cbn [snd] in Hsink. rewrite Hsink', Hsink, app_assoc.
  split; [done|by apply Forall_app].
Qed.

Lemma sendsOnly_try {A} (body : Eff World A) (handler : string -> Eff World A) :
  sendsOnly P body -> (forall e, sendsOnly P (handler e)) ->
  sendsOnly P (eff_try body handler).
Proof.
  intros Hb Hh w. unfold eff_try. destruct (Hb w) as (more & Hsink & Hall).
  destruct (body w) as [[a|e] w1]; [by exists more|].
  destruct (Hh e w1) as (more' & Hsink' & Hall').
  exists (more ++ more'). cbn [snd] in Hsink. rewrite Hsink', Hsink, app_assoc.
  split; [done|by apply Forall_app].
Qed.

Lemma sendsOnly_sendProgress q label :
  P {| percent := q; text := label |} -> sendsOnly P (sendProgress q label).
Proof. intros Hp w. eexists. split; [reflexivity|]. by apply Forall_singleton. Qed.

Lemma sendsOnly_handOver document : sendsOnly P (handOver document).
Proof. intros w. exists []. by rewrite app_nil_r. Qed.

Lemma sendsOnly_onImages {A} (c : Eff ImageCache A) : sendsOnly P (onImages c).
Proof.
  intros w. exists []. unfold onImages. destruct (c (w_images w)).
  by rewrite app_nil_r.
Qed.

End SendsOnly.

Section BarFacts.
Context `{host : Host}.
Variable page : Page.

Lemma scrollToTop_inBar fuel attempts last sent :
  exists more,
    scrollToTop page fuel attempts last sent = sent ++ more /\ Forall inBar more.
Proof.
  revert attempts last sent.
  induction fuel as [|fuel IH]; intros attempts last sent; cbn [scrollToTop].
  { exists []. by rewrite app_nil_r. }
  destruct (attempts <? CONFIG.maxScrollAttempts);
    [|exists []; by rewrite app_nil_r].
  destruct (topReadings page attempts) as [t1 t2].
  destruct (_ && _); [exists []; by rewrite app_nil_r|].
  match goal with |- context [scrollToTop page fuel ?a ?l ?s] =>
    destruct (IH a l s) as (more & -> & Hall) end.
  eexists. rewrite <- app_assoc. split; [reflexivity|].
  constructor; [apply inBar_topProgress|done].
Qed.

Lemma collectLoop_inBar startFromId endAtId options fuel st :
  exists more,
    sink (collectLoop startFromId endAtId options page fuel st) = sink st ++ more /\
    Forall inBar more.
Proof.
  revert st. induction fuel as [|fuel IH]; intros st.
  { exists []. by rewrite app_nil_r. }
  rewrite collectLoop_unfold. destruct (goesOn st); [|exists []; by rewrite app_nil_r].
  unfold loopBody.
  destruct (foundEndMessage _); [exists []; by rewrite app_nil_r|].
  destruct (stallStep _ _ _ _ _) as [count stop].
  destruct stop; [exists []; by rewrite app_nil_r|].
  match goal with |- context [collectLoop _ _ _ _ fuel ?s] =>
    destruct (IH s) as (more & -> & Hall) end.
  cbn [sink]. eexists. rewrite <- app_assoc. split; [reflexivity|].
  constructor; [apply inBar_loadingProgress|done].
Qed.

Lemma sendsOnly_scrollAndCollectMessages startFromId endAtId options :
  sendsOnly inBar (scrollAndCollectMessages page startFromId endAtId options).
Proof.
  intros w. unfold scrollAndCollectMessages.
  destruct (hasScroller page); cbn [negb]; [|exists []; by rewrite app_nil_r].
  cbn [snd w_sink]. unfold runLoop.
  destruct (collectLoop_inBar startFromId endAtId options CONFIG.maxScrollAttempts
              (seekStart startFromId page userCache.reset (w_sink w)))
    as (more & -> & Hall).
  unfold seekStart. destruct (negb (truthy startFromId)).
  - cbn [sink].
    destruct (scrollToTop_inBar CONFIG.maxScrollAttempts 0 (scrollTop (entry page))
                (w_sink w ++ [scrollingToTop 5])) as (top & -> & Htop).
    exists ([scrollingToTop 5] ++ top ++ more). rewrite <- !app_assoc.
    split; [done|]. apply Forall_app. split; [|by apply Forall_app].
    apply Forall_singleton. by split.
  - destruct (getElementById (entry page) startFromId); cbn [sink]; by exists more.
Qed.

Lemma sendsOnly_fetchBatch batch : sendsOnly inBar (fetchBatch page batch).
Proof.
  induction batch as [|u rest IH]; cbn [fetchBatch]; [apply sendsOnly_ret|].
  apply sendsOnly_bind; [apply sendsOnly_onImages|done].
Qed.

Lemma sendsOnly_prefetch fuel i urlArray :
  sendsOnly inBar (prefetch page fuel i urlArray).
Proof.
  revert i. induction fuel as [|fuel IH]; intros i; cbn [prefetch];
    [apply sendsOnly_ret|].
  destruct (Nat.ltb_spec i (length urlArray)); [|apply sendsOnly_ret].
  apply sendsOnly_bind; [apply sendsOnly_fetchBatch|intros _].
  apply sendsOnly_bind; [|intros _; apply IH].
  apply sendsOnly_sendProgress. by apply inBar_prefetchProgress.
Qed.

Lemma sendsOnly_renderMessages options messages i total lastUsername :
  i + length messages = total ->
  sendsOnly inBar (renderMessages options messages i total lastUsername).
Proof.
  revert i lastUsername.
  induction messages as [|msg rest IH]; intros i lastUsername Htotal;
    cbn [renderMessages]; [apply sendsOnly_ret|].
  cbn [length] in Htotal.
  apply sendsOnly_bind; [apply sendsOnly_get|intros w].
  apply sendsOnly_bind.
  - destruct (_ && _); [|apply sendsOnly_ret].
    apply sendsOnly_sendProgress, inBar_generatingProgress. lia.
  - intros _. apply sendsOnly_bind; [apply IH; lia|intros more]. apply sendsOnly_ret.
Qed.

Lemma sendsOnly_generatePDFContent messages options :
  sendsOnly inBar (generatePDFContent page messages options).
Proof.
  unfold generatePDFContent.
  apply sendsOnly_bind; [apply sendsOnly_onImages|intros _].
  apply sendsOnly_bind; [apply sendsOnly_prefetch|intros _].
  apply sendsOnly_bind; [by apply sendsOnly_renderMessages|intros parts].
  apply sendsOnly_bind; [apply sendsOnly_onImages|intros _].
  apply sendsOnly_ret.
Qed.

Lemma sendsOnly_exportToPDF selStart selEnd options :
  sendsOnly inBar (exportToPDF page selStart selEnd options).
Proof.
  unfold exportToPDF. apply sendsOnly_try; [|intros e; apply sendsOnly_ret].
  apply sendsOnly_bind; [by apply sendsOnly_sendProgress, inBar_const|intros _].
  apply sendsOnly_bind; [apply sendsOnly_scrollAndCollectMessages|intros messages].
  apply sendsOnly_bind.
  { destruct (_ =? _); [apply sendsOnly_throw|apply sendsOnly_ret]. }
  intros _.
  apply sendsOnly_bind; [by apply sendsOnly_sendProgress, inBar_const|intros _].
  apply sendsOnly_bind; [apply sendsOnly_generatePDFContent|intros html].
  apply sendsOnly_bind; [by apply sendsOnly_sendProgress, inBar_const|intros _].
  apply sendsOnly_bind; [|intros _; apply sendsOnly_ret].
  destruct (opensWindow page); [apply sendsOnly_handOver|apply sendsOnly_throw].
Qed.

Lemma sendsOnly_exportToMarkdown selStart selEnd options :
  sendsOnly inBar (exportToMarkdown page selStart selEnd options).
Proof.
  unfold exportToMarkdown. apply sendsOnly_try; [|intros e; apply sendsOnly_ret].
  apply sendsOnly_bind; [by apply sendsOnly_sendProgress, inBar_const|intros _].
  apply sendsOnly_bind; [apply sendsOnly_scrollAndCollectMessages|intros messages].
  apply sendsOnly_bind.
  { destruct (_ =? _); [apply sendsOnly_throw|apply sendsOnly_ret]. }
  intros _.
  apply sendsOnly_bind; [by apply sendsOnly_sendProgress, inBar_const|intros _].
  cbv zeta.
  apply sendsOnly_bind; [by apply sendsOnly_sendProgress, inBar_const|intros _].
  apply sendsOnly_bind; [apply sendsOnly_handOver|intros _; apply sendsOnly_ret].
Qed.

End BarFacts.

(** X14: whatever the page does, the two exports only add to the
    progress messages sent before, and every percentage they send lies
    from 5 to 99. *)
Theorem export_progress_in_range :
  forall (host : Host) (page : Page) (selStart selEnd : JsStr)
         (options : PartialOptions) (w : World),
    (exists more,
        w_sink (snd (exportToPDF page selStart selEnd options w)) = w_sink w ++ more /\
        Forall (fun p => (5 <= percent p)%Q /\ (percent p <= 99)%Q) more) /\
    (exists more,
        w_sink (snd (exportToMarkdown page selStart selEnd options w))
        = w_sink w ++ more /\
        Forall (fun p => (5 <= percent p)%Q /\ (percent p <= 99)%Q) more).
Proof.
  intros host page selStart selEnd options w. split.
  - apply (sendsOnly_exportToPDF page selStart selEnd options w).
  - apply (sendsOnly_exportToMarkdown page selStart selEnd options w).
Qed.

(** *** What an export hands over *)

Section HandOver.
Context `{host : Host}.
Variable page : Page.

Lemma scrollAndCollectMessages_artifact startFromId endAtId options w :
  w_artifact (snd (scrollAndCollectMessages page startFromId endAtId options w))
  = w_artifact w /\
  w_images (snd (scrollAndCollectMessages page startFromId endAtId options w))
  = w_images w.
Proof. unfold scrollAndCollectMessages. by destruct (negb (hasScroller page)). Qed.

(** The result of the Markdown export and the document it hands over. *)
Lemma exportToMarkdown_outcome selStart selEnd options w :
  let started := snd (sendProgress 10 "Starting export..." w) in
  exists r w',
    exportToMarkdown page selStart selEnd options w = (Normal r, w') /\
    match fst (scrollAndCollectMessages page selStart selEnd (mergeOptions options)
                 started) with
    | Thrown e => r = ExportFailed e /\ w_artifact w' = w_artifact w
    | Normal msgs =>
        if length msgs =? 0
        then r = ExportFailed "No messages found to export" /\
             w_artifact w' = w_artifact w
        else r = ExportOk (length msgs) /\
             w_artifact w'
             = Some (generateMarkdownContent (mergeOptions options) (channelName page)
                       (exportDate page) msgs)
    end.
Proof.
  intros started. unfold exportToMarkdown, eff_try, eff_bind at 1 2.
  change (sendProgress 10 "Starting export..." w) with (Normal tt, started).
  cbn iota.
  destruct (scrollAndCollectMessages_artifact selStart selEnd (mergeOptions options)
              started) as [Hart _].
  change (w_artifact started) with (w_artifact w) in Hart.
  destruct (scrollAndCollectMessages page selStart selEnd (mergeOptions options) started)
    as [[msgs|e] w1]; cbn [fst snd] in Hart |- *; [|by eexists _, _].
  unfold eff_bind at 1.
  destruct (length msgs =? 0); by eexists _, _.
Qed.

(** The result of the PDF export and the document it hands over. *)
Lemma exportToPDF_outcome selStart selEnd options w :
  let started := snd (sendProgress 10 "Starting export..." w) in
  exists r w',
    exportToPDF page selStart selEnd options w = (Normal r, w') /\
    match scrollAndCollectMessages page selStart selEnd (mergeOptions options)
            started with
    | (Thrown e, _) => r = ExportFailed e /\ w_artifact w' = w_artifact w
    | (Normal msgs, w1) =>
        if length msgs =? 0
        then r = ExportFailed "No messages found to export" /\
             w_artifact w' = w_artifact w
        else
          exists html,
            fst (generatePDFContent page msgs (mergeOptions options)
                   (snd (sendProgress 60
                           ("Processing " +:+ pretty (length msgs) +:+ " messages...")
                           w1)))
            = Normal html /\
            w_images w' = JsMap.empty /\
            if opensWindow page
            then r = ExportOk (length msgs) /\ w_artifact w' = Some html
            else r = ExportFailed "Cannot read properties of null (reading 'document')" /\
                 w_artifact w' = w_artifact w
    end.
Proof.
  intros started. unfold exportToPDF, eff_try, eff_bind at 1 2.
  change (sendProgress 10 "Starting export..." w) with (Normal tt, started).
  cbn iota.
  destruct (scrollAndCollectMessages_artifact selStart selEnd (mergeOptions options)
              started) as [Hart _].
  change (w_artifact started) with (w_artifact w) in Hart.
  destruct (scrollAndCollectMessages page selStart selEnd (mergeOptions options) started)
    as [[msgs|e] w1]; cbn [fst snd] in Hart |- *; [|by eexists _, _].
  unfold eff_bind at 1.
  destruct (length msgs =? 0); [by eexists _, _|]. unfold eff_ret at 1. cbn iota.
  unfold eff_bind at 1. unfold sendProgress at 1, eff_modify at 1. cbn iota.
  unfold eff_bind at 1.
  match goal with |- context [generatePDFContent page msgs ?o ?w0] =>
    change (snd (sendProgress 60
                   ("Processing " +:+ pretty (length msgs) +:+ " messages...") w1))
      with w0;
    destruct (generatePDFContent_result host page msgs o w0)
      as (w2 & Hgen & Himg & _ & Ha & _) end.
  rewrite Hgen. cbn [w_artifact fst] in Ha |- *.
  unfold eff_bind at 1. unfold sendProgress at 1, eff_modify at 1. cbn iota.
  unfold eff_bind at 1.
  destruct (opensWindow page); cbn.
  - eexists _, _. split; [reflexivity|]. eexists. split; [reflexivity|]. by cbn.
  - eexists _, _. split; [reflexivity|]. eexists. split; [reflexivity|]. cbn.
    split; [done|]. split; [done|congruence].
Qed.

End HandOver.

(** X15: an export that fails hands over no document: what was handed
    over before is left as it was. A Markdown export that succeeds hands
    over the Markdown text of the collected messages. A PDF export that
    succeeds hands over the page generated for the collected messages,
    and leaves the image cache empty. *)
Theorem export_hands_over_document :
  forall (host : Host) (page : Page) (selStart selEnd : JsStr)
         (options : PartialOptions) (w : World),
    let collected :=
      fst (scrollAndCollectMessages page selStart selEnd (mergeOptions options)
             (snd (sendProgress 10 "Starting export..." w))) in
    let md := exportToMarkdown page selStart selEnd options w in
    let pdf := exportToPDF page selStart selEnd options w in
    (forall error,
        fst md = Normal (ExportFailed error) -> w_artifact (snd md) = w_artifact w) /\
    (forall n,
        fst md = Normal (ExportOk n) ->
        exists msgs,
          collected = Normal msgs /\ n = length msgs /\ msgs <> [] /\
          w_artifact (snd md)
          = Some (generateMarkdownContent (mergeOptions options) (channelName page)
                    (exportDate page) msgs)) /\
    (forall error,
        fst pdf = Normal (ExportFailed error) -> w_artifact (snd pdf) = w_artifact w) /\
    (forall n,
        fst pdf = Normal (ExportOk n) ->
        exists msgs html,
          collected = Normal msgs /\ n = length msgs /\ msgs <> [] /\
          fst (generatePDFContent page msgs (mergeOptions options)
                 (snd (sendProgress 60
                         ("Processing " +:+ pretty (length msgs) +:+ " messages...")
                         (snd (scrollAndCollectMessages page selStart selEnd
                                 (mergeOptions options)
                                 (snd (sendProgress 10 "Starting export..." w)))))))
          = Normal html /\
          w_artifact (snd pdf) = Some html /\
          w_images (snd pdf) = JsMap.empty).
Proof.
  intros host page selStart selEnd options w collected md pdf.
  destruct (exportToMarkdown_outcome page selStart selEnd options w)
    as (rm & wm & Hm & Hmd).
  destruct (exportToPDF_outcome page selStart selEnd options w)
    as (rp & wp & Hp & Hpdf).
  cbv zeta in Hmd, Hpdf. fold collected in Hmd.
  subst md pdf. rewrite Hm, Hp. cbn [fst snd].
  split; [|split; [|split]].
  - intros error [= ->]. destruct collected as [msgs|e]; [|by destruct Hmd].
    destruct (length msgs =? 0); [by destruct Hmd|]. by destruct Hmd.
  - intros n [= ->]. destruct collected as [msgs|e]; [|by destruct Hmd].
    destruct (length msgs =? 0) eqn:Hlen; [by destruct Hmd|].
    destruct Hmd as [[= ->] Hart]. exists msgs. split; [done|]. split; [done|].
    split; [by intros ->|done].
  - intros error [= ->]. subst collected.
    destruct (scrollAndCollectMessages page selStart selEnd (mergeOptions options)
                (snd (sendProgress 10 "Starting export..." w)))
      as [[msgs|e] w1]; [|by destruct Hpdf].
    destruct (length msgs =? 0); [by destruct Hpdf|].
    destruct Hpdf as (html & _ & _ & Hres).
    destruct (opensWindow page); by destruct Hres.
  - intros n [= ->]. subst collected.
    destruct (scrollAndCollectMessages page selStart selEnd (mergeOptions options)
                (snd (sendProgress 10 "Starting export..." w)))
      as [[msgs|e] w1]; [|by destruct Hpdf].
    cbn [fst snd].
    destruct (length msgs =? 0) eqn:Hlen; [by destruct Hpdf|].
    destruct Hpdf as (html & Hgen & Himg & Hres).
    destruct (opensWindow page); [|by destruct Hres].
    destruct Hres as [[= ->] Hart]. exists msgs, html. split; [done|]. split; [done|].
    split; [by intros ->|]. by rewrite Hart.
Qed.

Lemma export_hands_over_document_witness :
  exists msgs,
    fst (scrollAndCollectMessages (host := plainHost) (stillPage sampleChannel) None None
           (mergeOptions noOptions)
           (snd (sendProgress 10 "Starting export..." freshWorld))) = Normal msgs /\
    w_artifact
      (snd (exportToMarkdown (host := plainHost) (stillPage sampleChannel) None None
              noOptions freshWorld))
    = Some (generateMarkdownContent (host := plainHost) (mergeOptions noOptions)
              "general" "2024-01-01" msgs) /\
    w_artifact
      (snd (exportToMarkdown (host := plainHost) (stillPage [blankMessage]) None None
              noOptions freshWorld))
    = None.
Proof.
  destruct (export_hands_over_document plainHost (stillPage sampleChannel) None None
              noOptions freshWorld) as (_ & Hok & _).
  destruct (Hok 5) as (msgs & Hcol & _ & _ & Hart); [vm_compute; reflexivity|].
  exists msgs. split; [exact Hcol|]. split; [exact Hart|].
  destruct (export_hands_over_document plainHost (stillPage [blankMessage]) None None
              noOptions freshWorld) as (Hfail & _).
  apply (Hfail "No messages found to export"). vm_compute. reflexivity.
Defined.

(** *** Boundaries given the wrong way round *)

Section ReversedBoundaries.
Context `{host : Host}.
Variable options : ExportOptions.

(** With both boundary elements mounted, what is listed before both of
    them is passed over. *)
Lemma scanMessages_passed_over startId endId s e listed st :
  startId <> EmptyString ->
  (forall x, x ∈ listed ->
             fst x < s /\ fst x < e /\ idOf (snd x) <> startId /\ idOf (snd x) <> endId) ->
  scanMessages (Some startId) (Some endId) options (Some s) (Some e) listed st = st.
Proof.
  intros Hne Hall. apply truthy_Some in Hne.
  induction listed as [|[pos el] rest IH]; [done|].
  assert (Hrest : scanMessages (Some startId) (Some endId) options (Some s) (Some e)
                    rest st = st).
  { apply IH. intros x Hx. apply Hall. by right. }
  destruct (Hall (pos, el)) as (Hs & He & Hns & Hne'); [by left|]. cbn [fst snd] in *.
  cbn [scanMessages from_option].
  destruct (getMessageId (Some (me_view el))) as [msgId|] eqn:Hid; [|done].
  destruct (getMessageId_Some _ _ Hid) as [<- _].
  rewrite (bool_decide_eq_false_2 (Some (idOf el) = Some endId)) by congruence.
  rewrite andb_false_r. unfold follows.
  rewrite (proj2 (Nat.ltb_ge e pos)) by lia. rewrite Hne.
  rewrite (bool_decide_eq_false_2 (Some (idOf el) = Some startId)) by congruence.
  rewrite (proj2 (Nat.ltb_ge s pos)) by lia. done.
Qed.

End ReversedBoundaries.



(** *** The selected boundaries *)

Section SelectionFacts.
Context `{host : Host}.

Lemma findMessageElement_found path el :
  findMessageElement path = Some el ->
  boundaryOk (Some el) (getMessageId (Some el)).
Proof.
  intros Hfind. apply find_some in Hfind as [_ Hpre]. split; [|done].
  unfold getMessageId. rewrite Hpre.
  destruct (el_id el) eqn:E; [discriminate Hpre|done].
Qed.

Lemma startFromLast_ok ui : selectionOk ui -> selectionOk (startFromLast ui).
Proof.
  intros Hok. pose proof Hok as (Hs & He & Hl & Hm & Hn). unfold startFromLast.
  destruct (lastRightClickedMessage ui) as [msg|] eqn:Hlast; [|done].
  destruct Hl as [Hid Hpre].
  split; [|split; [|split; [|split]]]; cbn; try done; by rewrite Hlast.
Qed.

Lemma endFromLast_ok ui : selectionOk ui -> selectionOk (endFromLast ui).
Proof.
  intros Hok. pose proof Hok as (Hs & He & Hl & Hm & Hn). unfold endFromLast.
  destruct (lastRightClickedMessage ui) as [msg|] eqn:Hlast; [|done].
  destruct Hl as [Hid Hpre].
  split; [|split; [|split; [|split]]]; cbn; try done; by rewrite Hlast.
Qed.

Lemma uiStep_ok ui ev : selectionOk ui -> selectionOk (uiStep ui ev).
Proof.
  intros Hok. pose proof Hok as (Hs & He & Hl & Hm & Hn).
  destruct ev as [path|path| | | | | | |action]; cbn [uiStep].
  - unfold handleSelectionClick. destruct (isSelectionMode ui) eqn:Hmode; [|done].
    cbn [negb]. destruct (findMessageElement path) as [el|] eqn:Hfind; [|done].
    apply findMessageElement_found in Hfind. cbv zeta.
    case_bool_decide; [|case_bool_decide];
      (split; [|split; [|split; [|split]]]); cbn; done.
  - unfold onContextMenu. destruct (findMessageElement path) as [el|] eqn:Hfind.
    + apply findMessageElement_found in Hfind.
      split; [|split; [|split; [|split]]]; cbn; done.
    + split; [|split; [|split; [|split]]]; cbn; done.
  - destruct (isSelectionMode ui) eqn:Hmode; [|done].
    split; [|split; [|split; [|split]]]; cbn; done.
  - split; [|split; [|split; [|split]]]; cbn; try done. by left.
  - split; [|split; [|split; [|split]]]; cbn; try done. by right.
  - split; [|split; [|split; [|split]]]; cbn; done.
  - by apply startFromLast_ok.
  - by apply endFromLast_ok.
  - unfold onAction.
    destruct (String.eqb action "startSelection").
    { split; [|split; [|split; [|split]]]; cbn; try done. by left. }
    destruct (String.eqb action "setStartFromContextMenu"); [by apply startFromLast_ok|].
    destruct (String.eqb action "setEndFromContextMenu"); [by apply endFromLast_ok|].
    destruct (String.eqb action "exportFromContextMenu"); [by apply startFromLast_ok|].
    done.
Qed.

Lemma uiSteps_ok events ui :
  selectionOk ui -> selectionOk (foldl uiStep ui events).
Proof.
  revert ui. induction events as [|ev events IH]; intros ui Hok; [done|].
  cbn [foldl]. by apply IH, uiStep_ok.
Qed.

Lemma boundaryOk_id element id :
  boundaryOk element id ->
  match id with
  | Some i => startsWith i "chat-messages-" = true /\ i <> EmptyString /\
              exists el, element = Some el /\ el_id el = i
  | None => element = None
  end.
Proof.
  unfold boundaryOk. destruct element as [el|]; [|by intros ->].
  intros [-> Hpre]. split; [done|]. split; [|by exists el].
  intros Hempty. by rewrite Hempty in Hpre.
Qed.

End SelectionFacts.

(** X17: whatever clicks, right clicks, keys, panel buttons, menu items
    and extension messages come in whatever order, each of the two
    boundaries the exports read is either unset, with no element kept for
    it, or the id of the element kept for it, which begins with
    [chat-messages-]; in selection mode the kind of boundary being
    selected is the start or the end; and the answer to
    [getSelectedMessage] carries a preview exactly when it carries an
    id. *)
Theorem selection_stays_well_formed :
  forall (host : Host) (events : list UiEvent),
    let ui := foldl uiStep initialSelection events in
    (match selectedMessageId ui with
     | Some id => startsWith id "chat-messages-" = true /\ id <> EmptyString /\
                  exists el, selectedMessageElement ui = Some el /\ el_id el = id
     | None => selectedMessageElement ui = None
     end) /\
    (match selectedEndMessageId ui with
     | Some id => startsWith id "chat-messages-" = true /\ id <> EmptyString /\
                  exists el, selectedEndMessageElement ui = Some el /\ el_id el = id
     | None => selectedEndMessageElement ui = None
     end) /\
    (isSelectionMode ui = true ->
     selectionType ui = Some "start" \/ selectionType ui = Some "end") /\
    (exists id preview,
        answerAction "getSelectedMessage" ui = AnsSelected id preview /\
        id = selectedMessageId ui /\ (id = None <-> preview = None)).
Proof.
  intros host events ui.
  assert (Hok : selectionOk ui).
  { apply uiSteps_ok. split; [|split; [|split; [|split]]]; cbn; done. }
  destruct Hok as (Hs & He & _ & Hm & _).
  split; [by apply boundaryOk_id|]. split; [by apply boundaryOk_id|].
  split; [done|]. eexists _, _. split; [reflexivity|]. split; [done|].
  unfold boundaryOk in Hs. destruct (selectedMessageElement ui) as [el|].
  - destruct Hs as [-> _]. by split.
  - by rewrite Hs.
Qed.

(** *** The pieces of a Markdown document *)

Lemma countKind_same k {A} (f : A -> MdBlock) (l : list A) :
  (forall a, kind (f a) = k) -> countKind k (map f l) = length l.
Proof.
  intros Hk. unfold countKind. induction l as [|a l IH]; [done|]. simpl.
  rewrite bool_decide_eq_true_2 by apply Hk. simpl. by rewrite IH.
Qed.

Section MarkdownFacts.
Context `{host : Host}.
Variable options : ExportOptions.

Lemma mdMessage_images msg last :
  countKind MdImage (mdMessage options msg last)
  = if includeImages options then length (images msg) else 0.
Proof.
  unfold mdMessage.
  rewrite !countKind_app, !countKind_if, !countKind_single. cbn [kind].
  rewrite (countKind_same MdImage mdImage) by done.
  rewrite (countKind_other MdImage mdEmbed) by done.
  rewrite !bool_decide_eq_false_2 by done.
  destruct (includeImages options); cbn [andb]; [|repeat case_match; lia].
  destruct (images msg); cbn; repeat case_match; lia.
Qed.

Lemma mdMessage_embeds msg last :
  countKind MdEmbed (mdMessage options msg last) = length (embeds msg).
Proof.
  unfold mdMessage.
  rewrite !countKind_app, !countKind_if, !countKind_single. cbn [kind].
  rewrite (countKind_same MdEmbed mdEmbed) by done.
  rewrite (countKind_other MdEmbed mdImage) by done.
  rewrite !bool_decide_eq_false_2 by done.
  destruct (embeds msg); cbn; repeat case_match; lia.
Qed.

Lemma mdMessage_reactions msg last :
  countKind MdReactions (mdMessage options msg last)
  = if includeReactions options && (0 <? length (reactions msg)) then 1 else 0.
Proof.
  unfold mdMessage.
  rewrite !countKind_app, !countKind_if, !countKind_single. cbn [kind].
  rewrite (countKind_other MdReactions mdEmbed) by done.
  rewrite (countKind_other MdReactions mdImage) by done.
  rewrite (bool_decide_eq_true_2 (MdReactions = MdReactions)) by done.
  rewrite !bool_decide_eq_false_2 by done.
  repeat case_match; lia.
Qed.

Lemma mdMessage_avatars msg last :
  countKind MdAvatar (mdMessage options msg last)
  = if negb (isSameUser msg last) && includeAvatars options && nonEmpty (avatar msg)
    then 1 else 0.
Proof.
  unfold mdMessage.
  rewrite !countKind_app, !countKind_if, !countKind_single. cbn [kind].
  rewrite (countKind_other MdAvatar mdEmbed) by done.
  rewrite (countKind_other MdAvatar mdImage) by done.
  rewrite (bool_decide_eq_true_2 (MdAvatar = MdAvatar)) by done.
  rewrite !bool_decide_eq_false_2 by done.
  repeat case_match; lia.
Qed.

Lemma mdMessage_contents msg last :
  countKind MdContent (mdMessage options msg last)
  = if nonEmpty (contentText msg) then 1 else 0.
Proof.
  unfold mdMessage.
  rewrite !countKind_app, !countKind_if, !countKind_single. cbn [kind].
  rewrite (countKind_other MdContent mdEmbed) by done.
  rewrite (countKind_other MdContent mdImage) by done.
  rewrite (bool_decide_eq_true_2 (MdContent = MdContent)) by done.
  rewrite !bool_decide_eq_false_2 by done.
  repeat case_match; lia.
Qed.

(** The count of a kind of piece over the messages of a document. *)
Lemma mdMessages_count k (per : Message -> nat) messages last :
  (forall msg last, countKind k (mdMessage options msg last) = per msg) ->
  countKind k (concat (mdMessages options messages last)) = sum_list (map per messages).
Proof.
  intros Hper. revert last. induction messages as [|m rest IH]; intros last; [done|].
  cbn [mdMessages concat map sum_list]. by rewrite countKind_app, Hper, IH.
Qed.

End MarkdownFacts.

(** X18: in the Markdown document there is one image piece for every
    image of every message when images are switched on and none
    otherwise; one embed piece for every embed whatever the options; one
    reactions piece for every message with reactions when reactions are
    switched on and none otherwise; one content piece for every message
    whose plain text is not empty; and no avatar piece when avatars are
    switched off. *)
Theorem markdown_pieces_follow_options :
  forall (host : Host) (options : ExportOptions) (messages : list Message)
         (last : string),
    let blocks := concat (mdMessages options messages last) in
    countKind MdImage blocks
    = (if includeImages options
       then sum_list (map (fun msg => length (images msg)) messages) else 0) /\
    countKind MdEmbed blocks = sum_list (map (fun msg => length (embeds msg)) messages) /\
    countKind MdReactions blocks
    = (if includeReactions options
       then length (List.filter (fun msg => 0 <? length (reactions msg)) messages)
       else 0) /\
    countKind MdContent blocks
    = length (List.filter (fun msg => nonEmpty (contentText msg)) messages) /\
    (includeAvatars options = false -> countKind MdAvatar blocks = 0).
Proof.
  intros host options messages last blocks. subst blocks.
  assert (Hzero : forall (l : list Message), sum_list (map (fun _ => 0) l) = 0)
    by (induction l; simpl; lia).
  assert (Hfilter : forall (p : Message -> bool) (l : list Message),
             sum_list (map (fun msg => if p msg then 1 else 0) l)
             = length (List.filter p l)).
  { intros p l. induction l as [|m l IH]; [done|]. simpl.
    destruct (p m); simpl; lia. }
  split; [|split; [|split; [|split]]].
  - rewrite (mdMessages_count options MdImage
               (fun msg => if includeImages options then length (images msg) else 0))
      by apply mdMessage_images.
    destruct (includeImages options); [done|apply Hzero].
  - by rewrite (mdMessages_count options MdEmbed (fun msg => length (embeds msg)))
      by apply mdMessage_embeds.
  - rewrite (mdMessages_count options MdReactions
               (fun msg => if includeReactions options && (0 <? length (reactions msg))
                           then 1 else 0))
      by apply mdMessage_reactions.
    destruct (includeReactions options); cbn [andb]; [apply Hfilter|apply Hzero].
  - rewrite (mdMessages_count options MdContent
               (fun msg => if nonEmpty (contentText msg) then 1 else 0))
      by apply mdMessage_contents.
    apply Hfilter.
  - intros Hoff. revert last. induction messages as [|m rest IH]; intros last; [done|].
    cbn [mdMessages concat]. rewrite countKind_app, IH, mdMessage_avatars, Hoff.
    by rewrite andb_false_r.
Qed.

Lemma markdown_pieces_follow_options_witness :
  countKind MdAvatar
    (concat (mdMessages (host := plainHost) bareOptions
               [plainMessage "chat-messages-1" "alice" "hello"] EmptyString)) = 0.
Proof.
  destruct (markdown_pieces_follow_options plainHost bareOptions
              [plainMessage "chat-messages-1" "alice" "hello"] EmptyString)
    as (_ & _ & _ & _ & Havatar).
  by apply Havatar.
Defined.

(** *** The avatar image of a message *)

(** X19: the image [extractAvatar] takes as the avatar of a message is
    never an avatar decoration; it is one of the avatar images outside a
    reply, or the image of an avatar wrapper that is no decoration wrapper
    and lies outside a reply, or some image outside a reply whose address
    or class names an avatar. *)
Theorem findAvatarElement_never_decoration :
  forall (host : Host) (messageEl : ElView) (img : ImgEl),
    findAvatarElement messageEl = Some img ->
    isAvatarDecoration img = false /\
    ((img ∈ el_avatarEls messageEl /\ outsideReply img = true) \/
     (exists wrapper,
         wrapper ∈ el_avatarWrappers messageEl /\ aw_img wrapper = Some img /\
         includes (aw_className wrapper) "decoration" = false /\
         includes (aw_className wrapper) "Decoration" = false /\
         aw_inRepliedMessage wrapper = false /\ aw_inReplyBar wrapper = false) \/
     (img ∈ el_allImgs messageEl /\ outsideReply img = true /\
      (includes (img_src img) "cdn.discordapp.com/avatars" ||
       includes (img_src img) "discord.com/avatars" ||
       includes (img_src img) "/avatars/" ||
       includes (img_className img) "avatar") = true)).
Proof.
  intros host messageEl img. unfold findAvatarElement.
  destruct (List.find _ (el_avatarEls messageEl)) as [el|] eqn:Efirst.
  { intros [= <-]. apply find_some in Efirst as [Hin Hp].
    apply andb_true_iff in Hp as [Hout Hdec]. apply negb_true in Hdec.
    split; [done|]. left. split; [by apply list_elem_of_In|done]. }
  destruct (firstSome (wrapperAvatar false) (el_avatarWrappers messageEl))
    as [el|] eqn:Esecond.
  { intros [= <-]. clear Efirst.
    induction (el_avatarWrappers messageEl) as [|wrapper rest IH]; [done|].
    cbn [firstSome] in Esecond.
    destruct (wrapperAvatar false wrapper) as [found|] eqn:Ew.
    - injection Esecond as ->. unfold wrapperAvatar in Ew.
      destruct (nonEmpty (aw_className wrapper) && _) eqn:Eclass; [done|].
      destruct (negb (aw_inRepliedMessage wrapper) && negb (aw_inReplyBar wrapper))
        eqn:Eout; [|done].
      destruct (aw_img wrapper) as [inner|] eqn:Eimg; [|done].
      cbn [negb orb] in Ew.
      destruct (isAvatarDecoration inner) eqn:Edec; [done|]. injection Ew as ->.
      split; [done|]. right. left. exists wrapper.
      apply andb_true_iff in Eout as [H1 H2]. apply negb_true in H1, H2.
      split; [by left|]. split; [done|].
      assert (Hclass : includes (aw_className wrapper) "decoration" ||
                       includes (aw_className wrapper) "Decoration" = false).
      { destruct (nonEmpty (aw_className wrapper)) eqn:Ene; [done|].
        apply nonEmpty_false in Ene. by rewrite Ene. }
      apply orb_false_iff in Hclass as [? ?]. done.
    - destruct (IH Esecond) as [Hdec [[? ?]|[(w & Hw & ?)|?]]].
      + split; [done|]. by left.
      + split; [done|]. right. left. exists w. split; [by right|done].
      + split; [done|]. by right; right. }
  intros Hthird. apply find_some in Hthird as [Hin Hp].
  apply andb_true_iff in Hp as [Hp Havatar].
  apply andb_true_iff in Hp as [Hout Hdec]. apply negb_true in Hdec.
  split; [done|]. right. right. split; [by apply list_elem_of_In|done].
Qed.

Lemma findAvatarElement_never_decoration_witness :
  isAvatarDecoration (sampleImg "https://cdn.discordapp.com/avatars/1/a.png") = false.
Proof.
  destruct (findAvatarElement_never_decoration plainHost (me_view richMessage)
              (sampleImg "https://cdn.discordapp.com/avatars/1/a.png") eq_refl)
    as [Hdec _].
  exact Hdec.
Defined.

(** ** The drop rules, read off the elements *)

Lemma omap_nil_iff {A B} (f : A -> option B) (l : list A) :
  omap f l = [] <-> Forall (fun a => f a = None) l.
Proof.
  induction l as [|a l IH]; [by split; [constructor|]|].
  cbn [omap list_omap]. destruct (f a) eqn:Ea.
  - split; [done|]. intros Hall. apply Forall_cons in Hall as [Hnone _]. congruence.
  - rewrite Forall_cons. unfold omap in IH. rewrite IH. tauto.
Qed.

Section DropFacts.
Context `{host : Host}.

Lemma embedFields_nil embedEl :
  embedFields embedEl = [] <->
  Forall (fun fieldEl => ef_name fieldEl = None /\ ef_value fieldEl = None)
    (em_fieldEls embedEl).
Proof.
  unfold embedFields. rewrite omap_nil_iff. apply Forall_iff. intros fieldEl.
  destruct (ef_name fieldEl), (ef_value fieldEl); split; try done; by intros [? ?].
Qed.

Lemma embedImage_falsy options embedEl :
  truthy (embedImage options embedEl) = false <->
  includeImages options = false \/
  forall imgEl, em_imgEl embedEl = Some imgEl ->
                truthy (getFullResolutionImageUrl (Some imgEl)) = false.
Proof.
  unfold embedImage. destruct (includeImages options).
  - destruct (em_imgEl embedEl) as [imgEl|].
    + split.
      * intros Hfalsy. right. by intros ? [= <-].
      * intros [?|Hall]; [done|by apply Hall].
    + split; [|done]. intros _. by right.
  - split; [by left|done].
Qed.

(** The discard test of [extractEmbedData], in terms of the block. *)
Lemma extractEmbedData_None_iff embedEl options :
  extractEmbedData (Some embedEl) options = None <->
  (forall t, em_titleEl embedEl = Some t -> trim t = EmptyString) /\
  (forall h, em_descEl embedEl = Some h -> processContentForEmoji h = EmptyString) /\
  Forall (fun fieldEl => ef_name fieldEl = None /\ ef_value fieldEl = None)
    (em_fieldEls embedEl) /\
  (includeImages options = false \/
   forall imgEl, em_imgEl embedEl = Some imgEl ->
                 truthy (getFullResolutionImageUrl (Some imgEl)) = false).
Proof.
  rewrite extractEmbedData_None, embedFields_nil, embedImage_falsy.
  unfold embedTitle, embedDescription.
  assert (Ht : from_option trim EmptyString (em_titleEl embedEl) = EmptyString <->
               forall t, em_titleEl embedEl = Some t -> trim t = EmptyString).
  { destruct (em_titleEl embedEl) as [t|]; cbn [from_option].
    - split; [by intros ? ? [= <-]|intros Hall; by apply Hall].
    - by split. }
  assert (Hd : from_option processContentForEmoji EmptyString (em_descEl embedEl)
               = EmptyString <->
               forall h, em_descEl embedEl = Some h ->
                         processContentForEmoji h = EmptyString).
  { destruct (em_descEl embedEl) as [h|]; cbn [from_option].
    - split; [by intros ? ? [= <-]|intros Hall; by apply Hall].
    - by split. }
  rewrite Ht, Hd. tauto.
Qed.

Lemma extractImages_nil messageEl :
  extractImages messageEl = [] <->
  Forall (fun img => truthy (getFullResolutionImageUrl (Some img)) = false \/
                     isAvatarImage img = true \/ isEmojiImage img = true)
    (el_imageEls messageEl).
Proof.
  unfold extractImages. rewrite omap_nil_iff. apply Forall_iff. intros img.
  destruct (truthy (getFullResolutionImageUrl (Some img))), (isAvatarImage img),
    (isEmojiImage img); cbn [andb negb]; split; try done; try tauto;
    intros [?|[?|?]]; done.
Qed.

Lemma messageContent_empty view :
  fst (messageContent view) = EmptyString <->
  forall el,
    List.find (fun el => negb (ct_inRepliedMessage el) &&
                         negb (ct_inRepliedTextContent el) &&
                         negb (ct_inReplyBar el))
      (el_contentEls view) = Some el ->
    processContentForEmoji (ct_innerHTML el) = EmptyString.
Proof.
  unfold messageContent, extractContent.
  destruct (List.find _ (el_contentEls view)) as [el|]; cbn [default fst].
  - split; [by intros ? ? [= <-]|intros Hall; by apply Hall].
  - by split.
Qed.

Lemma resolveAuthor_empty messageEl uc :
  fst (fst (resolveAuthor messageEl uc)) = EmptyString <->
  findUsernameElement (me_view messageEl) = None /\ lastUsername uc = EmptyString /\
  usernameFromPrevious (me_previous messageEl) 10 = None.
Proof.
  rewrite resolveAuthor_username.
  destruct (findUsernameElement (me_view messageEl)) as [el|] eqn:Efind.
  - apply findUsernameElement_shown in Efind. split; [done|]. by intros [? _].
  - destruct (nonEmpty (lastUsername uc)) eqn:Elast.
    + apply nonEmpty_true in Elast. split; [done|]. by intros (_ & ? & _).
    + apply nonEmpty_false in Elast.
      destruct (usernameFromPrevious (me_previous messageEl) 10) as [[u c]|] eqn:Eprev.
      * apply usernameFromPrevious_shown in Eprev. cbn [from_option fst].
        split; [done|]. by intros (_ & _ & ?).
      * done.
Qed.

(** The drop test of [extractMessageData], in terms of the element. *)
Lemma extractMessageData_None_iff messageEl options uc :
  fst (extractMessageData (Some messageEl) options uc) = None <->
  (forall el,
      List.find (fun el => negb (ct_inRepliedMessage el) &&
                           negb (ct_inRepliedTextContent el) &&
                           negb (ct_inReplyBar el))
        (el_contentEls (me_view messageEl)) = Some el ->
      processContentForEmoji (ct_innerHTML el) = EmptyString) /\
  (includeImages options = false \/
   Forall (fun img => truthy (getFullResolutionImageUrl (Some img)) = false \/
                      isAvatarImage img = true \/ isEmojiImage img = true)
     (el_imageEls (me_view messageEl))) /\
  Forall (fun embedEl => extractEmbedData (Some embedEl) options = None)
    (el_embedEls (me_view messageEl)) /\
  (findUsernameElement (me_view messageEl) = None /\ lastUsername uc = EmptyString /\
   usernameFromPrevious (me_previous messageEl) 10 = None).
Proof.
  rewrite extractMessageData_None, messageContent_empty, resolveAuthor_empty.
  unfold extractEmbeds. rewrite omap_nil_iff.
  assert (Himages : messageImages options (me_view messageEl) = [] <->
                    includeImages options = false \/
                    Forall (fun img =>
                              truthy (getFullResolutionImageUrl (Some img)) = false \/
                              isAvatarImage img = true \/ isEmojiImage img = true)
                      (el_imageEls (me_view messageEl))).
  { unfold messageImages. destruct (includeImages options).
    - rewrite extractImages_nil. split; [by right|by intros [?|?]].
    - split; [by left|done]. }
  rewrite Himages. tauto.
Qed.

End DropFacts.

(** C7, amended: an embed block yields no embed exactly when it shows no
    title text (no title element, or one whose trimmed text is empty), no
    description (no description element, or one whose cleaned markup is
    empty), no field with a name or a value element, and no image that
    counts: images are switched off, or the block has no image element,
    or that element has no address. The author, the footer, the
    thumbnail and the accent colour play no part: two blocks that agree
    on the title, description, field and image elements are kept or
    discarded together. So a block with only a footer yields no embed,
    and with images switched off neither does a block with only an
    image. *)
Theorem extractEmbedData_discard_rule :
  forall (host : Host) (embedEl : EmbedEl) (options : ExportOptions),
    (extractEmbedData (Some embedEl) options = None <->
     (forall t, em_titleEl embedEl = Some t -> trim t = EmptyString) /\
     (forall h, em_descEl embedEl = Some h -> processContentForEmoji h = EmptyString) /\
     Forall (fun fieldEl => ef_name fieldEl = None /\ ef_value fieldEl = None)
       (em_fieldEls embedEl) /\
     (includeImages options = false \/
      forall imgEl, em_imgEl embedEl = Some imgEl ->
                    truthy (getFullResolutionImageUrl (Some imgEl)) = false)) /\
    (forall other : EmbedEl,
        em_titleEl other = em_titleEl embedEl -> em_descEl other = em_descEl embedEl ->
        em_fieldEls other = em_fieldEls embedEl -> em_imgEl other = em_imgEl embedEl ->
        (extractEmbedData (Some other) options = None <->
         extractEmbedData (Some embedEl) options = None)) /\
    (em_titleEl embedEl = None -> em_descEl embedEl = None ->
     em_fieldEls embedEl = [] -> em_imgEl embedEl = None ->
     extractEmbedData (Some embedEl) options = None) /\
    (em_titleEl embedEl = None -> em_descEl embedEl = None ->
     em_fieldEls embedEl = [] -> includeImages options = false ->
     extractEmbedData (Some embedEl) options = None) /\
    (forall embed,
        extractEmbedData (Some embedEl) options = Some embed ->
        title embed <> EmptyString \/ description embed <> EmptyString \/
        fields embed <> [] \/ truthy (image embed) = true).
Proof.
  intros host embedEl options. split; [apply extractEmbedData_None_iff|].
  split; [|split; [|split]].
  - intros other Ht Hd Hf Hi. rewrite !extractEmbedData_None_iff.
    by rewrite Ht, Hd, Hf, Hi.
  - intros Ht Hd Hf Hi. apply extractEmbedData_None_iff.
    rewrite Ht, Hd, Hf, Hi.
    split; [done|]. split; [done|]. split; [constructor|by right].
  - intros Ht Hd Hf Hoff. apply extractEmbedData_None_iff.
    rewrite Ht, Hd, Hf.
    split; [done|]. split; [done|]. split; [constructor|by left].
  - intros embed Hsome. unfold extractEmbedData in Hsome.
    cbn [title description fields image] in Hsome.
    destruct (negb (nonEmpty (embedTitle embedEl)) && _ && _ && _) eqn:E; [done|].
    injection Hsome as <-. cbn [title description fields image].
    destruct (nonEmpty (embedTitle embedEl)) eqn:Et; [left; by apply nonEmpty_true|].
    destruct (nonEmpty (embedDescription embedEl)) eqn:Ed;
      [right; left; by apply nonEmpty_true|].
    destruct (embedFields embedEl) as [|f fs] eqn:Ef; [|by right; right; left].
    right; right; right. cbn in E. by destruct (truthy (embedImage options embedEl)).
Qed.

Lemma extractEmbedData_discard_rule_witness :
  extractEmbedData (host := plainHost) (Some footerOnlyEmbed) DEFAULT_EXPORT_OPTIONS
  = None /\
  extractEmbedData (host := plainHost) (Some imageOnlyEmbed) withoutImages = None.
Proof.
  split.
  - apply (proj1 (proj2 (proj2
             (extractEmbedData_discard_rule plainHost footerOnlyEmbed
                DEFAULT_EXPORT_OPTIONS)))); reflexivity.
  - apply (proj1 (proj2 (proj2 (proj2
             (extractEmbedData_discard_rule plainHost imageOnlyEmbed withoutImages)))));
      reflexivity.
Defined.

(** C7 as it was stated fails. A block that shows an image, with an
    address, and no title, description or field yields no embed when the
    images are switched off, and yields one with that image when they are
    on; and a block whose title element is there but empty yields none. *)
Lemma extractEmbedData_discard_counterexample :
  (em_imgEl imageOnlyEmbed = Some (sampleImg "https://example.org/i.png") /\
   getFullResolutionImageUrl (host := plainHost) (em_imgEl imageOnlyEmbed)
   = Some "https://example.org/i.png" /\
   extractEmbedData (host := plainHost) (Some imageOnlyEmbed) withoutImages = None /\
   exists embed,
     extractEmbedData (host := plainHost) (Some imageOnlyEmbed) DEFAULT_EXPORT_OPTIONS
     = Some embed /\
     image embed = Some "https://example.org/i.png") /\
  (em_titleEl blankTitleEmbed = Some EmptyString /\
   extractEmbedData (host := plainHost) (Some blankTitleEmbed) DEFAULT_EXPORT_OPTIONS
   = None).
Proof.
  split; [|split; reflexivity].
  split; [reflexivity|]. split; [reflexivity|]. split; [reflexivity|].
  eexists. split; reflexivity.
Qed.

(** C5, amended: for a message element (its avatar wrappers being HTML
    elements), the extractor returns null exactly when four things hold
    together. Its own content element, if it has one, has empty cleaned
    markup. No image is extracted: the images are switched off, or every
    image element of the message is an avatar, an emoji or without an
    address. No embed is kept: every embed block yields none under the
    options. No author is made out: the message shows no username
    element, the cache saw no author last, and none of the ten nearest
    previous siblings shows one. The attachment list is always empty and
    is not consulted. A record that is returned carries the content, the
    images, the embeds and the author so resolved and is not empty in all
    four; and no record that is empty in all four is in the sequence a
    run returns. *)
Theorem extractMessageData_drop_rule :
  forall (host : Host) (messageEl : MsgEl) (options : ExportOptions) (uc : UserCache),
    (fst (extractMessageData (Some messageEl) options uc) = None <->
     (forall el,
         List.find (fun el => negb (ct_inRepliedMessage el) &&
                              negb (ct_inRepliedTextContent el) &&
                              negb (ct_inReplyBar el))
           (el_contentEls (me_view messageEl)) = Some el ->
         processContentForEmoji (ct_innerHTML el) = EmptyString) /\
     (includeImages options = false \/
      Forall (fun img => truthy (getFullResolutionImageUrl (Some img)) = false \/
                         isAvatarImage img = true \/ isEmojiImage img = true)
        (el_imageEls (me_view messageEl))) /\
     Forall (fun embedEl => extractEmbedData (Some embedEl) options = None)
       (el_embedEls (me_view messageEl)) /\
     (findUsernameElement (me_view messageEl) = None /\ lastUsername uc = EmptyString /\
      usernameFromPrevious (me_previous messageEl) 10 = None)) /\
    (forall data,
        fst (extractMessageData (Some messageEl) options uc) = Some data ->
        content data = fst (messageContent (me_view messageEl)) /\
        images data
        = (if includeImages options then extractImages (me_view messageEl) else []) /\
        embeds data = extractEmbeds (me_view messageEl) options /\
        username data = fst (fst (resolveAuthor messageEl uc)) /\
        attachments data = [] /\
        keepsSomething data) /\
    (forall page startFromId endAtId w msgs,
        fst (scrollAndCollectMessages page startFromId endAtId options w) = Normal msgs ->
        Forall keepsSomething msgs).
Proof.
  intros host messageEl options uc. split; [apply extractMessageData_None_iff|]. split.
  - intros data Hsome.
    destruct (extractMessageData_Some _ _ _ _ Hsome) as (_ & Hc & Hi & He & Hu).
    destruct (extractMessageData_record messageEl options uc) as (_ & _ & Hfields).
    destruct (Hfields data Hsome) as (_ & _ & _ & _ & _ & Hatt & _).
    repeat split; try done. by eapply extractMessageData_keeps.
  - intros page startFromId endAtId w msgs Hrun.
    destruct (collected_wf _ _ _ _ _ _ Hrun) as (store & -> & _ & Hok).
    unfold JsMap.values. apply Forall_fmap.
    eapply Forall_impl; [exact Hok|]. by intros [k d] [_ Hkeep].
Qed.

Lemma extractMessageData_drop_rule_witness :
  fst (extractMessageData (host := plainHost) (Some blankMessage) DEFAULT_EXPORT_OPTIONS
         userCache.reset) = None /\
  fst (extractMessageData (host := plainHost) (Some pictureOnlyMessage) withoutImages
         userCache.reset) = None /\
  exists msgs, fst sampleRun = Normal msgs /\ Forall keepsSomething msgs.
Proof.
  split; [|split].
  - apply (proj2 (proj1 (extractMessageData_drop_rule plainHost blankMessage
                           DEFAULT_EXPORT_OPTIONS userCache.reset))).
    split; [done|]. split; [right; constructor|]. split; [constructor|done].
  - apply (proj2 (proj1 (extractMessageData_drop_rule plainHost pictureOnlyMessage
                           withoutImages userCache.reset))).
    split; [done|]. split; [by left|]. split; [constructor|done].
  - eexists. split; [vm_compute; reflexivity|].
    eapply (proj2 (proj2 (extractMessageData_drop_rule plainHost blankMessage
                            DEFAULT_EXPORT_OPTIONS userCache.reset))
              (stillPage sampleChannel) None None freshWorld).
    vm_compute. reflexivity.
Defined.

(** C5 as it was stated fails. A message element that shows two pictures
    and nothing else has an attachment list that is not empty, and the
    extractor returns a record with the two pictures for it under the
    default options; with the images switched off it returns null. *)
Lemma extractMessageData_drop_counterexample :
  map url (extractImages (host := plainHost) (me_view pictureOnlyMessage))
  = ["https://example.org/a.png"; "https://example.org/b.GIF"] /\
  (exists data,
      fst (extractMessageData (host := plainHost) (Some pictureOnlyMessage)
             DEFAULT_EXPORT_OPTIONS userCache.reset) = Some data /\
      map url (images data) = ["https://example.org/a.png"; "https://example.org/b.GIF"]) /\
  fst (extractMessageData (host := plainHost) (Some pictureOnlyMessage) withoutImages
         userCache.reset) = None.
Proof.
  split; [reflexivity|]. split; [|reflexivity].
  eexists. split; reflexivity.
Qed.

(** ** Which record of an id is returned *)

(** C1, amended: the sequence a run returns holds no two records with
    the same id. It lists, in the order of the encounters, the record of
    each id as extracted at the first encounter at which the extractor
    returned a record for it: at every earlier encounter of the id the
    extractor returned null, nothing was stored, and the id was extracted
    again when it was met again; once a record is stored, an element with
    its id is passed over without being extracted, and what the store
    holds after any number of turns stays in place to the end. The
    encounters are the elements the run brings to an extraction site, in
    order. *)
Theorem collected_ids_unique_first_kept :
  forall (host : Host) (page : Page) (startFromId endAtId : JsStr)
         (options : ExportOptions) (w : World) (msgs : list Message),
    fst (scrollAndCollectMessages page startFromId endAtId options w) = Normal msgs ->
    NoDup (map msg_id msgs) /\
    firstKept options (offered startFromId endAtId options page (w_sink w)) msgs /\
    (forall n,
        JsMap.values
          (collectedMessages
             (scan (runLoopFor startFromId endAtId options page n (w_sink w))))
        `prefix_of` msgs) /\
    (forall msgId msgEl st,
        JsMap.has (collectedMessages st) msgId = true ->
        collectMessage options msgId msgEl st = st) /\
    (forall msgId msgEl st,
        JsMap.has (collectedMessages st) msgId = false ->
        fst (extractMessageData (Some msgEl) options (users st)) = None ->
        collectedMessages (collectMessage options msgId msgEl st) = collectedMessages st /\
        users (collectMessage options msgId msgEl st)
        = snd (extractMessageData (Some msgEl) options (users st))).
Proof.
  intros host page startFromId endAtId options w msgs Hrun.
  split; [|split; [|split; [|split]]].
  - destruct (collected_wf _ _ _ _ _ _ Hrun) as (store & -> & Hwf & Hok).
    rewrite values_ids by done. apply (NoDup_fmap_2 Some). exact Hwf.
  - apply scrollAndCollectMessages_Normal in Hrun. subst msgs.
    rewrite run_offered. apply foldl_collectInto_firstKept, offered_listed.
  - intros n. apply scrollAndCollectMessages_Normal in Hrun. subst msgs.
    unfold JsMap.values. apply prefix_of_fmap, StoreGrows_prefix with options.
    eapply StoreGrows_trans; [apply runLoopFor_grows|apply finishCollection_grows].
  - intros msgId msgEl st. apply collectMessage_known.
  - intros msgId msgEl st Hfresh Hnone. unfold collectMessage. rewrite Hfresh.
    cbn [negb].
    destruct (extractMessageData (Some msgEl) options (users st)) as [[data|] uc];
      [done|]. done.
Qed.

Lemma collected_ids_unique_first_kept_witness :
  exists msgs,
    fst (scrollAndCollectMessages (host := plainHost) (stillPage lateAuthorChannel)
           None None DEFAULT_EXPORT_OPTIONS freshWorld) = Normal msgs /\
    map msg_id msgs = [Some "chat-messages-2"; Some "chat-messages-1"] /\
    NoDup (map msg_id msgs) /\
    firstKept (host := plainHost) DEFAULT_EXPORT_OPTIONS
      (offered (host := plainHost) None None DEFAULT_EXPORT_OPTIONS
         (stillPage lateAuthorChannel) [])
      msgs.
Proof.
  eexists. split; [vm_compute; reflexivity|]. split; [reflexivity|].
  pose proof (collected_ids_unique_first_kept plainHost (stillPage lateAuthorChannel)
                None None DEFAULT_EXPORT_OPTIONS freshWorld) as Hrun.
  edestruct Hrun as (Hnd & Hkept & _); [vm_compute; reflexivity|].
  split; [exact Hnd|exact Hkept].
Defined.

(** C1 as it was stated fails. On a page that stays as it is and shows a
    message with nothing of its own (1) before a message of bob (2), the
    first encounter of message 1 is the first extraction of the run, and
    the extractor returns null there; the record returned for the id is
    the one extracted at its second encounter, with bob for its author,
    and it is returned after the record of message 2. *)
Lemma collected_ids_first_encounter_counterexample :
  take 3 (map idOf
            (offered (host := plainHost) None None DEFAULT_EXPORT_OPTIONS
               (stillPage lateAuthorChannel) []))
  = ["chat-messages-1"; "chat-messages-2"; "chat-messages-1"] /\
  extractedAt (host := plainHost) DEFAULT_EXPORT_OPTIONS
    (offered (host := plainHost) None None DEFAULT_EXPORT_OPTIONS
       (stillPage lateAuthorChannel) []) 0 = None /\
  exists m2 m1,
    fst (scrollAndCollectMessages (host := plainHost) (stillPage lateAuthorChannel)
           None None DEFAULT_EXPORT_OPTIONS freshWorld) = Normal [m2; m1] /\
    msg_id m2 = Some "chat-messages-2" /\
    msg_id m1 = Some "chat-messages-1" /\ username m1 = "bob" /\
    extractedAt (host := plainHost) DEFAULT_EXPORT_OPTIONS
      (offered (host := plainHost) None None DEFAULT_EXPORT_OPTIONS
         (stillPage lateAuthorChannel) []) 2 = Some m1.
Proof.
  split; [vm_compute; reflexivity|]. split; [vm_compute; reflexivity|].
  eexists _, _. split; [vm_compute; reflexivity|].
  repeat split; vm_compute; reflexivity.
Qed.
